(* ===== verification/_CoqProject ===== *)
-Q . S2P
Prelude.v
Fifo.v
IntrusiveList.v
RingQueue.v
Waker.v
ParkingLot.v
Semaphore.v
Channel.v
Executor.v
Awaiter.v
Mux.v
Bits.v
Frames.v
TaskStorage.v
Task.v
Nursery.v
OpenNursery.v
ThreadPool.v
Value.v
Shared.v
Sequence.v
TryBlock.v
Explore.v
With.v
CBPortal.v
Adapters.v
Run.v
RefCount.v
Concepts.v
Abortable.v
ErrorPolicy.v
Introspect.v
Lambda.v
Asio.v
