(* ===== verification/Prelude.v ===== *)
(** * A verification of corral

    corral is a header-only C++20 library of coroutines with structured
    concurrency (src/corral/).  It is single-threaded but for the thread pool:
    what makes it hard is not data races but order - who resumes whom, who may
    still touch what, and what happens to a cancellation that arrives at the
    wrong moment.  This development is a shallow embedding of its core: every
    operation is a function from states to [res] of a state, an assertion that
    fails is a value ([Fault]), and the theorems say for every order of events
    that operations succeed and mean what they should.

    ** The parts and the files

    - Containers.  IntrusiveList.v: the doubly linked list of
      detail/IntrusiveList.h, pointer write by pointer write, refined to finite
      sequences.  RingQueue.v: the circular buffer of detail/Queue.h, refined
      to lists; Fifo.v is the interface through which Channel.v uses it.
      RefCount.v: the reference counts of detail/IntrusivePtr.h.
      Bits.v: detail/PointerBits.h, as two fields or in one word.
    - Frames.  Frames.v: the proxy frames of detail/frames.h and the walks
      along their links (stack traces, the innermost exception).  Introspect.v: the
      dumps of the task tree (detail/introspect.h).  TaskStorage.v:
      the tagged word [ValueOrPromise] of detail/TaskAwaiter.h, and [just()].
    - The awaiter protocol.  Awaiter.v: the defaults of detail/utility.h and
      [AwaiterStateChecker], the state machine every awaiter must follow.
      Waker.v: the interface to whatever resumes a coroutine.  Concepts.v: what the
      type of an awaiter promises (concepts.h), for every awaiter class of the library
      and everything that can be put together from them.
    - Running tasks.  Task.v: [BasePromise] (detail/Promise.h) and
      [TaskAwaiter], with the awaiter it waits for seen through the state
      checker.  Executor.v: the executors of a thread (Executor.h), with nested
      executors, [capture()], [markActive()] and destruction while running.
      Run.v: [corral::run()] on top of both (run.h).
    - Waiting for several things.  Mux.v: [anyOf], [mostOf], [allOf]
      (detail/wait.h); Abortable.v: an [anyOf] whose children can be aborted.
      Nursery.v: nurseries, pending starts, [join()] and [asyncClose()] (Nursery.h);
      OpenNursery.v: [openNursery()] and [close()].
      ErrorPolicy.v: how errors are carried in values, and how combiners, nurseries
      and [co_try] pass them on (ErrorPolicy.h).  Shared.v: one operation with
      several parents (Shared.h).
    - Combining.  Sequence.v: one operation after another, its stages and their
      cancellation (detail/Sequence.h).  With.v: one operation in the scope of
      another (detail/With.h).  TryBlock.v: an asynchronous
      try-catch-finally (detail/exception.h).  Adapters.v: awaiters that wrap
      one awaiter (detail/utility.h, utility.h); Lambda.v: lambdas that are awaited;
      Asio.v: operations of asio that are awaited, and its event loop (detail/asio.h).
    - Synchronisation.  ParkingLot.v: parking lots and events (ParkingLot.h,
      Event.h, detail/ParkingLot.h).  Semaphore.v: semaphores and their locks.
      Channel.v: channels with claims.  Value.v: variables that wake tasks.
      CBPortal.v: tasks that wait for a callback (CBPortal.h).
    - Threads.  ThreadPool.v: the lock-free queues between the workers and the
      main thread, as interleaved steps; cancellation tokens.

    Definitions keep the names of the code where Rocq allows it; a name that
    clashes within a file gets a prefix ([mux_], [chan_], [sem_], [s_] for
    [NurseryStartAwaiter], [vp_], [q_]).  A state is a [Record] with the code's
    fields; fields that only the proofs read (logs of what was resumed, where
    an awaiter is in its life) are marked as such in the file.  Addresses are
    positive numbers; [handle] is [Noop] or the frame at an address.

    ** How the parts interact

    A task ([Task.v]) awaits an awaiter, whose calls it makes in the order that
    [Checker] (Awaiter.v) accepts; a mux, a nursery, a shared operation, a
    sequence, a with-scope or a try-block is such an awaiter towards its parent and
    a parent towards its children.  Sequence.v, With.v, TryBlock.v, Shared.v
    and Adapters.v carry the state checkers of both sides, so their theorems say that the protocol
    is respected above if it is respected below ([sequence_is_awaiter]).
    Whatever resumes a coroutine does so through a handle: for a task that is
    [proxyHandle()], which posts to the executor, and Executor.v shows that
    nothing posted runs before the current callback returns
    ([runsoon_does_not_interrupt]).  That is why Semaphore.v and Channel.v may
    take a resumption as an event that is recorded ([WakerSpec]) and happens
    later, while ParkingLot.v, Value.v and Shared.v, whose handles may also
    belong to hand-written awaiters, let the resumed coroutine act on the spot:
    through a [react] function, by cutting the loop that wakes into one step
    per turn, or, for parking lots, with the calls that have yet to return as part of
    the state ([nest]).  In CBPortal.v, where code of the user's calls the library from
    within calls of the library, the stack of pending calls is part of the state.
    Run.v drives the executors of Executor.v, whose trace tells the runner when its
    continuation was resumed, and an event loop of which only the calls of its
    handlers are known.

    Most invariants are found by hand and proved by rule induction.  A with-scope
    has too many states for that and, its values forgotten, finitely many:
    Explore.v enumerates them in the kernel, and a simulation lifts what is
    checked of each to all scopes.

    ** What is shown

    - Safety of use: no operation faults, whatever the order of events, as long
      as callers follow the awaiter protocol ([task_respects_protocol],
      [nursery_never_fails], [pool_never_fails], [shared_never_fails],
      [unparkAll_wakes_snapshot], and in the statements of the others) - and, where the
      code fails for callers that do, the conditions that the theorem's comment lists.
      Combiners: a child that finishes during the start does not come before one that
      can be cancelled early ([startable]).  Nurseries: they are joined while they have a
      task, a pending start ends without a hand-off only while there is one, and a task
      handed off to a cancelled nursery does not end on the spot ([Nursery.enabled]).
      Shared operations, with-scopes: [allowed], [relies_on].  A sequence ends the program if
      the second awaiter throws when it is suspended ([sequence_is_awaiter]).
    - Resumption, under the same conditions: every parent is resumed exactly once, when the last child is
      done ([task_completes_once], [mux_resumes_parent_once],
      [nursery_parent_resumed_once], [shared_same_result]); no wake-up is
      lost ([channel_no_lost_wakeup], [pool_no_lost_wakeup]).
    - Cancellation: a request is never forgotten ([task_cancel_request_sticks]),
      reaches every sibling ([mux_cancels_siblings]) and every task once
      ([nursery_cancels_tasks_once]), the stages of a with-scope in order, unless it comes
      while the second is being made ([with_cancels_in_order]), and only the last parent's reaches
      a shared operation ([shared_cancels_last]).
    - Data: channels, queues and portals are first in, first out and lose nothing
      ([channel_fifo], [ring_queue_refines], [portal_delivers]), and nothing enters a closed
      channel ([channel_write_after_close]); semaphores conserve permits;
      storage round trips ([task_storage_value]), and so do dumps of the task tree, as long
      as no with-scope in its first stage is reached ([task_tree_roundtrip]); every awaiter of a value gets
      a result that satisfies its condition ([value_yields_match]); a try-block
      runs the blocks of, and ends like, a sequential try-catch-finally, except that a
      cancelled catch-all block leaks its exception ([try_block_refines]); a with-scope
      yields what its second stage did, or what went wrong ([with_result]).
    - Types: what is built from valid awaiters compiles exactly if it is [well_formed]
      (among others, the results have one error policy) and is then a valid awaiter,
      with the promises its parts imply ([library_awaiters_valid]); a combiner
      keeps the one that it asserts, if no child finishes while it is started
      ([abortable_mux_keeps_promise]).
    - Errors: whatever the way in which errors are carried, the first one wins and
      reaches the parent ([error_policies_agree]), unless a variable that was never
      initialised reads as an error ([event_initialized]).
    - Memory: counts are exact, and an object goes away with its last pointer
      ([refcount_exact]); the pointer to an opened nursery is null before the nursery
      goes away, under the conditions on nurseries ([openNursery_pointer]).
    - Progress: [executor_runs_to_completion] gives the fuel that suffices for callbacks
      that only call [runSoon()], on one event loop ([well_behaved]); [run_outcome] says
      that [corral::run()] then returns once its awaitable is done, and what it does otherwise;
      the loops of [unparkAll()], [wakeAwaiters()], [invoke()] and the reversal
      in [drainCQ()] are shown not to run out of the fuel their callers give.

    Examples in the files' last sections show states in which the code does not
    behave as intended (double counting in anyOf, a pending start that hangs its
    nursery, a missed change of a value, a shared operation started twice, an
    exception that outlives its cancelled handler, a with-scope whose second
    stage alone confirms a cancellation, an event loop that is stopped without
    having been run, and others); the theorems exclude such
    states by a guard on the events that says so.

    ** Bounds and fuel

    [size_t] and [uintptr_t] are 64 bits wide ([to_word]); counters that count
    objects in memory are unbounded where the theorem does not need the bound.
    Functions that call back into themselves take fuel: the depth of
    [Mux.invoke] is bounded by the number of children plus two, [Executor.run]
    by the weight of what is queued ([enough]), [Value.modify] is shown to fault
    only by running out, for every fuel, because a task may reassign for ever.
    The pool is assumed to have at most 2^22 threads: beyond that the capacity
    of the submission queue, computed in [unsigned], would overflow.

    ** Not modelled

    - Memory orders weaker than sequential consistency (ThreadPool.h), the
      adaptive spin cutoff, and the operating system's threads.
    - Values, where only their way through the library matters: the concepts on
      results ([Awaitable<T, Ret>], but for the cleanup of [untilCancelledAnd()]; the
      chaining of sequences; of types, Concepts.v knows [void], the error policy they name
      and whether they can be copied), detail/Optional.h, the
      wrapping of callables into tasks in Nursery.h.
    - What a woken combiner does inside the loops of Channel.h that wake (its
      [await_resume()] may use the channel there): wake-ups are recorded.
    - A proxy of several callback portals (CBPortal.h), which waits for them
      through an anyOf; [yieldToRun()] and the classes that make awaiters on demand
      (utility.h).
    - The language's own machinery: coroutine frames, destructors as scope guards
      (detail/ScopeGuard.h).
    - What glues asio's types to the library (asio.h), configuration macros and
      forwarding headers. *)
From Stdlib Require Export ZArith.
From stdpp Require Export base numbers list gmap.

(** * Faults and the error monad *)

(** The ways in which a modelled operation can leave the code's defined
    behaviour.  [AssertFailed] is a [CORRAL_ASSERT] whose condition is false,
    [Unreachable] a [CORRAL_ASSERT_UNREACHABLE()], [BadAccess] the use of a
    null pointer or of an object that is not there, [Terminated] an exception
    that leaves a [noexcept] function, and [OutOfFuel] says that the bound given
    to a loop of the model was too small. *)
Inductive fault := AssertFailed | Unreachable | BadAccess | Terminated | OutOfFuel.

#[export] Instance fault_eq_dec : EqDecision fault.
Proof. solve_decision. Defined.

Inductive res (A : Type) := Ok (a : A) | Fault (f : fault).
Arguments Ok {A} a.
Arguments Fault {A} f.

#[export] Instance res_ret : MRet res := fun A a => Ok a.
#[export] Instance res_bind : MBind res := fun A B k m =>
  match m with Ok a => k a | Fault f => Fault f end.
#[export] Instance res_fmap : FMap res := fun A B g m =>
  match m with Ok a => Ok (g a) | Fault f => Fault f end.

Declare Scope corral_scope.
Delimit Scope corral_scope with corral.

(** The library's lemmas for [auto] and [autorewrite]. *)
Create HintDb corral.

(** [CORRAL_ASSERT(b)], then [k]. *)
Definition corral_assert (b : bool) : res unit :=
  if b then Ok () else Fault AssertFailed.

(** Dereferencing something that may be absent. *)
Definition deref {A} (o : option A) : res A :=
  match o with Some a => Ok a | None => Fault BadAccess end.

Definition is_ok {A} (m : res A) : bool :=
  match m with Ok _ => true | Fault _ => false end.

Lemma bind_ok {A B} (m : res A) (k : A -> res B) b :
  m ≫= k = Ok b <-> exists a, m = Ok a /\ k a = Ok b.
Proof. destruct m as [a|f]; cbn; [|naive_solver].
  split; [intros ?; by exists a|intros (? & [= ->] & ?); done]. Qed.

Lemma assert_ok b u : corral_assert b = Ok u <-> b = true.
Proof. destruct b, u; cbn; naive_solver. Qed.

Lemma deref_ok {A} (o : option A) a : deref o = Ok a <-> o = Some a.
Proof. destruct o; cbn; naive_solver. Qed.

(** Splits every hypothesis of the form [m ≫= k = Ok b] and every successful
    assertion or dereference into its parts. *)
Ltac res_step :=
  match goal with
  | H : mbind _ _ = Ok _ |- _ => apply bind_ok in H; destruct H as (? & ? & ?)
  | H : corral_assert _ = Ok _ |- _ => apply assert_ok in H
  | H : deref _ = Ok _ |- _ => apply deref_ok in H
  | H : Ok _ = Ok _ |- _ => injection H as H
  | H : Fault _ = Ok _ |- _ => discriminate H
  | H : Ok _ = Fault _ |- _ => discriminate H
  end.
Ltac res_cbn := cbn [mbind res_bind mret res_ret fmap res_fmap deref corral_assert
  option_bind option_fmap option_map].
Tactic Notation "res_cbn" "in" "*" := cbn [mbind res_bind mret res_ret fmap res_fmap
  deref corral_assert option_bind option_fmap option_map] in *.
Ltac res_inv := repeat (res_step; simplify_eq/=).

(** * Machine integers: [size_t] and [uintptr_t] are 64 bits wide *)

Definition word_bits : Z := 64.
Definition word_max : Z := 2 ^ 64 - 1.
Definition to_word (z : Z) : Z := (z mod 2 ^ 64)%Z.

Lemma to_word_small z : (0 <= z < 2 ^ 64)%Z -> to_word z = z.
Proof. intros; unfold to_word; apply Z.mod_small; lia. Qed.

Lemma to_word_range z : (0 <= to_word z < 2 ^ 64)%Z.
Proof. unfold to_word; apply Z.mod_pos_bound; lia. Qed.

(** * Counting the entries of a map *)

Section Count.
Context `{Countable K} {V : Type} (f : V -> bool).
Implicit Types (m : gmap K V).

Definition weight (o : option V) : Z := match o with Some v => Z.b2z (f v) | None => 0 end.
Definition countZ m : Z := map_fold (fun _ v n => (Z.b2z (f v) + n)%Z) 0%Z m.

Lemma countZ_empty : countZ ∅ = 0%Z.
Proof. done. Qed.
Lemma countZ_insert_new m k v : m !! k = None -> countZ (<[k:=v]> m) = (countZ m + Z.b2z (f v))%Z.
Proof.
  intros Hk. unfold countZ. rewrite map_fold_insert_L; [lia| |done]. intros; lia.
Qed.
Lemma countZ_delete m k : countZ (delete k m) = (countZ m - weight (m !! k))%Z.
Proof.
  unfold weight. destruct (m !! k) as [v|] eqn:Hk.
  - rewrite <- (insert_delete_id m k v Hk) at 2.
    rewrite countZ_insert_new by apply lookup_delete_eq. lia.
  - rewrite delete_id by done. lia.
Qed.
Lemma countZ_insert m k v :
  countZ (<[k:=v]> m) = (countZ m - weight (m !! k) + Z.b2z (f v))%Z.
Proof.
  rewrite <- insert_delete_eq, countZ_insert_new by apply lookup_delete_eq.
  rewrite countZ_delete. lia.
Qed.
Lemma countZ_nonneg m : (0 <= countZ m)%Z.
Proof.
  unfold countZ. apply (map_fold_weak_ind (fun n _ => (0 <= n)%Z)); [lia|].
  intros ? v ? n ? ?. destruct (f v); cbn; lia.
Qed.
Lemma countZ_weight_le m k : (weight (m !! k) <= countZ m)%Z.
Proof. pose proof (countZ_nonneg (delete k m)) as Hn. rewrite countZ_delete in Hn. lia. Qed.
Lemma countZ_le_size m : (countZ m <= Z.of_nat (size m))%Z.
Proof.
  induction m as [|k v m Hk IH] using map_ind; [done|].
  rewrite countZ_insert_new, map_size_insert_None by done. destruct (f v); cbn; lia.
Qed.
Lemma countZ_ext m1 m2 : (forall k, weight (m1 !! k) = weight (m2 !! k)) -> countZ m1 = countZ m2.
Proof.
  revert m2. induction m1 as [|k v m1 Hk IH] using map_ind; intros m2 He.
  - rewrite countZ_empty. induction m2 as [|k v m2 Hk IH] using map_ind; [done|].
    rewrite countZ_insert_new by done.
    rewrite <- IH.
    + specialize (He k). rewrite lookup_empty, lookup_insert_eq in He. cbn in He. lia.
    + intros j. specialize (He j). destruct (decide (j = k)) as [->|Hj]; [by rewrite Hk|].
      by rewrite lookup_insert_ne in He.
  - rewrite countZ_insert_new by done. rewrite (IH (delete k m2)).
    + rewrite countZ_delete, <- He, lookup_insert_eq. cbn. lia.
    + intros j. destruct (decide (j = k)) as [->|Hj]; [by rewrite Hk, lookup_delete_eq|].
      rewrite lookup_delete_ne, <- He, lookup_insert_ne by done. done.
Qed.
End Count.

Lemma countZ_size `{Countable K} {V} (m : gmap K V) : countZ (fun _ => true) m = Z.of_nat (size m).
Proof.
  induction m as [|k v m Hk IH] using map_ind; [done|].
  rewrite countZ_insert_new, map_size_insert_None by done. cbn. lia.
Qed.

(** * Summing over a map *)

Section Sum.
Context `{Countable K} {V : Type} (f : V -> nat).
Implicit Types (m : gmap K V).

Definition at_ (o : option V) : nat := match o with Some v => f v | None => 0 end.
Definition msum m : nat := map_fold (fun _ v n => f v + n) 0 m.

Lemma msum_insert_new m k v : m !! k = None -> msum (<[k:=v]> m) = f v + msum m.
Proof. intros Hk. unfold msum. rewrite map_fold_insert_L; [done| |done]. intros; lia. Qed.
Lemma msum_delete m k : msum (delete k m) + at_ (m !! k) = msum m.
Proof.
  unfold at_. destruct (m !! k) as [v|] eqn:Hk.
  - rewrite <- (insert_delete_id m k v Hk) at 2.
    rewrite msum_insert_new by apply lookup_delete_eq. lia.
  - rewrite delete_id by done. lia.
Qed.
Lemma msum_insert m k v : msum (<[k:=v]> m) + at_ (m !! k) = msum m + f v.
Proof.
  rewrite <- insert_delete_eq, msum_insert_new by apply lookup_delete_eq.
  pose proof (msum_delete m k). lia.
Qed.
Lemma msum_le m k v : m !! k = Some v -> f v <= msum m.
Proof. intros Hk. pose proof (msum_delete m k) as Hm. rewrite Hk in Hm. cbn in Hm. lia. Qed.
End Sum.
