(* ===== verification/Fifo.v ===== *)
(** The interface between a component that buffers values and its buffer: what
    [Channel.h] and [Executor.h] rely on in [detail/Queue.h].

    [fifo_rep q l] says that the buffer [q] holds the values [l], oldest first.
    [RingQueue.v] discharges the laws for the ring buffer. *)
From S2P Require Export Prelude.

Class FifoOps (A Q : Type) := {
  fifo_new : nat -> Q;
  fifo_size : Q -> nat;
  fifo_capacity : Q -> nat;
  fifo_empty : Q -> bool;
  fifo_front : Q -> res A;
  fifo_pop_front : Q -> res Q;
  fifo_push_back : A -> Q -> res Q;
  fifo_append : list A -> Q -> res Q;
  fifo_pop_front_to : nat -> Q -> res (list A * nat * Q);
  fifo_rep : Q -> list A -> Prop }.

Class Fifo (A Q : Type) `{!FifoOps A Q} := {
  fifo_new_rep cap : fifo_rep (fifo_new cap) [] /\ fifo_capacity (fifo_new cap) = cap;
  fifo_size_rep q l : fifo_rep q l ->
    fifo_size q = length l /\ length l <= fifo_capacity q /\ fifo_empty q = bool_decide (l = []);
  fifo_front_rep q v l : fifo_rep q (v :: l) -> fifo_front q = Ok v;
  fifo_pop_front_rep q v l : fifo_rep q (v :: l) ->
    exists q', fifo_pop_front q = Ok q' /\ fifo_rep q' l /\ fifo_capacity q' = fifo_capacity q;
  fifo_push_back_rep q v l : fifo_rep q l ->
    exists q', fifo_push_back v q = Ok q' /\ fifo_rep q' (l ++ [v]) /\
      (length l < fifo_capacity q -> fifo_capacity q' = fifo_capacity q);
  fifo_append_rep q vs l : fifo_rep q l ->
    exists q', fifo_append vs q = Ok q' /\ fifo_rep q' (l ++ vs) /\
      (length l + length vs <= fifo_capacity q -> fifo_capacity q' = fifo_capacity q);
  fifo_pop_front_to_rep q n l : fifo_rep q l -> n <= length l ->
    exists q', fifo_pop_front_to n q = Ok (take n l, n, q') /\ fifo_rep q' (drop n l) /\
      fifo_capacity q' = fifo_capacity q }.
