(* ===== verification/IntrusiveList.v ===== *)
(** The pointer-level model of [detail/IntrusiveList.h].

    A heap maps the address of a hook ([IntrusiveListItem]) to its [next_] and
    [prev_] pointers; a list head is a hook like any other.  The operations are
    the header's, pointer write by pointer write.  [ring h l xs] says that the
    hooks of [h] reachable from the head [l] form the circular list of the
    items [xs]; [repr h S] says this of a whole store of lists.  The store-level
    functions [sp_*] are what the rest of the library relies on: the components
    that park awaiters model a list by the Rocq list of its items. *)
From S2P Require Export Prelude.

(** * Hooks and heaps *)

Abbreviation loc := positive.

Record hook := Hook { next_ : option loc; prev_ : option loc }.

#[export] Instance hook_eq_dec : EqDecision hook.
Proof. solve_decision. Defined.

Abbreviation heap := (gmap loc hook).

(** An item that is in no list: [next_ = prev_ = nullptr]. *)
Definition null_hook : hook := Hook None None.

Definition next_of (h : heap) (a : loc) : option loc := h !! a ≫= next_.
Definition prev_of (h : heap) (a : loc) : option loc := h !! a ≫= prev_.

Definition load_next (p : option loc) (h : heap) : res (option loc) :=
  a ← deref p; k ← deref (h !! a); Ok (next_ k).
Definition load_prev (p : option loc) (h : heap) : res (option loc) :=
  a ← deref p; k ← deref (h !! a); Ok (prev_ k).
Definition store_next (p v : option loc) (h : heap) : res heap :=
  a ← deref p; k ← deref (h !! a); Ok (<[a := Hook v (prev_ k)]> h).
Definition store_prev (p v : option loc) (h : heap) : res heap :=
  a ← deref p; k ← deref (h !! a); Ok (<[a := Hook (next_ k) v]> h).

(** * The operations *)

Definition is_linked (k : hook) : bool :=
  bool_decide (is_Some (next_ k)) && bool_decide (is_Some (prev_ k)).

(** [IntrusiveListItem::unlink()] *)
Definition unlink (x : loc) (h : heap) : res heap :=
  k ← deref (h !! x);
  h ← (if is_linked k then
         n ← load_next (Some x) h; p ← load_prev (Some x) h;
         h ← store_prev n p h;
         n ← load_next (Some x) h; p ← load_prev (Some x) h;
         store_next p n h
       else Ok h);
  h ← store_prev (Some x) None h;
  store_next (Some x) None h.

(** The constructor of [IntrusiveListItem] and the destructor of an item. *)
Definition new_item (x : loc) (h : heap) : heap := <[x := null_hook]> h.
Definition destroy_item (x : loc) (h : heap) : res heap :=
  h ← unlink x h; Ok (delete x h).

(** [IntrusiveList()] *)
Definition new_list (l : loc) (h : heap) : heap := <[l := Hook (Some l) (Some l)]> h.

(** [IntrusiveList::empty()] *)
Definition list_empty (l : loc) (h : heap) : res bool :=
  n ← load_next (Some l) h; Ok (bool_decide (n = Some l)).

(** [IntrusiveList(IntrusiveList&&)] *)
Definition move_list (l rhs : loc) (h : heap) : res heap :=
  e ← list_empty rhs h;
  if (e : bool) then Ok (new_list l h)
  else
    n ← load_next (Some rhs) h; h ← store_next (Some rhs) (Some rhs) h;
    p ← load_prev (Some rhs) h; h ← store_prev (Some rhs) (Some rhs) h;
    let h := <[l := Hook n p]> h in
    p ← load_prev (Some l) h; h ← store_next p (Some l) h;
    n ← load_next (Some l) h; store_prev n (Some l) h.

(** [IntrusiveList::contains_one_item()] *)
Definition contains_one_item (l : loc) (h : heap) : res bool :=
  e ← list_empty l h;
  if (e : bool) then Ok false
  else n ← load_next (Some l) h; nn ← load_next n h; Ok (bool_decide (nn = Some l)).

(** [IntrusiveList::front()], [pop_front()] and [erase()] *)
Definition list_front (l : loc) (h : heap) : res loc :=
  n ← load_next (Some l) h; deref n.
Definition pop_front (l : loc) (h : heap) : res heap :=
  n ← load_next (Some l) h; x ← deref n; unlink x h.
Definition erase (x : loc) (h : heap) : res heap := unlink x h.

(** [IntrusiveList::push_back()] *)
Definition push_back (l x : loc) (h : heap) : res heap :=
  h ← unlink x h;
  h ← store_next (Some x) (Some l) h;
  p ← load_prev (Some l) h; h ← store_prev (Some x) p h;
  p ← load_prev (Some l) h; h ← store_next p (Some x) h;
  store_prev (Some l) (Some x) h.

(** [IntrusiveList::clear()]: the loop runs at most [fuel] times. *)
Fixpoint clear (fuel : nat) (l : loc) (h : heap) : res heap :=
  e ← list_empty l h;
  if (e : bool) then Ok h
  else match fuel with
       | O => Fault OutOfFuel
       | S fuel => h ← pop_front l h; clear fuel l h
       end.

(** [IntrusiveIterator]: walking from [begin()] ([ptr]) with [++] to [end()]. *)
Fixpoint iterate (fuel : nat) (l : loc) (ptr : option loc) (h : heap) : res (list loc) :=
  if bool_decide (ptr = Some l) then Ok []
  else match fuel with
       | O => Fault OutOfFuel
       | S fuel => x ← deref ptr; n ← load_next ptr h;
                   xs ← iterate fuel l n h; Ok (x :: xs)
       end.
Definition items (fuel : nat) (l : loc) (h : heap) : res (list loc) :=
  n ← load_next (Some l) h; iterate fuel l n h.

(** * The representation of one list *)

Definition link (h : heap) (a b : loc) : Prop :=
  next_of h a = Some b /\ prev_of h b = Some a.

Definition ring (h : heap) (l : loc) (xs : list loc) : Prop :=
  NoDup (l :: xs) /\ Forall2 (link h) (l :: xs) (xs ++ [l]).

(** * Basic facts on loads and stores *)

Lemma next_of_Some h a b : next_of h a = Some b -> is_Some (h !! a).
Proof. unfold next_of. destruct (h !! a); naive_solver. Qed.
Lemma prev_of_Some h a b : prev_of h a = Some b -> is_Some (h !! a).
Proof. unfold prev_of. destruct (h !! a); naive_solver. Qed.
#[export] Hint Resolve next_of_Some prev_of_Some : corral.

Lemma load_next_of h a b : next_of h a = Some b -> load_next (Some a) h = Ok (Some b).
Proof. unfold next_of, load_next; res_cbn. destruct (h !! a); res_cbn; congruence. Qed.
Lemma load_prev_of h a b : prev_of h a = Some b -> load_prev (Some a) h = Ok (Some b).
Proof. unfold prev_of, load_prev; res_cbn. destruct (h !! a); res_cbn; congruence. Qed.

Lemma store_next_eq h a v k :
  h !! a = Some k -> store_next (Some a) v h = Ok (<[a := Hook v (prev_ k)]> h).
Proof. intros E; unfold store_next; res_cbn. by rewrite E. Qed.
Lemma store_prev_eq h a v k :
  h !! a = Some k -> store_prev (Some a) v h = Ok (<[a := Hook (next_ k) v]> h).
Proof. intros E; unfold store_prev; res_cbn. by rewrite E. Qed.

Lemma next_of_insert h a k b :
  next_of (<[a := k]> h) b = if decide (a = b) then next_ k else next_of h b.
Proof. unfold next_of. rewrite lookup_insert. by case_decide. Qed.
Lemma prev_of_insert h a k b :
  prev_of (<[a := k]> h) b = if decide (a = b) then prev_ k else prev_of h b.
Proof. unfold prev_of. rewrite lookup_insert. by case_decide. Qed.

(** Symbolic execution of loads and stores on a heap of insertions. *)
Ltac heap_run :=
  unfold load_next, load_prev, store_next, store_prev; res_cbn;
  repeat (simplify_map_eq; res_cbn).

Section Unlink.
Context (h : heap) (x n p : loc).
Hypothesis Hx : h !! x = Some (Hook (Some n) (Some p)).
Hypothesis Hnx : n <> x.
Hypothesis Hpx : p <> x.

Lemma unlink_run :
  is_Some (h !! n) -> is_Some (h !! p) ->
  exists h', unlink x h = Ok h' /\ h' !! x = Some null_hook /\
    (forall b, b <> x -> next_of h' b = if decide (b = p) then Some n else next_of h b) /\
    (forall b, b <> x -> prev_of h' b = if decide (b = n) then Some p else prev_of h b) /\
    (forall b, b <> x -> b <> p -> b <> n -> h' !! b = h !! b).
Proof using All.
  intros [kn Hn] [kp Hp]. unfold unlink. rewrite Hx. res_cbn. simpl.
  destruct (decide (n = p)) as [<-|Hne]; heap_run; eexists; (split; [done|]);
    (split; [by simplify_map_eq|]); unfold next_of, prev_of.
  - repeat split; intros b ?; destruct (decide (b = n)); intros; by simplify_map_eq.
  - repeat split; intros b ?; destruct (decide (b = n)), (decide (b = p)); intros;
      by simplify_map_eq.
Qed.
End Unlink.

(** * One list *)

Lemma list_nonempty_last {A} (x : A) (xs : list A) : exists init z, x :: xs = init ++ [z].
Proof.
  induction xs as [|y ys _] using rev_ind; [by exists [], x|]. by exists (x :: ys), y.
Qed.

Lemma ring_head_next h l xs : ring h l xs -> next_of h l = head (xs ++ [l]).
Proof. intros [_ H]. destruct xs; inversion H as [|?? ?? [??]]; naive_solver. Qed.

(** A run of links survives a change of the heap that leaves its [next_]
    sources and [prev_] targets alone. *)
Lemma links_frame h h' (xs ys : list loc) :
  (forall a, a ∈ xs -> next_of h' a = next_of h a) ->
  (forall b, b ∈ ys -> prev_of h' b = prev_of h b) ->
  Forall2 (link h) xs ys -> Forall2 (link h') xs ys.
Proof.
  intros Hn Hp H. induction H as [|a b xs ys [??] H IH]; constructor; unfold link.
  - rewrite Hn, Hp by set_solver. done.
  - apply IH; set_solver.
Qed.

Lemma ring_frame h h' l xs :
  (forall b, b ∈ l :: xs -> h' !! b = h !! b) -> ring h l xs -> ring h' l xs.
Proof.
  intros Heq [Hnd H]. split; [done|]. eapply links_frame, H; intros a Ha;
    unfold next_of, prev_of; by rewrite Heq by set_solver.
Qed.

Lemma snoc_head {A} (xs : list A) l : exists n ys, xs ++ [l] = n :: ys.
Proof. destruct xs; eauto. Qed.

(** The links around a member [x] of a list: it lies between a predecessor [p]
    and a successor [n], and the rest is two runs that do not mention [x]. *)
Lemma ring_around h l xs1 x xs2 :
  ring h l (xs1 ++ x :: xs2) ->
  exists A p n B, l :: xs1 = A ++ [p] /\ xs2 ++ [l] = n :: B /\
    NoDup (A ++ p :: x :: xs2) /\ NoDup (xs1 ++ x :: n :: B) /\
    Forall2 (link h) A xs1 /\ link h p x /\ link h x n /\ Forall2 (link h) xs2 B.
Proof.
  intros [Hnd H]. destruct (list_nonempty_last l xs1) as (A & p & EA).
  destruct (snoc_head xs2 l) as (n & B & EB). exists A, p, n, B.
  assert (E1 : l :: xs1 ++ x :: xs2 = A ++ p :: x :: xs2)
    by (rewrite app_comm_cons, EA, <-app_assoc; done).
  assert (E2 : (xs1 ++ x :: xs2) ++ [l] = xs1 ++ x :: n :: B)
    by (rewrite <-app_assoc; cbn; by rewrite EB).
  assert (length A = length xs1)
    by (apply (f_equal length) in EA; rewrite length_app in EA; cbn in EA; lia).
  rewrite E1, E2 in H. apply Forall2_app_inv in H as [HA H]; [|done].
  inversion_clear H as [|???? Hp H']. inversion_clear H' as [|???? Hx HB].
  repeat split; try done; try apply Hp; try apply Hx.
  - by rewrite <-E1.
  - rewrite <-E2. by rewrite (Permutation_app_comm _ [l]).
Qed.

Lemma ring_unlink h l xs1 x xs2 :
  ring h l (xs1 ++ x :: xs2) ->
  exists h', unlink x h = Ok h' /\ ring h' l (xs1 ++ xs2) /\ h' !! x = Some null_hook /\
    forall b, b ∉ l :: xs1 ++ x :: xs2 -> h' !! b = h !! b.
Proof.
  intros Hr. pose proof Hr as [Hnd _].
  destruct (ring_around _ _ _ _ _ Hr)
    as (A & p & n & B & EA & EB & HndA & HndB & HA & [Hp1 Hp2] & [Hn1 Hn2] & HB).
  apply NoDup_app in HndA as (HA1 & HA2 & HA3). apply NoDup_app in HndB as (HB1 & HB2 & HB3).
  apply NoDup_cons in HA3 as [HA3 HA4]. apply NoDup_cons in HB3 as [HB3 HB4].
  apply NoDup_cons in HA4 as [HA4 HA5]. apply NoDup_cons in HB4 as [HB4 HB5].
  assert (Hx : h !! x = Some (Hook (Some n) (Some p))).
  { unfold next_of, prev_of in *. destruct (h !! x) as [[]|]; naive_solver. }
  destruct (unlink_run h x n p Hx) as (h' & Hrun & Hnull & Hnext & Hprev & Hframe);
    [set_solver|set_solver|eauto with corral|eauto with corral|].
  exists h'. split; [done|]. split; [|split; [done|]].
  - split.
    + eapply sublist_NoDup; [exact Hnd|].
      apply sublist_skip, sublist_app; [reflexivity|by apply sublist_cons].
    + assert (E1 : l :: xs1 ++ xs2 = A ++ p :: xs2)
        by (rewrite app_comm_cons, EA, <-app_assoc; done).
      rewrite E1, <-app_assoc, EB. apply Forall2_app; [|constructor].
      * eapply links_frame, HA; intros a ?; [rewrite Hnext|rewrite Hprev];
          rewrite ?decide_False; set_solver.
      * split; [rewrite Hnext|rewrite Hprev]; rewrite ?decide_True; set_solver.
      * eapply links_frame, HB; intros a ?; [rewrite Hnext|rewrite Hprev];
          rewrite ?decide_False; set_solver.
  - intros b Hb. apply Hframe; [set_solver| |].
    + intros ->. apply Hb. assert (p ∈ l :: xs1) by (rewrite EA; set_solver). set_solver.
    + intros ->. apply Hb. assert (n ∈ xs2 ++ [l]) by (rewrite EB; set_solver). set_solver.
Qed.

Lemma unlink_null h x : h !! x = Some null_hook -> unlink x h = Ok h.
Proof.
  intros Hx. unfold unlink. rewrite Hx. res_cbn. simpl. heap_run.
  by rewrite insert_insert_eq, insert_id.
Qed.

Section Append.
Context (h : heap) (l x p : loc).
Hypothesis Hx : h !! x = Some null_hook.
Hypothesis Hl : prev_of h l = Some p.
Hypothesis Hlx : l <> x.
Hypothesis Hpx : p <> x.

Lemma push_back_run :
  is_Some (h !! p) ->
  exists h', push_back l x h = Ok h' /\ h' !! x = Some (Hook (Some l) (Some p)) /\
    (forall b, b <> x -> next_of h' b = if decide (b = p) then Some x else next_of h b) /\
    (forall b, b <> x -> prev_of h' b = if decide (b = l) then Some x else prev_of h b) /\
    (forall b, b <> x -> b <> p -> b <> l -> h' !! b = h !! b).
Proof using All.
  intros [kp Hp]. unfold push_back. rewrite unlink_null by done. res_cbn.
  unfold prev_of in Hl. destruct (h !! l) as [[nl pl]|] eqn:Hl'; [|done].
  cbn in Hl. subst pl.
  destruct (decide (l = p)) as [<-|Hne]; heap_run; eexists; (split; [done|]);
    (split; [by simplify_map_eq|]); unfold next_of, prev_of.
  - repeat split; intros b ?; destruct (decide (b = l)); intros; by simplify_map_eq.
  - repeat split; intros b ?; destruct (decide (b = l)), (decide (b = p)); intros;
      by simplify_map_eq.
Qed.
End Append.

Lemma ring_push_back h l xs x :
  ring h l xs -> h !! x = Some null_hook -> x ∉ l :: xs ->
  exists h', push_back l x h = Ok h' /\ ring h' l (xs ++ [x]) /\
    forall b, b ∉ l :: xs ++ [x] -> h' !! b = h !! b.
Proof.
  intros [Hnd H] Hx Hnin. destruct (list_nonempty_last l xs) as (A & p & EA).
  assert (length A = length xs)
    by (apply (f_equal length) in EA; rewrite length_app in EA; cbn in EA; lia).
  rewrite EA in H. apply Forall2_app_inv in H as [HA H]; [|done].
  inversion_clear H as [|???? [Hp1 Hp2] _].
  assert (HndA : NoDup (A ++ [p])) by by rewrite <-EA.
  apply NoDup_app in HndA as (_ & HApA & _). apply NoDup_cons in Hnd as [Hlx Hndx].
  assert (Hpin : p ∈ l :: xs) by (rewrite EA; set_solver).
  destruct (push_back_run h l x p) as (h' & Hrun & Hxx & Hnext & Hprev & Hframe);
    [done|done|set_solver|congruence|eauto with corral|].
  exists h'. split; [done|]. split; [split|].
  - rewrite app_comm_cons, NoDup_app. split; [by apply NoDup_cons|].
    split; [set_solver|apply NoDup_singleton].
  - rewrite app_comm_cons, EA, <-!app_assoc. apply Forall2_app; [|constructor].
    + assert (forall a, a ∈ A -> a ∈ l :: xs) by (intros; rewrite EA; set_solver).
      eapply links_frame, HA; intros a ?; [rewrite Hnext|rewrite Hprev];
        rewrite ?decide_False; set_solver.
    + split; [rewrite Hnext by congruence; by rewrite decide_True|].
      unfold prev_of. by rewrite Hxx.
    + constructor; [|constructor]. split; [unfold next_of; by rewrite Hxx|].
      rewrite Hprev by set_solver. by rewrite decide_True.
  - intros b Hb. apply Hframe; set_solver.
Qed.

Section Move.
Context (h : heap) (l rhs n p : loc).
Hypothesis Hrhs : h !! rhs = Some (Hook (Some n) (Some p)).
Hypothesis Hdiff : n <> rhs /\ p <> rhs /\ l <> rhs /\ n <> l /\ p <> l.

Lemma move_list_run :
  is_Some (h !! n) -> is_Some (h !! p) ->
  exists h', move_list l rhs h = Ok h' /\
    h' !! l = Some (Hook (Some n) (Some p)) /\ h' !! rhs = Some (Hook (Some rhs) (Some rhs)) /\
    (forall b, b <> l -> b <> rhs ->
      next_of h' b = if decide (b = p) then Some l else next_of h b) /\
    (forall b, b <> l -> b <> rhs ->
      prev_of h' b = if decide (b = n) then Some l else prev_of h b) /\
    (forall b, b <> l -> b <> rhs -> b <> p -> b <> n -> h' !! b = h !! b).
Proof using All.
  destruct Hdiff as (? & ? & ? & ? & ?). intros [kn Hn] [kp Hp].
  assert (He : list_empty rhs h = Ok false).
  { unfold list_empty. heap_run. by rewrite bool_decide_eq_false_2 by congruence. }
  unfold move_list. rewrite He. res_cbn.
  destruct (decide (n = p)) as [<-|Hne]; heap_run; eexists; (split; [done|]);
    (split; [by simplify_map_eq|]); (split; [by simplify_map_eq|]);
    unfold next_of, prev_of.
  - repeat split; intros b ??; destruct (decide (b = n)); intros; by simplify_map_eq.
  - repeat split; intros b ??; destruct (decide (b = n)), (decide (b = p)); intros;
      by simplify_map_eq.
Qed.
End Move.

Lemma ring_new h l : ring (new_list l h) l [].
Proof.
  split; [apply NoDup_singleton|]. constructor; [|constructor].
  unfold link, next_of, prev_of, new_list. by simplify_map_eq.
Qed.

Lemma ring_lookup h l xs : ring h l xs -> is_Some (h !! l).
Proof. intros [_ H]. inversion H as [|???? []]; eauto with corral. Qed.

Lemma ring_member h l xs x : ring h l xs -> x ∈ xs -> is_Some (h !! x).
Proof.
  intros Hr [xs1 [xs2 ->]]%list_elem_of_split.
  destruct (ring_around _ _ _ _ _ Hr) as (?&?&?&?&?&?&?&?&?&[]&[]&?); eauto with corral.
Qed.

Lemma ring_ends h l x xs :
  ring h l (x :: xs) -> exists p A, x :: xs = A ++ [p] /\ h !! l = Some (Hook (Some x) (Some p)) /\
    Forall2 (link h) A xs.
Proof.
  intros [Hnd H]. destruct (list_nonempty_last x xs) as (A & p & EA). exists p, A.
  split; [done|]. cbn in H. rewrite EA in H. inversion_clear H as [|???? [Hn ?] H'].
  assert (length A = length xs)
    by (apply (f_equal length) in EA; rewrite length_app in EA; cbn in EA; lia).
  apply Forall2_app_inv in H' as [HA H']; [|done].
  inversion_clear H' as [|???? [? Hp] _]. split; [|done].
  unfold next_of, prev_of in *. destruct (h !! l) as [[]|]; naive_solver.
Qed.

Lemma ring_move h l rhs xs :
  ring h rhs xs -> l ∉ rhs :: xs ->
  exists h', move_list l rhs h = Ok h' /\ ring h' l xs /\ ring h' rhs [] /\
    forall b, b ∉ l :: rhs :: xs -> h' !! b = h !! b.
Proof.
  intros Hr Hl. pose proof Hr as [Hnd _]. destruct xs as [|x xs].
  { pose proof (ring_head_next _ _ _ Hr) as Hn. cbn in Hn. exists (new_list l h).
    split; [|split; [apply ring_new|split]].
    - unfold move_list, list_empty. rewrite (load_next_of _ _ _ Hn). res_cbn.
      by rewrite bool_decide_eq_true_2.
    - eapply ring_frame, Hr. intros b Hb. unfold new_list. by rewrite lookup_insert_ne by set_solver.
    - intros b Hb. unfold new_list. by rewrite lookup_insert_ne by set_solver. }
  destruct (ring_ends _ _ _ _ Hr) as (p & A & EA & Hrhs & HA).
  assert (Hp : p ∈ x :: xs) by (rewrite EA; set_solver).
  assert (HndA : NoDup (A ++ [p])) by (rewrite <-EA; by apply NoDup_cons_1_2 in Hnd).
  apply NoDup_app in HndA as (_ & HApA & _).
  assert (HAin : forall a, a ∈ A -> a ∈ x :: xs) by (intros; rewrite EA; set_solver).
  apply NoDup_cons in Hnd as [Hrn Hndx]. pose proof Hndx as [Hxn _]%NoDup_cons.
  destruct (move_list_run h l rhs x p Hrhs) as (h' & Hrun & Hll & Hrr & Hnext & Hprev & Hframe);
    [repeat split; set_solver|eapply ring_member; [exact Hr|set_solver]..|].
  exists h'. split; [done|]. split; [split; [apply NoDup_cons; set_solver|]|split].
  - cbn. constructor.
    { split; [unfold next_of; by rewrite Hll|]. rewrite Hprev by set_solver. by rewrite decide_True. }
    rewrite EA. apply Forall2_app; [|constructor; [|constructor]].
    + eapply links_frame, HA; intros a ?; [rewrite Hnext|rewrite Hprev];
        rewrite ?decide_False; set_solver.
    + split; [rewrite Hnext by set_solver; by rewrite decide_True|].
      unfold prev_of. by rewrite Hll.
  - split; [apply NoDup_singleton|]. constructor; [|constructor].
    unfold link, next_of, prev_of. by rewrite Hrr.
  - intros b Hb. apply Hframe; set_solver.
Qed.

(** * A store of lists and its abstract specification *)

(** The mutating operations of the header, as data. *)
Inductive lop :=
  | NewItem (x : loc) | DestroyItem (x : loc) | NewList (l : loc)
  | PushBack (l x : loc) | Unlink (x : loc) | PopFront (l : loc)
  | MoveList (l rhs : loc) | Clear (l : loc).

Definition lstep (op : lop) (h : heap) : res heap :=
  match op with
  | NewItem x => Ok (new_item x h)
  | DestroyItem x => destroy_item x h
  | NewList l => Ok (new_list l h)
  | PushBack l x => push_back l x h
  | Unlink x => erase x h
  | PopFront l => pop_front l h
  | MoveList l rhs => move_list l rhs h
  | Clear l => clear (size h) l h
  end.

(** The specification: every list head has its sequence of items, and the items
    that exist are a set.  An item stands in at most one list. *)
Record lstore := LStore { lists : gmap loc (list loc); pool : gset loc }.

Definition sp_remove (x : loc) (L : gmap loc (list loc)) : gmap loc (list loc) :=
  filter (fun y => y <> x) <$> L.
Definition sp_unlink (x : loc) (s : lstore) : lstore :=
  LStore (sp_remove x (lists s)) (pool s).

(** [None] where the caller breaks the header's contract (a null reference, the
    address of a live object for a new one, [front()] of an empty list). *)
Definition sp_step (op : lop) (s : lstore) : option lstore :=
  match op with
  | NewItem x => guard (x ∉ pool s /\ lists s !! x = None);;
                 Some (LStore (lists s) ({[x]} ∪ pool s))
  | DestroyItem x => guard (x ∈ pool s);;
                     Some (LStore (sp_remove x (lists s)) (pool s ∖ {[x]}))
  | NewList l => guard (l ∉ pool s /\ lists s !! l = None);;
                 Some (LStore (<[l := []]> (lists s)) (pool s))
  | PushBack l x => guard (x ∈ pool s);;
                    xs ← sp_remove x (lists s) !! l;
                    Some (LStore (<[l := xs ++ [x]]> (sp_remove x (lists s))) (pool s))
  | Unlink x => guard (x ∈ pool s);; Some (sp_unlink x s)
  | PopFront l => xs ← lists s !! l; x ← head xs; Some (sp_unlink x s)
  | MoveList l rhs => guard (l ∉ pool s /\ lists s !! l = None);;
                      xs ← lists s !! rhs;
                      Some (LStore (<[l := xs]> (<[rhs := []]> (lists s))) (pool s))
  | Clear l => guard (is_Some (lists s !! l));;
               Some (LStore (<[l := []]> (lists s)) (pool s))
  end.

Fixpoint lrun (ops : list lop) (h : heap) : res heap :=
  match ops with [] => Ok h | op :: ops => h ← lstep op h; lrun ops h end.
Fixpoint sp_run (ops : list lop) (s : lstore) : option lstore :=
  match ops with [] => Some s | op :: ops => s ← sp_step op s; sp_run ops s end.

(** The heap [h] implements the store [s]. *)
Record repr (h : heap) (s : lstore) : Prop := {
  repr_ring l xs : lists s !! l = Some xs -> ring h l xs;
  repr_pool l xs x : lists s !! l = Some xs -> x ∈ xs -> x ∈ pool s;
  repr_once l1 l2 xs1 xs2 x :
    lists s !! l1 = Some xs1 -> lists s !! l2 = Some xs2 -> x ∈ xs1 -> x ∈ xs2 -> l1 = l2;
  repr_heads l : is_Some (lists s !! l) -> l ∉ pool s;
  repr_loose x : x ∈ pool s -> (forall l xs, lists s !! l = Some xs -> x ∉ xs) ->
                 h !! x = Some null_hook;
}.

Lemma filter_ne_notin (x : loc) (xs : list loc) : x ∉ xs -> filter (fun y => y <> x) xs = xs.
Proof.
  intros H. induction xs as [|y xs IH]; [done|].
  rewrite filter_cons_True by set_solver. f_equal. apply IH. set_solver.
Qed.

Lemma filter_ne_split (x : loc) (xs1 xs2 : list loc) :
  x ∉ xs1 -> x ∉ xs2 -> filter (fun y => y <> x) (xs1 ++ x :: xs2) = xs1 ++ xs2.
Proof.
  intros. rewrite filter_app, filter_cons_False by naive_solver.
  by rewrite !filter_ne_notin.
Qed.

Lemma sp_remove_Some x L l ys :
  sp_remove x L !! l = Some ys <->
  exists xs, L !! l = Some xs /\ ys = filter (fun y => y <> x) xs.
Proof. unfold sp_remove. rewrite lookup_fmap. destruct (L !! l); cbn; naive_solver. Qed.

Section Repr.
Context (h : heap) (s : lstore) (Hr : repr h s).

(** Two different lists share neither items nor heads. *)
Lemma repr_disjoint l1 l2 xs1 xs2 b :
  lists s !! l1 = Some xs1 -> lists s !! l2 = Some xs2 -> l1 <> l2 ->
  b ∈ l1 :: xs1 -> b ∉ l2 :: xs2.
Proof using Hr.
  intros H1 H2 Hne Hb1 Hb2.
  apply elem_of_cons in Hb1 as [->|Hb1]; apply elem_of_cons in Hb2 as [->|Hb2].
  - done.
  - eapply (repr_heads _ _ Hr l1); eauto using repr_pool.
  - eapply (repr_heads _ _ Hr l2); eauto using repr_pool.
  - eauto using repr_once.
Qed.

Lemma repr_loose_out x l xs :
  x ∈ pool s -> (forall l xs, lists s !! l = Some xs -> x ∉ xs) ->
  lists s !! l = Some xs -> x ∉ l :: xs.
Proof using Hr.
  intros Hx Ho Hl [->|?]%elem_of_cons; [|by eapply Ho].
  eapply (repr_heads _ _ Hr l); eauto.
Qed.

Lemma repr_unlink_in x l xs :
  lists s !! l = Some xs -> x ∈ xs ->
  exists h', unlink x h = Ok h' /\ repr h' (sp_unlink x s) /\ h' !! x = Some null_hook.
Proof using Hr.
  intros Hl Hin. pose proof Hin as (xs1 & xs2 & ->)%list_elem_of_split.
  pose proof (repr_ring _ _ Hr _ _ Hl) as Hring. pose proof Hring as [[_ Hnd]%NoDup_cons _].
  apply NoDup_app in Hnd as (_ & Hd1 & [Hd2 _]%NoDup_cons).
  destruct (ring_unlink _ _ _ _ _ Hring) as (h' & Hrun & Hring' & Hnull & Hframe).
  exists h'. split; [done|]. split; [|done]. split; cbn.
  - intros l' ys (xs & Hl' & ->)%sp_remove_Some. destruct (decide (l' = l)) as [->|Hne].
    + simplify_eq. by rewrite filter_ne_split by set_solver.
    + rewrite filter_ne_notin by (intros Hx'; by eapply Hne, repr_once).
      eapply ring_frame, (repr_ring _ _ Hr _ _ Hl'). intros b Hb.
      eapply Hframe, repr_disjoint; eauto.
  - intros l' ys y (xs & Hl' & ->)%sp_remove_Some [_ ?]%list_elem_of_filter.
    eauto using repr_pool.
  - intros l1 l2 ys1 ys2 y (xs & Hl1 & ->)%sp_remove_Some (xs' & Hl2 & ->)%sp_remove_Some
      [_ ?]%list_elem_of_filter [_ ?]%list_elem_of_filter. eauto using repr_once.
  - intros l' [ys (xs & Hl' & _)%sp_remove_Some]. eapply repr_heads; eauto.
  - intros y Hy Hy'. destruct (decide (y = x)) as [->|Hyx]; [done|].
    assert (Ho : forall l xs, lists s !! l = Some xs -> y ∉ xs).
    { intros l' ys Hl' Hin'. eapply (Hy' l' (filter (fun z => z <> x) ys)).
      - apply sp_remove_Some. eauto.
      - by apply list_elem_of_filter. }
    rewrite Hframe by (by eapply repr_loose_out). by eapply repr_loose.
Qed.

Lemma sp_remove_out x :
  (forall l xs, lists s !! l = Some xs -> x ∉ xs) -> sp_remove x (lists s) = lists s.
Proof using.
  intros Ho. unfold sp_remove. apply map_eq. intros l. rewrite lookup_fmap.
  destruct (lists s !! l) eqn:E; [|done]. cbn. f_equal. apply filter_ne_notin. eauto.
Qed.

Lemma repr_unlink x :
  x ∈ pool s -> exists h', unlink x h = Ok h' /\ repr h' (sp_unlink x s) /\
    h' !! x = Some null_hook.
Proof using Hr.
  intros Hx. destruct (decide (map_Exists (fun _ xs => x ∈ xs) (lists s)))
    as [(l & xs & Hl & Hin)|Hout]; [by eapply repr_unlink_in|].
  assert (Ho : forall l xs, lists s !! l = Some xs -> x ∉ xs)
    by (intros l xs Hl Hin; apply Hout; by exists l, xs).
  pose proof (repr_loose _ _ Hr x Hx Ho) as Hnull.
  exists h. split; [by apply unlink_null|]. split; [|done].
  unfold sp_unlink. rewrite sp_remove_out by done. by destruct s.
Qed.

Lemma repr_append l x xs :
  x ∈ pool s -> h !! x = Some null_hook ->
  (forall l xs, lists s !! l = Some xs -> x ∉ xs) -> lists s !! l = Some xs ->
  exists h', push_back l x h = Ok h' /\
    repr h' (LStore (<[l := xs ++ [x]]> (lists s)) (pool s)).
Proof using Hr.
  intros Hx Hnull Ho Hl. pose proof (repr_ring _ _ Hr _ _ Hl) as Hring.
  destruct (ring_push_back _ _ _ x Hring) as (h' & Hrun & Hring' & Hframe);
    [done|by eapply repr_loose_out|].
  exists h'. split; [done|]. split; cbn.
  - intros l' ys Hl'. apply lookup_insert_Some in Hl' as [[<- <-]|[Hne Hl']]; [done|].
    eapply ring_frame, (repr_ring _ _ Hr _ _ Hl'). intros b Hb. apply Hframe.
    intros Hin. rewrite app_comm_cons in Hin. apply elem_of_app in Hin as [Hin|Hin].
    + by eapply (repr_disjoint l l').
    + apply list_elem_of_singleton in Hin as ->. by eapply repr_loose_out.
  - intros l' ys y Hl' Hy. apply lookup_insert_Some in Hl' as [[<- <-]|[Hne Hl']];
      [|by eapply repr_pool]. apply elem_of_app in Hy as [Hy|Hy]; [by eapply repr_pool|].
    by apply list_elem_of_singleton in Hy as ->.
  - intros l1 l2 ys1 ys2 y H1 H2 Hy1 Hy2.
    apply lookup_insert_Some in H1 as [[<- <-]|[Hne1 H1]];
      apply lookup_insert_Some in H2 as [[<- <-]|[Hne2 H2]]; [done| | |by eapply repr_once];
      [apply elem_of_app in Hy1 as [Hy1|Hy1]|apply elem_of_app in Hy2 as [Hy2|Hy2]];
      try (by eapply repr_once); exfalso; eapply Ho; set_solver.
  - intros l' Hl'%lookup_insert_is_Some. apply (repr_heads _ _ Hr).
    destruct Hl' as [<-|[_ ?]]; eauto.
  - intros y Hy Hy'. assert (Hyl : y ∉ l :: xs ++ [x]).
    { intros [->|?]%elem_of_cons; [eapply (repr_heads _ _ Hr l); eauto|].
      eapply Hy'; [by apply lookup_insert_eq|done]. }
    rewrite Hframe by done. apply (repr_loose _ _ Hr); [done|]. intros l' ys Hl'.
    destruct (decide (l' = l)) as [->|]; [simplify_eq; set_solver|].
    apply (Hy' l'). by rewrite lookup_insert_ne.
Qed.
End Repr.

Lemma push_back_unlinked h h1 l x :
  unlink x h = Ok h1 -> h1 !! x = Some null_hook -> push_back l x h = push_back l x h1.
Proof. intros H1 H2. unfold push_back at 1 2. by rewrite H1, (unlink_null h1). Qed.

Lemma sp_remove_not_in x L l xs : sp_remove x L !! l = Some xs -> x ∉ xs.
Proof. intros (ys & _ & ->)%sp_remove_Some [? _]%list_elem_of_filter. done. Qed.

Lemma repr_push_back h s l x ys :
  repr h s -> x ∈ pool s -> sp_remove x (lists s) !! l = Some ys ->
  exists h', push_back l x h = Ok h' /\
    repr h' (LStore (<[l := ys ++ [x]]> (sp_remove x (lists s))) (pool s)).
Proof.
  intros Hr Hx Hl. destruct (repr_unlink _ _ Hr x Hx) as (h1 & H1 & Hr1 & Hnull).
  rewrite (push_back_unlinked _ h1) by done.
  apply (repr_append _ _ Hr1); try done. intros l' xs. apply sp_remove_not_in.
Qed.

Lemma repr_destroy h s x :
  repr h s -> x ∈ pool s ->
  exists h', destroy_item x h = Ok h' /\
    repr h' (LStore (sp_remove x (lists s)) (pool s ∖ {[x]})).
Proof.
  intros Hr Hx. destruct (repr_unlink _ _ Hr x Hx) as (h1 & H1 & Hr1 & Hnull).
  unfold destroy_item. rewrite H1. res_cbn. eexists. split; [done|].
  assert (Hout : forall l xs, sp_remove x (lists s) !! l = Some xs -> x ∉ l :: xs).
  { intros l xs Hl [->|?]%elem_of_cons; [|by eapply sp_remove_not_in].
    eapply (repr_heads _ _ Hr1 l); eauto. }
  split; cbn.
  - intros l xs Hl. eapply ring_frame, (repr_ring _ _ Hr1 _ _ Hl). intros b Hb.
    rewrite lookup_delete_ne; [done|]. intros ->. by eapply Hout.
  - intros l xs y Hl Hy. apply elem_of_difference. split; [by eapply (repr_pool _ _ Hr1)|].
    intros ->%elem_of_singleton. eapply Hout; [exact Hl|]. by right.
  - apply (repr_once _ _ Hr1).
  - intros l Hl [? _]%elem_of_difference. by eapply (repr_heads _ _ Hr1).
  - intros y [Hy Hne]%elem_of_difference Ho. rewrite lookup_delete_ne by set_solver.
    by apply (repr_loose _ _ Hr1).
Qed.

Lemma repr_new h s l :
  repr h s -> l ∉ pool s -> lists s !! l = None ->
  repr (new_list l h) (LStore (<[l := []]> (lists s)) (pool s)).
Proof.
  intros Hr Hl Hl'. assert (Hout : forall l' xs, lists s !! l' = Some xs -> l ∉ l' :: xs).
  { intros l' xs H [->|?]%elem_of_cons; [congruence|]. by eapply Hl, repr_pool. }
  split; cbn.
  - intros l1 xs [[<- <-]|[Hne H]]%lookup_insert_Some; [apply ring_new|].
    eapply ring_frame, (repr_ring _ _ Hr _ _ H). intros b Hb. unfold new_list.
    rewrite lookup_insert_ne; [done|]. intros ->. by eapply Hout.
  - intros l1 xs y [[<- <-]|[_ H]]%lookup_insert_Some; [set_solver|]. by apply (repr_pool _ _ Hr l1).
  - intros l1 l2 xs1 xs2 y [[<- <-]|[_ H1]]%lookup_insert_Some
      [[<- <-]|[_ H2]]%lookup_insert_Some; [set_solver..|]. by eapply (repr_once _ _ Hr).
  - intros l1 [<-|[_ H]]%lookup_insert_is_Some; [done|]. by apply (repr_heads _ _ Hr).
  - intros y Hy Ho. unfold new_list. rewrite lookup_insert_ne by set_solver.
    apply (repr_loose _ _ Hr); [done|]. intros l1 xs H1. apply (Ho l1).
    rewrite lookup_insert_ne; [done|]. intros ->. congruence.
Qed.

Lemma repr_move h s l rhs xs :
  repr h s -> l ∉ pool s -> lists s !! l = None -> lists s !! rhs = Some xs ->
  exists h', move_list l rhs h = Ok h' /\
    repr h' (LStore (<[l := xs]> (<[rhs := []]> (lists s))) (pool s)).
Proof.
  intros Hr Hl Hl' Hxs. assert (l <> rhs) by congruence.
  assert (Hout : forall l' ys, lists s !! l' = Some ys -> l ∉ l' :: ys).
  { intros l' ys H0 [->|?]%elem_of_cons; [congruence|]. by eapply Hl, repr_pool. }
  assert (Hown : forall l1 ys y, <[l := xs]> (<[rhs := []]> (lists s)) !! l1 = Some ys ->
    y ∈ ys -> l1 = l /\ ys = xs \/ l1 <> rhs /\ lists s !! l1 = Some ys).
  { intros l1 ys y [[<- <-]|[_ [[<- <-]|[? H1]]%lookup_insert_Some]]%lookup_insert_Some Hy;
      [by left|by apply not_elem_of_nil in Hy|by right]. }
  destruct (ring_move h l rhs xs) as (h' & Hrun & Hring & Hempty & Hframe);
    [by eapply repr_ring|by apply Hout|].
  exists h'. split; [done|]. split; cbn.
  - intros l1 ys [[<- <-]|[Hne [[<- <-]|[Hne2 H1]]%lookup_insert_Some]]%lookup_insert_Some;
      [done..|]. eapply ring_frame, (repr_ring _ _ Hr _ _ H1). intros b Hb. apply Hframe.
    intros [->|Hb']%elem_of_cons; [by eapply Hout|]. by eapply (repr_disjoint _ _ Hr rhs l1).
  - intros l1 ys y [[<- <-]|[_ [[<- <-]|[_ H1]]%lookup_insert_Some]]%lookup_insert_Some;
      [by eapply (repr_pool _ _ Hr)|set_solver|by eapply (repr_pool _ _ Hr)].
  - intros l1 l2 ys1 ys2 y H1 H2 Hy1 Hy2. eapply Hown in H1, H2; [|done..].
    destruct H1 as [[-> ->]|[Hn1 H1]], H2 as [[-> ->]|[Hn2 H2]]; [done| | |].
    + destruct Hn2. symmetry. by eapply (repr_once _ _ Hr).
    + destruct Hn1. by eapply (repr_once _ _ Hr).
    + by eapply (repr_once _ _ Hr).
  - intros l1 [<-|[_ [<-|[_ H1]]%lookup_insert_is_Some]]%lookup_insert_is_Some; [done|..];
      eapply (repr_heads _ _ Hr); eauto.
  - intros y Hy Ho.
    assert (Hy' : forall l1 ys, lists s !! l1 = Some ys -> y ∉ ys).
    { intros l1 ys H1. destruct (decide (l1 = rhs)) as [->|].
      - simplify_eq. eapply (Ho l). by rewrite lookup_insert_eq.
      - eapply (Ho l1). rewrite !lookup_insert_ne by congruence. done. }
    rewrite Hframe; [by apply (repr_loose _ _ Hr)|]. intros [->|Hb]%elem_of_cons; [done|].
    by eapply (repr_loose_out _ _ Hr).
Qed.

Lemma ring_head h l x xs : ring h l (x :: xs) -> load_next (Some l) h = Ok (Some x).
Proof. intros Hr. apply load_next_of. by rewrite (ring_head_next _ _ _ Hr). Qed.
Lemma ring_head_nil h l : ring h l [] -> load_next (Some l) h = Ok (Some l).
Proof. intros Hr. apply load_next_of. by rewrite (ring_head_next _ _ _ Hr). Qed.

Lemma ring_empty h l xs :
  ring h l xs -> list_empty l h = Ok (bool_decide (xs = [])).
Proof.
  intros Hr. unfold list_empty. destruct xs as [|x xs].
  - rewrite (ring_head_nil _ _ Hr). res_cbn. by rewrite bool_decide_eq_true_2.
  - rewrite (ring_head _ _ _ _ Hr). res_cbn. f_equal. destruct Hr as [[Hl _]%NoDup_cons _].
    apply bool_decide_ext. split; [intros [= ->]; set_solver|done].
Qed.

(** Unlinking the first item of a list removes it from that list only. *)
Lemma sp_remove_head h s l x xs :
  repr h s -> lists s !! l = Some (x :: xs) ->
  sp_remove x (lists s) = <[l := xs]> (lists s).
Proof.
  intros Hr Hl. apply map_eq. intros l'. unfold sp_remove. rewrite lookup_fmap.
  pose proof (repr_ring _ _ Hr _ _ Hl) as [[_ [Hx _]%NoDup_cons]%NoDup_cons _].
  destruct (decide (l' = l)) as [->|Hne].
  - rewrite Hl, lookup_insert_eq. cbn. f_equal.
    exact (filter_ne_split x [] xs (not_elem_of_nil x) Hx).
  - rewrite lookup_insert_ne by done. destruct (lists s !! l') as [ys|] eqn:E; [|done].
    cbn. f_equal. apply filter_ne_notin. intros Hin. apply Hne.
    eapply (repr_once _ _ Hr); eauto. by left.
Qed.

Lemma repr_pop_front h s l x xs :
  repr h s -> lists s !! l = Some (x :: xs) ->
  exists h', pop_front l h = Ok h' /\ repr h' (LStore (<[l := xs]> (lists s)) (pool s)).
Proof.
  intros Hr Hl. pose proof (repr_ring _ _ Hr _ _ Hl) as Hring.
  destruct (repr_unlink _ _ Hr x) as (h' & Hrun & Hr' & _).
  { eapply (repr_pool _ _ Hr); [exact Hl|]. by left. }
  exists h'. unfold pop_front. rewrite (ring_head _ _ _ _ Hring). res_cbn.
  split; [done|]. unfold sp_unlink in Hr'. by erewrite sp_remove_head in Hr'.
Qed.

Lemma repr_clear fuel l xs h s :
  repr h s -> lists s !! l = Some xs -> length xs <= fuel ->
  exists h', clear fuel l h = Ok h' /\ repr h' (LStore (<[l := []]> (lists s)) (pool s)).
Proof.
  revert fuel h s. induction xs as [|x xs IH]; intros fuel h s Hr Hl Hlen;
    pose proof (repr_ring _ _ Hr _ _ Hl) as Hring.
  - exists h. destruct fuel; cbn [clear]; rewrite (ring_empty _ _ _ Hring); res_cbn; (split; [done|]);
      rewrite insert_id by done; by destruct s.
  - destruct fuel as [|fuel]; cbn in Hlen; [lia|].
    destruct (repr_pop_front _ _ _ _ _ Hr Hl) as (h1 & H1 & Hr1).
    destruct (IH fuel h1 _ Hr1) as (h' & H2 & Hr2); [apply lookup_insert_eq|lia|].
    exists h'. cbn [clear]. rewrite (ring_empty _ _ _ Hring). res_cbn. rewrite H1. res_cbn.
    split; [done|]. cbn in Hr2. by rewrite insert_insert_eq in Hr2.
Qed.

Lemma ring_size h l xs : ring h l xs -> length xs <= size h.
Proof.
  intros Hr. pose proof Hr as [[_ Hnd]%NoDup_cons _].
  rewrite <-(size_list_to_set (C := gset loc) xs), <-size_dom by done.
  apply subseteq_size. intros x Hx%elem_of_list_to_set. apply elem_of_dom.
  by eapply ring_member.
Qed.

Lemma repr_new_item h s x :
  repr h s -> x ∉ pool s -> lists s !! x = None ->
  repr (new_item x h) (LStore (lists s) ({[x]} ∪ pool s)).
Proof.
  intros Hr Hx Hx'. split; cbn.
  - intros l xs Hl. eapply ring_frame, (repr_ring _ _ Hr _ _ Hl). intros b Hb.
    unfold new_item. rewrite lookup_insert_ne; [done|].
    intros ->. apply elem_of_cons in Hb as [->|Hb]; [congruence|].
    by eapply Hx, repr_pool.
  - intros l xs y Hl Hy. apply elem_of_union_r. by eapply repr_pool.
  - apply (repr_once _ _ Hr).
  - intros l Hl [->%elem_of_singleton|?]%elem_of_union; [by rewrite Hx' in Hl; destruct Hl|].
    by eapply (repr_heads _ _ Hr).
  - intros y Hy Ho. unfold new_item. destruct (decide (y = x)) as [->|];
      [apply lookup_insert_eq|]. rewrite lookup_insert_ne by done.
    apply (repr_loose _ _ Hr); [set_solver|done].
Qed.

(** Walking a ring from one of its members reaches the head after the rest. *)
Lemma ring_iterate h l xs1 xs2 fuel :
  ring h l (xs1 ++ xs2) -> length xs2 <= fuel ->
  iterate fuel l (head (xs2 ++ [l])) h = Ok xs2.
Proof.
  revert xs1 fuel. induction xs2 as [|x xs2 IH]; intros xs1 fuel Hr Hlen; cbn.
  - destruct fuel; cbn; by rewrite bool_decide_eq_true_2.
  - destruct fuel as [|fuel]; cbn in Hlen; [lia|]. cbn [iterate].
    pose proof Hr as [[Hl _]%NoDup_cons _].
    rewrite bool_decide_eq_false_2 by (intros [= ->]; set_solver). res_cbn.
    destruct (ring_around _ _ _ _ _ Hr) as (A & p & n & B & _ & EB & _ & _ & _ & _ & [Hn _] & _).
    rewrite (load_next_of _ _ _ Hn). res_cbn.
    specialize (IH (xs1 ++ [x]) fuel). rewrite <-app_assoc, EB in IH. cbn in IH.
    rewrite IH; [done|done|lia].
Qed.

Lemma repr_pop_front_sp h s l x xs :
  repr h s -> lists s !! l = Some xs -> head xs = Some x ->
  exists h', pop_front l h = Ok h' /\ repr h' (sp_unlink x s).
Proof.
  intros Hr Hl Hx. destruct xs as [|y xs]; simplify_eq/=. unfold sp_unlink.
  rewrite (sp_remove_head _ _ _ _ _ Hr Hl). by apply (repr_pop_front _ _ _ x).
Qed.

Lemma lstep_repr op h s s' :
  repr h s -> sp_step op s = Some s' -> exists h', lstep op h = Ok h' /\ repr h' s'.
Proof.
  intros Hr Hs. destruct op as [x|x|l|l x|x|l|l rhs|l]; cbn in Hs |- *; simplify_option_eq.
  - destruct_and!. eexists. split; [done|]. by apply repr_new_item.
  - by apply repr_destroy.
  - destruct_and!. eexists. split; [done|]. by apply repr_new.
  - by apply repr_push_back.
  - destruct (repr_unlink _ _ Hr x) as (h' & ? & ? & _); eauto.
  - by eapply repr_pop_front_sp.
  - destruct_and!. by apply repr_move.
  - match goal with H : is_Some _ |- _ => destruct H as [xs Hxs] end.
    by eapply repr_clear, ring_size, repr_ring.
Qed.

(** * Properties *)

(** C8. The pointer operations of the header implement the list store: any
    sequence of operations within their contract, run from a heap that
    represents a store, performs no null or dangling access, terminates, and
    reaches a heap that represents the specified store - items move between
    lists, [push_back] of an item that is already linked unlinks it first, and
    the other lists keep their items in order. *)
Theorem intrusive_list_refines ops h s s' :
  repr h s -> sp_run ops s = Some s' ->
  exists h', lrun ops h = Ok h' /\ repr h' s'.
Proof.
  revert h s. induction ops as [|op ops IH]; intros h s Hr Hs; cbn in Hs |- *.
  - simplify_eq. eauto.
  - apply bind_Some in Hs as (s1 & H1 & Hs). destruct (lstep_repr _ _ _ _ Hr H1) as (h1 & Hh1 & Hr1).
    rewrite Hh1. res_cbn. eauto.
Qed.

(** A store with two lists: three items are pushed on list 1, the second one is
    unlinked and pushed again, list 1 is moved to list 6 and its first item is
    popped. *)
Definition demo_ops : list lop :=
  [NewList 1; NewList 2; NewItem 3; NewItem 4; NewItem 5;
   PushBack 1 3; PushBack 1 4; PushBack 1 5; Unlink 4; PushBack 1 4; MoveList 6 1; PopFront 6].
Definition demo_store : lstore :=
  LStore {[1%positive := []; 2%positive := []; 6%positive := [5; 4]%positive]}
    {[3; 4; 5]}%positive.

Lemma repr_empty : repr ∅ (LStore ∅ ∅).
Proof. split; cbn; set_solver. Qed.

Lemma intrusive_list_refines_witness :
  exists h', lrun demo_ops ∅ = Ok h' /\ repr h' demo_store.
Proof.
  apply (intrusive_list_refines demo_ops ∅ (LStore ∅ ∅) demo_store repr_empty).
  vm_compute. reflexivity.
Defined.

(** Every read-only operation of a list agrees with the sequence of its
    items: [empty()], [contains_one_item()], [front()], and a walk with the
    iterators from [begin()] to [end()], which visits each item once, in
    insertion order, and stops. *)
Theorem intrusive_list_observers h l xs :
  ring h l xs ->
  list_empty l h = Ok (bool_decide (xs = [])) /\
  contains_one_item l h = Ok (bool_decide (length xs = 1)) /\
  (forall x ys, xs = x :: ys -> list_front l h = Ok x) /\
  items (length xs) l h = Ok xs.
Proof.
  intros Hr. pose proof (ring_empty _ _ _ Hr) as He. split; [done|]. split; [|split].
  - unfold contains_one_item. rewrite He. res_cbn. destruct xs as [|x xs]; [done|].
    rewrite bool_decide_eq_false_2, (ring_head _ _ _ _ Hr) by done. res_cbn.
    destruct (ring_around _ _ [] _ _ Hr) as (A & p & n & B & _ & EB & _ & _ & _ & _ & [Hn _] & _).
    rewrite (load_next_of _ _ _ Hn). res_cbn. f_equal. apply bool_decide_ext.
    pose proof Hr as [[Hl _]%NoDup_cons _]. destruct xs; cbn in EB; simplify_eq; [done|].
    split; [intros [= ->]; set_solver|done].
  - intros x ys ->. unfold list_front. by rewrite (ring_head _ _ _ _ Hr).
  - unfold items. destruct xs as [|x xs].
    + rewrite (ring_head_nil _ _ Hr). res_cbn. cbn. by rewrite bool_decide_eq_true_2.
    + rewrite (ring_head _ _ _ _ Hr). res_cbn. exact (ring_iterate h l [] (x :: xs) _ Hr (le_n _)).
Qed.

Definition demo_ring : heap :=
  {[1 := Hook (Some 2) (Some 4); 2 := Hook (Some 3) (Some 1);
    3 := Hook (Some 4) (Some 2); 4 := Hook (Some 1) (Some 3)]}%positive.

Lemma intrusive_list_observers_witness :
  list_empty 1 demo_ring = Ok false /\ contains_one_item 1 demo_ring = Ok false /\
  (forall x ys, [2; 3; 4]%positive = x :: ys -> list_front 1 demo_ring = Ok x) /\
  items 3 1 demo_ring = Ok [2; 3; 4]%positive.
Proof.
  apply (intrusive_list_observers demo_ring 1 [2; 3; 4]%positive).
  split; [by apply (bool_decide_unpack _)|]. repeat constructor.
Defined.
