(* ===== verification/RingQueue.v ===== *)
(** The circular buffer of [detail/Queue.h].

    A [queue] keeps the raw slots of [buffer_] (a slot is [None] while no object
    lives in it), the capacity, and [head_] and [tail_] as offsets from
    [buffer_].  Constructing an object in an occupied slot, and reading or
    destroying one in an empty slot, are faults.  [rep q l] is the abstraction:
    the live slots, from [head_] on and around the end of the buffer, hold the
    elements of [l] in order, and every other slot is empty. *)
From S2P Require Export Fifo.

Section Queue.
Context {A : Type}.

(** * State *)

Record queue := Queue {
  q_buffer : list (option A); q_capacity : nat;
  q_head : nat; q_tail : nat; q_size : nat }.

Implicit Types (q : queue) (buf : list (option A)) (vs l : list A).

(** [explicit Queue(size_t)], and the moved-from state [Queue(Queue&&)] leaves. *)
Definition q_new (cap : nat) : queue := Queue (replicate cap None) cap 0 0 0.
Definition q_move (q : queue) : queue * queue := (q, Queue [] 0 0 0 0).
Definition q_empty (q : queue) : bool := q_size q =? 0.

(** * Slots and spans *)

Definition slot_read (i : nat) (buf : list (option A)) : res A := deref (mjoin (buf !! i)).
Definition slot_place (i : nat) (v : A) (buf : list (option A)) : res (list (option A)) :=
  match buf !! i with Some None => Ok (<[i := Some v]> buf) | _ => Fault BadAccess end.
Definition slot_destroy (i : nat) (buf : list (option A)) : res (list (option A)) :=
  match buf !! i with Some (Some _) => Ok (<[i := None]> buf) | _ => Fault BadAccess end.

Fixpoint span_read (i n : nat) (buf : list (option A)) : res (list A) :=
  match n with
  | O => Ok []
  | S n => v ← slot_read i buf; vs ← span_read (S i) n buf; Ok (v :: vs)
  end.
Fixpoint span_place (i : nat) (vs : list A) (buf : list (option A)) : res (list (option A)) :=
  match vs with
  | [] => Ok buf
  | v :: vs => buf ← slot_place i v buf; span_place (S i) vs buf
  end.
Fixpoint span_destroy (i n : nat) (buf : list (option A)) : res (list (option A)) :=
  match n with
  | O => Ok buf
  | S n => buf ← slot_destroy i buf; span_destroy (S i) n buf
  end.
Fixpoint span_update (f : A -> A) (i n : nat) (buf : list (option A)) : res (list (option A)) :=
  match n with
  | O => Ok buf
  | S n => v ← slot_read i buf; span_update f (S i) n (<[i := Some (f v)]> buf)
  end.

(** [first_range()] and [second_range()]: offset and length of the two spans. *)
Definition first_range (q : queue) : nat * nat :=
  if q_empty q then (0, 0)
  else if q_head q <? q_tail q then (q_head q, q_tail q - q_head q)
  else (q_head q, q_capacity q - q_head q).
Definition second_range (q : queue) : nat * nat :=
  if q_empty q || (q_head q <? q_tail q) then (0, 0) else (0, q_tail q).

(** * Operations *)

Definition q_front (q : queue) : res A := slot_read (q_head q) (q_buffer q).

(** [p == buffer_ + capacity_ ? buffer_ : p] *)
Definition bump (cap p : nat) : nat := if p =? cap then 0 else p.

Definition q_pop_front (q : queue) : res queue :=
  buf ← slot_destroy (q_head q) (q_buffer q);
  Ok (Queue buf (q_capacity q) (bump (q_capacity q) (S (q_head q))) (q_tail q) (q_size q - 1)).

(** [grow(newCapacity)]: a fresh buffer takes over the two live spans. *)
Definition q_grow (new_capacity : nat) (q : queue) : res queue :=
  let cap := Nat.max (Nat.max new_capacity 8) (q_capacity q * 2) in
  let '(i1, n1) := first_range q in
  let '(i2, n2) := second_range q in
  vs1 ← span_read i1 n1 (q_buffer q);
  buf ← span_place 0 vs1 (replicate cap None);
  vs2 ← span_read i2 n2 (q_buffer q);
  buf ← span_place n1 vs2 buf;
  Ok (Queue buf cap 0 (n1 + n2) (q_size q)).

(** [push_back(u)]; [emplace_back(args...)] is the same with [u] built in place. *)
Definition q_push_back (v : A) (q : queue) : res queue :=
  q ← (if q_size q =? q_capacity q then q_grow 0 q else Ok q);
  buf ← slot_place (q_tail q) v (q_buffer q);
  Ok (Queue buf (q_capacity q) (q_head q) (bump (q_capacity q) (S (q_tail q))) (S (q_size q))).

(** [for_each_item(fn)]: [fn] receives each element by reference. *)
Definition q_for_each_item (f : A -> A) (q : queue) : res queue :=
  let '(i1, n1) := first_range q in
  let '(i2, n2) := second_range q in
  buf ← span_update f i1 n1 (q_buffer q);
  buf ← span_update f i2 n2 buf;
  Ok (Queue buf (q_capacity q) (q_head q) (q_tail q) (q_size q)).

(** The two branches of [append] once the capacity suffices: the buffer and
    the new tail, which may be one past the end of the buffer. *)
Definition append_slots (vs : list A) (q : queue) : res (list (option A) * nat) :=
  let sz := length vs in
  if q_tail q + sz <=? q_capacity q then
    buf ← span_place (q_tail q) vs (q_buffer q); Ok (buf, q_tail q + sz)
  else
    let bound := q_capacity q - q_tail q in
    buf ← span_place (q_tail q) (take bound vs) (q_buffer q);
    buf ← span_place 0 (drop bound vs) buf;
    Ok (buf, sz - bound).

(** [append(begin, end)], the range being [vs] *)
Definition q_append (vs : list A) (q : queue) : res queue :=
  let sz := length vs in
  q ← (if q_capacity q <? q_size q + sz then q_grow (q_size q + sz) q else Ok q);
  '(buf, tail) ← append_slots vs q;
  Ok (Queue buf (q_capacity q) (q_head q) (bump (q_capacity q) tail) (q_size q + sz)).

(** [pop_front_to(n, dst)]: the elements written to [dst], their number, the queue. *)
Definition q_pop_front_to (n : nat) (q : queue) : res (list A * nat * queue) :=
  _ ← corral_assert (n <=? q_size q);
  let cap := q_capacity q in
  let n1 := Nat.min n (cap - q_head q) in
  out1 ← span_read (q_head q) n1 (q_buffer q);
  buf ← span_destroy (q_head q) n1 (q_buffer q);
  let head := bump cap (q_head q + n1) in
  let size := q_size q - n1 in
  let n2 := Nat.min (n - n1) (q_tail q) in
  if n2 =? 0 then Ok (out1, n2 + n1, Queue buf cap head (q_tail q) size)
  else
    out2 ← span_read 0 n2 buf;
    buf ← span_destroy 0 n2 buf;
    Ok (out1 ++ out2, n2 + n1, Queue buf cap n2 (q_tail q) (size - n2)).

(** [~Queue()]: the objects it destroys, in the order of their destruction. *)
Definition q_destroy (q : queue) : res (list A) :=
  let '(i1, n1) := first_range q in
  let '(i2, n2) := second_range q in
  vs1 ← span_read i1 n1 (q_buffer q);
  vs2 ← span_read i2 n2 (q_buffer q);
  Ok (vs1 ++ vs2).

(** * Abstraction *)

(** The offset [x] of the doubled buffer, as an offset of the buffer. *)
Definition wrap (cap x : nat) : nat := if x <? cap then x else x - cap.

Record rep (q : queue) (l : list A) : Prop := {
  rep_length : length (q_buffer q) = q_capacity q;
  rep_size : q_size q = length l;
  rep_fits : length l <= q_capacity q;
  rep_head : q_head q < q_capacity q \/ q_capacity q = 0 /\ q_head q = 0;
  rep_tail : q_tail q = wrap (q_capacity q) (q_head q + length l);
  rep_slots i : i < q_capacity q ->
    q_buffer q !! wrap (q_capacity q) (q_head q + i) = Some (l !! i) }.
End Queue.
Arguments queue A : clear implicits.
Arguments rep {A} q l.

(** * Spans *)

Ltac wrap_solve :=
  unfold wrap, bump in *;
  repeat match goal with
  | |- context [?a <? ?b] => destruct (Nat.ltb_spec a b)
  | H : context [?a <? ?b] |- _ => destruct (Nat.ltb_spec a b)
  | |- context [?a =? ?b] => destruct (Nat.eqb_spec a b)
  | H : context [?a =? ?b] |- _ => destruct (Nat.eqb_spec a b)
  end; try lia.

Ltac wrap_lia := solve [wrap_solve].

(** The goal is an equation between two reads of the same list or buffer. *)
Ltac same_slot :=
  rewrite ?lookup_drop, ?lookup_take_lt by wrap_lia;
  first [reflexivity|exfalso; wrap_lia|f_equal; wrap_lia|f_equal; f_equal; wrap_lia].

Section Spans.
Context {A : Type}.
Implicit Types (buf : list (option A)) (vs l : list A).

(** The objects [vs] live in the slots from [i] on. *)
Definition span_is buf (i : nat) vs : Prop :=
  forall k v, vs !! k = Some v -> buf !! (i + k) = Some (Some v).

Lemma span_is_nil buf i : span_is buf i [].
Proof. intros k v. by rewrite lookup_nil. Qed.

Lemma span_is_cons buf i v vs :
  span_is buf i (v :: vs) -> buf !! i = Some (Some v) /\ span_is buf (S i) vs.
Proof.
  intros H. split; [specialize (H 0 v eq_refl); by rewrite Nat.add_0_r in H|].
  intros k w Hk. specialize (H (S k) w Hk). by rewrite Nat.add_succ_r in H.
Qed.

Lemma span_read_ok buf i vs : span_is buf i vs -> span_read i (length vs) buf = Ok vs.
Proof.
  revert i. induction vs as [|v vs IH]; intros i H; [done|]. cbn [length span_read].
  apply span_is_cons in H as [Hi H]. unfold slot_read. rewrite Hi. cbn.
  by rewrite IH.
Qed.

Lemma span_place_ok vs i buf :
  (forall k, k < length vs -> buf !! (i + k) = Some None) ->
  exists buf', span_place i vs buf = Ok buf' /\ length buf' = length buf /\
    forall j, buf' !! j = if decide (i <= j < i + length vs) then Some (vs !! (j - i)) else buf !! j.
Proof.
  revert i buf. induction vs as [|v vs IH]; intros i buf H; cbn [span_place length] in *.
  - exists buf. split; [done|]. split; [done|]. intros j. by rewrite decide_False by lia.
  - pose proof (H 0 ltac:(lia)) as Hi. rewrite Nat.add_0_r in Hi.
    pose proof (lookup_lt_Some _ _ _ Hi) as Hlt.
    destruct (IH (S i) (<[i := Some v]> buf)) as (buf' & Hrun & Hlen & Hlook).
    { intros k Hk. rewrite list_lookup_insert_ne by lia.
      rewrite <-(H (S k)) by lia. f_equal. lia. }
    exists buf'. unfold slot_place. rewrite Hi. res_cbn. rewrite length_insert in Hlen.
    split; [done|]. split; [done|]. intros j. rewrite Hlook.
    destruct (decide (j = i)) as [->|Hne].
    + rewrite decide_False, decide_True, list_lookup_insert_eq, Nat.sub_diag by lia. done.
    + rewrite list_lookup_insert_ne by lia. repeat case_decide; try lia; [|done].
      replace (j - i) with (S (j - S i)) by lia. done.
Qed.

Lemma span_destroy_ok vs i buf :
  span_is buf i vs ->
  exists buf', span_destroy i (length vs) buf = Ok buf' /\ length buf' = length buf /\
    forall j, buf' !! j = if decide (i <= j < i + length vs) then Some None else buf !! j.
Proof.
  revert i buf. induction vs as [|v vs IH]; intros i buf H; cbn [span_destroy length] in *.
  - exists buf. split; [done|]. split; [done|]. intros j. by rewrite decide_False by lia.
  - apply span_is_cons in H as [Hi H]. pose proof (lookup_lt_Some _ _ _ Hi) as Hlt.
    destruct (IH (S i) (<[i := None]> buf)) as (buf' & Hrun & Hlen & Hlook).
    { intros k w Hk. rewrite list_lookup_insert_ne by lia. by apply H. }
    exists buf'. unfold slot_destroy. rewrite Hi. res_cbn. rewrite length_insert in Hlen.
    split; [done|]. split; [done|]. intros j. rewrite Hlook.
    destruct (decide (j = i)) as [->|Hne].
    + rewrite decide_False, decide_True, list_lookup_insert_eq by lia. done.
    + rewrite list_lookup_insert_ne by lia. repeat case_decide; try lia; done.
Qed.

Lemma span_update_ok f vs i buf :
  span_is buf i vs ->
  exists buf', span_update f i (length vs) buf = Ok buf' /\ length buf' = length buf /\
    forall j, buf' !! j = if decide (i <= j < i + length vs) then Some (f <$> vs !! (j - i)) else buf !! j.
Proof.
  revert i buf. induction vs as [|v vs IH]; intros i buf H; cbn [span_update length] in *.
  - exists buf. split; [done|]. split; [done|]. intros j. by rewrite decide_False by lia.
  - apply span_is_cons in H as [Hi H]. pose proof (lookup_lt_Some _ _ _ Hi) as Hlt.
    destruct (IH (S i) (<[i := Some (f v)]> buf)) as (buf' & Hrun & Hlen & Hlook).
    { intros k w Hk. rewrite list_lookup_insert_ne by lia. by apply H. }
    exists buf'. unfold slot_read. rewrite Hi. cbn. rewrite length_insert in Hlen.
    split; [done|]. split; [done|]. intros j. rewrite Hlook.
    destruct (decide (j = i)) as [->|Hne].
    + rewrite decide_False, decide_True, list_lookup_insert_eq, Nat.sub_diag by lia. done.
    + rewrite list_lookup_insert_ne by lia. repeat case_decide; try lia; [|done].
      replace (j - i) with (S (j - S i)) by lia. done.
Qed.
End Spans.

(** * Operations under the abstraction *)

Section Rep.
Context {A : Type}.
Implicit Types (q : queue A) (vs l : list A).

Lemma wrap_inj cap h i j :
  h < cap -> i < cap -> j < cap -> wrap cap (h + i) = wrap cap (h + j) -> i = j.
Proof. wrap_solve. Qed.

Lemma rep_new cap : rep (q_new (A := A) cap) [].
Proof.
  split; cbn; try (wrap_solve; fail); [apply length_replicate|].
  intros i Hi. apply lookup_replicate_2. wrap_solve.
Qed.

Lemma rep_lookup q l i v :
  rep q l -> l !! i = Some v -> q_buffer q !! wrap (q_capacity q) (q_head q + i) = Some (Some v).
Proof.
  intros Hr Hi. pose proof (lookup_lt_Some _ _ _ Hi). pose proof (rep_fits _ _ Hr).
  rewrite (rep_slots _ _ Hr) by lia. by rewrite Hi.
Qed.

(** The live objects are two spans: up to the end of the buffer, and then
    from its start. *)
Lemma rep_spans q l :
  rep q l -> exists l1 l2, l = l1 ++ l2 /\
    length l1 = Nat.min (q_capacity q - q_head q) (length l) /\ snd (first_range q) = length l1 /\ snd (second_range q) = length l2 /\
    span_is (q_buffer q) (fst (first_range q)) l1 /\
    span_is (q_buffer q) (fst (second_range q)) l2 /\
    (l1 <> [] -> fst (first_range q) = q_head q) /\ fst (second_range q) = 0.
Proof.
  intros Hr. pose proof (rep_fits _ _ Hr) as Hf. pose proof (rep_head _ _ Hr) as Hh.
  pose proof (rep_tail _ _ Hr) as Ht. pose proof (rep_size _ _ Hr) as Hs.
  exists (take (q_capacity q - q_head q) l), (drop (q_capacity q - q_head q) l).
  rewrite length_take, length_drop. unfold first_range, second_range, q_empty. rewrite Hs.
  split; [by rewrite take_drop|]. split; [done|].
  assert (H1 : span_is (q_buffer q) (q_head q) (take (q_capacity q - q_head q) l)).
  { intros k v [Hk Hlt]%lookup_take_Some. rewrite <-(rep_lookup _ _ _ _ Hr Hk). f_equal. wrap_solve. }
  assert (H2 : span_is (q_buffer q) 0 (drop (q_capacity q - q_head q) l)).
  { intros k v Hk. rewrite lookup_drop in Hk. rewrite <-(rep_lookup _ _ _ _ Hr Hk). f_equal.
    apply lookup_lt_Some in Hk. wrap_solve. }
  destruct (Nat.eqb_spec (length l) 0) as [E|E].
  { apply nil_length_inv in E as ->. rewrite take_nil, drop_nil. cbn.
    repeat split; first [apply span_is_nil|done|lia]. }
  cbn [orb]. destruct (Nat.ltb_spec (q_head q) (q_tail q)); cbn [fst snd];
    repeat split; try done; wrap_solve.
Qed.

Lemma rep_front q v l : rep q (v :: l) -> q_front q = Ok v.
Proof.
  intros Hr. pose proof (rep_lookup _ _ 0 v Hr eq_refl) as H. unfold q_front, slot_read.
  pose proof (rep_head _ _ Hr). pose proof (rep_fits _ _ Hr). cbn in *.
  replace (wrap _ _) with (q_head q) in H by wrap_solve. by rewrite H.
Qed.

Lemma rep_pop_front q v l :
  rep q (v :: l) ->
  exists q', q_pop_front q = Ok q' /\ rep q' l /\ q_capacity q' = q_capacity q.
Proof.
  intros Hr. pose proof (rep_lookup _ _ 0 v Hr eq_refl) as H0.
  pose proof (rep_head _ _ Hr). pose proof (rep_fits _ _ Hr). cbn in *.
  replace (wrap _ _) with (q_head q) in H0 by wrap_solve.
  unfold q_pop_front, slot_destroy. rewrite H0. res_cbn. eexists. split; [done|].
  split; [|done]. pose proof (rep_tail _ _ Hr). pose proof (rep_size _ _ Hr).
  pose proof (rep_length _ _ Hr). split; cbn in *; rewrite ?length_insert; try (wrap_solve; fail).
  intros i Hi. destruct (decide (S i < q_capacity q)).
  - rewrite list_lookup_insert_ne by wrap_solve.
    pose proof (rep_slots _ _ Hr (S i) ltac:(done)) as HS.
    etransitivity; [|exact HS]. f_equal. wrap_solve.
  - replace (wrap _ _) with (q_head q) by wrap_solve.
    rewrite list_lookup_insert_eq by lia. by rewrite lookup_ge_None_2 by lia.
Qed.

(** The capacity [grow] picks. *)
Definition grown (new_capacity cap : nat) : nat := Nat.max (Nat.max new_capacity 8) (cap * 2).

Lemma rep_grow nc q l :
  rep q l ->
  exists q', q_grow nc q = Ok q' /\ rep q' l /\ q_capacity q' = grown nc (q_capacity q).
Proof.
  intros Hr. destruct (rep_spans _ _ Hr) as (l1 & l2 & -> & _ & E1 & E2 & H1 & H2 & _).
  pose proof (rep_fits _ _ Hr) as Hf. pose proof (rep_size _ _ Hr) as Hs.
  rewrite length_app in *. unfold q_grow. fold (grown nc (q_capacity q)).
  destruct (first_range q) as [i1 n1], (second_range q) as [i2 n2]. cbn [fst snd] in *. subst n1 n2.
  assert (length l1 + length l2 < grown nc (q_capacity q)) by (unfold grown; lia).
  destruct (span_place_ok l1 0 (replicate (grown nc (q_capacity q)) None)) as (b1 & R1 & Hlen1 & L1).
  { intros k Hk. apply lookup_replicate_2. lia. }
  destruct (span_place_ok l2 (length l1) b1) as (b2 & R2 & Hlen2 & L2).
  { intros k Hk. rewrite L1, decide_False by lia. apply lookup_replicate_2. lia. }
  rewrite !(span_read_ok _ _ _ H1), !(span_read_ok _ _ _ H2). res_cbn. rewrite R1. res_cbn.
  rewrite R2. res_cbn. eexists. split; [done|]. split; [|done].
  rewrite length_replicate in Hlen1.
  split; cbn; rewrite ?length_app; try (wrap_solve; fail).
  intros i Hi. replace (wrap _ _) with i by wrap_solve. rewrite L2, L1. repeat case_decide; try lia.
  - by rewrite lookup_app_r by lia.
  - rewrite lookup_app_l by lia. by rewrite Nat.sub_0_r.
  - rewrite (lookup_ge_None_2 (l1 ++ l2)) by (rewrite length_app; lia). apply lookup_replicate_2. lia.
Qed.

(** Placing objects after the last one when there is room, before the wrap of
    the tail pointer. *)
Lemma rep_room q l vs :
  rep q l -> length l + length vs <= q_capacity q ->
  q_tail q + length vs <= q_capacity q ->
  forall k, k < length vs -> q_buffer q !! (q_tail q + k) = Some None.
Proof.
  intros Hr Hroom Hend k Hk. pose proof (rep_slots _ _ Hr (length l + k) ltac:(lia)) as H.
  rewrite (lookup_ge_None_2 l) in H by lia. rewrite <-H. f_equal.
  pose proof (rep_tail _ _ Hr). pose proof (rep_head _ _ Hr). wrap_solve.
Qed.

(** A buffer in which the slots after the last element have been filled with
    [vs] holds [l ++ vs]. *)
Lemma rep_filled q l vs buf tail :
  rep q l -> length l + length vs <= q_capacity q -> length buf = q_capacity q ->
  tail = wrap (q_capacity q) (q_head q + length (l ++ vs)) ->
  (forall i, i < q_capacity q -> buf !! wrap (q_capacity q) (q_head q + i) =
     if decide (length l <= i < length l + length vs) then Some (vs !! (i - length l))
     else q_buffer q !! wrap (q_capacity q) (q_head q + i)) ->
  rep (Queue buf (q_capacity q) (q_head q) tail (length l + length vs)) (l ++ vs).
Proof.
  intros Hr Hroom Hlen Htail Hlook. split; cbn; rewrite ?length_app; try lia.
  - exact (rep_head _ _ Hr).
  - by rewrite Htail, length_app.
  - intros i Hi. rewrite Hlook by done. case_decide.
    + by rewrite lookup_app_r by lia.
    + rewrite (rep_slots _ _ Hr) by done. destruct (decide (i < length l)).
      * by rewrite lookup_app_l.
      * rewrite !lookup_ge_None_2; [done|rewrite length_app; lia|lia].
Qed.

(** The part of [append] after the buffer has been grown. *)
Lemma rep_append_room q l vs :
  rep q l -> length l + length vs <= q_capacity q ->
  exists buf tail,
    append_slots vs q = Ok (buf, tail) /\
    rep (Queue buf (q_capacity q) (q_head q) (bump (q_capacity q) tail)
           (length l + length vs)) (l ++ vs).
Proof.
  intros Hr Hroom. pose proof (rep_tail _ _ Hr). pose proof (rep_head _ _ Hr).
  pose proof (rep_length _ _ Hr). unfold append_slots.
  destruct (Nat.leb_spec (q_tail q + length vs) (q_capacity q)) as [Hend|Hend].
  - destruct (span_place_ok vs (q_tail q) (q_buffer q)) as (buf & Hrun & Hlen & Hlook);
      [by apply (rep_room q l)|].
    rewrite Hrun. res_cbn. eexists _, _. split; [done|].
    apply rep_filled; [done|done|congruence|rewrite length_app; wrap_solve|].
    intros i Hi. rewrite Hlook. repeat case_decide; same_slot.
  - cbv zeta. set (bound := q_capacity q - q_tail q).
    assert (length (take bound vs) = bound) by (rewrite length_take; wrap_solve).
    destruct (span_place_ok (take bound vs) (q_tail q) (q_buffer q))
      as (b1 & R1 & Hlen1 & L1); [apply (rep_room q l); [done|wrap_solve..]|].
    destruct (span_place_ok (drop bound vs) 0 b1) as (b2 & R2 & Hlen2 & L2).
    { intros k Hk. rewrite length_drop in Hk. rewrite L1, decide_False by wrap_solve.
      pose proof (rep_slots _ _ Hr (length l + bound + k) ltac:(wrap_solve)) as HS.
      rewrite (lookup_ge_None_2 l) in HS by lia. rewrite <-HS. f_equal. wrap_solve. }
    rewrite R1. res_cbn. rewrite R2. res_cbn. eexists _, _. split; [done|].
    apply rep_filled; [done|done|congruence|rewrite length_app; wrap_solve|].
    intros i Hi. rewrite L2, L1, length_drop.
    repeat case_decide; same_slot.
Qed.

Lemma rep_append q l vs :
  rep q l ->
  exists q', q_append vs q = Ok q' /\ rep q' (l ++ vs) /\
    q_capacity q' = if decide (length l + length vs <= q_capacity q) then q_capacity q
                    else grown (length l + length vs) (q_capacity q).
Proof.
  intros Hr. unfold q_append. rewrite (rep_size _ _ Hr).
  assert (exists q1, (if q_capacity q <? length l + length vs
                      then q_grow (length l + length vs) q else Ok q) = Ok q1 /\
    rep q1 l /\ length l + length vs <= q_capacity q1 /\
    q_capacity q1 = if decide (length l + length vs <= q_capacity q) then q_capacity q
                    else grown (length l + length vs) (q_capacity q)) as (q1 & -> & Hr1 & Hroom & Hcap).
  { destruct (Nat.ltb_spec (q_capacity q) (length l + length vs)); case_decide; try lia; [|by eauto].
    destruct (rep_grow (length l + length vs) _ _ Hr) as (q1 & ? & ? & Hcap).
    exists q1. rewrite Hcap. split_and!; try done; unfold grown; lia. }
  res_cbn. destruct (rep_append_room _ _ _ Hr1 Hroom) as (buf & tail & -> & Hr2).
  res_cbn. rewrite (rep_size _ _ Hr1). eauto.
Qed.

Lemma rep_push_back q l v :
  rep q l ->
  exists q', q_push_back v q = Ok q' /\ rep q' (l ++ [v]) /\
    q_capacity q' = if decide (length l < q_capacity q) then q_capacity q
                    else grown 0 (q_capacity q).
Proof.
  intros Hr. unfold q_push_back. rewrite (rep_size _ _ Hr). pose proof (rep_fits _ _ Hr).
  assert (exists q1, (if length l =? q_capacity q then q_grow 0 q else Ok q) = Ok q1 /\
    rep q1 l /\ length l < q_capacity q1 /\
    q_capacity q1 = if decide (length l < q_capacity q) then q_capacity q
                    else grown 0 (q_capacity q)) as (q1 & -> & Hr1 & Hroom & Hcap).
  { destruct (Nat.eqb_spec (length l) (q_capacity q)); case_decide; try lia;
      [|by eauto with lia].
    destruct (rep_grow 0 _ _ Hr) as (q1 & ? & ? & Hcap).
    exists q1. rewrite Hcap. split_and!; try done; unfold grown; lia. }
  res_cbn. destruct (rep_append_room q1 l [v] Hr1) as (buf & tail & Hrun & Hr2); [cbn; lia|].
  pose proof (rep_tail _ _ Hr1). pose proof (rep_head _ _ Hr1). unfold append_slots in Hrun.
  cbn [length span_place] in *.
  destruct (Nat.leb_spec (q_tail q1 + 1) (q_capacity q1)); [|exfalso; wrap_lia].
  destruct (slot_place (q_tail q1) v (q_buffer q1)) as [b|] eqn:E; res_cbn in *; [|done].
  simplify_eq. eexists. split; [done|]. split; [|done].
  rewrite (rep_size _ _ Hr1). by rewrite !Nat.add_1_r in Hr2.
Qed.

(** A buffer whose first [n] objects have been destroyed holds [drop n l]. *)
Lemma rep_drained q l n buf :
  rep q l -> n <= length l -> length buf = q_capacity q ->
  (forall i, i < q_capacity q -> buf !! wrap (q_capacity q) (q_head q + i) =
     if decide (i < n) then Some None else q_buffer q !! wrap (q_capacity q) (q_head q + i)) ->
  rep (Queue buf (q_capacity q) (wrap (q_capacity q) (q_head q + n)) (q_tail q)
        (length l - n)) (drop n l).
Proof.
  intros Hr Hn Hlen Hlook. pose proof (rep_tail _ _ Hr). pose proof (rep_head _ _ Hr).
  pose proof (rep_fits _ _ Hr).
  split; cbn; rewrite ?length_drop; try wrap_lia.
  intros i Hi. rewrite lookup_drop.
  destruct (decide (n + i < q_capacity q)) as [Hlt|Hge].
  - replace (wrap _ (wrap _ _ + i)) with (wrap (q_capacity q) (q_head q + (n + i))) by wrap_lia.
    rewrite Hlook, decide_False by lia. by apply (rep_slots _ _ Hr).
  - replace (wrap _ (wrap _ _ + i)) with
      (wrap (q_capacity q) (q_head q + (n + i - q_capacity q))) by wrap_lia.
    rewrite Hlook, decide_True by lia. by rewrite lookup_ge_None_2 by lia.
Qed.

Lemma rep_span_head q l n :
  rep q l -> n <= q_capacity q - q_head q -> span_is (q_buffer q) (q_head q) (take n l).
Proof.
  intros Hr Hn k v [Hk Hlt]%lookup_take_Some. rewrite <-(rep_lookup _ _ _ _ Hr Hk).
  f_equal. wrap_solve.
Qed.

Lemma rep_pop_front_to q l n :
  rep q l -> n <= length l ->
  exists q', q_pop_front_to n q = Ok (take n l, n, q') /\ rep q' (drop n l) /\
    q_capacity q' = q_capacity q.
Proof.
  intros Hr Hn. unfold q_pop_front_to. rewrite (rep_size _ _ Hr).
  pose proof (rep_tail _ _ Hr) as Ht. pose proof (rep_head _ _ Hr) as Hh.
  pose proof (rep_fits _ _ Hr) as Hf. pose proof (rep_length _ _ Hr) as Hl.
  rewrite (proj2 (Nat.leb_le _ _) Hn). res_cbn.
  set (n1 := Nat.min n (q_capacity q - q_head q)).
  assert (E1 : length (take n1 l) = n1) by (rewrite length_take; lia).
  pose proof (rep_span_head _ _ n1 Hr ltac:(lia)) as S1.
  pose proof (span_read_ok _ _ _ S1) as R1.
  destruct (span_destroy_ok _ _ _ S1) as (b1 & D1 & Hb1 & L1). rewrite E1 in *.
  rewrite R1. res_cbn. rewrite D1. res_cbn.
  destruct (Nat.eqb_spec (Nat.min (n - n1) (q_tail q)) 0) as [Hz|Hz].
  - assert (n <= q_capacity q - q_head q /\ n1 = n) as [? ->] by (split; wrap_lia). eexists. split; [f_equal; f_equal; f_equal; lia|].
    split; [|done]. replace (bump _ _) with (wrap (q_capacity q) (q_head q + n)) by wrap_lia.
    apply rep_drained; try done; [congruence|]. intros i Hi. rewrite L1.
    repeat case_decide; try reflexivity; wrap_lia.
  - set (n2 := Nat.min (n - n1) (q_tail q)) in *.
    assert (n = n1 + n2 /\ n1 = q_capacity q - q_head q) as [Hsum Hn1] by (split; wrap_lia).
    assert (E2 : length (take n2 (drop n1 l)) = n2) by (rewrite length_take, length_drop; lia).
    assert (S2 : span_is b1 0 (take n2 (drop n1 l))).
    { intros k v [Hk Hlt]%lookup_take_Some. rewrite lookup_drop in Hk.
      rewrite L1, decide_False by wrap_lia. rewrite <-(rep_lookup _ _ _ _ Hr Hk). f_equal. wrap_lia. }
    pose proof (span_read_ok _ _ _ S2) as R2.
    destruct (span_destroy_ok _ _ _ S2) as (b2 & D2 & Hb2 & L2). rewrite E2 in *.
    rewrite R2. res_cbn. rewrite D2. res_cbn. eexists. split.
    { f_equal. f_equal. f_equal; [|lia]. by rewrite take_take_drop, <-Hsum. }
    split; [|done]. replace n2 with (wrap (q_capacity q) (q_head q + n)) by wrap_lia.
    replace (length l - n1 - wrap _ _) with (length l - n) by wrap_lia.
    apply rep_drained; try done; [congruence|]. intros i Hi. rewrite L2, L1.
    repeat case_decide; try reflexivity; wrap_lia.
Qed.

Lemma rep_destroy q l : rep q l -> q_destroy q = Ok l.
Proof.
  intros Hr. destruct (rep_spans _ _ Hr) as (l1 & l2 & -> & _ & E1 & E2 & H1 & H2 & _).
  unfold q_destroy. destruct (first_range q), (second_range q). cbn [fst snd] in *. subst.
  rewrite (span_read_ok _ _ _ H1). res_cbn. rewrite (span_read_ok _ _ _ H2). done.
Qed.

Lemma rep_for_each f q l :
  rep q l ->
  exists q', q_for_each_item f q = Ok q' /\ rep q' (f <$> l) /\ q_capacity q' = q_capacity q.
Proof.
  intros Hr. destruct (rep_spans _ _ Hr) as (l1 & l2 & El & Emin & E1 & E2 & H1 & H2 & E3 & E4).
  unfold q_for_each_item.
  destruct (first_range q) as [i1 n1], (second_range q) as [i2 n2]. cbn [fst snd] in *. subst n1 n2 i2.
  pose proof (rep_tail _ _ Hr). pose proof (rep_head _ _ Hr). pose proof (rep_fits _ _ Hr).
  assert (Hlen : length l = length l1 + length l2) by (by rewrite El, length_app).
  assert (Hi1 : length l1 = 0 \/ i1 = q_head q) by (destruct l1; [by left|right; by apply E3]).
  destruct (span_update_ok f _ _ _ H1) as (b1 & U1 & Hb1 & L1). rewrite U1. res_cbn.
  assert (H2' : span_is b1 0 l2).
  { intros k v Hk. pose proof (lookup_lt_Some _ _ _ Hk). rewrite L1, decide_False by wrap_lia.
    by apply H2. }
  destruct (span_update_ok f _ _ _ H2') as (b2 & U2 & Hb2 & L2). rewrite U2. res_cbn.
  eexists. split; [done|]. split; [|done].
  split; cbn; rewrite ?length_fmap; [|apply Hr..|].
  { rewrite Hb2, Hb1. apply Hr. }
  intros i Hi. rewrite list_lookup_fmap, L2, L1. pose proof (rep_slots _ _ Hr _ Hi) as HS. subst l.
  repeat case_decide.
  - rewrite lookup_app_r by wrap_lia. f_equal. f_equal. f_equal. wrap_lia.
  - rewrite lookup_app_l by wrap_lia. f_equal. f_equal. f_equal. wrap_lia.
  - rewrite HS. rewrite (lookup_ge_None_2 (l1 ++ l2)) by (rewrite length_app; wrap_lia). done.
Qed.
End Rep.

(** * The ring buffer implements the interface of Fifo.v *)

#[export] Instance queue_fifo_ops A : FifoOps A (queue A) := {
  fifo_new := q_new; fifo_size := q_size; fifo_capacity := q_capacity; fifo_empty := q_empty;
  fifo_front := q_front; fifo_pop_front := q_pop_front; fifo_push_back := q_push_back;
  fifo_append := q_append; fifo_pop_front_to := q_pop_front_to; fifo_rep := rep }.

#[export] Instance queue_fifo A : Fifo A (queue A).
Proof.
  split; cbn.
  - intros cap. split; [apply rep_new|done].
  - intros q l Hr. split_and!; [apply Hr..|]. unfold q_empty. rewrite (rep_size _ _ Hr).
    by destruct l.
  - intros q v l. apply rep_front.
  - intros q v l. apply rep_pop_front.
  - intros q v l Hr. destruct (rep_push_back _ _ v Hr) as (q' & E & ? & Hc). exists q'.
    split_and!; try done. intros. by rewrite Hc, decide_True.
  - intros q vs l Hr. destruct (rep_append _ _ vs Hr) as (q' & E & ? & Hc). exists q'.
    split_and!; try done. intros. by rewrite Hc, decide_True.
  - intros q n l. apply rep_pop_front_to.
Qed.

(** * Runs of operations against the list specification *)

Inductive qop (A : Type) :=
  | QPush (v : A) | QAppend (vs : list A) | QPop | QPopTo (n : nat) | QForEach (f : A -> A).
Arguments QPush {A} v.
Arguments QAppend {A} vs.
Arguments QPop {A}.
Arguments QPopTo {A} n.
Arguments QForEach {A} f.

Section Runs.
Context {A : Type}.
Implicit Types (q : queue A) (l out : list A) (op : qop A).

(** One operation: the elements handed out, and the queue after it.  A [pop]
    reads [front()] first, as the callers do. *)
Definition qstep op q : res (list A * queue A) :=
  match op with
  | QPush v => q ← q_push_back v q; Ok ([], q)
  | QAppend vs => q ← q_append vs q; Ok ([], q)
  | QPop => v ← q_front q; q ← q_pop_front q; Ok ([v], q)
  | QPopTo n => '(out, _, q) ← q_pop_front_to n q; Ok (out, q)
  | QForEach f => q ← q_for_each_item f q; Ok ([], q)
  end.
Fixpoint qrun (ops : list (qop A)) q : res (list A * queue A) :=
  match ops with
  | [] => Ok ([], q)
  | op :: ops => '(out, q) ← qstep op q; '(outs, q) ← qrun ops q; Ok (out ++ outs, q)
  end.

Definition lspec op l : option (list A * list A) :=
  match op with
  | QPush v => Some ([], l ++ [v])
  | QAppend vs => Some ([], l ++ vs)
  | QPop => match l with [] => None | v :: l => Some ([v], l) end
  | QPopTo n => guard (n <= length l);; Some (take n l, drop n l)
  | QForEach f => Some ([], f <$> l)
  end.
Fixpoint lspec_run (ops : list (qop A)) l : option (list A * list A) :=
  match ops with
  | [] => Some ([], l)
  | op :: ops => '(out, l) ← lspec op l; '(outs, l) ← lspec_run ops l; Some (out ++ outs, l)
  end.
(** The greatest length the run reaches. *)
Fixpoint peak (ops : list (qop A)) l : nat :=
  match ops with
  | [] => length l
  | op :: ops => Nat.max (length l)
      match lspec op l with Some (_, l) => peak ops l | None => 0 end
  end.

Lemma qstep_rep op q l out l' :
  rep q l -> lspec op l = Some (out, l') ->
  exists q', qstep op q = Ok (out, q') /\ rep q' l' /\
    q_capacity q <= q_capacity q' /\
    (length l' <= q_capacity q -> q_capacity q' = q_capacity q).
Proof.
  intros Hr Hs. destruct op as [v|vs| |n|f]; cbn [lspec qstep] in Hs |- *; simplify_option_eq.
  - destruct (rep_push_back _ _ v Hr) as (q' & -> & ? & Hc). res_cbn. exists q'.
    rewrite length_app. cbn. unfold grown in Hc. case_decide; split_and!; try done; lia.
  - destruct (rep_append _ _ vs Hr) as (q' & -> & ? & Hc). res_cbn. exists q'.
    rewrite length_app. unfold grown in Hc. case_decide; split_and!; try done; lia.
  - destruct l as [|v l]; simplify_eq. rewrite (rep_front _ _ _ Hr). res_cbn.
    destruct (rep_pop_front _ _ _ Hr) as (q' & -> & ? & Hc). res_cbn. exists q'.
    split_and!; try done; lia.
  - destruct (rep_pop_front_to _ _ n Hr) as (q' & -> & ? & Hc); [done|]. res_cbn. exists q'.
    split_and!; try done; lia.
  - destruct (rep_for_each f _ _ Hr) as (q' & -> & ? & Hc). res_cbn. exists q'.
    split_and!; try done; lia.
Qed.

(** C9. Every run of queue operations hands out exactly what the same run
    on a plain list hands out, never touches a slot in the wrong state, and
    ends in a buffer that holds that list - through wrap-around, growth and
    bulk transfers.  The destructor then destroys each remaining element
    exactly once. *)
Theorem ring_queue_refines ops q l outs l' :
  rep q l -> lspec_run ops l = Some (outs, l') ->
  exists q', qrun ops q = Ok (outs, q') /\ rep q' l' /\ q_destroy q' = Ok l'.
Proof.
  revert q l outs. induction ops as [|op ops IH]; intros q l outs Hr Hs; cbn in Hs |- *.
  - simplify_eq. eauto using rep_destroy.
  - apply bind_Some in Hs as ([out l1] & H1 & Hs).
    apply bind_Some in Hs as ([outs' l2] & H2 & Hs). simplify_eq.
    destruct (qstep_rep _ _ _ _ _ Hr H1) as (q1 & -> & Hr1 & _). res_cbn.
    destruct (IH _ _ _ Hr1 H2) as (q2 & -> & ? & ?). res_cbn. eauto.
Qed.

(** A queue never loses capacity, and a run whose length never exceeds
    the current capacity performs no reallocation at all. *)
Theorem queue_no_realloc ops q l outs l' :
  rep q l -> lspec_run ops l = Some (outs, l') ->
  exists q', qrun ops q = Ok (outs, q') /\ q_capacity q <= q_capacity q' /\
    (peak ops l <= q_capacity q -> q_capacity q' = q_capacity q).
Proof.
  revert q l outs. induction ops as [|op ops IH]; intros q l outs Hr Hs; cbn in Hs |- *.
  - simplify_eq. eauto.
  - apply bind_Some in Hs as ([out l1] & H1 & Hs).
    apply bind_Some in Hs as ([outs' l2] & H2 & Hs). simplify_eq. rewrite H1.
    destruct (qstep_rep _ _ _ _ _ Hr H1) as (q1 & -> & Hr1 & Hle & Hc). res_cbn.
    destruct (IH _ _ _ Hr1 H2) as (q2 & -> & Hle2 & Hc2). res_cbn.
    exists q2. split; [done|]. split; [lia|]. intros Hp.
    assert (length l1 <= peak ops l1) by (destruct ops; cbn; lia). lia.
Qed.
End Runs.

Definition demo_qops : list (qop nat) :=
  [QPush 1; QPush 2; QPush 3; QPop; QPop; QAppend [4; 5; 6]; QPopTo 2; QForEach S; QPush 9].

Lemma ring_queue_refines_witness :
  exists q', qrun demo_qops (q_new 4) = Ok ([1; 2; 3; 4], q') /\ rep q' [6; 7; 9] /\
    q_destroy q' = Ok [6; 7; 9].
Proof. apply (ring_queue_refines demo_qops (q_new 4) [] _ _ (rep_new 4) eq_refl). Defined.

Lemma queue_no_realloc_witness :
  exists q', qrun demo_qops (q_new 4) = Ok ([1; 2; 3; 4], q') /\ 4 <= q_capacity q' /\
    (peak demo_qops [] <= 4 -> q_capacity q' = 4).
Proof. apply (queue_no_realloc demo_qops (q_new 4) [] _ _ (rep_new 4) eq_refl). Defined.
