(* ===== verification/Waker.v ===== *)
(** The interface between a component that parks awaiters and whatever resumes
    coroutines for it.

    A [Handle] of the code is a pointer to a coroutine frame, possibly
    [std::noop_coroutine()].  A component that calls [handle.resume()] only
    relies on the promise [WakerSpec]: the resumption is recorded once, in
    order.  [Executor.v] discharges it for the task frames of the library,
    whose resume function posts to the executor's ready queue; the log instance
    below is the smallest implementation. *)
From S2P Require Export IntrusiveList.

(** A coroutine handle: [std::noop_coroutine()] or the frame at an address. *)
Inductive handle := Noop | Coro (c : loc).

#[export] Instance handle_eq_dec : EqDecision handle.
Proof. solve_decision. Defined.

Definition handle_coro (h : handle) : list loc :=
  match h with Noop => [] | Coro c => [c] end.

(** What a component asks of the world: [resume h] is [h.resume()], [resumed]
    the coroutines resumed so far, oldest first. *)
Class Waker (W : Type) := { resume : handle -> W -> W; resumed : W -> list loc }.

Class WakerSpec (W : Type) `{Waker W} :=
  resumed_resume : forall (h : handle) (w : W), resumed (resume h w) = resumed w ++ handle_coro h.

(** The log of resumptions itself. *)
Abbreviation wlog := (list loc).
#[export] Instance log_waker : Waker wlog :=
  { resume h w := w ++ handle_coro h; resumed w := w }.
#[export] Instance log_waker_spec : WakerSpec wlog.
Proof. done. Qed.

(** Removing an item from a list of parked awaiters: what [unlink()] does to
    the list that holds it (IntrusiveList.v). *)
Definition without (a : loc) (l : list loc) : list loc := filter (fun x => x <> a) l.
Arguments without : simpl never.

Lemma elem_without a x l : x ∈ without a l <-> x ∈ l /\ x <> a.
Proof. unfold without. rewrite list_elem_of_filter. tauto. Qed.
Lemma NoDup_without a l : NoDup l -> NoDup (without a l).
Proof. apply NoDup_filter. Qed.
Lemma without_id a l : a ∉ l -> without a l = l.
Proof.
  induction l as [|x l IH]; [done|]. rewrite not_elem_of_cons. intros [Hx Hl].
  unfold without in *. rewrite filter_cons_True by congruence. by rewrite IH.
Qed.
Lemma without_cons a l : without a (a :: l) = without a l.
Proof. unfold without. rewrite filter_cons_False; [done|tauto]. Qed.
Lemma without_cons_ne a x l : x <> a -> without a (x :: l) = x :: without a l.
Proof. intros. unfold without. by rewrite filter_cons_True. Qed.
Lemma without_head a l : NoDup (a :: l) -> without a (a :: l) = l.
Proof. intros Hn. rewrite without_cons. apply without_id. by inversion_clear Hn. Qed.
Lemma without_app a l1 l2 : without a (l1 ++ l2) = without a l1 ++ without a l2.
Proof. apply filter_app. Qed.
Lemma length_without a l : length (without a l) <= length l.
Proof. apply length_filter. Qed.
Lemma without_sublist a l : without a l `sublist_of` l.
Proof. apply sublist_filter. Qed.
Lemma NoDup_push a l : NoDup l -> NoDup (without a l ++ [a]).
Proof.
  intros. apply NoDup_app. split_and!; [by apply NoDup_without| |apply NoDup_singleton].
  intros x Hx. rewrite elem_without in Hx. rewrite list_elem_of_singleton. tauto.
Qed.
#[export] Hint Resolve NoDup_without NoDup_push without_sublist : corral.
