(* ===== verification/ParkingLot.v ===== *)
(** The intrusive wait queue shared by ParkingLot, Event and Semaphore
    ([detail/ParkingLot.h]), with [ParkingLot.h] and [Event.h] on top of it.

    The awaiter objects live in a store [aws], the queue [parked_] is the list
    of their addresses.  Resuming a coroutine is not the end of the story: the
    code calls [handle.resume()] in the middle of [unparkAll()], and the resumed
    coroutine may come back to the same object before it returns.  [react c]
    is what coroutine [c] does then: await the object again, with a new
    awaiter, or cancel an awaiter that is still waiting.  It may also wake others in
    its turn; then the calls are on a stack, and [nest] has them one step at a time. *)
From S2P Require Export Waker.

(** [ParkingLotImpl<Self>::Parked]: the bits next to the object pointer and the
    handle to resume. *)
Record parked := Parked { pbits : nat; handle_ : handle }.

(** [ParkingLotImpl<Self>]; [triggered_] is Event's flag, always [false] in a
    ParkingLot. *)
Record lot (W : Type) := Lot {
  parked_ : list loc; triggered_ : bool; aws : gmap loc parked; world : W }.
Arguments Lot {W} _ _ _ _.
Arguments parked_ {W} _.
Arguments triggered_ {W} _.
Arguments aws {W} _.
Arguments world {W} _.

(** What a coroutine does to the object when it is resumed. *)
Inductive reaction := RAwait (a : loc) (h : handle) | RCancel (a : loc).

Section Lot.
Context {W : Type} `{!Waker W} (react : loc -> list reaction).
Implicit Types (s : lot W) (l : list loc).

Definition new_lot (w : W) : lot W := Lot [] false ∅ w.

(** [Parked::Parked(object, bits)] *)
Definition new_parked (a : loc) (bits : nat) (s : lot W) : lot W :=
  Lot (parked_ s) (triggered_ s) (<[a := Parked bits Noop]> (aws s)) (world s).
(** [Parked::bits()] and [setBits()] *)
Definition bits_of (a : loc) (s : lot W) : res nat := p ← deref (aws s !! a); Ok (pbits p).
Definition set_bits (a : loc) (b : nat) (s : lot W) : res (lot W) :=
  p ← deref (aws s !! a);
  Ok (Lot (parked_ s) (triggered_ s) (<[a := Parked b (handle_ p)]> (aws s)) (world s)).

(** [Parked::doSuspend(h)] *)
Definition doSuspend (a : loc) (h : handle) (s : lot W) : res (lot W) :=
  p ← deref (aws s !! a);
  Ok (Lot (without a (parked_ s) ++ [a]) (triggered_ s)
          (<[a := Parked (pbits p) h]> (aws s)) (world s)).

(** [Parked::await_cancel()]; it answers [true]. *)
Definition await_cancel (a : loc) (s : lot W) : res (bool * lot W) :=
  p ← deref (aws s !! a);
  Ok (true, Lot (without a (parked_ s)) (triggered_ s)
                (<[a := Parked (pbits p) Noop]> (aws s)) (world s)).

(** One thing a resumed coroutine does while the items of [l] sit in another
    list of the same kind.  Awaiting is [await_ready()] and, when it says
    no, the construction of the awaiter and [doSuspend()]. *)
Definition do_reaction (r : reaction) '((l, s) : list loc * lot W) : res (list loc * lot W) :=
  match r with
  | RAwait a h =>
      if triggered_ s then Ok (l, s)
      else s ← doSuspend a h (new_parked a 0 s); Ok (without a l, s)
  | RCancel a =>
      if bool_decide (a ∈ l ++ parked_ s)
      then '(_, s) ← await_cancel a s; Ok (without a l, s) else Ok (l, s)
  end.
Fixpoint do_reactions (rs : list reaction) (ls : list loc * lot W) : res (list loc * lot W) :=
  match rs with [] => Ok ls | r :: rs => ls ← do_reaction r ls; do_reactions rs ls end.

(** [Parked::unpark()] of an item that is in [parked_] or in the local list
    [l] of [unparkAll()]: unlink it, take its handle, resume. *)
Definition unpark (a : loc) '((l, s) : list loc * lot W) : res (list loc * lot W) :=
  p ← deref (aws s !! a);
  let l := without a l in
  let s := Lot (without a (parked_ s)) (triggered_ s)
               (<[a := Parked (pbits p) Noop]> (aws s)) (resume (handle_ p) (world s)) in
  do_reactions (handle_coro (handle_ p) ≫= react) (l, s).

(** [ParkingLotImpl::peek()] and [empty()] *)
Definition peek (s : lot W) : option loc := head (parked_ s).
Definition lot_empty (s : lot W) : bool := bool_decide (parked_ s = []).

(** [ParkingLotImpl::unparkOne()] *)
Definition unparkOne (s : lot W) : res (lot W) :=
  match parked_ s with [] => Ok s | a :: _ => '(_, s) ← unpark a ([], s); Ok s end.

(** [ParkingLotImpl::unparkAll()]: the loop over the list moved away. *)
Fixpoint unpark_loop (fuel : nat) (l : list loc) (s : lot W) : res (lot W) :=
  match l with
  | [] => Ok s
  | a :: _ => match fuel with
              | O => Fault OutOfFuel
              | S fuel => '(l, s) ← unpark a (l, s); unpark_loop fuel l s
              end
  end.
Definition unparkAll (s : lot W) : res (lot W) :=
  unpark_loop (length (parked_ s)) (parked_ s)
    (Lot [] (triggered_ s) (aws s) (world s)).

(** [~ParkingLotImpl()] *)
Definition destroy_lot (s : lot W) : res unit := corral_assert (lot_empty s).

(** [ParkingLot::Awaiter]: never ready, so a wait always suspends. *)
Definition park (a : loc) (h : handle) (s : lot W) : res (lot W) :=
  doSuspend a h (new_parked a 0 s).

(** [Event::Awaiter::await_ready()], [Event::trigger()], and a whole
    [co_await event]: whether it suspended, and the object after it. *)
Definition event_ready (s : lot W) : bool := triggered_ s.
Definition trigger (s : lot W) : res (lot W) :=
  unparkAll (Lot (parked_ s) true (aws s) (world s)).
Definition event_await (a : loc) (h : handle) (s : lot W) : res (bool * lot W) :=
  let s := new_parked a 0 s in
  if event_ready s then Ok (false, s) else s ← doSuspend a h s; Ok (true, s).

(** * Well-formedness *)

Definition handle_of (s : lot W) (a : loc) : list loc :=
  match aws s !! a with Some p => handle_coro (handle_ p) | None => [] end.

(** [l] is the local list of a running [unparkAll()], [[]] outside one. *)
Record lot_wf (l : list loc) (s : lot W) : Prop := {
  wf_nodup : NoDup (l ++ parked_ s);
  wf_aws : forall a, a ∈ l ++ parked_ s -> is_Some (aws s !! a) }.

Lemma lot_wf_without a l s :
  lot_wf l s -> NoDup (without a l ++ without a (parked_ s)).
Proof. intros [Hn _]. rewrite <- without_app. by apply NoDup_without. Qed.

Definition awaits (rs : list reaction) (a : loc) : Prop := exists h, RAwait a h ∈ rs.
Definition touches (t : bool) (rs : list reaction) (a : loc) : Prop :=
  (t = false /\ awaits rs a) \/ RCancel a ∈ rs.

(** What a batch of reactions may have done to the two lists. *)
Record reacted (rs : list reaction) (l : list loc) (s : lot W) (l' : list loc) (s' : lot W)
    : Prop := {
  re_wf : lot_wf l' s';
  re_world : world s' = world s;
  re_trig : triggered_ s' = triggered_ s;
  re_sub : l' `sublist_of` l;
  re_gone : forall a, a ∈ l -> a ∉ l' -> touches (triggered_ s) rs a;
  re_handle : forall a, a ∈ l' -> aws s' !! a = aws s !! a;
  re_parked : forall a, a ∈ parked_ s' -> a ∈ parked_ s \/ (triggered_ s = false /\ awaits rs a);
  re_kept : forall a, a ∈ parked_ s -> a ∉ parked_ s' -> touches (triggered_ s) rs a }.

Lemma suspend_ok a h l s p :
  lot_wf l s -> aws s !! a = Some p ->
  exists s', doSuspend a h s = Ok s' /\ lot_wf (without a l) s' /\
    parked_ s' = without a (parked_ s) ++ [a] /\ world s' = world s /\
    triggered_ s' = triggered_ s /\ aws s' = <[a := Parked (pbits p) h]> (aws s).
Proof.
  intros Hwf Ha. unfold doSuspend. rewrite Ha. res_cbn. eexists. split; [done|]. cbn.
  split_and!; try done. split; cbn.
  - rewrite app_assoc. apply NoDup_app. split_and!; [by apply lot_wf_without| |apply NoDup_singleton].
    intros x. rewrite elem_of_app, !elem_without, list_elem_of_singleton. tauto.
  - intros x. rewrite !elem_of_app, !elem_without, list_elem_of_singleton.
    destruct (decide (x = a)) as [->|Hx]; [by rewrite lookup_insert_eq|].
    rewrite lookup_insert_ne by done. intros ?. apply (wf_aws _ _ Hwf). set_solver.
Qed.

Lemma cancel_ok a l s :
  lot_wf l s -> a ∈ l ++ parked_ s ->
  exists s', await_cancel a s = Ok (true, s') /\ lot_wf (without a l) s' /\
    parked_ s' = without a (parked_ s) /\ world s' = world s /\
    triggered_ s' = triggered_ s /\ (forall x, x <> a -> aws s' !! x = aws s !! x).
Proof.
  intros Hwf Ha. destruct (wf_aws _ _ Hwf _ Ha) as [p Hp]. unfold await_cancel. rewrite Hp.
  res_cbn. eexists. split; [done|]. cbn. split_and!; try done.
  2: { intros x Hx. by rewrite lookup_insert_ne. }
  split; cbn; [by apply lot_wf_without|]. intros x. rewrite elem_of_app, !elem_without.
  intros Hx. rewrite lookup_insert_ne by naive_solver. apply (wf_aws _ _ Hwf). set_solver.
Qed.

Lemma reaction_ok r l s :
  lot_wf l s -> exists l' s', do_reaction r (l, s) = Ok (l', s') /\ reacted [r] l s l' s'.
Proof.
  intros Hwf.
  assert (Hid : reacted [r] l s l s) by (split; naive_solver).
  destruct r as [a h|a]; cbn.
  - destruct (triggered_ s) eqn:Ht; [by eauto|].
    assert (Hwf' : lot_wf l (new_parked a 0 s)).
    { split; cbn; [apply Hwf|]. intros x Hx. destruct (decide (x = a)) as [->|];
        [by rewrite lookup_insert_eq|rewrite lookup_insert_ne by done; by apply (wf_aws _ _ Hwf)]. }
    destruct (suspend_ok a h l _ _ Hwf' (lookup_insert_eq _ _ _))
      as (s' & -> & Hw & Hp & Hww & Ht' & Ha'). res_cbn.
    do 2 eexists. split; [done|]. cbn in *. split; try done.
    + apply without_sublist.
    + intros x Hx Hx'. rewrite elem_without in Hx'. left. split; [done|]. exists h.
      destruct (decide (x = a)) as [->|]; [apply list_elem_of_here|tauto].
    + intros x Hx. rewrite elem_without in Hx. rewrite Ha', !lookup_insert_ne by naive_solver. done.
    + intros x. rewrite Hp, elem_of_app, elem_without, list_elem_of_singleton.
      intros [[]| ->]; [tauto|right; split; [done|exists h; apply list_elem_of_here]].
    + intros x Hx. rewrite Hp, elem_of_app, elem_without, list_elem_of_singleton. left. split; [done|].
      exists h.
      destruct (decide (x = a)) as [->|]; [apply list_elem_of_here|tauto].
  - case_bool_decide as Ha; [|by eauto].
    destruct (cancel_ok a l s Hwf Ha) as (s' & -> & Hw & Hp & Hww & Ht' & Ha'). res_cbn.
    do 2 eexists. split; [done|]. split; try done.
    + apply without_sublist.
    + intros x Hx Hx'. rewrite elem_without in Hx'. right.
      destruct (decide (x = a)) as [->|]; [apply list_elem_of_here|tauto].
    + intros x Hx. rewrite elem_without in Hx. apply Ha'; tauto.
    + intros x. rewrite Hp, elem_without. tauto.
    + intros x Hx. rewrite Hp, elem_without. right.
      destruct (decide (x = a)) as [->|]; [apply list_elem_of_here|tauto].
Qed.

Lemma reacted_trans rs1 rs2 l s l1 s1 l2 s2 :
  reacted rs1 l s l1 s1 -> reacted rs2 l1 s1 l2 s2 -> reacted (rs1 ++ rs2) l s l2 s2.
Proof.
  assert (Hl : forall t a, touches t rs1 a -> touches t (rs1 ++ rs2) a).
  { unfold touches, awaits. set_solver. }
  assert (Hr : forall t a, touches t rs2 a -> touches t (rs1 ++ rs2) a).
  { unfold touches, awaits. set_solver. }
  intros H1 H2. pose proof (re_sub _ _ _ _ _ H2) as Hs. split.
  - apply H2.
  - by rewrite (re_world _ _ _ _ _ H2), (re_world _ _ _ _ _ H1).
  - by rewrite (re_trig _ _ _ _ _ H2), (re_trig _ _ _ _ _ H1).
  - by etrans; [|apply H1].
  - intros a Ha Ha'. destruct (decide (a ∈ l1)) as [H|H].
    + apply Hr. rewrite <- (re_trig _ _ _ _ _ H1). by apply (re_gone _ _ _ _ _ H2).
    + apply Hl. by apply (re_gone _ _ _ _ _ H1).
  - intros a Ha. rewrite (re_handle _ _ _ _ _ H2), (re_handle _ _ _ _ _ H1); [done| |done].
    eapply elem_of_sublist; [|exact Hs]. done.
  - intros a Ha. destruct (re_parked _ _ _ _ _ H2 _ Ha) as [H|[Ht [h H]]].
    + destruct (re_parked _ _ _ _ _ H1 _ H) as [?|[? [h ?]]]; [by left|].
      right. split; [done|]. exists h. set_solver.
    + right. rewrite <- (re_trig _ _ _ _ _ H1). split; [done|]. exists h. set_solver.
  - intros a Ha Ha'. destruct (decide (a ∈ parked_ s1)) as [H|H].
    + apply Hr. rewrite <- (re_trig _ _ _ _ _ H1). by apply (re_kept _ _ _ _ _ H2).
    + apply Hl. by apply (re_kept _ _ _ _ _ H1).
Qed.

Lemma reactions_ok rs l s :
  lot_wf l s -> exists l' s', do_reactions rs (l, s) = Ok (l', s') /\ reacted rs l s l' s'.
Proof.
  revert l s. induction rs as [|r rs IH]; intros l s Hwf.
  - exists l, s. split; [done|]. split; naive_solver.
  - destruct (reaction_ok r l s Hwf) as (l1 & s1 & E1 & H1).
    destruct (IH _ _ (re_wf _ _ _ _ _ H1)) as (l2 & s2 & E2 & H2).
    exists l2, s2. cbn [do_reactions]. rewrite E1. split; [exact E2|].
    exact (reacted_trans [r] rs _ _ _ _ _ _ H1 H2).
Qed.

(** Unparking the first item of the local list. *)
Lemma unpark_ok `{!WakerSpec W} a l s :
  lot_wf (a :: l) s ->
  exists l' s' s1, unpark a (a :: l, s) = Ok (l', s') /\
    reacted (handle_of s a ≫= react) l s1 l' s' /\
    parked_ s1 = parked_ s /\ triggered_ s1 = triggered_ s /\
    resumed (world s1) = resumed (world s) ++ handle_of s a /\
    (forall x, x <> a -> aws s1 !! x = aws s !! x).
Proof.
  intros Hwf. destruct (wf_aws _ _ Hwf a ltac:(set_solver)) as [p Hp].
  pose proof (wf_nodup _ _ Hwf) as Hn. cbn in Hn. apply NoDup_cons in Hn as [Ha Hn].
  set (s1 := Lot (parked_ s) (triggered_ s) (<[a := Parked (pbits p) Noop]> (aws s))
                 (resume (handle_ p) (world s))).
  assert (Hwf1 : lot_wf l s1).
  { split; [done|]. cbn. intros x Hx. rewrite lookup_insert_ne by naive_solver.
    apply (wf_aws _ _ Hwf). set_solver. }
  destruct (reactions_ok (handle_coro (handle_ p) ≫= react) _ _ Hwf1) as (l' & s' & E & HR).
  assert (HE : handle_of s a = handle_coro (handle_ p)) by (unfold handle_of; by rewrite Hp).
  exists l', s', s1. unfold unpark. rewrite Hp, HE. res_cbn.
  rewrite without_cons, (without_id a l), (without_id a (parked_ s)) by set_solver.
  split_and!; try done.
  - cbn. apply resumed_resume.
  - intros x Hx. cbn. by rewrite lookup_insert_ne.
Qed.

(** The items a complete [unparkAll()] loop over [l] resumes. *)
Record unparked (l : list loc) (s : lot W) (ws : list loc) (s' : lot W) : Prop := {
  up_wf : lot_wf [] s';
  up_trig : triggered_ s' = triggered_ s;
  up_sub : ws `sublist_of` l;
  up_resumed : resumed (world s') = resumed (world s) ++ (ws ≫= handle_of s);
  up_skipped : forall a, a ∈ l -> a ∉ ws ->
    exists w, w ∈ ws /\ touches (triggered_ s) (handle_of s w ≫= react) a;
  up_parked : forall a, a ∈ parked_ s' -> a ∈ parked_ s \/
    (triggered_ s = false /\ exists w, w ∈ ws /\ awaits (handle_of s w ≫= react) a);
  up_kept : forall a, a ∈ parked_ s -> a ∉ parked_ s' ->
    exists w, w ∈ ws /\ touches (triggered_ s) (handle_of s w ≫= react) a }.

Lemma bind_handles_ext (ws : list loc) (s1 s2 : lot W) :
  (forall a, a ∈ ws -> aws s1 !! a = aws s2 !! a) -> ws ≫= handle_of s1 = ws ≫= handle_of s2.
Proof.
  intros He. induction ws as [|w ws IH]; [done|]. cbn. unfold handle_of at 1 3.
  rewrite (He w) by set_solver. f_equal. apply IH. set_solver.
Qed.

Lemma unparked_nil s : lot_wf [] s -> unparked [] s [] s.
Proof. intros Hw. split; try done; [by rewrite app_nil_r|naive_solver]. Qed.

Lemma unpark_loop_ok `{!WakerSpec W} fuel l s :
  lot_wf l s -> length l <= fuel ->
  exists ws s', unpark_loop fuel l s = Ok s' /\ unparked l s ws s'.
Proof.
  revert l s. induction fuel as [|fuel IH]; intros l s Hwf Hf;
    destruct l as [|a l]; cbn [length] in Hf; try lia.
  1,2: exists [], s; split; [done|by apply unparked_nil].
  destruct (unpark_ok a l s Hwf) as (l1 & s2 & s1 & E & HR & Hp & Ht & Hr & Ha).
  pose proof (sublist_length _ _ (re_sub _ _ _ _ _ HR)).
  destruct (IH l1 s2 (re_wf _ _ _ _ _ HR) ltac:(lia)) as (ws & s' & E' & HU).
  assert (Hin : forall x, x ∈ l1 -> x ∈ l).
  { intros x Hx. eapply elem_of_sublist; [exact Hx|apply HR]. }
  assert (Hh : forall x, x ∈ ws -> aws s2 !! x = aws s !! x).
  { intros x Hx. pose proof (elem_of_sublist _ _ _ Hx (up_sub _ _ _ _ HU)) as Hx1.
    rewrite (re_handle _ _ _ _ _ HR) by done. apply Ha. intros ->.
    pose proof (wf_nodup _ _ Hwf) as Hn. cbn in Hn. apply NoDup_cons in Hn as [Hn _].
    apply Hin in Hx1. set_solver. }
  assert (Hh' : forall x, x ∈ ws -> handle_of s2 x = handle_of s x).
  { intros x Hx. unfold handle_of. by rewrite Hh. }
  assert (Hts : triggered_ s2 = triggered_ s) by (rewrite (re_trig _ _ _ _ _ HR); done).
  exists (a :: ws), s'. cbn [unpark_loop]. rewrite E. res_cbn. split; [done|].
  split.
  - apply HU.
  - rewrite (up_trig _ _ _ _ HU), (re_trig _ _ _ _ _ HR). done.
  - apply sublist_skip. etrans; apply HU || apply HR.
  - rewrite (up_resumed _ _ _ _ HU), (re_world _ _ _ _ _ HR), Hr. cbn.
    rewrite (bind_handles_ext ws s2 s Hh). by rewrite (assoc_L (++)).
  - intros x Hx Hnx. apply not_elem_of_cons in Hnx as [Hxa Hxw].
    apply elem_of_cons in Hx as [->|Hx]; [done|].
    destruct (decide (x ∈ l1)) as [Hx1|Hx1].
    + destruct (up_skipped _ _ _ _ HU _ Hx1 Hxw) as (w & Hw & HT). exists w.
      rewrite <- (Hh' w Hw), <- Hts. split; [set_solver|done].
    + exists a. split; [set_solver|]. rewrite <- Ht. by apply (re_gone _ _ _ _ _ HR).
  - intros x Hx. destruct (up_parked _ _ _ _ HU _ Hx) as [Hx2|(Hf2 & w & Hw & HT)].
    + destruct (re_parked _ _ _ _ _ HR _ Hx2) as [?|[Hf1 ?]]; [left; congruence|right].
      split; [congruence|]. exists a. set_solver.
    + right. rewrite (re_trig _ _ _ _ _ HR) in Hf2. split; [congruence|]. exists w.
      rewrite <- (Hh' w Hw). set_solver.
  - intros x Hx Hnx. destruct (decide (x ∈ parked_ s2)) as [Hx2|Hx2].
    + destruct (up_kept _ _ _ _ HU _ Hx2 Hnx) as (w & Hw & HT). exists w.
      rewrite <- (Hh' w Hw), <- Hts. split; [set_solver|done].
    + exists a. split; [set_solver|]. rewrite <- Ht. apply (re_kept _ _ _ _ _ HR); [congruence|done].
Qed.

Lemma lot_wf_moved l s t : lot_wf [] s -> l = parked_ s -> lot_wf l (Lot [] t (aws s) (world s)).
Proof. intros [Hn Ha] ->. split; cbn; rewrite app_nil_r; done. Qed.

(** [unparkAll()] always terminates, whatever reactions of these two kinds the
    coroutines have that it resumes: it resumes, in the order they parked,
    awaiters that were parked when the call began, each once; one of those that
    it does not resume was cancelled or re-parked by a coroutine it did resume;
    and what is parked afterwards was parked by those coroutines. *)
Theorem unparkAll_with_reactions `{!WakerSpec W} s :
  lot_wf [] s ->
  exists ws s', unparkAll s = Ok s' /\ lot_wf [] s' /\ ws `sublist_of` parked_ s /\
    resumed (world s') = resumed (world s) ++ (ws ≫= handle_of s) /\
    (forall a, a ∈ parked_ s -> a ∉ ws ->
       exists w, w ∈ ws /\ touches (triggered_ s) (handle_of s w ≫= react) a) /\
    (forall a, a ∈ parked_ s' -> exists w, w ∈ ws /\ awaits (handle_of s w ≫= react) a).
Proof.
  intros Hwf. pose proof (lot_wf_moved _ s (triggered_ s) Hwf eq_refl) as Hm.
  destruct (unpark_loop_ok _ _ _ Hm (le_n _)) as (ws & s' & E & HU).
  exists ws, s'. unfold unparkAll. split_and!; try done; try apply HU.
  intros a Ha. destruct (up_parked _ _ _ _ HU _ Ha) as [Hn|[_ Hw]]; [set_solver|exact Hw].
Qed.

Lemma trigger_ok `{!WakerSpec W} s :
  lot_wf [] s ->
  exists ws s', trigger s = Ok s' /\ lot_wf [] s' /\ triggered_ s' = true /\ parked_ s' = [] /\
    ws `sublist_of` parked_ s /\
    resumed (world s') = resumed (world s) ++ (ws ≫= handle_of s) /\
    (forall a, a ∈ parked_ s -> a ∉ ws ->
       exists w, w ∈ ws /\ RCancel a ∈ handle_of s w ≫= react).
Proof.
  intros Hwf. pose proof (lot_wf_moved _ s true Hwf eq_refl) as Hm.
  destruct (unpark_loop_ok _ _ _ Hm (le_n _)) as (ws & s' & E & HU).
  exists ws, s'. unfold trigger, unparkAll. cbn. split_and!; try done; try apply HU.
  - apply elem_of_nil_inv. intros a Ha.
    destruct (up_parked _ _ _ _ HU _ Ha) as [Hn|[[=] _]]. set_solver.
  - intros a Ha Hn. destruct (up_skipped _ _ _ _ HU _ Ha Hn) as (w & Hw & [[[=] _]|H]). eauto.
Qed.

(** [Event::trigger()] terminates and leaves the
    event triggered with nobody waiting: every awaiter is resumed once, in the
    order they started to wait, unless a coroutine resumed before it cancelled it. *)
Theorem event_trigger_wakes_all `{!WakerSpec W} s :
  lot_wf [] s ->
  exists ws s', trigger s = Ok s' /\ triggered_ s' = true /\ parked_ s' = [] /\
    ws `sublist_of` parked_ s /\
    resumed (world s') = resumed (world s) ++ (ws ≫= handle_of s) /\
    (forall a, a ∈ parked_ s -> a ∉ ws ->
       exists w, w ∈ ws /\ RCancel a ∈ handle_of s w ≫= react).
Proof. intros Hwf. destruct (trigger_ok s Hwf) as (ws & s' & ?). exists ws, s'. tauto. Qed.

(** * Runs of an event *)

Inductive event_op := EAwait (a : loc) (h : handle) | ECancel (a : loc) | ETrigger.

Definition estep (op : event_op) (s : lot W) : res (lot W) :=
  match op with
  | EAwait a h => '(_, s) ← event_await a h s; Ok s
  | ECancel a => '(_, s) ← do_reaction (RCancel a) ([], s); Ok s
  | ETrigger => trigger s
  end.
Fixpoint erun (ops : list event_op) (s : lot W) : res (lot W) :=
  match ops with [] => Ok s | op :: ops => s ← estep op s; erun ops s end.
Definition is_trigger (op : event_op) : bool := match op with ETrigger => true | _ => false end.

Record event_inv (t : bool) (s : lot W) : Prop := {
  ei_wf : lot_wf [] s; ei_trig : triggered_ s = t; ei_none : t = true -> parked_ s = [] }.

Lemma new_parked_wf a b s : lot_wf [] s -> lot_wf [] (new_parked a b s).
Proof.
  intros Hwf. split; [apply Hwf|]. cbn. intros x Hx.
  destruct (decide (x = a)) as [->|]; [by rewrite lookup_insert_eq|].
  rewrite lookup_insert_ne by done. by apply (wf_aws _ _ Hwf).
Qed.

Lemma estep_inv `{!WakerSpec W} op t s :
  event_inv t s -> exists s', estep op s = Ok s' /\ event_inv (t || is_trigger op) s'.
Proof.
  intros [Hwf Ht Hn]. destruct op as [a h|a|]; cbn [estep is_trigger].
  - unfold event_await, event_ready. cbn. rewrite Ht, orb_false_r. destruct t.
    + res_cbn. eexists. split; [done|]. split; [by apply new_parked_wf|done|by auto].
    + destruct (suspend_ok a h [] (new_parked a 0 s) _ (new_parked_wf a 0 s Hwf)
        (lookup_insert_eq _ _ _)) as (s' & -> & Hw & Hp & _ & Ht' & _). res_cbn.
      exists s'. split; [done|]. split; [done|by rewrite Ht'|done].
  - destruct (reaction_ok (RCancel a) [] s Hwf) as (l' & s' & -> & HR). res_cbn.
    exists s'. rewrite orb_false_r. split; [done|]. pose proof (re_sub _ _ _ _ _ HR) as Hl.
    apply sublist_nil_r in Hl as ->. split; [apply HR| |].
    + rewrite (re_trig _ _ _ _ _ HR). done.
    + intros Htt. apply elem_of_nil_inv. intros x Hx.
      destruct (re_parked _ _ _ _ _ HR _ Hx) as [Hx'|[? _]]; [|congruence].
      rewrite Hn in Hx' by done. set_solver.
  - destruct (trigger_ok s Hwf) as (ws & s' & -> & ? & ? & ? & _). exists s'. split; [done|].
    rewrite orb_true_r. by split.
Qed.

(** However an event is used, and whatever its
    waiters do when resumed, no operation fails; the event is triggered exactly
    if [trigger()] was called; once it is, nobody is left waiting, awaiting it
    does not suspend, and it can be destroyed. *)
Theorem event_level_triggered `{!WakerSpec W} ops w :
  exists s, erun ops (new_lot w) = Ok s /\ triggered_ s = existsb is_trigger ops /\
    (triggered_ s = true -> parked_ s = [] /\ destroy_lot s = Ok () /\
       forall a h, exists s', event_await a h s = Ok (false, s')).
Proof.
  assert (H : forall t s, event_inv t s ->
    exists s', erun ops s = Ok s' /\ event_inv (t || existsb is_trigger ops) s').
  { clear w. induction ops as [|op ops IH]; intros t s Hs; cbn [erun existsb].
    - exists s. by rewrite orb_false_r.
    - destruct (estep_inv op t s Hs) as (s1 & -> & H1). res_cbn. rewrite orb_assoc. by apply IH. }
  assert (H0 : event_inv false (new_lot w)).
  { split; [split; [apply NoDup_nil_2|set_solver]|done|done]. }
  destruct (H _ _ H0) as (s & E & [Hwf Ht Hn]). exists s. cbn in Ht. split_and!; try done.
  intros Htt. rewrite Htt in Ht. symmetry in Ht. specialize (Hn Ht). split_and!; [done| |].
  - unfold destroy_lot, lot_empty. by rewrite Hn.
  - intros a h. unfold event_await, event_ready. cbn. rewrite Htt. eauto.
Qed.
End Lot.

(** * Lots whose waiters do not come back during the call *)

Definition no_react : loc -> list reaction := fun _ => [].

Lemma no_reactions h : handle_coro h ≫= no_react = [].
Proof. by destruct h. Qed.

Section Quiet.
Context {W : Type} `{!Waker W} `{!WakerSpec W}.
Implicit Types (s : lot W) (l : list loc).

Definition clear_handle (p : parked) : parked := Parked (pbits p) Noop.

Lemma unpark_loop_quiet fuel l s :
  lot_wf l s -> length l <= fuel ->
  exists s', unpark_loop no_react fuel l s = Ok s' /\ parked_ s' = parked_ s /\
    triggered_ s' = triggered_ s /\
    (forall a, aws s' !! a = if decide (a ∈ l) then clear_handle <$> aws s !! a else aws s !! a) /\
    resumed (world s') = resumed (world s) ++ (l ≫= handle_of s).
Proof.
  revert l s. induction fuel as [|fuel IH]; intros l s Hwf Hf;
    destruct l as [|a l]; cbn [length] in Hf; try lia; cbn [unpark_loop].
  1,2: exists s; split_and!; try done; cbn; by rewrite app_nil_r.
  destruct (wf_aws _ _ Hwf a ltac:(set_solver)) as [p Hp].
  pose proof (wf_nodup _ _ Hwf) as Hn. cbn in Hn. apply NoDup_cons in Hn as [Ha Hn].
  unfold unpark at 1. rewrite Hp. res_cbn. rewrite no_reactions. cbn [do_reactions mbind res_bind].
  rewrite without_cons, (without_id a l), (without_id a (parked_ s)) by set_solver.
  set (s1 := Lot _ _ _ _).
  destruct (IH l s1) as (s' & -> & Hpk & Ht & Haws & Hr); [|lia|].
  { split; [done|]. cbn. intros x Hx. rewrite lookup_insert_ne by naive_solver.
    apply (wf_aws _ _ Hwf). set_solver. }
  exists s'. split_and!; [done..| |].
  - intros x. rewrite Haws. subst s1. cbn. destruct (decide (x = a)) as [->|Hx].
    + rewrite decide_False, decide_True, lookup_insert_eq, Hp by set_solver. done.
    + rewrite lookup_insert_ne by done. repeat case_decide; set_solver.
  - rewrite Hr. subst s1. cbn [world]. rewrite resumed_resume, <- app_assoc. cbn. f_equal.
    assert (Hh : handle_of s a = handle_coro (handle_ p)) by (unfold handle_of; by rewrite Hp).
    rewrite Hh. f_equal. apply (bind_handles_ext no_react).
    intros x Hx. cbn. rewrite lookup_insert_ne; [done|]. set_solver.
Qed.
End Quiet.

(** * Calls within calls *)

(** [unparkOne()] and [unparkAll()] while the coroutine runs that they have resumed.  Of
    [unparkAll()] we know the local list [left]; for the theorems also the items that were
    parked when it [began], those it has [woken], and those that somebody has awaited or
    cancelled since ([gone]). *)
Inductive call := COne | CAll (began woken left gone : list loc).
(** The calls that are still to return, latest first. *)
Record nest (W : Type) := Nest { calls : list call; base : lot W }.
Arguments Nest {W} _ _.
Arguments calls {W} _.
Arguments base {W} _.

Inductive nevent := NAwait (a : loc) (h : handle) | NCancel (a : loc) | NUnparkOne | NUnparkAll | NTrigger | NReturn.

Section Nested.
Context {W : Type} `{!Waker W}.
Implicit Types (n : nest W) (s : lot W) (c : call) (cs : list call).

Definition left_of c : list loc := match c with COne => [] | CAll _ _ l _ => l end.
Definition lefts cs : list loc := cs ≫= left_of.
(** [unlink()] of an item that may be in any of the lists. *)
Definition leave (a : loc) c : call :=
  match c with COne => COne | CAll b w l g => CAll b w (without a l) g end.
Definition note (a : loc) c : call := match c with COne => COne | CAll b w l g => CAll b w l (g ++ [a]) end.

(** [Parked::unpark()]: what the coroutine does are the next events. *)
Definition unpark_item (a : loc) n : res (nest W) :=
  p ← deref (aws (base n) !! a);
  Ok (Nest (leave a <$> calls n)
        (Lot (without a (parked_ (base n))) (triggered_ (base n))
             (<[a := Parked (pbits p) Noop]> (aws (base n))) (resume (handle_ p) (world (base n))))).
(** The latest call, from the test of the loop on; [unparkOne()] has none. *)
Definition go_on n : res (nest W) :=
  match calls n with
  | [] => Fault BadAccess
  | CAll b w (a :: l) g :: cs => unpark_item a (Nest (CAll b (w ++ [a]) (a :: l) g :: cs) (base n))
  | _ :: cs => Ok (Nest cs (base n))
  end.
Definition begin_unparkAll n : res (nest W) :=
  let s := base n in
  go_on (Nest (CAll (parked_ s) [] (parked_ s) [] :: calls n) (Lot [] (triggered_ s) (aws s) (world s))).
Definition begin_unparkOne n : res (nest W) :=
  match peek (base n) with
  | Some a => unpark_item a (Nest (COne :: calls n) (base n))
  | None => Ok n
  end.

Definition nstep (e : nevent) n : res (nest W) :=
  match e with
  | NAwait a h =>
      if event_ready (base n) then Ok n
      else s ← park a h (base n); Ok (Nest (note a <$> (leave a <$> calls n)) s)
  | NCancel a =>
      if bool_decide (a ∈ lefts (calls n) ++ parked_ (base n))
      then '(_, s) ← await_cancel a (base n); Ok (Nest (note a <$> (leave a <$> calls n)) s)
      else Ok n
  | NUnparkOne => begin_unparkOne n
  | NUnparkAll => begin_unparkAll n
  | NTrigger => let s := base n in begin_unparkAll (Nest (calls n) (Lot (parked_ s) true (aws s) (world s)))
  | NReturn => go_on n
  end.
Fixpoint nrun (es : list nevent) n : res (nest W) :=
  match es with [] => Ok n | e :: es => n ← nstep e n; nrun es n end.
(** Any coroutine may do anything; only a call that is there can be returned to. *)
Definition nenabled (e : nevent) n : bool :=
  match e with NReturn => match calls n with [] => false | _ => true end | _ => true end.

Inductive nreach : nest W -> Prop :=
| nreach_new w : nreach (Nest [] (new_lot w))
| nreach_step e n n' : nreach n -> nenabled e n = true -> nstep e n = Ok n' -> nreach n'.

(** ** Invariant *)

Definition call_ok s c : Prop :=
  match c with
  | COne => True
  | CAll b w l g =>
      NoDup b /\ (w ++ l) `sublist_of` b /\ (forall a, a ∈ b -> a ∉ w ++ l -> a ∈ g) /\
      forall a, a ∈ parked_ s -> a ∈ g
  end.
Record nest_ok n : Prop := {
  no_wf : lot_wf (lefts (calls n)) (base n);
  no_calls : Forall (call_ok (base n)) (calls n);
  no_trig : triggered_ (base n) = true -> parked_ (base n) = [] }.

Lemma lefts_leave a cs : lefts (leave a <$> cs) = without a (lefts cs).
Proof.
  induction cs as [|c cs IH]; [done|]. cbn in *. rewrite without_app. f_equal; [by destruct c|exact IH].
Qed.
Lemma lefts_note a cs : lefts (note a <$> cs) = lefts cs.
Proof. induction cs as [|c cs IH]; [done|]. cbn in *. f_equal; [by destruct c|exact IH]. Qed.
Lemma leave_id a cs : a ∉ lefts cs -> leave a <$> cs = cs.
Proof.
  induction cs as [|c cs IH]; [done|]. cbn. rewrite not_elem_of_app. intros [Hc Hcs]. f_equal; [|by apply IH].
  destruct c; [done|]. cbn in *. by rewrite without_id.
Qed.
Lemma call_ok_parked s s' c : (forall a, a ∈ parked_ s' -> a ∈ parked_ s) -> call_ok s c -> call_ok s' c.
Proof. intros Hs. destruct c as [|b w l g]; [done|]. intros (? & ? & ? & Hp). split_and!; auto. Qed.
(** An item leaves the lists, and may be parked again. *)
Lemma call_ok_touched a s s' c :
  (forall x, x ∈ parked_ s' -> x = a \/ x ∈ parked_ s) -> call_ok s c -> call_ok s' (note a (leave a c)).
Proof.
  intros Hs. destruct c as [|b w l g]; [done|]. intros (Hn & Hw & Hg & Hp). cbn. split_and!; [done| | |].
  - etrans; [|exact Hw]. apply sublist_app; [done|apply without_sublist].
  - intros x Hx Hx'. rewrite not_elem_of_app, elem_without in Hx'. rewrite elem_of_app, list_elem_of_singleton.
    destruct (decide (x = a)) as [->|Hne]; [by right|left]. apply Hg; [done|]. rewrite not_elem_of_app. tauto.
  - intros x Hx. rewrite elem_of_app, list_elem_of_singleton. destruct (Hs x Hx); auto.
Qed.

(** The first item that is left to the latest call is unparked. *)
Lemma unpark_item_ok `{!WakerSpec W} a n cs s :
  lot_wf (a :: lefts cs) s -> n = Nest cs s ->
  exists s', unpark_item a n = Ok (Nest cs s') /\ lot_wf (lefts cs) s' /\
    parked_ s' = parked_ s /\ triggered_ s' = triggered_ s /\
    resumed (world s') = resumed (world s) ++ handle_of s a.
Proof.
  intros Hwf ->. destruct (wf_aws _ _ Hwf a ltac:(set_solver)) as [p Hp].
  pose proof (wf_nodup _ _ Hwf) as Hn. cbn in Hn. apply NoDup_cons in Hn as [Ha Hn].
  unfold unpark_item. cbn [base calls]. rewrite Hp. res_cbn.
  rewrite (leave_id a cs), (without_id a (parked_ s)) by set_solver. eexists. split; [done|].
  cbn [parked_ triggered_ world]. split_and!; [|done..|].
  - split; [done|]. cbn. intros x Hx. rewrite lookup_insert_ne by naive_solver. apply (wf_aws _ _ Hwf). set_solver.
  - rewrite resumed_resume. unfold handle_of. by rewrite Hp.
Qed.

Lemma go_on_all `{!WakerSpec W} b w a l g cs s :
  nest_ok (Nest (CAll b w (a :: l) g :: cs) s) ->
  exists s', go_on (Nest (CAll b w (a :: l) g :: cs) s) = Ok (Nest (CAll b (w ++ [a]) l g :: cs) s') /\
    nest_ok (Nest (CAll b (w ++ [a]) l g :: cs) s') /\
    resumed (world s') = resumed (world s) ++ handle_of s a.
Proof.
  intros [Hwf Hc Ht]. cbn [calls base] in *. apply Forall_cons in Hc as [(Hb & Hw & Hg & Hp) Hcs].
  cbn [lefts mbind list_bind left_of] in Hwf. unfold go_on. cbn [calls base].
  pose proof (wf_nodup _ _ Hwf) as Hn. cbn in Hn. apply NoDup_cons in Hn as [Ha _].
  assert (Hl : leave a (CAll b (w ++ [a]) (a :: l) g) = leave a (CAll b (w ++ [a]) l g))
    by (cbn; by rewrite without_cons).
  destruct (unpark_item_ok a (Nest (CAll b (w ++ [a]) l g :: cs) s) (CAll b (w ++ [a]) l g :: cs) s Hwf eq_refl)
    as (s' & E & Hwf' & Hp' & Ht' & Hr).
  exists s'. split; [|split; [|exact Hr]].
  - rewrite <- E. unfold unpark_item. cbn [base calls fmap list_fmap]. by rewrite Hl.
  - split; cbn [calls base]; [exact Hwf'| |by rewrite Ht', Hp'].
    constructor; [|eapply Forall_impl; [exact Hcs|]; intros c; apply call_ok_parked; by rewrite Hp'].
    cbn. rewrite Hp', <- app_assoc. split_and!; auto.
Qed.

Lemma begin_unparkAll_ok `{!WakerSpec W} n :
  lot_wf (lefts (calls n)) (base n) -> Forall (call_ok (base n)) (calls n) ->
  match parked_ (base n) with
  | [] => begin_unparkAll n = Ok n
  | a :: l =>
      exists s', begin_unparkAll n = Ok (Nest (CAll (a :: l) [a] l [] :: calls n) s') /\
        nest_ok (Nest (CAll (a :: l) [a] l [] :: calls n) s') /\
        resumed (world s') = resumed (world (base n)) ++ handle_of (base n) a
  end.
Proof.
  intros Hwf Hc. unfold begin_unparkAll. set (s := Lot _ _ _ _).
  assert (Hok : nest_ok (Nest (CAll (parked_ (base n)) [] (parked_ (base n)) [] :: calls n) s)).
  { split; cbn [calls base]; [| |done].
    - cbn [lefts mbind list_bind left_of]. destruct Hwf as [Hn Ha]. split; cbn [parked_ s aws]; rewrite ?app_nil_r.
      + by rewrite Permutation_app_comm.
      + intros a Ha'. apply Ha. fold (lefts (calls n)) in Ha'. set_solver.
    - constructor.
      + pose proof (wf_nodup _ _ Hwf) as Hn. apply NoDup_app in Hn as (_ & _ & Hn).
        cbn. split_and!; [exact Hn|done|done|set_solver].
      + eapply Forall_impl; [exact Hc|]. intros c. apply call_ok_parked. cbn. set_solver. }
  destruct (parked_ (base n)) as [|a l] eqn:Hp.
  - unfold go_on. cbn [calls base]. subst s. destruct n as [cs [pk t aw w0]]. cbn in *. by subst pk.
  - destruct (go_on_all _ _ _ _ _ _ _ Hok) as (s' & E & Hok' & Hr). eauto.
Qed.

Lemma nstep_ok `{!WakerSpec W} e n : nest_ok n -> nenabled e n = true -> exists n', nstep e n = Ok n' /\ nest_ok n'.
Proof.
  intros Hok He. pose proof Hok as [Hwf Hc Ht]. destruct e as [a h|a| | | |]; cbn [nstep].
  - unfold event_ready. destruct (triggered_ (base n)) eqn:Htr; [by exists n|]. unfold park.
    assert (Hwf0 : lot_wf (lefts (calls n)) (new_parked a 0 (base n))).
    { destruct Hwf as [Hn Ha]. split; [exact Hn|]. intros x Hx. cbn. destruct (decide (x = a)) as [->|Hxa];
        [by rewrite lookup_insert_eq|rewrite lookup_insert_ne by done; by apply Ha]. }
    destruct (suspend_ok no_react a h _ _ _ Hwf0 (lookup_insert_eq _ _ _)) as (s' & -> & Hw & Hp & _ & Htr' & _).
    res_cbn. eexists. split; [done|]. split; cbn [calls base].
    + by rewrite lefts_note, lefts_leave.
    + rewrite <- list_fmap_compose. apply Forall_fmap. eapply Forall_impl; [exact Hc|]. intros c. cbn.
      apply call_ok_touched. intros x. rewrite Hp. cbn. rewrite elem_of_app, elem_without, list_elem_of_singleton. tauto.
    + rewrite Htr'. cbn. by rewrite Htr.
  - case_bool_decide as Ha; [|by exists n].
    destruct (cancel_ok no_react a _ _ Hwf Ha) as (s' & -> & Hw & Hp & _ & Htr' & _). res_cbn. eexists. split; [done|].
    split; cbn [calls base].
    + by rewrite lefts_note, lefts_leave.
    + rewrite <- list_fmap_compose. apply Forall_fmap. eapply Forall_impl; [exact Hc|]. intros c. cbn.
      apply call_ok_touched. intros x. rewrite Hp, elem_without. tauto.
    + rewrite Htr', Hp. intros Hx. by rewrite (Ht Hx).
  - unfold begin_unparkOne, peek. destruct (parked_ (base n)) as [|a l] eqn:Hp; cbn [head]; [by exists n|].
    destruct Hwf as [Hn Haws]. rewrite Hp in Hn, Haws.
    destruct (Haws a ltac:(set_solver)) as [p Hpa]. unfold unpark_item. cbn [base calls]. rewrite Hpa. res_cbn.
    apply NoDup_app in Hn as (Hnl & Hdis & Hnp).
    assert (Hal : a ∉ lefts (calls n)) by (intros Hx; apply (Hdis a Hx); set_solver).
    change (list_fmap call call (leave a) (COne :: calls n)) with (COne :: (leave a <$> calls n)). rewrite (leave_id a _ Hal), Hp, (without_head a l Hnp).
    apply NoDup_cons in Hnp as [Hna Hnl']. eexists. split; [done|]. split; cbn [calls base parked_ triggered_].
    + split; cbn [parked_ aws lefts mbind list_bind left_of app].
      * apply NoDup_app. split_and!; [done| |done]. intros x Hx Hx'. apply (Hdis x Hx). set_solver.
      * intros x Hx. fold (lefts (calls n)) in Hx. rewrite lookup_insert_ne by set_solver. apply Haws. set_solver.
    + constructor; [done|]. eapply Forall_impl; [exact Hc|]. intros c. apply call_ok_parked. cbn. rewrite Hp. set_solver.
    + intros Hx. specialize (Ht Hx). congruence.
  - pose proof (begin_unparkAll_ok n Hwf Hc) as HB. destruct (parked_ (base n)); [by exists n|].
    destruct HB as (s' & ? & ? & _). eauto.
  - set (n1 := Nest _ _). assert (Hwf1 : lot_wf (lefts (calls n1)) (base n1)) by (by destruct Hwf).
    assert (Hc1 : Forall (call_ok (base n1)) (calls n1)) by (eapply Forall_impl; [exact Hc|]; intros c; by apply call_ok_parked).
    pose proof (begin_unparkAll_ok n1 Hwf1 Hc1) as HB. destruct (parked_ (base n1)) eqn:Hp.
    + exists n1. split; [exact HB|]. by split.
    + destruct HB as (s' & ? & ? & _). eauto.
  - unfold nenabled in He. destruct n as [[|c cs] s]; [done|]. clear He. destruct c as [|b w [|a l] g].
    + eexists. split; [reflexivity|]. apply Forall_cons in Hc as [_ Hc]. by split.
    + eexists. split; [reflexivity|]. apply Forall_cons in Hc as [_ Hc]. by split.
    + destruct (go_on_all _ _ _ _ _ _ _ Hok) as (s' & E & Hok' & _). eauto.
Qed.

Lemma nreach_ok `{!WakerSpec W} n : nreach n -> nest_ok n.
Proof.
  induction 1 as [w|e n n' _ IH He E].
  - split; [split; [apply NoDup_nil_2|set_solver]|constructor|done].
  - destruct (nstep_ok e n IH He) as (n2 & E2 & H2). congruence.
Qed.

Lemma sublist_all (w b : list loc) : w `sublist_of` b -> NoDup b -> (forall a, a ∈ b -> a ∈ w) -> w = b.
Proof.
  intros Hs Hn Ha. induction Hs as [|x l1 l2 Hs IH|x l1 l2 Hs IH]; [done| |].
  - apply NoDup_cons in Hn as [Hx Hn]. f_equal. apply IH; [done|]. intros a Hal.
    specialize (Ha a ltac:(set_solver)). apply elem_of_cons in Ha as [->|?]; done.
  - exfalso. apply NoDup_cons in Hn as [Hx Hn]. apply Hx. eapply elem_of_sublist; [|exact Hs]. apply Ha. set_solver.
Qed.

(** C14.  Whatever the coroutines do with a lot that resumes them - await it, cancel, wake
    others from within, trigger the event, to any depth, anything but destroy it - no step fails.  [unparkAll()] wakes exactly the
    awaiters that were parked when it began, but for those that somebody awaits or
    cancels before their turn: it returns at once if there are none, and else resumes the first; each
    time the coroutine returns to it, it resumes the next of them that is left, once,
    in the order they parked, and when none is left it returns.  So after one
    resumption for each it has returned, and if nobody interfered, all were resumed.
    What is parked meanwhile stays parked for a later call; an event that is triggered
    has nobody waiting. *)
Theorem unparkAll_wakes_snapshot `{!WakerSpec W} n :
  nreach n ->
  (forall e, nenabled e n = true -> exists n', nstep e n = Ok n') /\
  match parked_ (base n) with
  | [] => nstep NUnparkAll n = Ok n
  | a :: l =>
      exists s', nstep NUnparkAll n = Ok (Nest (CAll (a :: l) [a] l [] :: calls n) s') /\
        resumed (world s') = resumed (world (base n)) ++ handle_of (base n) a
  end /\
  (forall b w l g, CAll b w l g ∈ calls n ->
     NoDup b /\ (w ++ l) `sublist_of` b /\ (forall a, a ∈ b -> a ∉ w ++ l -> a ∈ g) /\
     (forall a, a ∈ parked_ (base n) -> a ∈ g)) /\
  (forall b w l g cs, calls n = CAll b w l g :: cs ->
     match l with
     | [] => nstep NReturn n = Ok (Nest cs (base n)) /\ ((forall a, a ∈ b -> a ∉ g) -> w = b)
     | a :: l' =>
         exists s', nstep NReturn n = Ok (Nest (CAll b (w ++ [a]) l' g :: cs) s') /\
           resumed (world s') = resumed (world (base n)) ++ handle_of (base n) a
     end) /\
  (triggered_ (base n) = true -> parked_ (base n) = []).
Proof.
  intros Hok%nreach_ok. pose proof Hok as [Hwf Hc Ht]. split_and!.
  - intros e He. destruct (nstep_ok e n Hok He) as (n' & E & _). eauto.
  - pose proof (begin_unparkAll_ok n Hwf Hc) as HB. destruct (parked_ (base n)); [done|]. destruct HB as (s' & ? & _ & ?). eauto.
  - intros b w l g Hin. rewrite Forall_forall in Hc. exact (Hc _ Hin).
  - intros b w l g cs E. destruct n as [cs' s]. cbn [calls] in *. subst cs'. destruct l as [|a l].
    + split; [done|]. intros Hg. apply Forall_cons in Hc as [(Hb & Hw & Hg' & _) _]. rewrite app_nil_r in *.
      apply sublist_all; [done..|]. intros a Ha. destruct (decide (a ∈ w)) as [|Hn]; [done|].
      by destruct (Hg a Ha (Hg' a Ha Hn)).
    + destruct (go_on_all _ _ _ _ _ _ _ Hok) as (s' & ? & _ & ?). eauto.
  - exact Ht.
Qed.

(** ** The calls with reactions are among these *)

Definition event_of (r : reaction) : nevent := match r with RAwait a h => NAwait a h | RCancel a => NCancel a end.
Lemma nrun_app es1 es2 n n1 : nrun es1 n = Ok n1 -> nrun (es1 ++ es2) n = nrun es2 n1.
Proof.
  revert n. induction es1 as [|e es IH]; intros n; cbn [nrun app]; [by intros [= <-]|].
  intros (n2 & -> & E)%bind_ok. res_cbn. by apply IH.
Qed.
Lemma do_reaction_nested r b w l g s l' s' :
  do_reaction r (l, s) = Ok (l', s') ->
  exists g', nstep (event_of r) (Nest [CAll b w l g] s) = Ok (Nest [CAll b w l' g'] s').
Proof.
  destruct r as [a h|a]; cbn [do_reaction event_of nstep calls base]; unfold event_ready, park.
  - destruct (triggered_ s); [intros [= <- <-]; by exists g|].
    intros (s1 & -> & [= <- <-])%bind_ok. by eexists.
  - cbn [lefts mbind list_bind left_of]. rewrite app_nil_r. case_bool_decide; [|intros [= <- <-]; by exists g].
    intros ([o s1] & -> & [= <- <-])%bind_ok. by eexists.
Qed.
Lemma do_reactions_nested rs b w l g s l' s' :
  do_reactions rs (l, s) = Ok (l', s') ->
  exists es g', nrun es (Nest [CAll b w l g] s) = Ok (Nest [CAll b w l' g'] s').
Proof.
  revert l s g. induction rs as [|r rs IH]; intros l s g; cbn [do_reactions].
  - intros [= <- <-]. by exists [], g.
  - intros ([l1 s1] & E1 & E2)%bind_ok. destruct (do_reaction_nested _ b w _ g _ _ _ E1) as [g1 E].
    destruct (IH _ _ g1 E2) as (es & g' & E'). exists (event_of r :: es), g'. cbn [nrun]. by rewrite E.
Qed.
Lemma unpark_loop_nested react fuel b w l g s s' :
  unpark_loop react fuel l s = Ok s' ->
  exists es, nrun (NReturn :: es) (Nest [CAll b w l g] s) = Ok (Nest [] s').
Proof.
  revert w l g s. induction fuel as [|fuel IH]; intros w l g s; destruct l as [|a l]; cbn [unpark_loop]; try done;
    try (intros [= <-]; by exists []).
  intros ([l1 s1] & E1 & E2)%bind_ok. unfold unpark in E1.
  apply bind_ok in E1 as (p & Hp & E1). apply deref_ok in Hp.
  destruct (do_reactions_nested _ b (w ++ [a]) _ g _ _ _ E1) as (es1 & g1 & R1).
  destruct (IH (w ++ [a]) l1 g1 s1 E2) as (es2 & R2). exists (es1 ++ NReturn :: es2).
  cbn [nrun nstep]. unfold go_on, unpark_item. cbn [calls base]. rewrite Hp. cbn [deref mbind res_bind].
  exact (eq_trans (nrun_app _ _ _ _ R1) R2).
Qed.
(** So [unparkAll()] with such reactions is one run of the calls. *)
Lemma unparkAll_nested react s s' :
  unparkAll react s = Ok s' -> exists es, nrun (NUnparkAll :: es) (Nest [] s) = Ok (Nest [] s').
Proof. apply unpark_loop_nested. Qed.
End Nested.

(** A lot with three parked coroutines; the first, when resumed, cancels the
    third and parks again with a new awaiter. *)
Definition demo_react (c : loc) : list reaction :=
  if bool_decide (c = 11%positive) then [RCancel 3; RAwait 4 (Coro 11)]%positive else [].
Definition demo_lot : lot wlog :=
  Lot [1; 2; 3]%positive false
    (<[1 := Parked 0 (Coro 11)]> (<[2 := Parked 0 (Coro 12)]> (<[3 := Parked 0 (Coro 13)]> ∅)))%positive [].

Example demo_unparkAll :
  (fun s => (parked_ s, world s)) <$> unparkAll demo_react demo_lot = Ok ([4], [11; 12])%positive.
Proof. vm_compute. reflexivity. Qed.

Lemma demo_lot_wf : lot_wf [] demo_lot.
Proof.
  split; cbn; [by apply (bool_decide_unpack _); vm_compute|].
  intros a Ha. rewrite !elem_of_cons in Ha. destruct Ha as [->|[->|[->|Ha]]];
    [vm_compute; eauto..|set_solver].
Qed.

(** Three coroutines park; all are woken; the first cancels the third, parks again and
    wakes all in its turn: the second is still woken by the outer call. *)
Definition demo_nested : list nevent :=
  [NAwait 1 (Coro 11); NAwait 2 (Coro 12); NAwait 3 (Coro 13); NUnparkAll; NCancel 3; NAwait 4 (Coro 11); NUnparkAll]%positive.
Definition nested_at : nest wlog := match nrun demo_nested (Nest [] (new_lot [])) with Ok n => n | Fault _ => Nest [] (new_lot []) end.
Lemma nested_reach : nreach nested_at.
Proof.
  assert (H : forall es n n', nreach n -> (forall e, e ∈ es -> e <> NReturn) -> nrun es n = Ok n' -> nreach n').
  { induction es as [|e es IH]; intros n n' Hn He E; cbn [nrun] in E; [by injection E as <-|].
    apply bind_ok in E as (n1 & E1 & E). apply (IH n1); [|set_solver|done]. apply (nreach_step e n); [done| |done].
    destruct e; try done. by destruct (He NReturn); [set_solver|]. }
  apply (H demo_nested (Nest [] (new_lot []))); [apply nreach_new|set_solver|vm_compute; reflexivity].
Qed.
Lemma unparkAll_wakes_snapshot_witness :
  calls nested_at = [CAll [4] [4] [] []; CAll [1; 2; 3] [1] [2] [3; 4]]%positive /\
  exists n', nstep NReturn nested_at = Ok n'.
Proof.
  split; [vm_compute; reflexivity|].
  destruct (unparkAll_wakes_snapshot nested_at nested_reach) as [H _]. apply H. vm_compute. reflexivity.
Defined.
Example nested_wakes :
  match nrun [NReturn; NReturn; NReturn] nested_at with
  | Ok n => (calls n, parked_ (base n), world (base n))
  | Fault _ => ([], [], [])
  end = ([], [], [11; 11; 12]%positive).
Proof. vm_compute. reflexivity. Qed.

Lemma event_trigger_wakes_all_witness :
  exists ws s', trigger demo_react demo_lot = Ok s' /\ triggered_ s' = true /\ parked_ s' = [] /\
    ws `sublist_of` [1; 2; 3]%positive /\
    resumed (world s') = resumed (world demo_lot) ++ (ws ≫= handle_of demo_lot) /\
    (forall a, a ∈ parked_ demo_lot -> a ∉ ws ->
       exists w, w ∈ ws /\ RCancel a ∈ handle_of demo_lot w ≫= demo_react).
Proof. exact (event_trigger_wakes_all demo_react demo_lot demo_lot_wf). Defined.

Lemma event_level_triggered_witness :
  exists s, erun demo_react [EAwait 1 (Coro 11); EAwait 2 (Coro 12); ETrigger]%positive
      (new_lot (W:=wlog) []) = Ok s /\
    triggered_ s = true /\
    (triggered_ s = true -> parked_ s = [] /\ destroy_lot s = Ok () /\
       forall a h, exists s', event_await a h s = Ok (false, s')).
Proof.
  exact (event_level_triggered demo_react
           [EAwait 1 (Coro 11); EAwait 2 (Coro 12); ETrigger]%positive []).
Defined.
