(* ===== verification/Semaphore.v ===== *)
(** [Semaphore.h]: a counter, and the intrusive wait queue of ParkingLot.v for
    the tasks that found it at zero.

    [release()] resumes the oldest waiter in its last statement, so what the
    resumed coroutine does to the semaphore happens after the operation: the
    reactions of ParkingLot.v are the next events of the run.  [sem_sys] adds to
    the code's state where every awaiter is in the awaiter protocol, and how
    many permits the users of the semaphore hold; neither is read by the code. *)
From S2P Require Export ParkingLot.

Section Sem.
Context {W : Type} `{!Waker W}.

Record semaphore := Sem { value_ : Z; base : lot W }.
Implicit Types (s : semaphore).

(** [Semaphore(initial)] *)
Definition sem_new (initial : Z) (w : W) : semaphore := Sem initial (new_lot w).

(** [Semaphore::tryAcquire()] *)
Definition tryAcquire s : bool * semaphore :=
  if (value_ s =? 0)%Z then (false, s)
  else (true, Sem (to_word (value_ s - 1)) (base s)).

(** [Semaphore::release()] *)
Definition release s : res semaphore :=
  if lot_empty (base s) then Ok (Sem (to_word (value_ s + 1)) (base s))
  else b ← unparkOne no_react (base s); Ok (Sem (value_ s) b).

(** [Semaphore::Awaiter]: constructor, [borrowed()], destructor,
    [await_suspend()] (whether the caller suspends), [await_resume()]. *)
Definition sem_awaiter (a : loc) s : semaphore :=
  let '(got, s) := tryAcquire s in
  Sem (value_ s) (new_parked a (if got : bool then 1 else 0) (base s)).
Definition borrowed (a : loc) s : res bool :=
  b ← bits_of a (base s); Ok (negb (b =? 0)%nat).
Definition sem_destroy (a : loc) s : res semaphore :=
  b ← borrowed a s;
  s ← (if b : bool then release s else Ok s);
  let l := base s in
  Ok (Sem (value_ s) (Lot (without a (parked_ l)) (triggered_ l) (delete a (aws l)) (world l))).
Definition sem_suspend (a : loc) (h : handle) s : res (bool * semaphore) :=
  b ← borrowed a s;
  corral_assert (negb b);;
  let '(got, s) := tryAcquire s in
  if (got : bool) then Ok (false, s)
  else l ← doSuspend a h (base s); Ok (true, Sem (value_ s) l).
Definition sem_resume (a : loc) s : res semaphore :=
  l ← set_bits a 0 (base s); Ok (Sem (value_ s) l).
Definition sem_cancel (a : loc) s : res (bool * semaphore) :=
  '(r, l) ← await_cancel a (base s); Ok (r, Sem (value_ s) l).

(** [Semaphore::Lock]: whether [sem_] is not null; move, assignment (of the
    previous holder's lock, released by the temporary) and destruction. *)
Definition lock := bool.
Definition lock_resume (a : loc) s : res (lock * semaphore) :=
  s ← sem_resume a s; Ok (true, s).
Definition lock_move (lk : lock) : lock * lock := (lk, false).
Definition lock_destroy (lk : lock) s : res semaphore := if lk then release s else Ok s.
Definition lock_assign (self lk : lock) s : res (lock * semaphore) :=
  let '(tmp, _) := lock_move lk in
  s ← lock_destroy self s; Ok (tmp, s).

(** * The semaphore in use *)

(** Where an awaiter is: constructed (with or without a borrowed permit),
    suspended, handed a permit that [await_resume()] has not collected yet,
    and finished. *)
Inductive phase := Fresh (b : bool) | Waiting | Granted | Finished.

#[export] Instance phase_eq_dec : EqDecision phase.
Proof. solve_decision. Defined.

Record sem_sys := Sys { sem : semaphore; ph : gmap loc phase; held : Z }.
Implicit Types (σ : sem_sys).

Inductive sem_event :=
  | New (a : loc) | Suspend (a : loc) (h : handle) | Resume (a : loc) | Cancel (a : loc)
  | Destroy (a : loc) | TryAcquire | Release.

(** The awaiter protocol: [await_suspend()] only if not ready, [await_resume()]
    once ready or woken, [await_cancel()] only while suspended, and no
    destruction while suspended or between the wake-up and the resumption. *)
Definition legal (e : sem_event) σ : bool :=
  match e with
  | New a => bool_decide (ph σ !! a = None)
  | Suspend a _ => bool_decide (ph σ !! a = Some (Fresh false))
  | Resume a => match ph σ !! a with Some (Fresh true) | Some Granted => true | _ => false end
  | Cancel a => match ph σ !! a with Some Waiting => true | _ => false end
  | Destroy a => match ph σ !! a with Some (Fresh _) | Some Finished => true | _ => false end
  | TryAcquire | Release => true
  end.

(** Handing a permit to the oldest waiter, if any. *)
Definition granted σ : gmap loc phase :=
  match peek (base (sem σ)) with Some a => <[a := Granted]> (ph σ) | None => ph σ end.

Definition sem_step (e : sem_event) σ : res sem_sys :=
  match e with
  | New a =>
      let s := sem_awaiter a (sem σ) in
      b ← borrowed a s; Ok (Sys s (<[a := Fresh b]> (ph σ)) (held σ))
  | Suspend a h =>
      '(susp, s) ← sem_suspend a h (sem σ);
      Ok (Sys s (<[a := if (susp : bool) then Waiting else Granted]> (ph σ)) (held σ))
  | Resume a => s ← sem_resume a (sem σ); Ok (Sys s (<[a := Finished]> (ph σ)) (held σ + 1))
  | Cancel a => '(_, s) ← sem_cancel a (sem σ); Ok (Sys s (<[a := Finished]> (ph σ)) (held σ))
  | Destroy a =>
      b ← borrowed a (sem σ);
      s ← sem_destroy a (sem σ);
      Ok (Sys s (delete a (if (b : bool) then granted σ else ph σ)) (held σ))
  | TryAcquire =>
      let '(got, s) := tryAcquire (sem σ) in Ok (Sys s (ph σ) (held σ + Z.b2z got))
  | Release => s ← release (sem σ); Ok (Sys s (granted σ) (held σ - 1))
  end.

Fixpoint sem_run (es : list sem_event) σ : res sem_sys :=
  match es with [] => Ok σ | e :: es => σ ← sem_step e σ; sem_run es σ end.
Fixpoint all_legal (es : list sem_event) σ : Prop :=
  match es with
  | [] => True
  | e :: es => legal e σ = true /\
      match sem_step e σ with Ok σ => all_legal es σ | Fault _ => True end
  end.
Definition releases (es : list sem_event) : Z :=
  Z.of_nat (length (filter (fun e => match e with Release => true | _ => false end = true) es)).

(** Permits set aside for one awaiter. *)
Definition reserves (p : phase) : bool :=
  match p with Fresh b => b | Granted => true | _ => false end.

(** [r]: how many releases there have been. *)
Record sem_inv (init r : Z) σ : Prop := {
  si_wf : lot_wf [] (base (sem σ));
  si_trig : triggered_ (base (sem σ)) = false;
  si_value : (0 <= value_ (sem σ))%Z;
  si_held : (- r <= held σ)%Z;
  si_permits : (value_ (sem σ) + countZ reserves (ph σ) + held σ = init)%Z;
  si_queue : (0 < value_ (sem σ))%Z -> parked_ (base (sem σ)) = [];
  si_waiting : forall a, a ∈ parked_ (base (sem σ)) <-> ph σ !! a = Some Waiting;
  si_bits : forall a p, ph σ !! a = Some p -> exists k, aws (base (sem σ)) !! a = Some k /\
    pbits k = match p with Fresh true => 1 | _ => 0 end }.

Lemma si_small init r σ : sem_inv init r σ -> (value_ (sem σ) <= init + r)%Z.
Proof. intros HI. pose proof (countZ_nonneg reserves (ph σ)). destruct HI. lia. Qed.

Lemma tryAcquire_spec s b s' :
  (0 <= value_ s < 2 ^ 64)%Z -> tryAcquire s = (b, s') ->
  base s' = base s /\ b = (0 <? value_ s)%Z /\ value_ s' = (value_ s - Z.b2z b)%Z.
Proof.
  intros Hv. unfold tryAcquire. destruct (Z.eqb_spec (value_ s) 0) as [Hz|Hz]; intros [= <- <-]; cbn.
  - rewrite Hz. done.
  - rewrite to_word_small by lia. split_and!; [done| |done]. symmetry. apply Z.ltb_lt. lia.
Qed.

Lemma release_ok `{!WakerSpec W} init r σ :
  sem_inv init r σ -> (init + r + 1 < 2 ^ 64)%Z ->
  exists s', release (sem σ) = Ok s' /\
    sem_inv init (r + 1) (Sys s' (granted σ) (held σ - 1)) /\
    resumed (world (base s')) = resumed (world (base (sem σ))) ++
      match peek (base (sem σ)) with Some a => handle_of (base (sem σ)) a | None => [] end /\
    (forall a, Some a <> peek (base (sem σ)) -> aws (base s') !! a = aws (base (sem σ)) !! a).
Proof.
  intros HI Hb. pose proof (si_small _ _ _ HI) as Hv.
  destruct HI as [Hwf Ht H0 Hh Hc Hq Hw Hbits]. unfold release, lot_empty, granted, peek, unparkOne.
  destruct (parked_ (base (sem σ))) as [|a l] eqn:Hp.
  - rewrite bool_decide_true by done. eexists. split; [done|]. cbn [head base].
    rewrite app_nil_r. split_and!; [|done|done]. split; cbn [sem value_ ph held base]; try done.
    + rewrite to_word_small; lia.
    + lia.
    + rewrite to_word_small by lia. lia.
    + by rewrite Hp.
  - rewrite bool_decide_false by done. cbn [head].
    assert (Ha : ph σ !! a = Some Waiting) by (apply Hw; set_solver).
    destruct (Hbits _ _ Ha) as (k & Hk & Hk0). unfold unpark. rewrite Hk. res_cbn.
    rewrite no_reactions. cbn [do_reactions mbind res_bind].
    pose proof (wf_nodup _ _ Hwf) as Hn. cbn in Hn. rewrite Hp in Hn.
    assert (Hal : without a (parked_ (base (sem σ))) = l) by (rewrite Hp; by apply without_head).
    apply NoDup_cons in Hn as [Hnal Hnl].
    eexists. split; [done|]. rewrite Hal. split_and!.
    + assert (Hz : value_ (sem σ) = 0%Z).
      { destruct (Z.eq_dec (value_ (sem σ)) 0%Z); [done|]. by specialize (Hq ltac:(lia)). }
      split; cbn [sem value_ ph held base parked_ aws triggered_]; try done.
      * split; cbn; [done|]. intros x Hx. rewrite lookup_insert_ne by naive_solver.
        apply (wf_aws _ _ Hwf). rewrite Hp. set_solver.
      * lia.
      * rewrite countZ_insert, Ha. cbn. lia.
      * intros ?; lia.
      * intros x. destruct (decide (x = a)) as [->|Hx].
        { rewrite lookup_insert_eq. split; [done|intros [=]]. }
        rewrite lookup_insert_ne by done. rewrite <- Hw. set_solver.
      * intros x p. destruct (decide (x = a)) as [->|Hx].
        { rewrite !lookup_insert_eq. intros [= <-]. eexists. split; [done|]. cbn. done. }
        rewrite !lookup_insert_ne by done. apply Hbits.
    + cbn. rewrite resumed_resume. unfold handle_of. by rewrite Hk.
    + intros x Hx. cbn. rewrite lookup_insert_ne; [done|]. congruence.
Qed.

(** Setting one awaiter's record and phase, the counters moving along. *)
Lemma sem_inv_set init r σ a k p v h' :
  sem_inv init r σ -> ph σ !! a <> Some Waiting -> p <> Waiting ->
  pbits k = match p with Fresh true => 1 | _ => 0 end ->
  (0 <= v <= value_ (sem σ))%Z -> (- r <= h')%Z ->
  (v + h' + Z.b2z (reserves p) = value_ (sem σ) + held σ + weight reserves (ph σ !! a))%Z ->
  sem_inv init r (Sys (Sem v (Lot (parked_ (base (sem σ))) (triggered_ (base (sem σ)))
    (<[a := k]> (aws (base (sem σ)))) (world (base (sem σ))))) (<[a := p]> (ph σ)) h').
Proof.
  intros [Hwf Ht H0 Hh Hc Hq Hw Hbits] Ha Hp Hk Hv Hh' Hsum.
  split; cbn [sem base value_ ph held parked_ triggered_ aws]; try done; try lia.
  - split; [apply Hwf|]. cbn. intros x Hx. rewrite lookup_insert_ne; [by apply (wf_aws _ _ Hwf)|].
    intros <-. apply Ha. by apply Hw.
  - rewrite countZ_insert. lia.
  - intros. apply Hq. lia.
  - intros x. destruct (decide (x = a)) as [->|Hx].
    + rewrite lookup_insert_eq, Hw. split; [done|congruence].
    + rewrite lookup_insert_ne by done. apply Hw.
  - intros x q. destruct (decide (x = a)) as [->|Hx].
    + rewrite !lookup_insert_eq. intros [= <-]. eauto.
    + rewrite !lookup_insert_ne by done. apply Hbits.
Qed.

(** An awaiter that is neither waiting nor borrowing goes away. *)
Lemma sem_inv_delete init r r' σ a h' :
  sem_inv init r σ -> ph σ !! a <> Some Waiting -> (- r' <= h')%Z ->
  (h' = held σ + weight reserves (ph σ !! a))%Z ->
  sem_inv init r' (Sys (Sem (value_ (sem σ)) (Lot (without a (parked_ (base (sem σ))))
    (triggered_ (base (sem σ))) (delete a (aws (base (sem σ)))) (world (base (sem σ)))))
    (delete a (ph σ)) h').
Proof.
  intros [Hwf Ht H0 Hh Hc Hq Hw Hbits] Ha Hh' ->.
  assert (Hna : a ∉ parked_ (base (sem σ))) by (by rewrite Hw).
  rewrite (without_id a) by done.
  split; cbn [sem base value_ ph held parked_ triggered_ aws]; try done; try lia.
  - split; [apply Hwf|]. cbn. intros x Hx. rewrite lookup_delete_ne by congruence.
    by apply (wf_aws _ _ Hwf).
  - rewrite countZ_delete. lia.
  - intros x. destruct (decide (x = a)) as [->|Hx].
    + rewrite lookup_delete_eq, Hw. split; [done|congruence].
    + rewrite lookup_delete_ne by done. apply Hw.
  - intros x q. destruct (decide (x = a)) as [->|Hx]; [by rewrite lookup_delete_eq|].
    rewrite !lookup_delete_ne by done. apply Hbits.
Qed.

(** Going to sleep, and being cancelled. *)
Lemma sem_inv_wait init r σ a h :
  sem_inv init r σ -> ph σ !! a = Some (Fresh false) -> value_ (sem σ) = 0%Z ->
  exists l, doSuspend a h (base (sem σ)) = Ok l /\
    sem_inv init r (Sys (Sem (value_ (sem σ)) l) (<[a := Waiting]> (ph σ)) (held σ)).
Proof.
  intros [Hwf Ht H0 Hh Hc Hq Hw Hbits] Ha Hv. destruct (Hbits _ _ Ha) as (k & Hk & Hk0).
  destruct (suspend_ok no_react a h [] _ _ Hwf Hk) as (l & -> & Hwf' & Hp & _ & Ht' & Haw).
  exists l. split; [done|]. assert (Hna : a ∉ parked_ (base (sem σ))) by (rewrite Hw; congruence).
  rewrite (without_id a _ Hna) in Hp.
  split; cbn [sem base value_ ph held]; try done; try lia; try congruence.
  - rewrite countZ_insert, Ha. cbn. lia.
  - intros x. rewrite Hp, elem_of_app, list_elem_of_singleton.
    destruct (decide (x = a)) as [->|Hx]; [rewrite lookup_insert_eq; tauto|].
    rewrite lookup_insert_ne, <- Hw by done. tauto.
  - intros x q. rewrite Haw. destruct (decide (x = a)) as [->|Hx].
    + rewrite !lookup_insert_eq. intros [= <-]. eexists. split; [done|]. done.
    + rewrite !lookup_insert_ne by done. apply Hbits.
Qed.

Lemma sem_inv_cancel init r σ a :
  sem_inv init r σ -> ph σ !! a = Some Waiting ->
  exists l, await_cancel a (base (sem σ)) = Ok (true, l) /\
    sem_inv init r (Sys (Sem (value_ (sem σ)) l) (<[a := Finished]> (ph σ)) (held σ)).
Proof.
  intros [Hwf Ht H0 Hh Hc Hq Hw Hbits] Ha. destruct (Hbits _ _ Ha) as (k & Hk & Hk0).
  destruct (cancel_ok no_react a [] _ Hwf ltac:(cbn; by rewrite Hw)) as (l & E & Hwf' & Hp & _ & Ht' & Haw).
  exists l. split; [done|].
  assert (Hla : aws l !! a = Some (Parked (pbits k) Noop)).
  { unfold await_cancel in E. rewrite Hk in E. res_cbn in *. injection E as <-. cbn.
    apply lookup_insert_eq. }
  split; cbn [sem base value_ ph held]; try done; try lia; try congruence.
  - rewrite countZ_insert, Ha. cbn. lia.
  - intros Hv. rewrite Hp, Hq by done. done.
  - intros x. rewrite Hp, elem_without.
    destruct (decide (x = a)) as [->|Hx]; [rewrite lookup_insert_eq; intuition congruence|].
    rewrite lookup_insert_ne, <- Hw by done. tauto.
  - intros x q. destruct (decide (x = a)) as [->|Hx].
    + rewrite lookup_insert_eq. intros [= <-]. eauto.
    + rewrite lookup_insert_ne, Haw by done. apply Hbits.
Qed.

Lemma borrowed_ok init r σ a p :
  sem_inv init r σ -> ph σ !! a = Some p ->
  borrowed a (sem σ) = Ok (bool_decide (p = Fresh true)).
Proof.
  intros HI Ha. destruct (si_bits _ _ _ HI _ _ Ha) as (k & Hk & Hb).
  unfold borrowed, bits_of. rewrite Hk. res_cbn. rewrite Hb. by destruct p as [[]| | |].
Qed.

Lemma sem_step_ok `{!WakerSpec W} init r e σ :
  sem_inv init r σ -> legal e σ = true -> (init + r + 1 < 2 ^ 64)%Z ->
  exists σ', sem_step e σ = Ok σ' /\ sem_inv init (r + releases [e]) σ'.
Proof.
  intros HI Hl Hb. pose proof (si_small _ _ _ HI) as Hs. pose proof (si_value _ _ _ HI) as H0.
  pose proof (si_held _ _ _ HI) as Hh.
  destruct e as [a|a h|a|a|a| |]; cbn [legal] in Hl; cbn [sem_step];
    try (case_bool_decide as Ha; [|done]).
  - unfold sem_awaiter. destruct (tryAcquire (sem σ)) as [b s] eqn:E.
    destruct (tryAcquire_spec (sem σ) b s ltac:(lia) E) as (Eb & -> & Ev).
    unfold borrowed, bits_of. cbn. rewrite lookup_insert_eq. res_cbn. eexists. split; [done|].
    rewrite Eb, Ev, Z.add_0_r.
    apply sem_inv_set; rewrite ?Ha; try done; destruct (Z.ltb_spec 0 (value_ (sem σ))); cbn; try done; lia.
  - unfold sem_suspend. rewrite (borrowed_ok _ _ _ _ _ HI Ha). res_cbn. cbn.
    destruct (tryAcquire (sem σ)) as [b s] eqn:E.
    destruct (tryAcquire_spec (sem σ) b s ltac:(lia) E) as (Eb & -> & Ev).
    destruct (Z.ltb_spec 0 (value_ (sem σ))) as [Hv|Hv].
    + eexists. split; [done|]. rewrite Z.add_0_r. destruct (si_bits _ _ _ HI _ _ Ha) as (k & Hk & Hk0).
      pose proof (sem_inv_set init r σ a k Granted (value_ s) (held σ) HI) as HS.
      rewrite Ha, (insert_id _ _ _ Hk) in HS. destruct s as [v b], (base (sem σ)). cbn in *.
      subst b. apply HS; try done; lia.
    + assert (Hz : value_ (sem σ) = 0%Z) by lia.
      destruct (sem_inv_wait init r σ a h HI Ha Hz) as (l & El & HI').
      rewrite Eb, El. res_cbn. eexists. split; [done|]. rewrite Ev. cbn [Z.b2z].
      rewrite Z.add_0_r, Z.sub_0_r. done.
  - destruct (ph σ !! a) as [p|] eqn:Ha; [|done]. destruct (si_bits _ _ _ HI _ _ Ha) as (k & Hk & Hk0).
    unfold sem_resume, set_bits. rewrite Hk. res_cbn. eexists. split; [done|]. rewrite Z.add_0_r.
    apply sem_inv_set; try done; rewrite ?Ha; try lia; [by destruct p|]. destruct p as [[]| | |]; cbn in *; try done; lia.
  - destruct (ph σ !! a) as [[]|] eqn:Ha; try done.
    destruct (sem_inv_cancel init r σ a HI Ha) as (l & El & HI'). unfold sem_cancel. rewrite El.
    res_cbn. eexists. split; [done|]. by rewrite Z.add_0_r.
  - assert (Hp : exists p, ph σ !! a = Some p /\ p <> Waiting /\ p <> Granted).
    { destruct (ph σ !! a) as [[]|]; naive_solver. }
    clear Hl. destruct Hp as (p & Hp & Hpw & Hpg). unfold sem_destroy.
    rewrite (borrowed_ok _ _ _ _ _ HI Hp). res_cbn. rewrite Z.add_0_r. case_bool_decide as Hf.
    + destruct (release_ok init r σ HI Hb) as (s' & -> & HI' & _). res_cbn.
      eexists. split; [done|]. subst p.
      assert (Hg : granted σ !! a = Some (Fresh true)).
      { unfold granted, peek. destruct (parked_ (base (sem σ))) as [|x l] eqn:El; [done|]. cbn.
        rewrite lookup_insert_ne; [done|]. intros <-.
        assert (Hx : ph σ !! x = Some Waiting); [|congruence].
        apply (si_waiting _ _ _ HI). rewrite El. apply list_elem_of_here. }
      pose proof (sem_inv_delete init (r + 1) r _ a (held σ) HI') as HD. cbn in HD.
      rewrite Hg in HD. apply HD; [done|lia|cbn; lia].
    + eexists. split; [done|]. apply (sem_inv_delete init r r σ a (held σ) HI); rewrite ?Hp; [congruence|lia|].
      destruct p as [[]| | |]; try done; cbn; lia.
  - destruct (tryAcquire (sem σ)) as [b s] eqn:E.
    destruct (tryAcquire_spec (sem σ) b s ltac:(lia) E) as (Eb & Hbv & Ev). eexists. split; [done|].
    rewrite Z.add_0_r. destruct HI. assert (Hc : (0 <= value_ s <= value_ (sem σ))%Z).
    { subst b. destruct (Z.ltb_spec 0 (value_ (sem σ))); cbn in *; lia. }
    split; cbn [sem base ph held]; rewrite ?Eb; try done; try lia.
    intros. apply si_queue0. lia.
  - destruct (release_ok init r σ HI Hb) as (s' & -> & HI' & _). res_cbn. eexists. split; [done|].
    exact HI'.
Qed.

Lemma sem_run_ok `{!WakerSpec W} init r es σ :
  sem_inv init r σ -> all_legal es σ -> (init + r + releases es + 1 < 2 ^ 64)%Z ->
  exists σ', sem_run es σ = Ok σ' /\ sem_inv init (r + releases es) σ'.
Proof.
  revert r σ. induction es as [|e es IH]; intros r σ HI Hl Hb.
  - exists σ. split; [done|]. by rewrite Z.add_0_r.
  - destruct Hl as [Hl Hls]. assert (He : releases (e :: es) = (releases [e] + releases es)%Z).
    { unfold releases. rewrite !filter_cons. destruct (decide _); cbn; lia. }
    assert (H0 : forall x, (0 <= releases x)%Z) by (intros; unfold releases; lia).
    pose proof (H0 [e]). pose proof (H0 es).
    destruct (sem_step_ok init r e σ HI Hl ltac:(lia)) as (σ1 & E & HI1). rewrite E in Hls.
    destruct (IH (r + releases [e])%Z σ1 HI1 Hls ltac:(lia)) as (σ2 & E2 & H2).
    exists σ2. cbn [sem_run]. rewrite E. res_cbn. split; [done|].
    rewrite He, Z.add_assoc. done.
Qed.

Lemma sem_inv_new init w : (0 <= init)%Z -> sem_inv init 0 (Sys (sem_new init w) ∅ 0).
Proof.
  intros. split; cbn; try done; try lia; [split; [apply NoDup_nil_2|set_solver]|..].
  { rewrite countZ_empty. lia. }
  intros a. split; [set_solver|]. rewrite lookup_empty. done.
Qed.

(** C10. In every legal use of a semaphore no operation fails
    and no permit is lost or invented: the counter, the permits set aside for
    awaiters (borrowed at construction, or handed over by [release()] and not
    collected yet) and the ones held by the users always add up to the initial
    count; the counter is positive only if nobody waits; and the queue holds
    exactly the suspended awaiters.  In particular at most [init] permits are
    held at once. *)
Theorem semaphore_permits `{!WakerSpec W} init w es :
  (0 <= init)%Z -> (init + releases es + 1 < 2 ^ 64)%Z ->
  all_legal es (Sys (sem_new init w) ∅ 0) ->
  exists σ, sem_run es (Sys (sem_new init w) ∅ 0) = Ok σ /\
    (value_ (sem σ) + countZ reserves (ph σ) + held σ = init)%Z /\ (held σ <= init)%Z /\
    ((0 < value_ (sem σ))%Z -> parked_ (base (sem σ)) = []) /\
    (forall a, a ∈ parked_ (base (sem σ)) <-> ph σ !! a = Some Waiting).
Proof.
  intros H0 Hb Hl. destruct (sem_run_ok init 0 es _ (sem_inv_new init w H0) Hl ltac:(lia))
    as (σ & E & HI). exists σ. pose proof (countZ_nonneg reserves (ph σ)).
  destruct HI. split_and!; try done; lia.
Qed.

(** While somebody waits, nobody can overtake: an attempt to
    take a permit fails and a new awaiter is not ready; [release()] hands the
    permit to the task that has waited longest, resumes it and nobody else,
    and leaves the counter alone. *)
Theorem semaphore_fifo `{!WakerSpec W} init w es a l k :
  (0 <= init)%Z -> (init + releases es + 1 < 2 ^ 64)%Z ->
  all_legal es (Sys (sem_new init w) ∅ 0) ->
  exists σ, sem_run es (Sys (sem_new init w) ∅ 0) = Ok σ /\
    (parked_ (base (sem σ)) = a :: l -> aws (base (sem σ)) !! a = Some k ->
     fst (tryAcquire (sem σ)) = false /\
     (forall b, borrowed b (sem_awaiter b (sem σ)) = Ok false) /\
     exists s, release (sem σ) = Ok s /\ parked_ (base s) = l /\ value_ s = value_ (sem σ) /\
       resumed (world (base s)) = resumed (world (base (sem σ))) ++ handle_coro (handle_ k)).
Proof.
  intros H0 Hb Hl. destruct (sem_run_ok init 0 es _ (sem_inv_new init w H0) Hl ltac:(lia))
    as (σ & E & HI). exists σ. split; [done|]. intros Hp Hk. pose proof HI as [Hwf _ Hv0 _ _ Hq _ _].
  assert (Hz : value_ (sem σ) = 0%Z).
  { destruct (Z.eq_dec (value_ (sem σ)) 0%Z); [done|]. specialize (Hq ltac:(lia)). congruence. }
  assert (Ht : tryAcquire (sem σ) = (false, sem σ)) by (unfold tryAcquire; by rewrite Hz).
  split_and!; [by rewrite Ht| |].
  - intros b. unfold sem_awaiter. rewrite Ht. unfold borrowed, bits_of. cbn.
    by rewrite lookup_insert_eq.
  - unfold release, lot_empty, unparkOne. rewrite Hp, bool_decide_false by done. unfold unpark.
    rewrite Hk. res_cbn. rewrite no_reactions. cbn.
    eexists. split_and!; [done| |done|apply resumed_resume]. cbn. rewrite Hp.
    pose proof (wf_nodup _ _ Hwf) as Hn. cbn in Hn. rewrite Hp in Hn. by apply without_head.
Qed.
End Sem.
Arguments sem_event : clear implicits.

(** One permit and four users: two wait, one of them gives up, a borrowed permit
    is returned unused. *)
Definition demo_sem : list sem_event :=
  ([New 1; Resume 1; New 2; Suspend 2 (Coro 12); New 3; Suspend 3 (Coro 13); New 4;
    Suspend 4 (Coro 14); Cancel 3; Release])%positive.
Definition demo_sem0 : sem_sys (W := wlog) := Sys (sem_new 1 []) ∅ 0.

Lemma semaphore_permits_witness :
  exists σ, sem_run demo_sem demo_sem0 = Ok σ /\
    (value_ (sem σ) + countZ reserves (ph σ) + held σ = 1)%Z /\ (held σ <= 1)%Z /\
    ((0 < value_ (sem σ))%Z -> parked_ (base (sem σ)) = []) /\
    (forall a, a ∈ parked_ (base (sem σ)) <-> ph σ !! a = Some Waiting).
Proof. apply (semaphore_permits 1 [] demo_sem); [done..|vm_compute; tauto]. Defined.

Lemma semaphore_fifo_witness :
  exists σ, sem_run demo_sem demo_sem0 = Ok σ /\
    (parked_ (base (sem σ)) = [4%positive] ->
     aws (base (sem σ)) !! 4%positive = Some (Parked 0 (Coro 14)) ->
     fst (tryAcquire (sem σ)) = false /\
     (forall b, borrowed b (sem_awaiter b (sem σ)) = Ok false) /\
     exists s, release (sem σ) = Ok s /\ parked_ (base s) = [] /\ value_ s = value_ (sem σ) /\
       resumed (world (base s)) = resumed (world (base (sem σ))) ++ [14%positive]).
Proof.
  apply (semaphore_fifo 1 [] demo_sem 4%positive [] (Parked 0 (Coro 14))); [done..|vm_compute; tauto].
Defined.

Example demo_sem_end :
  (fun σ => (parked_ (base (sem σ)), world (base (sem σ)), held σ)) <$> sem_run demo_sem demo_sem0
    = Ok ([4%positive], [12%positive], 0%Z).
Proof. vm_compute. reflexivity. Qed.
