(* ===== verification/Channel.v ===== *)
(** [Channel.h]: an ordered channel between tasks, over a buffer ([Fifo.v]) and
    two intrusive wait queues ([ParkingLot.v]), one per half.

    An awaiter claims an element (or a slot) when it is created, or is given
    one by [wakeAwaiters()] when it is woken, and carries the transfer out in
    [await_resume()].  The definitions are the header's, with the two halves told
    apart by a [side] where the code is a template over [Half].  Resuming a
    coroutine goes through the [Waker] interface: inside the executor it posts to
    the ready queue, so no other operation runs in the middle of one (see
    Executor.v).  [chan_sys] adds where each awaiter is in the awaiter protocol
    and the history of the elements accepted and delivered. *)
From S2P Require Export ParkingLot Fifo.
From S2P Require Import RingQueue.

Inductive side := RD | WR.
#[export] Instance side_eq_dec : EqDecision side.
Proof. solve_decision. Defined.

Section Chan.
Context {A Q W : Type} `{!FifoOps A Q} `{!Waker W}.

(** What an awaiter is asked to transfer: the argument packs of [receive()],
    [receive(it, n)], [receive(range)], [send(v)], [send(begin, end)] and
    [send(range)].  [fwd]: the output range is a forward range, so its length is
    taken into account; [ra]: the input is random-access. *)
Inductive args :=
  | RecvOne | RecvIter (n : Z) | RecvRange (fwd : bool) (n : Z)
  | SendOne (v : A) | SendIter (ra : bool) (vs : list A) | SendRange (ra : bool) (vs : list A).

Definition side_of (x : args) : side :=
  match x with RecvOne | RecvIter _ | RecvRange _ _ => RD | _ => WR end.

(** What a transfer answers: an [optional<T>], how far an iterator moved, a
    count, a [bool].  The elements read are listed with it. *)
Inductive answer := GotOne (o : option A) | Moved (n : Z) | Count (n : Z) | Sent (b : bool).

(** [ReadHalf<T>] / [WriteHalf<T>]: the wait queue, the awaiter objects with
    their arguments, [claims_]. *)
Record half := Half {
  h_parked : list loc; h_aws : gmap loc parked; h_args : gmap loc args; claims_ : Z }.

Record chan := Chan {
  buf_ : Q; closed_ : bool; bounded_ : bool; rd_ : half; wr_ : half; cworld : W }.
Implicit Types (c : chan) (s : side) (x : args).

Definition half_of s c : half := match s with RD => rd_ c | WR => wr_ c end.
Definition set_half s (h : half) c : chan :=
  match s with
  | RD => Chan (buf_ c) (closed_ c) (bounded_ c) h (wr_ c) (cworld c)
  | WR => Chan (buf_ c) (closed_ c) (bounded_ c) (rd_ c) h (cworld c)
  end.
Definition set_buf (b : Q) c : chan :=
  Chan b (closed_ c) (bounded_ c) (rd_ c) (wr_ c) (cworld c).
Definition set_claims s (n : Z) c : chan :=
  set_half s (Half (h_parked (half_of s c)) (h_aws (half_of s c)) (h_args (half_of s c)) n) c.

(** The [ParkingLotImpl] base of a half, and putting it back. *)
Definition lot_of s c : lot W :=
  Lot (h_parked (half_of s c)) false (h_aws (half_of s c)) (cworld c).
Definition set_lot s (l : lot W) c : chan :=
  let c := set_half s (Half (parked_ l) (aws l) (h_args (half_of s c)) (claims_ (half_of s c))) c in
  Chan (buf_ c) (closed_ c) (bounded_ c) (rd_ c) (wr_ c) (world l).

Definition empty_half : half := Half [] ∅ ∅ 0.

(** [Channel()] and [Channel(maxSize)] *)
Definition chan_unbounded (w : W) : chan := Chan (fifo_new 0) false false empty_half empty_half w.
Definition chan_bounded (maxSize : nat) (w : W) : res chan :=
  corral_assert (0 <? maxSize);;
  Ok (Chan (fifo_new maxSize) false true empty_half empty_half w).

(** [ReadHalf::size()], [WriteHalf::space()], [unclaimedCount()] of each half,
    [empty()], [full()], [WriteHalf::reallyFull()], [hasWaiters()] *)
Definition chan_size c : Z := to_word (Z.of_nat (fifo_size (buf_ c)) - claims_ (rd_ c)).
Definition chan_space c : Z :=
  if closed_ c then 0
  else if negb (bounded_ c) then word_max
  else to_word (Z.of_nat (fifo_capacity (buf_ c)) - Z.of_nat (fifo_size (buf_ c)) - claims_ (wr_ c)).
Definition unclaimedCount s c : Z := match s with RD => chan_size c | WR => chan_space c end.
Definition chan_empty c : bool := (chan_size c =? 0)%Z.
Definition chan_full c : bool := (chan_space c =? 0)%Z.
Definition reallyFull c : bool := bounded_ c && (fifo_capacity (buf_ c) =? fifo_size (buf_ c)).
Definition hasWaiters s c : bool := negb (lot_empty (lot_of s c)).

(** [~Channel()] *)
Definition chan_destroy c : res unit :=
  corral_assert (negb (hasWaiters RD c));; corral_assert (negb (hasWaiters WR c)).

(** [isNoop(args...)] of the two halves *)
Definition isNoop x : bool :=
  match x with
  | RecvOne | SendOne _ => false
  | RecvIter n | RecvRange _ n => (n =? 0)%Z
  | SendIter _ vs | SendRange _ vs => bool_decide (length vs = 0)
  end.

(** * The awaiters *)

(** [AwaiterBase::claimed()] and [claim()] *)
Definition claimed s (a : loc) c : res bool :=
  b ← bits_of a (lot_of s c); Ok (Nat.odd b).
Definition claim s (a : loc) c : res chan :=
  b ← claimed s a c;
  corral_assert (negb b);;
  l ← set_bits a 1 (lot_of s c);
  let c := set_lot s l c in
  Ok (set_claims s (to_word (claims_ (half_of s c) + 1)) c).

(** [ReadHalf::wakeAwaiters()] and [WriteHalf::wakeAwaiters()]: each turn of the
    loop takes one awaiter off the queue. *)
Fixpoint wake_loop (fuel : nat) s c : res chan :=
  if (0 <? unclaimedCount s c)%Z && hasWaiters s c then
    match fuel with
    | O => Fault OutOfFuel
    | S fuel =>
        a ← deref (peek (lot_of s c));
        c ← claim s a c;
        '(_, l) ← unpark no_react a ([], lot_of s c);
        wake_loop fuel s (set_lot s l c)
    end
  else Ok c.
Definition wakeAwaiters s c : res chan := wake_loop (length (h_parked (half_of s c))) s c.

(** [Awaiter(half, args...)] *)
Definition new_awaiter (a : loc) x c : res chan :=
  let s := side_of x in
  let c := set_lot s (new_parked a 0 (lot_of s c)) c in
  let h := half_of s c in
  let c := set_half s (Half (h_parked h) (h_aws h) (<[a := x]> (h_args h)) (claims_ h)) c in
  if (0 <? unclaimedCount s c)%Z && negb (isNoop x) then claim s a c else Ok c.

(** [~AwaiterBase()]; the base class's destructor unlinks the item. *)
Definition destroy_awaiter s (a : loc) c : res chan :=
  b ← claimed s a c;
  c ← (if b : bool then
         wakeAwaiters s (set_claims s (to_word (claims_ (half_of s c) - 1)) c)
       else Ok c);
  let h := half_of s c in
  Ok (set_half s (Half (without a (h_parked h)) (delete a (h_aws h)) (delete a (h_args h))
                       (claims_ h)) c).

(** [AwaiterBase::await_suspend(h)]: whether the caller suspends. *)
Definition chan_suspend s (a : loc) (h : handle) c : res (bool * chan) :=
  b ← claimed s a c;
  corral_assert (negb b);;
  if (0 <? unclaimedCount s c)%Z then c ← claim s a c; Ok (false, c)
  else l ← doSuspend a h (lot_of s c); Ok (true, set_lot s l c).

(** [Parked::await_cancel()] *)
Definition chan_cancel s (a : loc) c : res (bool * chan) :=
  '(r, l) ← await_cancel a (lot_of s c); Ok (r, set_lot s l c).

(** [Awaiter::ready()] *)
Definition ready s (a : loc) c : res bool :=
  b ← claimed s a c; x ← deref (h_args (half_of s c) !! a);
  Ok (b || closed_ c || isNoop x).

(** * Transfers: [tryTransfer(claimedCount, args...)] *)

Definition drop_claims s (cc : Z) c : chan :=
  set_claims s (to_word (claims_ (half_of s c) - cc)) c.

Definition recv_one (cc : Z) c : res (list A * answer * chan) :=
  corral_assert (cc <=? claims_ (rd_ c))%Z;;
  if (cc =? 0)%Z && (unclaimedCount RD c =? 0)%Z then Ok ([], GotOne None, c)
  else
    corral_assert (negb (fifo_empty (buf_ c)));;
    v ← fifo_front (buf_ c);
    b ← fifo_pop_front (buf_ c);
    c ← wakeAwaiters WR (drop_claims RD cc (set_buf b c));
    Ok ([v], GotOne (Some v), c).

Definition recv_iter (cc n : Z) c : res (list A * answer * chan) :=
  corral_assert (cc <=? claims_ (rd_ c))%Z;;
  let n := Z.min n (to_word (cc + unclaimedCount RD c)) in
  if (n =? 0)%Z then Ok ([], Moved 0, c)
  else
    corral_assert (negb (fifo_empty (buf_ c)));;
    '(vs, k, b) ← fifo_pop_front_to (Z.to_nat n) (buf_ c);
    c ← wakeAwaiters WR (drop_claims RD cc (set_buf b c));
    Ok (vs, Moved (Z.of_nat (length vs)), c).

Definition recv_range (cc : Z) (fwd : bool) (dist : Z) c : res (list A * answer * chan) :=
  corral_assert (cc <=? claims_ (rd_ c))%Z;;
  let n := to_word (cc + unclaimedCount RD c) in
  let n := if fwd then Z.min n dist else n in
  if (n =? 0)%Z then Ok ([], Count 0, c)
  else
    corral_assert (negb (fifo_empty (buf_ c)));;
    '(vs, k, b) ← fifo_pop_front_to (Z.to_nat n) (buf_ c);
    c ← wakeAwaiters WR (drop_claims RD cc (set_buf b c));
    Ok (vs, Count (Z.of_nat k), c).

Definition send_one (cc : Z) (v : A) c : res (list A * answer * chan) :=
  corral_assert (cc <=? claims_ (wr_ c))%Z;;
  if (cc =? 0)%Z && (unclaimedCount WR c =? 0)%Z then Ok ([], Sent false, c)
  else
    corral_assert (negb (closed_ c) && negb (reallyFull c));;
    b ← fifo_push_back v (buf_ c);
    c ← wakeAwaiters RD (set_buf b (drop_claims WR cc c));
    Ok ([v], Sent true, c).

(** [while (avail-- && begin != end) buf_.push_back( *begin++ )] *)
Fixpoint push_loop (avail : nat) (vs : list A) (b : Q) : res (list A * Q) :=
  match avail, vs with
  | S avail, v :: vs => b ← fifo_push_back v b; '(sent, b) ← push_loop avail vs b; Ok (v :: sent, b)
  | _, _ => Ok ([], b)
  end.

(** The transfer shared by the two bulk overloads: how much fits, then
    [append] or the loop. *)
Definition available (cc : Z) c : Z :=
  if bounded_ c then to_word (cc + unclaimedCount WR c) else word_max.
Definition send_bulk (ra : bool) (avail : Z) (vs : list A) (b : Q) : res (list A * Q) :=
  if ra then
    let n := Z.to_nat (Z.min (Z.of_nat (length vs)) avail) in
    b ← fifo_append (take n vs) b; Ok (take n vs, b)
  else push_loop (Z.to_nat (Z.min (Z.of_nat (length vs)) avail)) vs b.

Definition send_iter (cc : Z) (ra : bool) (vs : list A) c : res (list A * answer * chan) :=
  corral_assert (cc <=? claims_ (wr_ c))%Z;;
  if bool_decide (length vs = 0) then Ok ([], Moved 0, c)
  else if (available cc c =? 0)%Z then Ok ([], Moved 0, c)
  else
    corral_assert (negb (closed_ c) && negb (reallyFull c));;
    '(sent, b) ← send_bulk ra (available cc c) vs (buf_ c);
    c ← wakeAwaiters RD (drop_claims WR cc (set_buf b c));
    Ok (sent, Moved (Z.of_nat (length sent)), c).

Definition send_range (cc : Z) (ra : bool) (vs : list A) c : res (list A * answer * chan) :=
  corral_assert (cc <=? claims_ (wr_ c))%Z;;
  if bool_decide (length vs = 0) then Ok ([], Count 0, c)
  else if (available cc c =? 0)%Z then Ok ([], Count 0, c)
  else
    corral_assert (negb (closed_ c) && negb (reallyFull c));;
    '(sent, b) ← send_bulk ra (available cc c) vs (buf_ c);
    c ← wakeAwaiters RD (drop_claims WR cc (set_buf b c));
    Ok (sent, Count (Z.of_nat (length sent)), c).

Definition tryTransfer (cc : Z) x c : res (list A * answer * chan) :=
  match x with
  | RecvOne => recv_one cc c
  | RecvIter n => recv_iter cc n c
  | RecvRange fwd n => recv_range cc fwd n c
  | SendOne v => send_one cc v c
  | SendIter ra vs => send_iter cc ra vs c
  | SendRange ra vs => send_range cc ra vs c
  end.

(** [tryReceive(...)] and [trySend(...)] *)
Definition try_now x c : res (list A * answer * chan) := tryTransfer 0 x c.

(** [Awaiter::await_resume()] *)
Definition chan_resume s (a : loc) c : res (list A * answer * chan) :=
  r ← ready s a c;
  corral_assert r;;
  b ← claimed s a c;
  l ← set_bits a 0 (lot_of s c);
  x ← deref (h_args (half_of s c) !! a);
  tryTransfer (Z.b2z b) x (set_lot s l c).

(** [Channel::close()] *)
Definition close c : res chan :=
  let c := Chan (buf_ c) true (bounded_ c) (rd_ c) (wr_ c) (cworld c) in
  l ← unparkAll no_react (lot_of RD c);
  let c := set_lot RD l c in
  l ← unparkAll no_react (lot_of WR c);
  Ok (set_lot WR l c).

(** * Well-formed channels *)

Definition is_claimed (k : parked) : bool := Nat.odd (pbits k).

Definition args_ok x : Prop :=
  match x with RecvIter n | RecvRange _ n => (0 <= n < 2 ^ 64)%Z | _ => True end.

(** One half; [e] claims are counted in [claims_] but carried by no awaiter
    any more, because an [await_resume()] is about to give them back. *)
Record half_ok s (e : Z) (h : half) : Prop := {
  ho_nodup : NoDup (h_parked h);
  ho_parked : forall a, a ∈ h_parked h -> exists k, h_aws h !! a = Some k /\ pbits k = 0;
  ho_bits : forall a k, h_aws h !! a = Some k -> pbits k = 0 \/ pbits k = 1;
  ho_args : forall a k, h_aws h !! a = Some k -> exists x, h_args h !! a = Some x /\
    side_of x = s /\ args_ok x /\ (pbits k = 1 \/ a ∈ h_parked h -> isNoop x = false);
  ho_claims : claims_ h = (countZ is_claimed (h_aws h) + e)%Z;
  ho_size : (0 <= claims_ h <= Z.of_nat (size (h_aws h)) /\ Z.of_nat (size (h_aws h)) < 2 ^ 64)%Z }.

(** The channel, its buffer holding [l] and [e s] claims being given back. *)
Record chan_ok (max : nat) (e : side -> Z) (l : list A) c : Prop := {
  co_rep : fifo_rep (buf_ c) l;
  co_len : (Z.of_nat (length l) < 2 ^ 64)%Z;
  co_read : (claims_ (rd_ c) <= Z.of_nat (length l))%Z;
  co_write : bounded_ c = true -> fifo_capacity (buf_ c) = max /\ (Z.of_nat max < 2 ^ 64)%Z /\
    (Z.of_nat (length l) + claims_ (wr_ c) <= Z.of_nat max)%Z;
  co_half : forall s, half_ok s (e s) (half_of s c);
  co_closed : forall s, closed_ c = true -> h_parked (half_of s c) = [] }.

Context `{!Fifo A Q}.

Lemma claims_nonneg max e l c s : chan_ok max e l c -> (0 <= claims_ (half_of s c) < 2 ^ 64)%Z.
Proof.
  intros H. pose proof (ho_size _ _ _ (co_half _ _ _ _ H s)). lia.
Qed.

(** The arithmetic of [size()] and [space()] never wraps. *)
Lemma size_eq max e l c :
  chan_ok max e l c -> chan_size c = (Z.of_nat (length l) - claims_ (rd_ c))%Z.
Proof.
  intros H. pose proof (claims_nonneg _ _ _ _ RD H). destruct H. cbn in *.
  unfold chan_size. destruct (fifo_size_rep _ _ co_rep0) as (-> & _). rewrite to_word_small; lia.
Qed.
Lemma space_eq max e l c :
  chan_ok max e l c ->
  chan_space c = if closed_ c then 0%Z else if bounded_ c
    then (Z.of_nat max - Z.of_nat (length l) - claims_ (wr_ c))%Z else word_max.
Proof.
  intros H. pose proof (claims_nonneg _ _ _ _ WR H). destruct H. cbn in *.
  unfold chan_space. destruct (closed_ c); [done|]. destruct (bounded_ c) eqn:Hb; [|done]. cbn.
  destruct (co_write0 eq_refl) as (-> & ? & ?).
  destruct (fifo_size_rep _ _ co_rep0) as (-> & _). rewrite to_word_small; lia.
Qed.
Lemma unclaimed_nonneg max e l c s : chan_ok max e l c -> (0 <= unclaimedCount s c < 2 ^ 64)%Z.
Proof.
  intros H. pose proof (claims_nonneg _ _ _ _ RD H). pose proof (claims_nonneg _ _ _ _ WR H).
  destruct s; cbn [unclaimedCount].
  - rewrite (size_eq _ _ _ _ H). destruct H; cbn in *; lia.
  - rewrite (space_eq _ _ _ _ H). destruct (closed_ c); [lia|].
    destruct (bounded_ c) eqn:E; [|unfold word_max; lia].
    destruct (co_write _ _ _ _ H E) as (? & ? & ?). cbn in *. lia.
Qed.

Definition other s : side := match s with RD => WR | WR => RD end.

Lemma half_set s h c : half_of s (set_half s h c) = h.
Proof. by destruct s. Qed.
Lemma half_set_other s s' h c : s <> s' -> half_of s' (set_half s h c) = half_of s' c.
Proof. by destruct s, s'. Qed.
Lemma half_set_lot s l c :
  half_of s (set_lot s l c) = Half (parked_ l) (aws l) (h_args (half_of s c)) (claims_ (half_of s c)).
Proof. by destruct s. Qed.
Lemma half_set_lot_other s s' l c : s <> s' -> half_of s' (set_lot s l c) = half_of s' c.
Proof. by destruct s, s'. Qed.

(** Replacing one half by another that is as good. *)
Lemma chan_ok_half max e l c s h ez c' :
  chan_ok max e l c ->
  half_of s c' = h -> (forall s', s' <> s -> half_of s' c' = half_of s' c) ->
  buf_ c' = buf_ c -> closed_ c' = closed_ c -> bounded_ c' = bounded_ c ->
  half_ok s ez h ->
  (claims_ h <= claims_ (half_of s c) + unclaimedCount s c)%Z ->
  (closed_ c = true -> h_parked h = []) ->
  chan_ok max (fun s' => if decide (s' = s) then ez else e s') l c'.
Proof.
  intros H Hh Ho Hb Hc Hbd Hok Hcl Hcd. pose proof (size_eq _ _ _ _ H) as HS.
  pose proof (space_eq _ _ _ _ H) as HP.
  split; rewrite ?Hb, ?Hc, ?Hbd; try apply H.
  - destruct s; [rewrite <- Hh in Hcl; cbn in *; rewrite HS in Hcl; destruct H; lia|].
    specialize (Ho RD ltac:(done)). cbn in Ho. rewrite Ho. apply H.
  - intros Hbb. destruct (co_write _ _ _ _ H Hbb) as (-> & ? & Hw). split_and!; [done|done|].
    destruct s; [specialize (Ho WR ltac:(done)); cbn in Ho; by rewrite Ho|].
    cbn in *. rewrite Hh. rewrite HP, Hbb in Hcl. destruct (closed_ c); lia.
  - intros s'. case_decide as E; [subst s'; by rewrite Hh|]. rewrite Ho by done. apply H.
  - intros s' Hcc. destruct (decide (s' = s)) as [->|E]; [rewrite Hh; by apply Hcd|].
    rewrite Ho by done. by apply H.
Qed.

Lemma chan_ok_ext max e e' l c : chan_ok max e l c -> (forall s, e' s = e s) -> chan_ok max e' l c.
Proof. intros [] He. split; try done; intros s; rewrite He; eauto. Qed.

(** * Waking *)

Definition handles s c (ws : list loc) : list loc := ws ≫= handle_of (lot_of s c).

(** [c'] is [c] after the awaiters [ws] of one half were taken off the front of
    the queue, given [bits], and resumed. *)
Record waked (bits : nat) s c c' (ws : list loc) : Prop := {
  wk_buf : buf_ c' = buf_ c;
  wk_closed : closed_ c' = closed_ c;
  wk_bounded : bounded_ c' = bounded_ c;
  wk_other : forall s', s' <> s -> half_of s' c' = half_of s' c;
  wk_args : h_args (half_of s c') = h_args (half_of s c);
  wk_parked : h_parked (half_of s c) = ws ++ h_parked (half_of s c');
  wk_aws : forall a, h_aws (half_of s c') !! a =
    if decide (a ∈ ws) then Some (Parked bits Noop) else h_aws (half_of s c) !! a;
  wk_resumed : resumed (cworld c') = resumed (cworld c) ++ handles s c ws }.

Lemma waked_nil b s c : waked b s c c [].
Proof.
  split; try done.
  unfold handles. cbn. by rewrite app_nil_r.
Qed.

Lemma waked_cons b s c c1 c2 a ws :
  NoDup (h_parked (half_of s c)) ->
  waked b s c c1 [a] -> waked b s c1 c2 ws -> waked b s c c2 (a :: ws).
Proof.
  intros Hn H1 H2. assert (Hna : a ∉ ws).
  { rewrite (wk_parked _ _ _ _ _ H1), (wk_parked _ _ _ _ _ H2) in Hn. cbn in Hn.
    apply NoDup_cons in Hn as [Hn _]. set_solver. }
  split.
  - by rewrite (wk_buf _ _ _ _ _ H2), (wk_buf _ _ _ _ _ H1).
  - by rewrite (wk_closed _ _ _ _ _ H2), (wk_closed _ _ _ _ _ H1).
  - by rewrite (wk_bounded _ _ _ _ _ H2), (wk_bounded _ _ _ _ _ H1).
  - intros s' Hs. by rewrite (wk_other _ _ _ _ _ H2), (wk_other _ _ _ _ _ H1).
  - by rewrite (wk_args _ _ _ _ _ H2), (wk_args _ _ _ _ _ H1).
  - by rewrite (wk_parked _ _ _ _ _ H1), (wk_parked _ _ _ _ _ H2).
  - intros x. rewrite (wk_aws _ _ _ _ _ H2), (wk_aws _ _ _ _ _ H1).
    repeat case_decide; set_solver.
  - rewrite (wk_resumed _ _ _ _ _ H2), (wk_resumed _ _ _ _ _ H1).
    rewrite <- app_assoc. f_equal. unfold handles. cbn. rewrite app_nil_r. f_equal.
    apply (bind_handles_ext no_react). intros x Hx. cbn. rewrite (wk_aws _ _ _ _ _ H1).
    rewrite decide_False; [done|]. set_solver.
Qed.

Lemma unpark_first `{!WakerSpec W} s c a pl k :
  h_parked (half_of s c) = a :: pl -> h_aws (half_of s c) !! a = Some k ->
  exists l, unpark no_react a ([], lot_of s c) = Ok ([], l) /\
    (NoDup (a :: pl) -> parked_ l = pl) /\ aws l = <[a := Parked (pbits k) Noop]> (h_aws (half_of s c)) /\
    resumed (world l) = resumed (cworld c) ++ handle_coro (handle_ k).
Proof.
  intros Hp Hk. unfold unpark. cbn [lot_of parked_ aws world triggered_]. rewrite Hk. res_cbn.
  rewrite no_reactions. cbn [do_reactions].
  eexists. split; [done|]. cbn. split_and!; [|done|apply resumed_resume].
  rewrite Hp. apply without_head.
Qed.

Lemma half_ok_insert s e h a k x k' pl cl e' :
  half_ok s e h -> h_aws h !! a = Some k -> h_args h !! a = Some x ->
  pl `sublist_of` h_parked h -> a ∉ pl -> pbits k' = 0 \/ pbits k' = 1 ->
  (pbits k' = 1 -> isNoop x = false) ->
  (cl = claims_ h - Z.b2z (is_claimed k) + Z.b2z (is_claimed k') + (e' - e))%Z ->
  (0 <= cl)%Z -> (e' <= 0 \/ cl <= claims_ h)%Z ->
  half_ok s e' (Half pl (<[a := k']> (h_aws h)) (h_args h) cl).
Proof.
  intros Hh Hk Hx Hpl Ha Hb Hno Hcl He Hsz. pose proof (ho_claims _ _ _ Hh) as HC. split; cbn.
  - eapply sublist_NoDup; [apply Hh|exact Hpl].
  - intros y Hy. rewrite lookup_insert_ne by (intros <-; done).
    apply Hh. eapply elem_of_sublist; done.
  - intros y q. destruct (decide (y = a)) as [->|Hy].
    + rewrite lookup_insert_eq. intros [= <-]. done.
    + rewrite lookup_insert_ne by done. apply Hh.
  - intros y q. destruct (decide (y = a)) as [->|Hy].
    + rewrite lookup_insert_eq. intros [= <-]. destruct (ho_args _ _ _ Hh _ _ Hk) as (x' & Hx' & ? & ? & ?).
      rewrite Hx in Hx'. injection Hx' as <-. exists x. split_and!; try done. intros [?|?]; [by apply Hno|done].
    + rewrite lookup_insert_ne by done. intros Hq.
      destruct (ho_args _ _ _ Hh _ _ Hq) as (x' & Hx' & ? & ? & HN). exists x'. split_and!; try done.
      intros [?|Hin]; apply HN; [by left|right]. eapply elem_of_sublist; done.
  - rewrite countZ_insert, Hk. cbn. lia.
  - pose proof (ho_size _ _ _ Hh). pose proof (countZ_le_size is_claimed (<[a:=k']> (h_aws h))) as HL.
    rewrite countZ_insert, Hk in HL. cbn [weight] in HL.
    rewrite map_size_insert_Some in * by done. lia.
Qed.

(** One turn of [wakeAwaiters()]. *)
Lemma wake_one `{!WakerSpec W} max e l s c a pl :
  chan_ok max e l c -> (e s <= 0)%Z -> h_parked (half_of s c) = a :: pl ->
  (0 < unclaimedCount s c)%Z ->
  exists c1 l2, claim s a c = Ok c1 /\
    unpark no_react a ([], lot_of s c1) = Ok ([], l2) /\
    chan_ok max e l (set_lot s l2 c1) /\ waked 1 s c (set_lot s l2 c1) [a].
Proof.
  intros H He Hp Hu. pose proof (co_half _ _ _ _ H s) as Hh.
  destruct (ho_parked _ _ _ Hh a ltac:(rewrite Hp; set_solver)) as (k & Hk & Hk0).
  destruct (ho_args _ _ _ Hh _ _ Hk) as (x & Hx & Hsx & Hax & Hnx).
  pose proof (ho_nodup _ _ _ Hh) as Hnd. rewrite Hp in Hnd. pose proof Hnd as Hnd'.
  apply NoDup_cons in Hnd' as [Hna Hnd'].
  unfold claim, claimed, bits_of, set_bits. cbn [lot_of aws]. rewrite Hk. res_cbn.
  rewrite Hk0. cbn [Nat.odd negb]. res_cbn. cbn [lot_of aws]. 
  set (c1 := set_claims _ _ _).
  assert (Hh1 : half_of s c1 = Half (a :: pl) (<[a := Parked 1 (handle_ k)]> (h_aws (half_of s c)))
    (h_args (half_of s c)) (to_word (claims_ (half_of s c) + 1))).
  { subst c1. unfold set_claims. rewrite half_set, !half_set_lot. cbn. by rewrite Hp. }
  pose proof (claims_nonneg _ _ _ _ s H) as Hc0.
  pose proof (countZ_le_size is_claimed (<[a:=Parked 1 Noop]> (h_aws (half_of s c)))) as HL.
  rewrite countZ_insert, Hk, map_size_insert_Some in HL by done. cbn in HL.
  unfold is_claimed in HL at 2. rewrite Hk0 in HL. cbn in HL.
  pose proof (ho_claims _ _ _ Hh) as HC. pose proof (ho_size _ _ _ Hh) as HSz.
  rewrite to_word_small in Hh1 by lia.
  destruct (unpark_first s c1 a pl (Parked 1 (handle_ k))) as (l2 & E2 & Hpl & Haws & Hres);
    [by rewrite Hh1|rewrite Hh1; apply lookup_insert_eq|].
  specialize (Hpl Hnd). rewrite Hh1 in Haws. cbn in Haws. rewrite insert_insert_eq in Haws.
  exists c1, l2. split; [done|]. split; [done|].
  assert (Hh2 : half_of s (set_lot s l2 c1) = Half pl (<[a := Parked 1 Noop]> (h_aws (half_of s c)))
    (h_args (half_of s c)) (claims_ (half_of s c) + 1)).
  { rewrite half_set_lot, Hh1, Hpl, Haws. done. }
  assert (Ho : forall s', s' <> s -> half_of s' (set_lot s l2 c1) = half_of s' c).
  { intros s' Hs. subst c1. unfold set_claims.
    rewrite half_set_lot_other, half_set_other, half_set_lot_other by done. done. }
  split.
  - apply (chan_ok_ext max (fun s' => if decide (s' = s) then e s else e s')).
    2: { intros s'. by case_decide; subst. }
    eapply chan_ok_half; [exact H|exact Hh2|exact Ho|by destruct s..| | |].
    + apply (half_ok_insert s (e s) (half_of s c) a k x); try done.
      * rewrite Hp. by apply sublist_cons.
      * by right.
      * intros _. apply Hnx. right. rewrite Hp. set_solver.
      * unfold is_claimed at 1. rewrite Hk0. cbn. lia.
      * lia.
      * by left.
    + cbn. lia.
    + intros Hcl. rewrite (co_closed _ _ _ _ H s Hcl) in Hp. done.
  - split; try (by destruct s); try done.
    + by rewrite Hh2, Hp.
    + intros y. rewrite Hh2. cbn. destruct (decide (y = a)) as [->|Hy].
      * rewrite lookup_insert_eq, decide_True by set_solver. done.
      * rewrite lookup_insert_ne, decide_False by set_solver. done.
    + assert (Hw : cworld (set_lot s l2 c1) = world l2) by (by destruct s). rewrite Hw, Hres.
      assert (Hw1 : cworld c1 = cworld c) by (by destruct s). rewrite Hw1. f_equal.
      unfold handles, handle_of. cbn. rewrite Hk. by rewrite app_nil_r.
Qed.

Lemma wake_ok `{!WakerSpec W} max e l s c :
  chan_ok max e l c -> (e s <= 0)%Z ->
  exists c' ws, wakeAwaiters s c = Ok c' /\ chan_ok max e l c' /\ waked 1 s c c' ws /\
    ((0 < unclaimedCount s c')%Z -> h_parked (half_of s c') = []).
Proof.
  intros H He. unfold wakeAwaiters.
  assert (Hf : length (h_parked (half_of s c)) <= length (h_parked (half_of s c))) by lia.
  revert Hf. generalize (length (h_parked (half_of s c))) at 2 3 as fuel.
  intros fuel. revert c H. induction fuel as [|fuel IH]; intros c H Hf; cbn [wake_loop];
    unfold hasWaiters, lot_empty; cbn [lot_of parked_];
    destruct (h_parked (half_of s c)) as [|a pl] eqn:Hp; cbn [length] in Hf; try lia.
  1,2: rewrite bool_decide_true, andb_false_r by done; exists c, [];
    split_and!; [done|done|apply waked_nil|done].
  rewrite bool_decide_false by done. rewrite andb_true_r. destruct (Z.ltb_spec 0 (unclaimedCount s c)).
  2: { exists c, []. split_and!; [done|done|apply waked_nil|lia]. }
  destruct (wake_one max e l s c a pl H He Hp) as (c1 & l2 & E1 & E2 & H2 & HW); [done|].
  unfold peek. cbn [lot_of parked_]. rewrite Hp. cbn [head]. res_cbn. rewrite E1. res_cbn.
  rewrite E2. res_cbn. assert (Hp2 : h_parked (half_of s (set_lot s l2 c1)) = pl).
  { pose proof (wk_parked _ _ _ _ _ HW) as E. rewrite Hp in E. by injection E. }
  destruct (IH _ H2) as (c' & ws & E' & H' & HW' & HN); [rewrite Hp2; lia|].
  exists c', (a :: ws). split_and!; try done. eapply waked_cons; [|done..].
  apply (co_half _ _ _ _ H s).
Qed.

(** * What a transfer must do *)

Definition payload x : list A :=
  match x with SendOne v => [v] | SendIter _ vs | SendRange _ vs => vs | _ => [] end.
(** How many elements a transfer with [cc] claims moves. *)
Definition transfer_count x (cc : Z) c : Z :=
  let avail := (cc + unclaimedCount (side_of x) c)%Z in
  match x with
  | RecvOne => Z.min 1 avail
  | RecvIter n | RecvRange true n => Z.min n avail
  | RecvRange false _ => avail
  | _ => let len := Z.of_nat (length (payload x)) in
         if closed_ c then 0 else if bounded_ c then Z.min len avail else len
  end.
Definition answer_of x (vs : list A) : answer :=
  match x with
  | RecvOne => GotOne (head vs)
  | RecvIter _ | SendIter _ _ => Moved (Z.of_nat (length vs))
  | RecvRange _ _ | SendRange _ _ => Count (Z.of_nat (length vs))
  | SendOne _ => Sent (bool_decide (length vs <> 0))
  end.
Definition contents_after x (k : nat) (l : list A) : list A :=
  match side_of x with RD => drop k l | WR => l ++ take k (payload x) end.
Definition moved_items x (k : nat) (l : list A) : list A :=
  match side_of x with RD => take k l | WR => take k (payload x) end.

(** The transfers that run into [CORRAL_ASSERT(!channel().closed())]: a write
    that still holds a claim when the channel has been closed, and a bulk
    write of a non-empty range to a closed unbounded channel. *)
Definition hazard x (cc : Z) c : bool :=
  closed_ c &&
  match x with
  | SendOne _ => (0 <? cc)%Z
  | SendIter _ vs | SendRange _ vs =>
      negb (bool_decide (length vs = 0)) && (negb (bounded_ c) || (0 <? cc)%Z)
  | _ => false
  end.
Definition fits x c : bool :=
  (Z.of_nat (fifo_size (buf_ c)) + Z.of_nat (length (payload x)) <? 2 ^ 64)%Z.

Definition e_of s (cc : Z) : side -> Z := fun s' => if decide (s' = s) then cc else 0%Z.
Definition settled : side -> Z := fun _ => 0%Z.

(** The channel around a transfer of half [s]: its own queue is untouched, and
    [ws] of the other half are woken. *)
Record moved s c c' (ws : list loc) : Prop := {
  mv_closed : closed_ c' = closed_ c;
  mv_bounded : bounded_ c' = bounded_ c;
  mv_parked : h_parked (half_of s c') = h_parked (half_of s c);
  mv_aws : h_aws (half_of s c') = h_aws (half_of s c);
  mv_args : forall s', h_args (half_of s' c') = h_args (half_of s' c);
  mv_oparked : h_parked (half_of (other s) c) = ws ++ h_parked (half_of (other s) c');
  mv_oaws : forall a, h_aws (half_of (other s) c') !! a =
    if decide (a ∈ ws) then Some (Parked 1 Noop) else h_aws (half_of (other s) c) !! a;
  mv_resumed : resumed (cworld c') = resumed (cworld c) ++ handles (other s) c ws;
  mv_unclaimed : (unclaimedCount s c' <= unclaimedCount s c)%Z;
  mv_nolost : ((0 < unclaimedCount (other s) c)%Z -> h_parked (half_of (other s) c) = []) ->
    (0 < unclaimedCount (other s) c')%Z -> h_parked (half_of (other s) c') = [] }.

Lemma moved_refl s c : moved s c c [].
Proof. split; try done. unfold handles. cbn. by rewrite app_nil_r. Qed.

Lemma half_ok_drop s e h :
  half_ok s e h -> (0 <= e <= claims_ h)%Z ->
  half_ok s 0 (Half (h_parked h) (h_aws h) (h_args h) (claims_ h - e)).
Proof. intros [] ?. split; cbn; try done; lia. Qed.

(** The end of every transfer: the buffer [b] holds the new contents, the
    claims are given back, the other half is woken. *)
Lemma transfer_tail `{!WakerSpec W} max s cc l l' b c :
  chan_ok max (e_of s cc) l c -> (cc = 0 \/ cc = 1)%Z ->
  fifo_rep b l' -> (Z.of_nat (length l') < 2 ^ 64)%Z ->
  (bounded_ c = true -> fifo_capacity b = fifo_capacity (buf_ c)) ->
  (closed_ c = true -> s = RD) ->
  match s with
  | RD => (cc <= Z.of_nat (length l) - Z.of_nat (length l') <= cc + unclaimedCount RD c)%Z
  | WR => (cc <= Z.of_nat (length l') - Z.of_nat (length l))%Z /\
          (bounded_ c = true -> Z.of_nat (length l') - Z.of_nat (length l) <= cc + unclaimedCount WR c)%Z
  end ->
  exists c' ws, wakeAwaiters (other s) (drop_claims s cc (set_buf b c)) = Ok c' /\
    chan_ok max settled l' c' /\ moved s c c' ws /\
    (bounded_ c = true -> buf_ c' = b).
Proof.
  intros H Hcc Hb Hl' Hcap Hcd Hk. pose proof (claims_nonneg _ _ _ _ s H) as Hcl.
  pose proof (size_eq _ _ _ _ H) as HS. pose proof (space_eq _ _ _ _ H) as HP.
  pose proof (co_half _ _ _ _ H s) as Hho. unfold e_of in Hho. rewrite decide_True in Hho by done.
  assert (Hcle : (cc <= claims_ (half_of s c))%Z).
  { pose proof (ho_claims _ _ _ Hho). pose proof (countZ_nonneg is_claimed (h_aws (half_of s c))). lia. }
  set (c1 := drop_claims s cc (set_buf b c)).
  assert (Hc1 : half_of s c1 = Half (h_parked (half_of s c)) (h_aws (half_of s c))
    (h_args (half_of s c)) (claims_ (half_of s c) - cc)).
  { subst c1. unfold drop_claims, set_claims. rewrite half_set.
    replace (half_of s (set_buf b c)) with (half_of s c) by (by destruct s).
    rewrite to_word_small by lia. done. }
  assert (Ho : half_of (other s) c1 = half_of (other s) c) by (by destruct s).
  assert (H1 : chan_ok max settled l' c1).
  { split.
    - by destruct s.
    - done.
    - destruct s; cbn [half_of other] in Hc1, Ho; [rewrite Hc1|rewrite Ho]; cbn in *; rewrite ?HS in Hk; try lia.
      pose proof (co_read _ _ _ _ H). lia.
    - intros Hbd. assert (Hbd' : bounded_ c = true) by (by destruct s).
      replace (buf_ c1) with b by (by destruct s). rewrite (Hcap Hbd').
      destruct (co_write _ _ _ _ H Hbd') as (-> & ? & ?). split_and!; [done|done|].
      pose proof (co_read _ _ _ _ H).
      destruct s; cbn [half_of other] in Hc1, Ho; [rewrite Ho|rewrite Hc1]; cbn in *; [lia|].
      rewrite HP, Hbd' in Hk. destruct Hk as [? Hk]. specialize (Hk eq_refl).
      destruct (closed_ c); [by specialize (Hcd eq_refl)|lia].
    - intros s'. unfold settled. destruct (decide (s' = s)) as [->|Hs].
      + rewrite Hc1. apply half_ok_drop; [done|lia].
      + assert (s' = other s) as -> by (by destruct s, s'). rewrite Ho.
        pose proof (co_half _ _ _ _ H (other s)) as HX. unfold e_of in HX.
        rewrite decide_False in HX by (by destruct s). exact HX.
    - intros s' Hcl'. assert (closed_ c = true) by (by destruct s).
      destruct (decide (s' = s)) as [->|Hs]; [rewrite Hc1; cbn; by apply H|].
      assert (s' = other s) as -> by (by destruct s, s'). rewrite Ho. by apply H. }
  destruct (wake_ok max settled l' (other s) c1 H1 (Z.le_refl 0)) as (c' & ws & E & H' & HW & HN).
  assert (Hs : half_of s c' = half_of s c1) by (apply HW; by destruct s).
  assert (Hbuf : buf_ c' = b) by (rewrite (wk_buf _ _ _ _ _ HW); by destruct s).
  exists c', ws. split_and!; try done. split.
  - rewrite (wk_closed _ _ _ _ _ HW). by destruct s.
  - rewrite (wk_bounded _ _ _ _ _ HW). by destruct s.
  - by rewrite Hs, Hc1.
  - by rewrite Hs, Hc1.
  - intros s'. destruct (decide (s' = s)) as [->|Hne]; [by rewrite Hs, Hc1|].
    assert (s' = other s) as -> by (by destruct s, s'). by rewrite (wk_args _ _ _ _ _ HW), Ho.
  - rewrite <- Ho. apply HW.
  - intros a. rewrite (wk_aws _ _ _ _ _ HW), Ho. done.
  - rewrite (wk_resumed _ _ _ _ _ HW). f_equal; [by destruct s|]. unfold handles.
    apply (bind_handles_ext no_react). intros a _. cbn. by rewrite Ho.
  - destruct s; cbn [unclaimedCount].
    + rewrite (size_eq _ _ _ _ H'), HS. cbn [half_of] in Hs, Hc1. rewrite Hs, Hc1. cbn in *. lia.
    + rewrite (space_eq _ _ _ _ H'), HP. rewrite (wk_closed _ _ _ _ _ HW), (wk_bounded _ _ _ _ _ HW).
      change (closed_ c1) with (closed_ c). change (bounded_ c1) with (bounded_ c).
      destruct (closed_ c); [lia|]. destruct (bounded_ c); [|lia].
      cbn [half_of] in Hs, Hc1. rewrite Hs, Hc1. cbn. lia.
  - intros _. apply HN.
Qed.

(** What [tryTransfer] promises. *)
Definition transferred max x (cc : Z) (l : list A) c (r : res (list A * answer * chan)) : Prop :=
  exists k c' ws, k = Z.to_nat (transfer_count x cc c) /\
    r = Ok (moved_items x k l, answer_of x (moved_items x k l), c') /\
    chan_ok max settled (contents_after x k l) c' /\ moved (side_of x) c c' ws.

Lemma transferred_none max x cc l c :
  chan_ok max (e_of (side_of x) cc) l c -> cc = 0%Z -> transfer_count x cc c = 0%Z ->
  transferred max x cc l c (Ok ([], answer_of x [], c)).
Proof.
  intros H -> Hk. exists 0, c, []. rewrite Hk.
  assert (Hm : moved_items x 0 l = []) by (by destruct x). rewrite Hm.
  split_and!; [done|done| |apply moved_refl].
  assert (Hl : contents_after x 0 l = l) by (destruct x; cbn; by rewrite ?app_nil_r). rewrite Hl.
  eapply chan_ok_ext; [exact H|]. intros s. unfold e_of, settled. by case_decide.
Qed.

Lemma claimed_le max s cc l c : chan_ok max (e_of s cc) l c -> (cc <= claims_ (half_of s c))%Z.
Proof.
  intros H. pose proof (co_half _ _ _ _ H s) as Hh. unfold e_of in Hh. rewrite decide_True in Hh by done.
  pose proof (ho_claims _ _ _ Hh). pose proof (countZ_nonneg is_claimed (h_aws (half_of s c))). lia.
Qed.

Lemma word_sum max e s cc l c :
  chan_ok max e l c -> s = RD \/ bounded_ c = true -> (0 <= cc <= claims_ (half_of s c))%Z ->
  to_word (cc + unclaimedCount s c) = (cc + unclaimedCount s c)%Z.
Proof.
  intros H Hs Hcc. pose proof (unclaimed_nonneg _ _ _ _ s H). pose proof (claims_nonneg _ _ _ _ s H).
  apply to_word_small. split; [lia|]. destruct s; cbn [unclaimedCount half_of] in *.
  - rewrite (size_eq _ _ _ _ H). pose proof (co_len _ _ _ _ H). lia.
  - destruct Hs as [[=]|Hb]. rewrite (space_eq _ _ _ _ H), Hb.
    destruct (co_write _ _ _ _ H Hb) as (? & ? & ?). destruct (closed_ c); lia.
Qed.

(** Reading [k] elements, for the three overloads of [receive()]. *)
Lemma read_tail `{!WakerSpec W} max x cc l c k b :
  side_of x = RD -> chan_ok max (e_of RD cc) l c -> (cc = 0 \/ cc = 1)%Z ->
  transfer_count x cc c = Z.of_nat k -> 1 <= k -> (Z.of_nat k <= cc + unclaimedCount RD c)%Z ->
  fifo_rep b (drop k l) -> fifo_capacity b = fifo_capacity (buf_ c) ->
  transferred max x cc l c
    ('(vs, ans) ← Ok (take k l, answer_of x (take k l));
     c ← wakeAwaiters WR (drop_claims RD cc (set_buf b c)); Ok (vs, ans, c)).
Proof.
  intros Hx H Hcc Hk Hk1 Hku Hb Hcap. pose proof (co_len _ _ _ _ H).
  assert (Hkl : (Z.of_nat k <= Z.of_nat (length l))%Z).
  { pose proof (claimed_le _ _ _ _ _ H) as HC. cbn in *. rewrite (size_eq _ _ _ _ H) in Hku. lia. }
  destruct (transfer_tail max RD cc l (drop k l) b c H Hcc Hb) as (c' & ws & E & H' & HM & _).
  - rewrite length_drop. lia.
  - done.
  - done.
  - rewrite length_drop. lia.
  - cbn [other] in E. exists k, c', ws. rewrite Hk, Nat2Z.id. res_cbn. rewrite E. res_cbn.
    unfold moved_items, contents_after. rewrite Hx. split_and!; done.
Qed.

Lemma not_empty (b : Q) l : fifo_rep b l -> 0 < length l -> fifo_empty b = false.
Proof.
  intros Hb Hl. destruct (fifo_size_rep _ _ Hb) as (_ & _ & ->).
  apply bool_decide_false. intros ->. cbn in Hl. lia.
Qed.

Lemma recv_one_ok `{!WakerSpec W} max cc l c :
  chan_ok max (e_of RD cc) l c -> (cc = 0 \/ cc = 1)%Z ->
  transferred max RecvOne cc l c (recv_one cc c).
Proof.
  intros H Hcc. pose proof (claimed_le _ _ _ _ _ H) as Hle. cbn [half_of] in Hle.
  pose proof (unclaimed_nonneg _ _ _ _ RD H) as Hu. unfold recv_one.
  rewrite (proj2 (Z.leb_le _ _) Hle). res_cbn.
  destruct ((cc =? 0)%Z && (unclaimedCount RD c =? 0)%Z) eqn:E.
  { apply andb_true_iff in E as [->%Z.eqb_eq Hz%Z.eqb_eq].
    apply (transferred_none max RecvOne); [done|done|]. cbn [transfer_count side_of]. lia. }
  assert (Ha : (1 <= cc + unclaimedCount RD c)%Z).
  { apply andb_false_iff in E as [E%Z.eqb_neq|E%Z.eqb_neq]; lia. }
  assert (Hl : 0 < length l).
  { cbn in *. rewrite (size_eq _ _ _ _ H) in Ha. lia. }
  pose proof (co_rep _ _ _ _ H) as Hr. rewrite (not_empty _ _ Hr Hl). cbn [negb]. res_cbn.
  destruct l as [|v l]; cbn in Hl; [lia|].
  destruct (fifo_pop_front_rep _ _ _ Hr) as (b & Eb & Hb & Hcap).
  rewrite (fifo_front_rep _ _ _ Hr). res_cbn. rewrite Eb. res_cbn.
  apply (read_tail max RecvOne cc (v :: l) c 1 b); try done. cbn [transfer_count side_of]. lia.
Qed.

Lemma recv_many_ok `{!WakerSpec W} max x cc n l c :
  side_of x = RD -> chan_ok max (e_of RD cc) l c -> (cc = 0 \/ cc = 1)%Z ->
  transfer_count x cc c = n -> (0 < n <= cc + unclaimedCount RD c)%Z ->
  exists k b, Z.to_nat n = k /\ fifo_empty (buf_ c) = false /\
    fifo_pop_front_to k (buf_ c) = Ok (take k l, k, b) /\ length (take k l) = k /\
    transferred max x cc l c
     ('(vs, ans) ← Ok (take k l, answer_of x (take k l));
      c ← wakeAwaiters WR (drop_claims RD cc (set_buf b c)); Ok (vs, ans, c)).
Proof.
  intros Hx H Hcc Hn Hnu. pose proof (co_rep _ _ _ _ H) as Hr.
  pose proof (claimed_le _ _ _ _ _ H) as Hle. cbn [half_of] in Hle.
  assert (Hl : (n <= Z.of_nat (length l))%Z).
  { cbn in Hnu. rewrite (size_eq _ _ _ _ H) in Hnu. lia. }
  destruct (fifo_pop_front_to_rep _ (Z.to_nat n) _ Hr ltac:(lia)) as (b & Eb & Hb & Hcap).
  exists (Z.to_nat n), b. split_and!; [done|apply (not_empty _ _ Hr); lia|done| |].
  - rewrite length_take. lia.
  - apply read_tail; try done; lia.
Qed.

Lemma recv_iter_ok `{!WakerSpec W} max cc n l c :
  chan_ok max (e_of RD cc) l c -> (cc = 0 \/ cc = 1)%Z -> (0 <= n < 2 ^ 64)%Z ->
  (cc = 1%Z -> n <> 0%Z) ->
  transferred max (RecvIter n) cc l c (recv_iter cc n c).
Proof.
  intros H Hcc Hn Hno. pose proof (claimed_le _ _ _ _ _ H) as Hle. cbn [half_of] in Hle.
  pose proof (unclaimed_nonneg _ _ _ _ RD H) as Hu. unfold recv_iter.
  rewrite (proj2 (Z.leb_le _ _) Hle). res_cbn.
  rewrite (word_sum max _ RD cc l c H) by (cbn; auto; lia).
  destruct (Z.eqb_spec (Z.min n (cc + unclaimedCount RD c)) 0) as [Hz|Hz].
  { apply (transferred_none max (RecvIter n)); [done|lia|exact Hz]. }
  destruct (recv_many_ok max (RecvIter n) cc (Z.min n (cc + unclaimedCount RD c)) l c)
    as (k & b & Ek & He & Eb & Hlen & HT); try done; [lia|].
  rewrite He, Ek. cbn [negb]. res_cbn. rewrite Eb. res_cbn. exact HT.
Qed.

Lemma recv_range_ok `{!WakerSpec W} max cc fwd n l c :
  chan_ok max (e_of RD cc) l c -> (cc = 0 \/ cc = 1)%Z -> (0 <= n < 2 ^ 64)%Z ->
  (cc = 1%Z -> n <> 0%Z) ->
  transferred max (RecvRange fwd n) cc l c (recv_range cc fwd n c).
Proof.
  intros H Hcc Hn Hno. pose proof (claimed_le _ _ _ _ _ H) as Hle. cbn [half_of] in Hle.
  pose proof (unclaimed_nonneg _ _ _ _ RD H) as Hu. unfold recv_range.
  rewrite (proj2 (Z.leb_le _ _) Hle). res_cbn.
  rewrite (word_sum max _ RD cc l c H) by (cbn; auto; lia).
  set (m := if fwd then _ else _).
  assert (Hm : transfer_count (RecvRange fwd n) cc c = m) by (destruct fwd; cbn [transfer_count side_of]; subst m; lia).
  assert (Hmr : (0 <= m <= cc + unclaimedCount RD c)%Z) by (destruct fwd; subst m; lia).
  destruct (Z.eqb_spec m 0) as [Hz|Hz].
  { apply (transferred_none max (RecvRange fwd n)); [done| |congruence].
    destruct fwd; subst m; lia. }
  destruct (recv_many_ok max (RecvRange fwd n) cc m l c)
    as (k & b & Ek & He & Eb & Hlen & HT); try done; [lia|].
  rewrite He, Ek. cbn [negb]. res_cbn. rewrite Eb. res_cbn. cbn [answer_of] in HT. rewrite Hlen in HT. exact HT.
Qed.

(** Writing the elements [vs], for the three overloads of [send()]. *)
Lemma write_tail `{!WakerSpec W} max x cc l c k b :
  side_of x = WR -> chan_ok max (e_of WR cc) l c -> (cc = 0 \/ cc = 1)%Z -> closed_ c = false ->
  transfer_count x cc c = Z.of_nat k -> 1 <= k -> k <= length (payload x) ->
  (bounded_ c = true -> Z.of_nat k <= cc + unclaimedCount WR c)%Z -> fits x c = true ->
  fifo_rep b (l ++ take k (payload x)) ->
  (length l + length (take k (payload x)) <= fifo_capacity (buf_ c) ->
   fifo_capacity b = fifo_capacity (buf_ c)) ->
  transferred max x cc l c
    ('(vs, ans) ← Ok (take k (payload x), answer_of x (take k (payload x)));
     c ← wakeAwaiters RD (drop_claims WR cc (set_buf b c)); Ok (vs, ans, c)).
Proof.
  intros Hx H Hcc Hcl Hk Hk1 Hkl Hku Hf Hb Hcap. pose proof (co_len _ _ _ _ H).
  assert (Hlen : length (take k (payload x)) = k) by (rewrite length_take; lia).
  pose proof (claims_nonneg _ _ _ _ WR H) as Hc0. cbn [half_of] in Hc0.
  unfold fits in Hf. apply Z.ltb_lt in Hf. rewrite (proj1 (fifo_size_rep _ _ (co_rep _ _ _ _ H))) in Hf.
  pose proof (space_eq _ _ _ _ H) as HP. rewrite Hcl in HP.
  destruct (transfer_tail max WR cc l (l ++ take k (payload x)) b c H Hcc Hb) as (c' & ws & E & H' & HM & _).
  - rewrite length_app. lia.
  - intros Hbd. apply Hcap. specialize (Hku Hbd). cbn in Hku. rewrite HP, Hbd in Hku.
    destruct (co_write _ _ _ _ H Hbd) as (-> & ? & ?).
    pose proof (claimed_le _ _ _ _ _ H) as HC. cbn in HC. rewrite Hlen. lia.
  - congruence.
  - rewrite length_app, Hlen. split; [lia|]. intros Hbd. specialize (Hku Hbd). lia.
  - cbn [other] in E. exists k, c', ws. rewrite Hk, Nat2Z.id. res_cbn. rewrite E. res_cbn.
    unfold moved_items, contents_after. rewrite Hx. split_and!; done.
Qed.

Lemma not_full max cc l c :
  chan_ok max (e_of WR cc) l c -> closed_ c = false ->
  (bounded_ c = true -> 0 < cc + unclaimedCount WR c)%Z -> reallyFull c = false.
Proof.
  intros H Hcl Hu. unfold reallyFull. destruct (bounded_ c) eqn:Hb; [|done]. cbn.
  specialize (Hu eq_refl). cbn in Hu. rewrite (space_eq _ _ _ _ H), Hcl, Hb in Hu.
  destruct (co_write _ _ _ _ H Hb) as (-> & ? & ?).
  rewrite (proj1 (fifo_size_rep _ _ (co_rep _ _ _ _ H))). pose proof (claimed_le _ _ _ _ _ H) as HC.
  cbn in HC. apply Nat.eqb_neq. lia.
Qed.

Lemma send_one_ok `{!WakerSpec W} max cc v l c :
  chan_ok max (e_of WR cc) l c -> (cc = 0 \/ cc = 1)%Z ->
  hazard (SendOne v) cc c = false -> fits (SendOne v) c = true ->
  transferred max (SendOne v) cc l c (send_one cc v c).
Proof.
  intros H Hcc Hz Hf. pose proof (claimed_le _ _ _ _ _ H) as Hle. cbn [half_of] in Hle.
  pose proof (unclaimed_nonneg _ _ _ _ WR H) as Hu. unfold send_one.
  rewrite (proj2 (Z.leb_le _ _) Hle). res_cbn.
  pose proof (space_eq _ _ _ _ H) as HP. cbn [unclaimedCount] in *.
  destruct ((cc =? 0)%Z && (chan_space c =? 0)%Z) eqn:E.
  { apply andb_true_iff in E as [->%Z.eqb_eq Hs%Z.eqb_eq].
    apply (transferred_none max (SendOne v)); [done|done|].
    cbn [transfer_count side_of payload length unclaimedCount]. rewrite Hs in *.
    destruct (closed_ c), (bounded_ c); try done. }
  assert (Ha : (1 <= cc + chan_space c)%Z).
  { apply andb_false_iff in E as [E%Z.eqb_neq|E%Z.eqb_neq]; lia. }
  assert (Hcl : closed_ c = false).
  { destruct (closed_ c) eqn:Hcl; [|done]. unfold hazard in Hz. rewrite Hcl in Hz. cbn in Hz.
    apply Z.ltb_ge in Hz. lia. }
  rewrite Hcl, (not_full max cc l c H Hcl) by (cbn; lia). cbn [negb andb]. res_cbn.
  destruct (fifo_push_back_rep _ v _ (co_rep _ _ _ _ H)) as (b & Eb & Hb & Hcap).
  rewrite Eb. res_cbn.
  change (set_buf b (drop_claims WR cc c)) with (drop_claims WR cc (set_buf b c)).
  apply (write_tail max (SendOne v) cc l c 1 b); try done; cbn [payload length take].
  - cbn [transfer_count side_of payload length unclaimedCount]. rewrite Hcl. destruct (bounded_ c); lia.
  - intros ?. apply Hcap. lia.
Qed.

Lemma push_loop_ok avail vs b l :
  fifo_rep b l ->
  exists b', push_loop avail vs b = Ok (take avail vs, b') /\ fifo_rep b' (l ++ take avail vs) /\
    (length l + length (take avail vs) <= fifo_capacity b -> fifo_capacity b' = fifo_capacity b).
Proof.
  revert avail b l. induction vs as [|v vs IH]; intros [|avail] b l Hb; cbn [push_loop take].
  1-3: exists b; rewrite app_nil_r; done.
  destruct (fifo_push_back_rep _ v _ Hb) as (b1 & -> & Hb1 & Hc1). res_cbn.
  destruct (IH avail b1 _ Hb1) as (b2 & -> & Hb2 & Hc2). res_cbn. exists b2.
  rewrite <- app_assoc in Hb2. split_and!; [done|done|]. cbn [length]. intros Hfit.
  rewrite length_app in Hc2. cbn [length] in Hc2. rewrite Hc2; [|rewrite Hc1 by lia; lia].
  apply Hc1. lia.
Qed.

Lemma send_bulk_ok ra avail vs b l :
  fifo_rep b l ->
  let k := Z.to_nat (Z.min (Z.of_nat (length vs)) avail) in
  exists b', send_bulk ra avail vs b = Ok (take k vs, b') /\ fifo_rep b' (l ++ take k vs) /\
    (length l + length (take k vs) <= fifo_capacity b -> fifo_capacity b' = fifo_capacity b).
Proof.
  intros Hb k. unfold send_bulk. destruct ra; [|by apply push_loop_ok]. fold k.
  destruct (fifo_append_rep _ (take k vs) _ Hb) as (b' & -> & ?). res_cbn. eauto.
Qed.

(** The two bulk writes. *)
Lemma send_many_ok `{!WakerSpec W} max x cc ra vs l c :
  x = SendIter ra vs \/ x = SendRange ra vs ->
  chan_ok max (e_of WR cc) l c -> (cc = 0 \/ cc = 1)%Z -> (cc = 1%Z -> isNoop x = false) ->
  hazard x cc c = false -> fits x c = true ->
  (length vs = 0 \/ available cc c = 0%Z) /\ cc = 0%Z /\ transfer_count x cc c = 0%Z \/
  length vs <> 0 /\ available cc c <> 0%Z /\
    negb (closed_ c) && negb (reallyFull c) = true /\
    exists k b, send_bulk ra (available cc c) vs (buf_ c) = Ok (take k vs, b) /\
      transferred max x cc l c
        ('(vs, ans) ← Ok (take k vs, answer_of x (take k vs));
         c ← wakeAwaiters RD (drop_claims WR cc (set_buf b c)); Ok (vs, ans, c)).
Proof.
  intros Hx H Hcc Hno Hz Hf. pose proof (claimed_le _ _ _ _ _ H) as Hle.
  pose proof (unclaimed_nonneg _ _ _ _ WR H) as Hu. pose proof (space_eq _ _ _ _ H) as HP.
  assert (Hpl : payload x = vs) by (by destruct Hx as [->| ->]).
  assert (Hsx : side_of x = WR) by (by destruct Hx as [->| ->]).
  assert (Hnn : isNoop x = bool_decide (length vs = 0)) by (by destruct Hx as [->| ->]).
  assert (Hct : transfer_count x cc c = if closed_ c then 0%Z else if bounded_ c then
    Z.min (Z.of_nat (length vs)) (cc + chan_space c) else Z.of_nat (length vs)).
  { destruct Hx as [->| ->]; done. }
  assert (Hhz : hazard x cc c = closed_ c && (negb (isNoop x) && (negb (bounded_ c) || (0 <? cc)%Z))).
  { destruct Hx as [->| ->]; done. }
  assert (Hav : available cc c = if bounded_ c then (cc + chan_space c)%Z else word_max).
  { unfold available. destruct (bounded_ c) eqn:Hb; [|done].
    apply (word_sum max _ WR cc l c H); [by right|cbn in Hle |- *; lia]. }
  rewrite Hhz in Hz. cbn [unclaimedCount] in *. clear Hhz.
  destruct (decide (length vs = 0)) as [Hv|Hv].
  { left. rewrite Hnn, bool_decide_true in Hno by done. split_and!; [by left| |].
    - destruct Hcc as [?| ->]; [done|]. by specialize (Hno eq_refl).
    - rewrite Hct, Hv. destruct (closed_ c), (bounded_ c); try done. lia. }
  rewrite Hnn, bool_decide_false in Hz by done. cbn [negb andb] in Hz.
  destruct (decide (available cc c = 0%Z)) as [Ha|Ha].
  { left. rewrite Hav in Ha. destruct (bounded_ c); [|done]. split_and!; [right; lia|lia|].
    rewrite Hct. destruct (closed_ c); lia. }
  right. split_and!; [done|done| |].
  - destruct (closed_ c) eqn:Hcl.
    { exfalso. cbn in Hz. apply orb_false_iff in Hz as [Hz1 Hz2]. apply negb_false_iff in Hz1.
      apply Z.ltb_ge in Hz2. rewrite Hz1 in *. lia. }
    rewrite (not_full max cc l c H Hcl); [done|]. intros Hb. cbn [unclaimedCount].
    rewrite Hb in Hav. lia.
  - assert (Hcl : closed_ c = false).
    { destruct (closed_ c) eqn:Hcl; [|done]. exfalso. cbn in Hz. apply orb_false_iff in Hz as [Hz1 Hz2].
      apply negb_false_iff in Hz1. apply Z.ltb_ge in Hz2. rewrite Hz1 in *. lia. }
    rewrite Hcl in *.
    destruct (send_bulk_ok ra (available cc c) vs _ _ (co_rep _ _ _ _ H)) as (b & Eb & Hb & Hcap).
    eexists _, b. split; [exact Eb|].
    assert (Hfl : (Z.of_nat (length vs) < 2 ^ 64)%Z).
    { unfold fits in Hf. rewrite Hpl in Hf. apply Z.ltb_lt in Hf. lia. }
    set (k := Z.to_nat _) in *. pose proof (write_tail max x cc l c k b) as HT. rewrite Hpl in HT.
    subst k. apply HT; try done; unfold word_max in *.
    + rewrite Hct, Hav. destruct (bounded_ c); lia.
    + rewrite Hav. destruct (bounded_ c); lia.
    + rewrite Hav. destruct (bounded_ c); lia.
    + cbn [unclaimedCount]. intros Hbd. rewrite Hbd in *. rewrite Hav. lia.
Qed.

Lemma tryTransfer_ok `{!WakerSpec W} max x cc l c :
  chan_ok max (e_of (side_of x) cc) l c -> (cc = 0 \/ cc = 1)%Z -> args_ok x ->
  (cc = 1%Z -> isNoop x = false) -> hazard x cc c = false -> fits x c = true ->
  transferred max x cc l c (tryTransfer cc x c).
Proof.
  intros H Hcc Hx Hno Hz Hf. pose proof (claimed_le _ _ _ _ _ H) as Hle.
  destruct x as [|n|fwd n|v|ra vs|ra vs]; cbn [tryTransfer side_of args_ok isNoop half_of] in *.
  - by apply recv_one_ok.
  - apply recv_iter_ok; try done. intros Hc ->. by specialize (Hno Hc).
  - apply recv_range_ok; try done. intros Hc ->. by specialize (Hno Hc).
  - by apply send_one_ok.
  - unfold send_iter. rewrite (proj2 (Z.leb_le _ _) Hle). res_cbn.
    destruct (send_many_ok max (SendIter ra vs) cc ra vs l c)
      as [([Hv|Hv] & -> & Hk)|(Hv & Ha & Hcl & k & b & Eb & HT)]; auto.
    + rewrite bool_decide_true by done. by apply (transferred_none max (SendIter ra vs)).
    + rewrite Hv. cbn [Z.eqb]. destruct (bool_decide _); by apply (transferred_none max (SendIter ra vs)).
    + rewrite bool_decide_false, (proj2 (Z.eqb_neq _ _) Ha), Hcl by done. res_cbn. rewrite Eb.
      res_cbn. exact HT.
  - unfold send_range. rewrite (proj2 (Z.leb_le _ _) Hle). res_cbn.
    destruct (send_many_ok max (SendRange ra vs) cc ra vs l c)
      as [([Hv|Hv] & -> & Hk)|(Hv & Ha & Hcl & k & b & Eb & HT)]; auto.
    + rewrite bool_decide_true by done. by apply (transferred_none max (SendRange ra vs)).
    + rewrite Hv. cbn [Z.eqb]. destruct (bool_decide _); by apply (transferred_none max (SendRange ra vs)).
    + rewrite bool_decide_false, (proj2 (Z.eqb_neq _ _) Ha), Hcl by done. res_cbn. rewrite Eb.
      res_cbn. exact HT.
Qed.

(** * Single operations on one half *)

(** [c'] differs from [c] in half [s] only. *)
Record only s c c' : Prop := {
  on_buf : buf_ c' = buf_ c;
  on_closed : closed_ c' = closed_ c;
  on_bounded : bounded_ c' = bounded_ c;
  on_world : cworld c' = cworld c;
  on_other : forall s', s' <> s -> half_of s' c' = half_of s' c }.

Lemma only_half s h c : only s c (set_half s h c).
Proof. split; try (by destruct s). intros s' ?. by apply half_set_other. Qed.
Lemma only_lot s l c : world l = cworld c -> only s c (set_lot s l c).
Proof. intros Hl. split; try (by destruct s). intros s' ?. by apply half_set_lot_other. Qed.
Lemma only_trans s c c1 c2 : only s c c1 -> only s c1 c2 -> only s c c2.
Proof. intros [] []. split; try congruence. intros s' Hs. rewrite on_other1; auto. Qed.

(** Updating one awaiter, [e'] claims of half [s] being given back after it. *)
Lemma only_ok max s e' l c c' :
  chan_ok max settled l c -> only s c c' -> half_ok s e' (half_of s c') ->
  (claims_ (half_of s c') <= claims_ (half_of s c) + unclaimedCount s c)%Z ->
  (closed_ c = true -> h_parked (half_of s c') = []) ->
  chan_ok max (e_of s e') l c'.
Proof.
  intros H Ho Hh Hcl Hcd. unfold e_of.
  apply (chan_ok_ext max (fun s' => if decide (s' = s) then e' else settled s')); [|done].
  eapply chan_ok_half; try done; apply Ho.
Qed.

Lemma settled_e max s l c : chan_ok max (e_of s 0) l c <-> chan_ok max settled l c.
Proof. split; intros H; (eapply chan_ok_ext; [exact H|]); intros s'; unfold e_of, settled; by case_decide. Qed.

(** [claim()] by an awaiter that is not in the queue. *)
Lemma claim_ok max l s a c k x :
  chan_ok max settled l c -> h_aws (half_of s c) !! a = Some k -> pbits k = 0 ->
  a ∉ h_parked (half_of s c) -> h_args (half_of s c) !! a = Some x -> isNoop x = false ->
  (0 < unclaimedCount s c)%Z ->
  exists c', claim s a c = Ok c' /\ chan_ok max settled l c' /\ only s c c' /\
    half_of s c' = Half (h_parked (half_of s c)) (<[a := Parked 1 (handle_ k)]> (h_aws (half_of s c)))
      (h_args (half_of s c)) (claims_ (half_of s c) + 1).
Proof.
  intros H Hk Hk0 Hna Hx Hnx Hu. pose proof (co_half _ _ _ _ H s) as Hh.
  unfold claim, claimed, bits_of, set_bits. cbn [lot_of aws]. rewrite Hk. res_cbn.
  rewrite Hk0. cbn [Nat.odd negb]. res_cbn.
  set (c1 := set_claims _ _ _). cbn [lot_of aws parked_ world triggered_] in c1.
  pose proof (claims_nonneg _ _ _ _ s H) as Hc0.
  pose proof (countZ_le_size is_claimed (<[a:=Parked 1 Noop]> (h_aws (half_of s c)))) as HL.
  rewrite countZ_insert, Hk, map_size_insert_Some in HL by done. cbn in HL.
  unfold is_claimed in HL at 2. rewrite Hk0 in HL. cbn in HL.
  pose proof (ho_claims _ _ _ Hh) as HC. pose proof (ho_size _ _ _ Hh) as HSz.
  unfold settled in HC.
  assert (Hh1 : half_of s c1 = Half (h_parked (half_of s c))
    (<[a := Parked 1 (handle_ k)]> (h_aws (half_of s c)))
    (h_args (half_of s c)) (claims_ (half_of s c) + 1)).
  { subst c1. unfold set_claims. rewrite half_set, !half_set_lot. cbn.
    rewrite to_word_small by lia. done. }
  assert (Ho : only s c c1).
  { subst c1. unfold set_claims. eapply only_trans; [|apply only_half]. by apply only_lot. }
  exists c1. split_and!; try done.
  apply (settled_e max s). apply only_ok with c; rewrite ?Hh1; try done; cbn [claims_ h_parked].
  - apply (half_ok_insert s 0 (half_of s c) a k x); try done.
    + by right.
    + unfold is_claimed at 1. rewrite Hk0. cbn. lia.
    + lia.
    + by left.
  - lia.
  - by apply H.
Qed.

Lemma new_awaiter_ok max l a x c :
  chan_ok max settled l c -> h_aws (half_of (side_of x) c) !! a = None ->
  a ∉ h_parked (half_of (side_of x) c) -> args_ok x ->
  (Z.of_nat (size (h_aws (half_of (side_of x) c))) + 1 < 2 ^ 64)%Z ->
  exists c' b, new_awaiter a x c = Ok c' /\ chan_ok max settled l c' /\ only (side_of x) c c' /\
    h_parked (half_of (side_of x) c') = h_parked (half_of (side_of x) c) /\
    h_aws (half_of (side_of x) c') = <[a := Parked (Nat.b2n b) Noop]> (h_aws (half_of (side_of x) c)) /\
    h_args (half_of (side_of x) c') = <[a := x]> (h_args (half_of (side_of x) c)) /\
    b = (0 <? unclaimedCount (side_of x) c)%Z && negb (isNoop x) /\
    (claims_ (half_of (side_of x) c') = claims_ (half_of (side_of x) c) + Z.b2z b)%Z.
Proof.
  intros H Ha Hna Hx Hsz. set (s := side_of x) in *. pose proof (co_half _ _ _ _ H s) as Hh.
  set (c0 := set_lot s (new_parked a 0 (lot_of s c)) c).
  set (c1 := set_half s (Half (h_parked (half_of s c0)) (h_aws (half_of s c0))
    (<[a := x]> (h_args (half_of s c0))) (claims_ (half_of s c0))) c0).
  assert (H1 : half_of s c1 = Half (h_parked (half_of s c)) (<[a := Parked 0 Noop]> (h_aws (half_of s c)))
    (<[a := x]> (h_args (half_of s c))) (claims_ (half_of s c))).
  { subst c1 c0. by rewrite half_set, !half_set_lot. }
  assert (Ho1 : only s c c1).
  { subst c1. eapply only_trans; [|apply only_half]. subst c0. by apply only_lot. }
  assert (Hok1 : chan_ok max settled l c1).
  { apply (settled_e max s). pose proof (unclaimed_nonneg _ _ _ _ s H).
    apply only_ok with c; rewrite ?H1; try done; cbn; [|lia|by apply H].
    split; cbn.
    - apply Hh.
    - intros y Hy. rewrite lookup_insert_ne by (intros <-; done). by apply Hh.
    - intros y q. destruct (decide (y = a)) as [->|Hy].
      + rewrite lookup_insert_eq. intros [= <-]. by left.
      + rewrite lookup_insert_ne by done. apply Hh.
    - intros y q. destruct (decide (y = a)) as [->|Hy].
      + rewrite !lookup_insert_eq. intros [= <-]. exists x. split_and!; try done. intros [[=]|?]; done.
      + rewrite !lookup_insert_ne by done. apply Hh.
    - rewrite countZ_insert, Ha. cbn. rewrite (ho_claims _ _ _ Hh). unfold settled. lia.
    - rewrite map_size_insert_None by done. pose proof (ho_size _ _ _ Hh). lia. }
  assert (Hu1 : unclaimedCount s c1 = unclaimedCount s c).
  { destruct s; cbn [unclaimedCount].
    - rewrite (size_eq _ _ _ _ Hok1), (size_eq _ _ _ _ H). cbn [half_of] in H1. by rewrite H1.
    - rewrite (space_eq _ _ _ _ Hok1), (space_eq _ _ _ _ H). cbn [half_of] in H1.
      by rewrite H1, (on_closed _ _ _ Ho1), (on_bounded _ _ _ Ho1). }
  unfold new_awaiter. fold s c0. cbv zeta. fold c1. rewrite Hu1.
  destruct ((0 <? unclaimedCount s c)%Z && negb (isNoop x)) eqn:E.
  - apply andb_true_iff in E as [E1%Z.ltb_lt E2%negb_true_iff].
    destruct (claim_ok max l s a c1 (Parked 0 Noop) x) as (c2 & Ec & H2 & Ho2 & Hh2);
      rewrite ?H1, ?Hu1; try done; try apply lookup_insert_eq.
    exists c2, true. rewrite Hh2, H1. cbn [h_parked h_aws h_args claims_ handle_].
    rewrite insert_insert_eq. split_and!; try done. by eapply only_trans.
  - exists c1, false. rewrite H1. cbn. split_and!; try done. lia.
Qed.

Lemma suspend_awaiter_ok max l s a h c k x :
  chan_ok max settled l c -> h_aws (half_of s c) !! a = Some k -> pbits k = 0 ->
  a ∉ h_parked (half_of s c) -> h_args (half_of s c) !! a = Some x -> isNoop x = false ->
  closed_ c = false ->
  exists c' b k', chan_suspend s a h c = Ok (b, c') /\ chan_ok max settled l c' /\ only s c c' /\
    b = negb (0 <? unclaimedCount s c)%Z /\
    h_parked (half_of s c') = (if b then h_parked (half_of s c) ++ [a] else h_parked (half_of s c)) /\
    h_aws (half_of s c') = <[a := k']> (h_aws (half_of s c)) /\
    pbits k' = (if b then 0 else 1) /\ (b = true -> handle_ k' = h) /\
    h_args (half_of s c') = h_args (half_of s c) /\
    (claims_ (half_of s c') = claims_ (half_of s c) + Z.b2z (negb b))%Z.
Proof.
  intros H Hk Hk0 Hna Hx Hnx Hcl. unfold chan_suspend, claimed, bits_of. cbn [lot_of aws].
  rewrite Hk. res_cbn. rewrite Hk0. cbn [Nat.odd negb]. res_cbn.
  destruct (Z.ltb_spec 0 (unclaimedCount s c)) as [Hu|Hu].
  - destruct (claim_ok max l s a c k x H Hk Hk0 Hna Hx Hnx Hu) as (c' & -> & H' & Ho & Hh).
    res_cbn. exists c', false, (Parked 1 (handle_ k)). rewrite Hh. split_and!; done.
  - unfold doSuspend. cbn [lot_of aws]. rewrite Hk. res_cbn. cbn [lot_of parked_ triggered_ world].
    rewrite (without_id a) by done. set (c' := set_lot _ _ _).
    assert (Hh : half_of s c' = Half (h_parked (half_of s c) ++ [a])
      (<[a := Parked (pbits k) h]> (h_aws (half_of s c))) (h_args (half_of s c)) (claims_ (half_of s c)))
      by apply half_set_lot.
    assert (Ho : only s c c') by (by apply only_lot). pose proof (co_half _ _ _ _ H s) as Hok.
    pose proof (unclaimed_nonneg _ _ _ _ s H).
    exists c', true, (Parked (pbits k) h). rewrite Hh. cbn. split_and!; try done; [|lia].
    apply (settled_e max s). apply only_ok with c; rewrite ?Hh; try done; cbn; [|lia|congruence].
    split; cbn.
    + rewrite <- (without_id a (h_parked _)) by done. apply NoDup_push. apply Hok.
    + intros y. rewrite elem_of_app, list_elem_of_singleton. intros Hy.
      destruct (decide (y = a)) as [->|Hne]; [rewrite lookup_insert_eq; eauto|].
      rewrite lookup_insert_ne by done. apply Hok. tauto.
    + intros y q. destruct (decide (y = a)) as [->|Hy].
      * rewrite lookup_insert_eq. intros [= <-]. by left.
      * rewrite lookup_insert_ne by done. apply Hok.
    + intros y q. destruct (decide (y = a)) as [->|Hy].
      * rewrite lookup_insert_eq. intros [= <-].
        destruct (ho_args _ _ _ Hok _ _ Hk) as (x' & Hx' & ? & ? & _). exists x'.
        split_and!; try done. congruence.
      * rewrite lookup_insert_ne by done. intros Hq.
        destruct (ho_args _ _ _ Hok _ _ Hq) as (x' & Hx' & ? & ? & HN). exists x'.
        split_and!; try done. rewrite elem_of_app, list_elem_of_singleton. tauto.
    + assert (Hic : is_claimed k = false /\ is_claimed (Parked (pbits k) h) = false).
      { unfold is_claimed. cbn. by rewrite Hk0. }
      destruct Hic as [Hi1 Hi2]. rewrite countZ_insert, Hk. cbn [weight]. rewrite Hi1, Hi2. cbn. pose proof (ho_claims _ _ _ Hok). unfold settled in *. lia.
    + rewrite map_size_insert_Some by done. apply (ho_size _ _ _ Hok).
Qed.

Lemma cancel_awaiter_ok max l s a c :
  chan_ok max settled l c -> a ∈ h_parked (half_of s c) ->
  exists c', chan_cancel s a c = Ok (true, c') /\ chan_ok max settled l c' /\ only s c c' /\
    half_of s c' = Half (without a (h_parked (half_of s c)))
      (<[a := Parked 0 Noop]> (h_aws (half_of s c))) (h_args (half_of s c)) (claims_ (half_of s c)).
Proof.
  intros H Ha. pose proof (co_half _ _ _ _ H s) as Hok.
  destruct (ho_parked _ _ _ Hok _ Ha) as (k & Hk & Hk0).
  destruct (ho_args _ _ _ Hok _ _ Hk) as (x & Hx & ? & ? & HN).
  unfold chan_cancel, await_cancel. cbn [lot_of aws]. rewrite Hk. res_cbn. rewrite Hk0.
  set (c' := set_lot _ _ _).
  assert (Hh : half_of s c' = Half (without a (h_parked (half_of s c)))
    (<[a := Parked 0 Noop]> (h_aws (half_of s c))) (h_args (half_of s c)) (claims_ (half_of s c)))
    by apply half_set_lot.
  assert (Ho : only s c c') by (by apply only_lot). pose proof (unclaimed_nonneg _ _ _ _ s H).
  exists c'. split_and!; try done.
  apply (settled_e max s). apply only_ok with c; rewrite ?Hh; try done; cbn; [|lia|].
  - apply (half_ok_insert s 0 (half_of s c) a k x); try done.
    + apply without_sublist.
    + rewrite elem_without. tauto.
    + by left.
    + unfold is_claimed. rewrite Hk0. cbn. unfold settled. lia.
    + pose proof (ho_size _ _ _ Hok). lia.
    + by left.
  - intros Hcl. rewrite (co_closed _ _ _ _ H s Hcl). done.
Qed.

Lemma half_ok_delete s h a k :
  half_ok s (- Z.b2z (is_claimed k)) h -> h_aws h !! a = Some k -> a ∉ h_parked h ->
  half_ok s 0 (Half (without a (h_parked h)) (delete a (h_aws h)) (delete a (h_args h)) (claims_ h)).
Proof.
  intros Hh Hk Ha. rewrite (without_id a) by done. split; cbn.
  - apply Hh.
  - intros y Hy. rewrite lookup_delete_ne by (intros <-; done). by apply Hh.
  - intros y q. destruct (decide (y = a)) as [->|Hy]; [by rewrite lookup_delete_eq|].
    rewrite lookup_delete_ne by done. apply Hh.
  - intros y q. destruct (decide (y = a)) as [->|Hy]; [by rewrite lookup_delete_eq|].
    rewrite !lookup_delete_ne by done. apply Hh.
  - rewrite countZ_delete, Hk. cbn. rewrite (ho_claims _ _ _ Hh). lia.
  - pose proof (countZ_le_size is_claimed (delete a (h_aws h))) as HL.
    rewrite countZ_delete, Hk in HL. cbn in HL. pose proof (ho_claims _ _ _ Hh).
    pose proof (ho_size _ _ _ Hh). pose proof (map_size_delete_Some a (h_aws h) (mk_is_Some _ _ Hk)). lia.
Qed.

(** The channel after some of one half's awaiters were woken. *)
Definition drained s c c' ws : Prop :=
  buf_ c' = buf_ c /\ closed_ c' = closed_ c /\ bounded_ c' = bounded_ c /\
  (forall s', s' <> s -> half_of s' c' = half_of s' c) /\
  h_parked (half_of s c) = ws ++ h_parked (half_of s c') /\
  resumed (cworld c') = resumed (cworld c) ++ handles s c ws.

Lemma destroy_awaiter_ok `{!WakerSpec W} max l s a c k :
  chan_ok max settled l c -> h_aws (half_of s c) !! a = Some k -> a ∉ h_parked (half_of s c) ->
  ((0 < unclaimedCount s c)%Z -> h_parked (half_of s c) = []) ->
  exists c' ws, destroy_awaiter s a c = Ok c' /\ chan_ok max settled l c' /\ drained s c c' ws /\
    (forall b, h_aws (half_of s c') !! b = if decide (b = a) then None
       else if decide (b ∈ ws) then Some (Parked 1 Noop) else h_aws (half_of s c) !! b) /\
    ((0 < unclaimedCount s c')%Z -> h_parked (half_of s c') = []).
Proof.
  intros H Hk Ha HN. pose proof (co_half _ _ _ _ H s) as Hok. unfold destroy_awaiter, claimed, bits_of.
  cbn [lot_of aws]. rewrite Hk. res_cbn. change (Nat.odd (pbits k)) with (is_claimed k).
  pose proof (claims_nonneg _ _ _ _ s H) as Hc0. pose proof (unclaimed_nonneg _ _ _ _ s H) as Hu0.
  assert (Hle : (Z.b2z (is_claimed k) <= claims_ (half_of s c))%Z).
  { rewrite (ho_claims _ _ _ Hok). pose proof (countZ_weight_le is_claimed (h_aws (half_of s c)) a) as HW.
    rewrite Hk in HW. unfold settled. cbn in HW. lia. }
  (* the channel once the claim is given back and the awaiters behind it woken *)
  assert (Hmid : exists c1 ws, (if is_claimed k then
      wakeAwaiters s (set_claims s (to_word (claims_ (half_of s c) - 1)) c) else Ok c) = Ok c1 /\
      chan_ok max (e_of s (- Z.b2z (is_claimed k))) l c1 /\ drained s c c1 ws /\
      h_args (half_of s c1) = h_args (half_of s c) /\
      (forall b, h_aws (half_of s c1) !! b = if decide (b ∈ ws) then Some (Parked 1 Noop)
                                            else h_aws (half_of s c) !! b) /\
      ((0 < unclaimedCount s c1)%Z -> h_parked (half_of s c1) = [])).
  { destruct (is_claimed k) eqn:Hik; cbn [Z.b2z] in *.
    - rewrite to_word_small by lia. set (c0 := set_claims _ _ _).
      assert (H0 : half_of s c0 = Half (h_parked (half_of s c)) (h_aws (half_of s c))
        (h_args (half_of s c)) (claims_ (half_of s c) - 1)) by apply half_set.
      assert (Ho : only s c c0) by apply only_half.
      assert (Hc : chan_ok max (e_of s (- (1))) l c0).
      { apply only_ok with c; rewrite ?H0; try done; cbn; [|lia|by apply H].
        destruct Hok. split; cbn; try done; unfold settled in *; lia. }
      destruct (wake_ok max _ l s c0 Hc) as (c1 & ws & E & H1 & HW & HN1).
      { unfold e_of. rewrite decide_True by done. lia. }
      exists c1, ws. split_and!; try done.
      + destruct HW, Ho. split_and!; try congruence.
        * intros s' Hs. by rewrite wk_other0, on_other0.
        * by rewrite <- wk_parked0, H0.
        * rewrite wk_resumed0, on_world0. f_equal. unfold handles.
          apply (bind_handles_ext no_react). intros x _. cbn. by rewrite H0.
      + rewrite (wk_args _ _ _ _ _ HW). by rewrite H0.
      + intros x. rewrite (wk_aws _ _ _ _ _ HW), H0. done.
    - exists c, []. split; [done|]. split; [by apply settled_e|]. split; [|by split_and!].
      unfold drained, handles. split_and!; try done. cbn. by rewrite app_nil_r. }
  destruct Hmid as (c1 & ws & E & H1 & (Hb & Hcl & Hbd & Hoth & Hpk & Hres) & Hargs & Haws & HN1).
  assert (Haw : a ∉ ws) by (intros ?; apply Ha; rewrite Hpk; set_solver).
  assert (Hap : a ∉ h_parked (half_of s c1)) by (intros ?; apply Ha; rewrite Hpk; set_solver).
  rewrite E. res_cbn. set (c2 := set_half _ _ _).
  assert (H2 : half_of s c2 = Half (without a (h_parked (half_of s c1))) (delete a (h_aws (half_of s c1)))
    (delete a (h_args (half_of s c1))) (claims_ (half_of s c1))) by apply half_set.
  rewrite (without_id a) in H2 by done.
  assert (Ho2 : only s c1 c2) by apply only_half.
  assert (Hok2 : chan_ok max settled l c2).
  { pose proof (unclaimed_nonneg _ _ _ _ s H1).
    apply (chan_ok_ext max (fun s' => if decide (s' = s) then 0%Z else e_of s (- Z.b2z (is_claimed k)) s')).
    2: { intros s'. unfold settled, e_of. by repeat case_decide. }
    eapply chan_ok_half; [exact H1|exact H2|apply Ho2|apply Ho2..| | |].
    - rewrite <- (without_id a (h_parked (half_of s c1))) by done.
      apply half_ok_delete with k; [|by rewrite Haws, decide_False|done].
      pose proof (co_half _ _ _ _ H1 s) as Hx. unfold e_of in Hx. by rewrite decide_True in Hx.
    - cbn. lia.
    - cbn. by apply H1. }
  assert (Hu2 : unclaimedCount s c2 = unclaimedCount s c1).
  { destruct s; cbn [unclaimedCount half_of] in *.
    - rewrite (size_eq _ _ _ _ Hok2), (size_eq _ _ _ _ H1). by rewrite H2.
    - rewrite (space_eq _ _ _ _ Hok2), (space_eq _ _ _ _ H1).
      by rewrite H2, (on_closed _ _ _ Ho2), (on_bounded _ _ _ Ho2). }
  exists c2, ws. split_and!; try done.
  - destruct Ho2. split_and!; try congruence.
    + intros s' Hs. by rewrite on_other0, Hoth.
    + by rewrite H2.
  - intros x. rewrite H2. cbn. destruct (decide (x = a)) as [->|Hx]; [by rewrite lookup_delete_eq|].
    by rewrite lookup_delete_ne, Haws by done.
  - by rewrite Hu2, H2.
Qed.

(** [await_resume()]'s first steps: the bits are cleared, the claim is about to
    be given back. *)
Lemma unclaim_ok max l s a c k x :
  chan_ok max settled l c -> h_aws (half_of s c) !! a = Some k -> a ∉ h_parked (half_of s c) ->
  h_args (half_of s c) !! a = Some x -> is_claimed k || closed_ c || isNoop x = true ->
  exists c', chan_resume s a c = tryTransfer (Z.b2z (is_claimed k)) x c' /\
    chan_ok max (e_of s (Z.b2z (is_claimed k))) l c' /\ only s c c' /\
    half_of s c' = Half (h_parked (half_of s c)) (<[a := Parked 0 (handle_ k)]> (h_aws (half_of s c)))
      (h_args (half_of s c)) (claims_ (half_of s c)) /\
    (Z.b2z (is_claimed k) = 1%Z -> isNoop x = false).
Proof.
  intros H Hk Ha Hx Hr. pose proof (co_half _ _ _ _ H s) as Hok.
  unfold chan_resume, ready, claimed, bits_of, set_bits. cbn [lot_of aws]. rewrite Hk. res_cbn.
  rewrite Hx. res_cbn. change (Nat.odd (pbits k)) with (is_claimed k). rewrite Hr. res_cbn.
  cbn [lot_of parked_ triggered_ world]. set (c' := set_lot _ _ _).
  assert (Hh : half_of s c' = Half (h_parked (half_of s c)) (<[a := Parked 0 (handle_ k)]> (h_aws (half_of s c)))
      (h_args (half_of s c)) (claims_ (half_of s c))) by apply half_set_lot.
  assert (Ho : only s c c') by (by apply only_lot). pose proof (unclaimed_nonneg _ _ _ _ s H).
  destruct (ho_args _ _ _ Hok _ _ Hk) as (x' & Hx' & _ & _ & HN). rewrite Hx in Hx'. injection Hx' as <-.
  exists c'. split_and!; try done.
  - apply only_ok with c; rewrite ?Hh; try done; cbn; [|lia|by apply H].
    apply (half_ok_insert s 0 (half_of s c) a k x); try done.
    + by left.
    + unfold is_claimed at 2. cbn. unfold settled. lia.
    + pose proof (ho_size _ _ _ Hok). lia.
    + by right.
  - intros Hb. apply HN. left. unfold is_claimed in Hb. destruct (ho_bits _ _ _ Hok _ _ Hk) as [Hz|]; [|done].
    rewrite Hz in Hb. done.
Qed.

(** [close()] on one half: everybody waiting is resumed, nobody is claimed. *)
Lemma half_ok_quiet s e h aws' :
  half_ok s e h ->
  (forall a, aws' !! a = if decide (a ∈ h_parked h) then clear_handle <$> h_aws h !! a else h_aws h !! a) ->
  half_ok s e (Half [] aws' (h_args h) (claims_ h)).
Proof.
  intros Hh Ha.
  assert (Hw : forall f : parked -> bool, (forall p, f (clear_handle p) = f p) ->
    countZ f aws' = countZ f (h_aws h)).
  { intros f Hf. apply countZ_ext. intros a. rewrite Ha. case_decide; [|done].
    destruct (h_aws h !! a); cbn; by rewrite ?Hf. }
  split; cbn.
  - apply NoDup_nil_2.
  - set_solver.
  - intros a k. rewrite Ha. case_decide; [|apply Hh].
    intros (k0 & Hk0 & ->)%fmap_Some. exact (ho_bits _ _ _ Hh _ _ Hk0).
  - intros a k. rewrite Ha. intros Hk.
    assert (Hk0 : exists k0, h_aws h !! a = Some k0 /\ pbits k0 = pbits k).
    { case_decide; [apply fmap_Some in Hk as (k0 & Hk0 & ->); by exists k0|by exists k]. }
    destruct Hk0 as (k0 & Hk0 & Hb). destruct (ho_args _ _ _ Hh _ _ Hk0) as (x & ? & ? & ? & HN).
    exists x. split_and!; try done. rewrite <- Hb. intros [?|?]; [auto|set_solver].
  - rewrite Hw by done. apply Hh.
  - pose proof (Hw (fun _ => true) ltac:(done)) as Hs. rewrite !countZ_size in Hs. rewrite Hs. apply Hh.
Qed.

Definition closing c : chan := Chan (buf_ c) true (bounded_ c) (rd_ c) (wr_ c) (cworld c).

Lemma lot_quiet max e l s c :
  chan_ok max e l c -> forall w t, lot_wf (h_parked (half_of s c)) (Lot (W := W) [] t (h_aws (half_of s c)) w).
Proof.
  intros H w t. pose proof (co_half _ _ _ _ H s) as Hh. split; cbn; rewrite app_nil_r; [apply Hh|].
  intros a Ha. destruct (ho_parked _ _ _ Hh a Ha) as (k & ? & _). eauto.
Qed.

Lemma close_ok `{!WakerSpec W} max l c :
  chan_ok max settled l c ->
  exists c', close c = Ok c' /\ chan_ok max settled l c' /\ buf_ c' = buf_ c /\ closed_ c' = true /\
    bounded_ c' = bounded_ c /\
    (forall s, h_parked (half_of s c') = [] /\
       forall a, h_aws (half_of s c') !! a = if decide (a ∈ h_parked (half_of s c))
         then clear_handle <$> h_aws (half_of s c) !! a else h_aws (half_of s c) !! a) /\
    resumed (cworld c') = resumed (cworld c) ++
      handles RD c (h_parked (rd_ c)) ++ handles WR c (h_parked (wr_ c)).
Proof.
  intros H. unfold close, unparkAll. fold (closing c). cbn [lot_of closing half_of parked_ triggered_ aws world cworld rd_].
  destruct (unpark_loop_quiet _ _ _ (lot_quiet _ _ _ RD _ H (cworld c) false) (le_n _))
    as (l1 & E1 & P1 & T1 & A1 & R1). cbn [half_of] in E1. rewrite E1. res_cbn.
  cbn [lot_of set_lot set_half half_of parked_ triggered_ aws world cworld rd_ wr_ closing h_parked h_aws].
  destruct (unpark_loop_quiet _ _ _ (lot_quiet _ _ _ WR _ H (world l1) false) (le_n _))
    as (l2 & E2 & P2 & T2 & A2 & R2). cbn [half_of] in E2. rewrite E2. res_cbn.
  eexists. split; [done|]. cbn in *. split_and!; try done.
  - split; cbn; try apply H.
    + intros s. destruct s; cbn.
      * rewrite P1. apply half_ok_quiet; [apply (co_half _ _ _ _ H RD)|done].
      * rewrite P2. apply half_ok_quiet; [apply (co_half _ _ _ _ H WR)|done].
    + by intros [] _.
  - intros []; cbn; split; try done.
  - rewrite R2, R1, <- app_assoc. done.
Qed.

(** * Channels in use *)

(** Where an awaiter is in the awaiter protocol: constructed, suspended, due to
    be resumed, and finished ([await_resume()] done, or cancelled). *)
Inductive phase := Fresh | Waiting | Woken | Finished.
#[local] Instance phase_eq_dec : EqDecision phase.
Proof. solve_decision. Defined.

Record chan_sys := CSys {
  ch : chan; ph : side -> gmap loc phase; accepted : list A; delivered : list A }.
Implicit Types (σ : chan_sys) (m : gmap loc phase).

Inductive event :=
  | New (a : loc) (x : args) | Suspend s (a : loc) (h : handle) | Resume s (a : loc)
  | Cancel s (a : loc) | Destroy s (a : loc) | Try (x : args) | Close.

Definition set_ph s m (p : side -> gmap loc phase) : side -> gmap loc phase :=
  fun s' => if decide (s' = s) then m else p s'.
(** Awaiters that an operation took off the queue are due to be resumed. *)
Definition rewake c (p : side -> gmap loc phase) : side -> gmap loc phase := fun s =>
  map_imap (fun a q => Some (if decide (q = Waiting /\ a ∉ h_parked (half_of s c)) then Woken else q))
           (p s).
Definition log s (vs : list A) σ : list A * list A :=
  match s with
  | RD => (accepted σ, delivered σ ++ vs)
  | WR => (accepted σ ++ vs, delivered σ)
  end.

Definition chan_step (e : event) σ : res chan_sys :=
  match e with
  | New a x =>
      c ← new_awaiter a x (ch σ);
      let s := side_of x in
      Ok (CSys c (set_ph s (<[a := Fresh]> (ph σ s)) (ph σ)) (accepted σ) (delivered σ))
  | Suspend s a h =>
      '(b, c) ← chan_suspend s a h (ch σ);
      let q := if (b : bool) then Waiting else Woken in
      Ok (CSys c (set_ph s (<[a := q]> (ph σ s)) (ph σ)) (accepted σ) (delivered σ))
  | Cancel s a =>
      '(_, c) ← chan_cancel s a (ch σ);
      Ok (CSys c (set_ph s (<[a := Finished]> (ph σ s)) (ph σ)) (accepted σ) (delivered σ))
  | Resume s a =>
      '(vs, _, c) ← chan_resume s a (ch σ);
      let '(acc, del) := log s vs σ in
      Ok (CSys c (rewake c (set_ph s (<[a := Finished]> (ph σ s)) (ph σ))) acc del)
  | Destroy s a =>
      c ← destroy_awaiter s a (ch σ);
      Ok (CSys c (rewake c (set_ph s (delete a (ph σ s)) (ph σ))) (accepted σ) (delivered σ))
  | Try x =>
      '(vs, _, c) ← try_now x (ch σ);
      let '(acc, del) := log (side_of x) vs σ in
      Ok (CSys c (rewake c (ph σ)) acc del)
  | Close => c ← close (ch σ); Ok (CSys c (rewake c (ph σ)) (accepted σ) (delivered σ))
  end.

(** Whether an awaiter may be asked to do something now: the awaiter protocol
    (no [await_suspend()] if ready, [await_resume()] once ready or woken,
    [await_cancel()] only while suspended, no destruction while suspended or
    woken but not resumed), sizes that fit the machine, and no transfer that
    the header's assertion on [closed()] rejects. *)
Definition is_ready s (a : loc) c : bool := match ready s a c with Ok b => b | _ => false end.
Definition claim_of s (a : loc) c : Z := match claimed s a c with Ok b => Z.b2z b | _ => 0%Z end.
Definition may_transfer x (cc : Z) c : bool := negb (hazard x cc c) && fits x c.
Definition args_okb x : bool :=
  match x with RecvIter n | RecvRange _ n => (0 <=? n)%Z && (n <? 2 ^ 64)%Z | _ => true end.

Definition legal (e : event) σ : bool :=
  match e with
  | New a x => bool_decide (ph σ (side_of x) !! a = None) && args_okb x &&
      (Z.of_nat (size (h_aws (half_of (side_of x) (ch σ)))) + 1 <? 2 ^ 64)%Z
  | Suspend s a _ => bool_decide (ph σ s !! a = Some Fresh) && negb (is_ready s a (ch σ))
  | Resume s a =>
      (bool_decide (ph σ s !! a = Some Woken) ||
       bool_decide (ph σ s !! a = Some Fresh) && is_ready s a (ch σ)) &&
      match h_args (half_of s (ch σ)) !! a with
      | Some x => may_transfer x (claim_of s a (ch σ)) (ch σ)
      | None => false
      end
  | Cancel s a => bool_decide (ph σ s !! a = Some Waiting)
  | Destroy s a => bool_decide (ph σ s !! a = Some Fresh) || bool_decide (ph σ s !! a = Some Finished)
  | Try x => args_okb x && may_transfer x 0 (ch σ)
  | Close => true
  end.

Fixpoint chan_run (es : list event) σ : res chan_sys :=
  match es with [] => Ok σ | e :: es => σ ← chan_step e σ; chan_run es σ end.
Fixpoint all_legal (es : list event) σ : Prop :=
  match es with
  | [] => True
  | e :: es => legal e σ = true /\
      match chan_step e σ with Ok σ => all_legal es σ | Fault _ => True end
  end.

Record ghost_ok s c m : Prop := {
  g_dom : forall a, is_Some (m !! a) <-> is_Some (h_aws (half_of s c) !! a);
  g_wait : forall a, a ∈ h_parked (half_of s c) <-> m !! a = Some Waiting;
  g_done : forall a k, m !! a = Some Finished -> h_aws (half_of s c) !! a = Some k -> pbits k = 0;
  g_woken : forall a k, m !! a = Some Woken -> h_aws (half_of s c) !! a = Some k ->
    pbits k = 1 \/ closed_ c = true }.

Record chan_inv (max : nat) σ : Prop := {
  ci_ok : exists l, chan_ok max settled l (ch σ) /\ accepted σ = delivered σ ++ l;
  ci_ghost : forall s, ghost_ok s (ch σ) (ph σ s);
  ci_nolost : forall s, (0 < unclaimedCount s (ch σ))%Z -> h_parked (half_of s (ch σ)) = [] }.

Lemma rewake_lookup c p s a :
  rewake c p s !! a = (fun q => if decide (q = Waiting /\ a ∉ h_parked (half_of s c)) then Woken else q)
    <$> p s !! a.
Proof. unfold rewake. rewrite map_lookup_imap. by destruct (p s !! a). Qed.

(** Waking keeps the ghost state of a half in step. *)
Lemma ghost_wake s c c' p ws (b : nat) :
  ghost_ok s c (p s) -> h_parked (half_of s c) = ws ++ h_parked (half_of s c') ->
  NoDup (h_parked (half_of s c)) ->
  (closed_ c = true -> closed_ c' = true) ->
  (forall a, a ∉ ws -> h_aws (half_of s c') !! a = h_aws (half_of s c) !! a) ->
  (forall a, a ∈ ws -> exists k, h_aws (half_of s c') !! a = Some k /\
     (pbits k = 1 \/ closed_ c' = true)) ->
  ghost_ok s c' (rewake c' p s).
Proof.
  intros [Gd Gw Gf Gk] Hp Hn Hc Ha Hw. rewrite Hp in Hn. apply NoDup_app in Hn as (_ & Hdis & _).
  assert (Hin : forall a, a ∈ ws -> p s !! a = Some Waiting).
  { intros a Haw. apply Gw. rewrite Hp. set_solver. }
  split.
  - intros a. rewrite rewake_lookup, fmap_is_Some, Gd. destruct (decide (a ∈ ws)) as [Haw|Haw].
    + destruct (Hw a Haw) as (k & Hk & _). rewrite Hk. split; [eauto|]. intros _. apply Gd.
      rewrite Hin by done. eauto.
    + by rewrite Ha.
  - intros a. rewrite rewake_lookup. split.
    + intros Hin'. rewrite (proj1 (Gw a)) by (rewrite Hp; set_solver). cbn.
      rewrite decide_False; [done|tauto].
    + intros (q & Hq & Hd)%fmap_Some. case_decide; [done|]. subst q. apply Gw in Hq.
      rewrite Hp in Hq. destruct (decide (a ∈ h_parked (half_of s c'))); [done|]. exfalso. tauto.
  - intros a k. rewrite rewake_lookup. intros (q & Hq & Hd)%fmap_Some Hk. case_decide; [done|]. subst q.
    apply (Gf a k Hq). rewrite <- Ha; [done|]. intros Haw. rewrite Hin in Hq by done. done.
  - intros a k. rewrite rewake_lookup. intros (q & Hq & Hd)%fmap_Some Hk.
    destruct (decide (a ∈ ws)) as [Haw|Haw].
    { destruct (Hw a Haw) as (k' & Hk' & ?). congruence. }
    rewrite Ha in Hk by done. case_decide as Hd'.
    + destruct Hd' as [-> Hd']. apply Gw in Hq. rewrite Hp in Hq. set_solver.
    + subst q. destruct (Gk a k Hq Hk); auto.
Qed.

Lemma ghost_same s c c' m :
  ghost_ok s c m -> half_of s c' = half_of s c -> closed_ c' = closed_ c -> ghost_ok s c' m.
Proof. intros [] Hh Hc. split; rewrite ?Hh, ?Hc; done. Qed.

(** One awaiter's record and phase change together. *)
Lemma ghost_insert s c c' m a k q :
  ghost_ok s c m -> closed_ c' = closed_ c ->
  h_aws (half_of s c') = <[a := k]> (h_aws (half_of s c)) ->
  (forall b, b ∈ h_parked (half_of s c') <->
     if decide (b = a) then q = Waiting else b ∈ h_parked (half_of s c)) ->
  (q = Finished -> pbits k = 0) -> (q = Woken -> pbits k = 1 \/ closed_ c = true) ->
  ghost_ok s c' (<[a := q]> m).
Proof.
  intros [Gd Gw Gf Gk] Hc Ha Hp Hf Hk. split.
  - intros b. rewrite Ha. destruct (decide (b = a)) as [->|Hb]; [rewrite !lookup_insert_eq; split; eauto|].
    by rewrite !lookup_insert_ne.
  - intros b. rewrite Hp. case_decide as Hb; [subst b; rewrite lookup_insert_eq|].
    + split; [by intros ->|by intros [= ->]].
    + by rewrite lookup_insert_ne.
  - intros b k'. rewrite Ha. destruct (decide (b = a)) as [->|Hb].
    + rewrite !lookup_insert_eq. intros [= ->] [= <-]. auto.
    + rewrite !lookup_insert_ne by done. apply Gf.
  - intros b k'. rewrite Ha, Hc. destruct (decide (b = a)) as [->|Hb].
    + rewrite !lookup_insert_eq. intros [= ->] [= <-]. auto.
    + rewrite !lookup_insert_ne by done. apply Gk.
Qed.

(** No wake-up is lost when nothing becomes available. *)
Lemma nolost_mono s c c' :
  ((0 < unclaimedCount s c)%Z -> h_parked (half_of s c) = []) ->
  (unclaimedCount s c' <= unclaimedCount s c)%Z ->
  (h_parked (half_of s c) = [] -> h_parked (half_of s c') = []) ->
  (0 < unclaimedCount s c')%Z -> h_parked (half_of s c') = [].
Proof. intros H Hu Hp ?. apply Hp, H. lia. Qed.

(** What becomes available depends on the buffer and on [claims_] alone. *)
Lemma unclaimed_diff max l s c c' s' :
  chan_ok max settled l c -> chan_ok max settled l c' -> only s c c' ->
  unclaimedCount s' c' = if decide (s' = s /\ (s = RD \/ (closed_ c = false /\ bounded_ c = true)))
    then (unclaimedCount s' c - (claims_ (half_of s c') - claims_ (half_of s c)))%Z
    else unclaimedCount s' c.
Proof.
  intros H H' [Hb Hc Hbd Hw Ho]. destruct s'; cbn [unclaimedCount].
  - rewrite (size_eq _ _ _ _ H), (size_eq _ _ _ _ H').
    case_decide as E; [destruct E as [<- _]; cbn; lia|].
    destruct s; [tauto|]. specialize (Ho RD ltac:(done)). cbn in Ho. by rewrite Ho.
  - rewrite (space_eq _ _ _ _ H), (space_eq _ _ _ _ H'), Hc, Hbd.
    case_decide as E; [destruct E as [<- [[=]|[-> ->]]]; cbn; lia|].
    destruct s; [specialize (Ho WR ltac:(done)); cbn in Ho; by rewrite Ho|].
    destruct (closed_ c), (bounded_ c); try done. tauto.
Qed.

Definition quiet (e : event) : bool :=
  match e with Suspend _ _ _ | Cancel _ _ => true | _ => false end.

(** Which coroutines an event resumes: those it takes off the queues, readers
    first, in the order they were waiting; a channel never changes its kind. *)
Definition step_wakes (e : event) c c' : Prop :=
  bounded_ c' = bounded_ c /\
  exists wr ww, resumed (cworld c') = resumed (cworld c) ++ handles RD c wr ++ handles WR c ww /\
    if quiet e then wr = [] /\ ww = []
    else h_parked (rd_ c) = wr ++ h_parked (rd_ c') /\ h_parked (wr_ c) = ww ++ h_parked (wr_ c').

Lemma step_wakes_none e s c c' :
  only s c c' -> (quiet e = false -> h_parked (half_of s c') = h_parked (half_of s c)) ->
  step_wakes e c c'.
Proof.
  intros Ho Hp. split; [apply Ho|]. exists [], []. rewrite (on_world _ _ _ Ho). unfold handles. cbn. rewrite app_nil_r.
  split; [done|]. destruct (quiet e); [done|]. specialize (Hp eq_refl).
  destruct s; cbn in *; [specialize (on_other _ _ _ Ho WR ltac:(done)) as E
    |specialize (on_other _ _ _ Ho RD ltac:(done)) as E]; cbn in E; by rewrite E, Hp.
Qed.

Lemma step_wakes_one e s c c' ws :
  quiet e = false -> bounded_ c' = bounded_ c ->
  h_parked (half_of s c) = ws ++ h_parked (half_of s c') ->
  h_parked (half_of (other s) c') = h_parked (half_of (other s) c) ->
  resumed (cworld c') = resumed (cworld c) ++ handles s c ws -> step_wakes e c c'.
Proof.
  intros Hq Hbd Hp Ho Hr. unfold step_wakes. rewrite Hq. split; [done|].
  destruct s; cbn in *; [exists ws, []|exists [], ws]; rewrite Hr; unfold handles; cbn;
    rewrite ?app_nil_r, ?Ho; done.
Qed.

(** Everything an event of half [s] that only touches the awaiter [a] must
    satisfy. *)
Lemma inv_only max σ s c' a k q e :
  chan_inv max σ -> (forall l, chan_ok max settled l (ch σ) -> chan_ok max settled l c') ->
  only s (ch σ) c' ->
  (claims_ (half_of s (ch σ)) <= claims_ (half_of s c'))%Z ->
  h_aws (half_of s c') = <[a := k]> (h_aws (half_of s (ch σ))) ->
  (forall b, b ∈ h_parked (half_of s c') <->
     if decide (b = a) then q = Waiting else b ∈ h_parked (half_of s (ch σ))) ->
  (h_parked (half_of s (ch σ)) = [] -> (0 < unclaimedCount s (ch σ))%Z -> h_parked (half_of s c') = []) ->
  (quiet e = false -> h_parked (half_of s c') = h_parked (half_of s (ch σ))) ->
  (q = Finished -> pbits k = 0) -> (q = Woken -> pbits k = 1 \/ closed_ (ch σ) = true) ->
  chan_inv max (CSys c' (set_ph s (<[a := q]> (ph σ s)) (ph σ)) (accepted σ) (delivered σ)) /\
  step_wakes e (ch σ) c'.
Proof.
  intros [[l [Hl Hacc]] Hg HN] Hok Ho Hcl Ha Hp Hp' Hq Hf Hk. split.
  - split; cbn [ch ph accepted delivered].
    + exists l. auto.
    + intros s'. unfold set_ph. case_decide as E.
      * subst s'. eapply ghost_insert; try done. apply Ho.
      * eapply ghost_same; [apply Hg|by apply Ho|apply Ho].
    + intros s' Hu. pose proof (unclaimed_diff _ _ _ _ _ s' Hl (Hok _ Hl) Ho) as HU.
      assert (Hu0 : (0 < unclaimedCount s' (ch σ))%Z) by (rewrite HU in Hu; case_decide; lia).
      destruct (decide (s' = s)) as [->|E]; [auto|]. rewrite (on_other _ _ _ Ho) by done. auto.
  - by eapply step_wakes_none.
Qed.

Definition step_ok max e σ : Prop :=
  exists σ', chan_step e σ = Ok σ' /\ chan_inv max σ' /\ step_wakes e (ch σ) (ch σ').

Lemma phase_aws max σ s a q :
  chan_inv max σ -> ph σ s !! a = Some q ->
  exists k x, h_aws (half_of s (ch σ)) !! a = Some k /\ h_args (half_of s (ch σ)) !! a = Some x /\
    side_of x = s /\ args_ok x.
Proof.
  intros [[l [Hl _]] Hg _] Hq. destruct (proj1 (g_dom _ _ _ (Hg s) a)) as [k Hk]; [eauto|].
  destruct (ho_args _ _ _ (co_half _ _ _ _ Hl s) _ _ Hk) as (x & ? & ? & ? & _). eauto 10.
Qed.

Lemma phase_parked max σ s a q :
  chan_inv max σ -> ph σ s !! a = Some q -> q <> Waiting -> a ∉ h_parked (half_of s (ch σ)).
Proof. intros HI Hq Hne Hin. apply (g_wait _ _ _ (ci_ghost _ _ HI s)) in Hin. congruence. Qed.

Lemma args_okb_ok x : args_okb x = true -> args_ok x.
Proof. destruct x; cbn; try done; intros [?%Z.leb_le ?%Z.ltb_lt]%andb_true_iff; lia. Qed.

Lemma step_new max σ a x : chan_inv max σ -> legal (New a x) σ = true -> step_ok max (New a x) σ.
Proof.
  intros HI Hl. cbn in Hl. apply andb_true_iff in Hl as [[Hn%bool_decide_eq_true Hx]%andb_true_iff Hsz%Z.ltb_lt].
  apply args_okb_ok in Hx. pose proof HI as [[l [Hok Hacc]] Hg HN]. set (s := side_of x) in *.
  assert (Ha : h_aws (half_of s (ch σ)) !! a = None).
  { destruct (h_aws (half_of s (ch σ)) !! a) eqn:E; [|done]. exfalso.
    destruct (proj2 (g_dom _ _ _ (Hg s) a)) as [q Hq]; [eauto|congruence]. }
  assert (Hna : a ∉ h_parked (half_of s (ch σ))).
  { intros Hin. apply (g_wait _ _ _ (Hg s)) in Hin. congruence. }
  destruct (new_awaiter_ok max l a x (ch σ) Hok Ha Hna Hx Hsz)
    as (c' & b & E & Hok' & Ho & Hp & Haws & _ & _ & Hc).
  unfold step_ok, chan_step. rewrite E. res_cbn. fold s in Ho, Hp, Haws, Hc |- *. eexists. split; [done|]. cbn [ch].
  assert (HB : Z.b2z b = 0%Z \/ Z.b2z b = 1%Z) by (destruct b; auto).
  eapply inv_only; try done.
  - intros l' Hl'. destruct (new_awaiter_ok max l' a x (ch σ) Hl' Ha Hna Hx Hsz) as (c2 & ? & E2 & ? & _).
    congruence.
  - lia.
  - intros b'. rewrite Hp. case_decide; [subst b'; split; [done|intros [=]]|done].
  - by rewrite Hp.
Qed.

Lemma step_suspend max σ s a h : chan_inv max σ -> legal (Suspend s a h) σ = true -> step_ok max (Suspend s a h) σ.
Proof.
  intros HI Hl. cbn in Hl. apply andb_true_iff in Hl as [Hq%bool_decide_eq_true Hr%negb_true_iff].
  destruct (phase_aws _ _ _ _ _ HI Hq) as (k & x & Hk & Hx & Hsx & Hax).
  pose proof (phase_parked _ _ _ _ _ HI Hq ltac:(done)) as Hna.
  unfold is_ready, ready, claimed, bits_of in Hr. cbn [lot_of aws] in Hr. rewrite Hk in Hr. res_cbn in *.
  cbn [mbind res_bind deref] in Hr. rewrite Hx in Hr. cbn [mbind res_bind deref] in Hr.
  apply orb_false_iff in Hr as [[Hb Hcl]%orb_false_iff Hno].
  pose proof HI as [[l [Hok Hacc]] Hg HN].
  assert (Hk0 : pbits k = 0).
  { destruct (ho_bits _ _ _ (co_half _ _ _ _ Hok s) _ _ Hk) as [?|Hk1]; [done|]. by rewrite Hk1 in Hb. }
  destruct (suspend_awaiter_ok max l s a h (ch σ) k x Hok Hk Hk0 Hna Hx Hno Hcl)
    as (c' & b & k' & E & Hok' & Ho & Hbu & Hp & Haws & Hk' & _ & _ & Hc).
  unfold step_ok, chan_step. rewrite E. res_cbn. eexists. split; [done|]. cbn [ch].
  eapply (inv_only max σ s c' a k'); try done.
  - intros l' Hl'. destruct (suspend_awaiter_ok max l' s a h (ch σ) k x Hl' Hk Hk0 Hna Hx Hno Hcl)
      as (c2 & ? & ? & E2 & ? & _). congruence.
  - destruct b; cbn in Hc; lia.
  - intros b'. rewrite Hp. destruct b; case_decide as Ed.
    + subst b'. split; [done|]. intros _. set_solver.
    + set_solver.
    + subst b'. split; [done|intros [=]].
    + done.
  - intros Hp0 Hu. rewrite Hp. destruct b; [|done]. apply Z.ltb_lt in Hu. rewrite Hu in Hbu. done.
  - by destruct b.
  - destruct b; intros [=]. by left.
Qed.

Lemma step_cancel max σ s a : chan_inv max σ -> legal (Cancel s a) σ = true -> step_ok max (Cancel s a) σ.
Proof.
  intros HI Hl. cbn in Hl. apply bool_decide_eq_true in Hl. pose proof HI as [[l [Hok Hacc]] Hg HN].
  pose proof (proj2 (g_wait _ _ _ (Hg s) a) Hl) as Hin.
  destruct (cancel_awaiter_ok max l s a (ch σ) Hok Hin) as (c' & E & Hok' & Ho & Hh).
  unfold step_ok, chan_step. rewrite E. res_cbn. eexists. split; [done|]. cbn [ch].
  eapply (inv_only max σ s c' a (Parked 0 Noop) Finished); rewrite ?Hh; try done.
  - intros l' Hl'. destruct (cancel_awaiter_ok max l' s a (ch σ) Hl' Hin) as (c2 & E2 & ? & _). congruence.
  - cbn. intros b. rewrite elem_without. case_decide; [subst b; split; [tauto|intros [=]]|tauto].
  - cbn. by intros ->.
Qed.

Lemma step_destroy `{!WakerSpec W} max σ s a :
  chan_inv max σ -> legal (Destroy s a) σ = true -> step_ok max (Destroy s a) σ.
Proof.
  intros HI Hl. cbn in Hl. assert (Hq : exists q, ph σ s !! a = Some q /\ q <> Waiting).
  { apply orb_true_iff in Hl as [?%bool_decide_eq_true|?%bool_decide_eq_true]; eauto. }
  destruct Hq as (q & Hq & Hqw). destruct (phase_aws _ _ _ _ _ HI Hq) as (k & x & Hk & _).
  pose proof (phase_parked _ _ _ _ _ HI Hq Hqw) as Hna. pose proof HI as [[l [Hok Hacc]] Hg HN].
  destruct (destroy_awaiter_ok max l s a (ch σ) k Hok Hk Hna (HN s))
    as (c' & ws & E & Hok' & (Hb & Hcl & Hbd & Hoth & Hp & Hres) & Haws & HN').
  unfold step_ok, chan_step. rewrite E. res_cbn. eexists. split; [done|]. cbn [ch].
  assert (Haw : a ∉ ws) by (intros ?; apply Hna; rewrite Hp; set_solver).
  split; [split; cbn [ch ph accepted delivered]|].
  - by exists l.
  - intros s'. destruct (decide (s' = s)) as [->|Hs].
    + (* the half itself: drop the awaiter, then wake *)
      set (c0 := set_half s (Half (h_parked (half_of s (ch σ))) (delete a (h_aws (half_of s (ch σ))))
        (h_args (half_of s (ch σ))) (claims_ (half_of s (ch σ)))) (ch σ)).
      assert (Hh0 : half_of s c0 = Half (h_parked (half_of s (ch σ))) (delete a (h_aws (half_of s (ch σ))))
        (h_args (half_of s (ch σ))) (claims_ (half_of s (ch σ)))) by apply half_set.
      assert (Hc0 : closed_ c0 = closed_ (ch σ)) by (by destruct s).
      apply (ghost_wake s c0 c' _ ws 1); rewrite ?Hh0, ?Hc0; cbn [h_parked h_aws]; try done.
      * unfold set_ph. rewrite decide_True by done. destruct (Hg s) as [Gd Gw Gf Gk].
        split; rewrite ?Hh0, ?Hc0; cbn [h_parked h_aws].
        -- intros b. destruct (decide (b = a)) as [->|?]; [by rewrite !lookup_delete_eq|].
           by rewrite !lookup_delete_ne.
        -- intros b. destruct (decide (b = a)) as [->|?]; [rewrite lookup_delete_eq; split; done|].
           by rewrite lookup_delete_ne.
        -- intros b k'. destruct (decide (b = a)) as [->|?]; [by rewrite lookup_delete_eq|].
           rewrite !lookup_delete_ne by done. apply Gf.
        -- intros b k'. destruct (decide (b = a)) as [->|?]; [by rewrite lookup_delete_eq|].
           rewrite !lookup_delete_ne by done. apply Gk.
      * apply (co_half _ _ _ _ Hok s).
      * by rewrite Hcl.
      * intros b Hbw. rewrite Haws. destruct (decide (b = a)) as [->|?]; [by rewrite lookup_delete_eq|].
        rewrite lookup_delete_ne by done. by rewrite decide_False.
      * intros b Hbw. rewrite Haws, decide_False by (intros ->; done). rewrite decide_True by done.
        eexists. split; [done|]. by left.
    + apply (ghost_wake s' (ch σ) c' _ [] 1); rewrite ?(Hoth s' Hs); try done.
      * unfold set_ph. rewrite decide_False by done. apply Hg.
      * apply (co_half _ _ _ _ Hok s').
      * by rewrite Hcl.
      * set_solver.
  - intros s'. destruct (decide (s' = s)) as [->|Hs]; [done|]. rewrite Hoth by done. intros Hu.
    apply HN. destruct s'; cbn [unclaimedCount] in *.
    + rewrite (size_eq _ _ _ _ Hok). rewrite (size_eq _ _ _ _ Hok') in Hu.
      specialize (Hoth RD Hs). cbn in Hoth. by rewrite Hoth in Hu.
    + rewrite (space_eq _ _ _ _ Hok). rewrite (space_eq _ _ _ _ Hok') in Hu.
      specialize (Hoth WR Hs). cbn in Hoth. by rewrite Hoth, Hcl, Hbd in Hu.
  - eapply step_wakes_one; try done. rewrite Hoth; [done|]. by destruct s.
Qed.

(** What every transfer does to a well-formed channel in use. *)
Lemma transfer_inv max x cc l c p acc del r :
  chan_ok max (e_of (side_of x) cc) l c -> (forall s, ghost_ok s c (p s)) ->
  (forall s, (0 < unclaimedCount s c)%Z -> h_parked (half_of s c) = []) ->
  acc = del ++ l -> transferred max x cc l c r ->
  exists vs ans c', r = Ok (vs, ans, c') /\
    chan_inv max (CSys c' (rewake c' p) (fst (log (side_of x) vs (CSys c p acc del)))
                                        (snd (log (side_of x) vs (CSys c p acc del)))) /\
    step_wakes (Try x) c c' /\
    (exists k, k = Z.to_nat (transfer_count x cc c) /\ vs = moved_items x k l /\ ans = answer_of x vs).
Proof.
  intros H Hg HN Hacc (k & c' & ws & Hk & -> & H' & HM). do 3 eexists. split; [done|].
  set (s := side_of x) in *. split; [split; cbn [ch ph accepted delivered]|split].
  - exists (contents_after x k l). split; [done|]. unfold log, contents_after, moved_items. cbn [accepted delivered].
    fold s. destruct s; cbn [fst snd]; subst acc.
    + by rewrite <- app_assoc, take_drop.
    + by rewrite app_assoc.
  - intros s'. destruct (decide (s' = s)) as [->|Hs].
    + apply (ghost_wake s c c' _ [] 1); try done.
      * by rewrite (mv_parked _ _ _ _ HM).
      * apply (co_half _ _ _ _ H s).
      * by rewrite (mv_closed _ _ _ _ HM).
      * by rewrite (mv_aws _ _ _ _ HM).
      * set_solver.
    + assert (s' = other s) as -> by (clear -Hs; by destruct s, s').
      apply (ghost_wake (other s) c c' _ ws 1); try done.
      * apply HM.
      * apply (co_half _ _ _ _ H (other s)).
      * by rewrite (mv_closed _ _ _ _ HM).
      * intros a Ha. by rewrite (mv_oaws _ _ _ _ HM), decide_False.
      * intros a Ha. rewrite (mv_oaws _ _ _ _ HM), decide_True by done. eexists. split; [done|]. by left.
  - intros s'. destruct (decide (s' = s)) as [->|Hs].
    + rewrite (mv_parked _ _ _ _ HM). intros Hu. apply HN. pose proof (mv_unclaimed _ _ _ _ HM). lia.
    + assert (s' = other s) as -> by (clear -Hs; by destruct s, s').
      apply HM. apply HN.
  - apply (step_wakes_one _ (other s) c c' ws); try done; try apply HM.
    replace (other (other s)) with s by (by destruct s). apply HM.
  - by exists k.
Qed.

Lemma may_transfer_ok x cc c :
  may_transfer x cc c = true -> hazard x cc c = false /\ fits x c = true.
Proof. unfold may_transfer. intros [?%negb_true_iff ?]%andb_true_iff. done. Qed.

Lemma step_try `{!WakerSpec W} max σ x :
  chan_inv max σ -> legal (Try x) σ = true -> step_ok max (Try x) σ.
Proof.
  intros [[l [Hok Hacc]] Hg HN] Hl. cbn in Hl. apply andb_true_iff in Hl as [Hx%args_okb_ok Hm%may_transfer_ok].
  assert (Hok0 : chan_ok max (e_of (side_of x) 0) l (ch σ)) by (by apply settled_e).
  assert (HT : transferred max x 0 l (ch σ) (try_now x (ch σ)))
    by (apply tryTransfer_ok; naive_solver).
  destruct (transfer_inv _ _ _ _ _ _ _ _ _ Hok0 Hg HN Hacc HT) as (vs & ans & c' & E & HI & HW & _).
  unfold step_ok, chan_step. rewrite E. res_cbn.
  destruct σ as [c p acc del]. cbn [ch ph accepted delivered] in *.
  destruct (log _ _ _) as [acc' del']. eauto.
Qed.

(** The state in which [await_resume()] starts its transfer. *)
Lemma resume_prep max σ s a l :
  chan_inv max σ -> chan_ok max settled l (ch σ) -> 
  (ph σ s !! a = Some Woken \/ ph σ s !! a = Some Fresh /\ is_ready s a (ch σ) = true) ->
  exists k x c, h_aws (half_of s (ch σ)) !! a = Some k /\ h_args (half_of s (ch σ)) !! a = Some x /\
    side_of x = s /\ args_ok x /\
    claim_of s a (ch σ) = Z.b2z (is_claimed k) /\
    chan_resume s a (ch σ) = tryTransfer (Z.b2z (is_claimed k)) x c /\
    chan_ok max (e_of s (Z.b2z (is_claimed k))) l c /\ only s (ch σ) c /\
    half_of s c = Half (h_parked (half_of s (ch σ))) (<[a := Parked 0 (handle_ k)]> (h_aws (half_of s (ch σ))))
      (h_args (half_of s (ch σ))) (claims_ (half_of s (ch σ))) /\
    (Z.b2z (is_claimed k) = 1%Z -> isNoop x = false).
Proof.
  intros HI Hok Hq. assert (Hq' : exists q, ph σ s !! a = Some q /\ q <> Waiting) by naive_solver.
  destruct Hq' as (q & Hq0 & Hqw). destruct (phase_aws _ _ _ _ _ HI Hq0) as (k & x & Hk & Hx & Hsx & Hax).
  pose proof (phase_parked _ _ _ _ _ HI Hq0 Hqw) as Hna.
  assert (Hr : is_claimed k || closed_ (ch σ) || isNoop x = true).
  { destruct Hq as [Hq|[Hq Hr]].
    - destruct (g_woken _ _ _ (ci_ghost _ _ HI s) a k Hq Hk) as [H1| ->].
      + unfold is_claimed. by rewrite H1.
      + by rewrite orb_true_r.
    - unfold is_ready, ready, claimed, bits_of in Hr. cbn [lot_of aws] in Hr. rewrite Hk in Hr.
      cbn [mbind res_bind deref] in Hr. rewrite Hx in Hr. exact Hr. }
  destruct (unclaim_ok max l s a (ch σ) k x Hok Hk Hna Hx Hr) as (c & ? & ? & ? & ? & ?).
  exists k, x, c. split_and!; try done.
  unfold claim_of, claimed, bits_of. cbn [lot_of aws]. rewrite Hk. done.
Qed.

Lemma unclaimed_prep max l s a k e c c' s' :
  chan_ok max settled l c -> chan_ok max e l c' -> only s c c' ->
  half_of s c' = Half (h_parked (half_of s c)) (<[a := k]> (h_aws (half_of s c)))
      (h_args (half_of s c)) (claims_ (half_of s c)) ->
  unclaimedCount s' c' = unclaimedCount s' c.
Proof.
  intros H H' Ho Hh. assert (Hc : forall t, claims_ (half_of t c') = claims_ (half_of t c)).
  { intros t. destruct (decide (t = s)) as [->|Ht]; [by rewrite Hh|by rewrite (on_other _ _ _ Ho)]. }
  pose proof (Hc RD) as HR. pose proof (Hc WR) as HW. cbn [half_of] in HR, HW.
  destruct s'; cbn [unclaimedCount].
  - rewrite (size_eq _ _ _ _ H), (size_eq _ _ _ _ H'). lia.
  - by rewrite (space_eq _ _ _ _ H), (space_eq _ _ _ _ H'), (on_closed _ _ _ Ho), (on_bounded _ _ _ Ho), HW.
Qed.

(** Facts of legality that mention the channel's buffer, bounds and closure only. *)
Lemma may_transfer_only s x cc c c' : only s c c' -> may_transfer x cc c' = may_transfer x cc c.
Proof.
  intros [Hb Hc Hbd _ _]. unfold may_transfer, hazard, fits. by rewrite Hb, Hc, Hbd.
Qed.

Lemma handles_only s s' a k c c' ws :
  only s c c' -> h_aws (half_of s c') = <[a := k]> (h_aws (half_of s c)) -> a ∉ ws \/ s' <> s ->
  handles s' c' ws = handles s' c ws.
Proof.
  intros Ho Ha Hw. unfold handles. apply (bind_handles_ext no_react). intros b Hb. cbn.
  destruct (decide (s' = s)) as [->|Hs]; [|by rewrite (on_other _ _ _ Ho)].
  destruct Hw as [Hw|]; [|done]. rewrite Ha, lookup_insert_ne; [done|]. by intros <-.
Qed.

Lemma resume_ok `{!WakerSpec W} max σ s a :
  chan_inv max σ -> legal (Resume s a) σ = true ->
  exists l k x vs ans c' σ', chan_ok max settled l (ch σ) /\ accepted σ = delivered σ ++ l /\
    h_aws (half_of s (ch σ)) !! a = Some k /\ h_args (half_of s (ch σ)) !! a = Some x /\
    side_of x = s /\ (Z.b2z (is_claimed k) = 1%Z -> isNoop x = false) /\
    chan_resume s a (ch σ) = Ok (vs, ans, c') /\
    vs = moved_items x (Z.to_nat (transfer_count x (Z.b2z (is_claimed k)) (ch σ))) l /\
    ans = answer_of x vs /\
    chan_step (Resume s a) σ = Ok σ' /\ ch σ' = c' /\
    chan_inv max σ' /\ step_wakes (Resume s a) (ch σ) c'.
Proof.
  intros HI Hl. cbn in Hl. apply andb_true_iff in Hl as [Hq Hm].
  assert (Hq' : ph σ s !! a = Some Woken \/ ph σ s !! a = Some Fresh /\ is_ready s a (ch σ) = true).
  { apply orb_true_iff in Hq as [?%bool_decide_eq_true|[?%bool_decide_eq_true ?]%andb_true_iff]; auto. }
  pose proof HI as [[l [Hok Hacc]] Hg HN].
  destruct (resume_prep max σ s a l HI Hok Hq') as (k & x & c & Hk & Hx & Hsx & Hax & Hcc & E & Hc & Ho & Hh & Hno).
  rewrite Hx, Hcc in Hm. rewrite <- (may_transfer_only s _ _ _ _ Ho) in Hm. apply may_transfer_ok in Hm as [Hhz Hf].
  assert (Hna : a ∉ h_parked (half_of s (ch σ))) by (destruct Hq' as [?|[? _]]; eapply phase_parked; done).
  assert (Hbz : (Z.b2z (is_claimed k) = 0 \/ Z.b2z (is_claimed k) = 1)%Z) by (destruct (is_claimed k); auto).
  assert (Hc' : chan_ok max (e_of (side_of x) (Z.b2z (is_claimed k))) l c) by (by rewrite Hsx).
  pose proof (tryTransfer_ok max x _ l c Hc' Hbz Hax Hno Hhz Hf) as HT.
  set (p := set_ph s (<[a := Finished]> (ph σ s)) (ph σ)).
  assert (Hg' : forall s', ghost_ok s' c (p s')).
  { intros s'. subst p. unfold set_ph. destruct (decide (s' = s)) as [Hd|Hd].
    - subst s'. eapply (ghost_insert s (ch σ) c _ a (Parked 0 (handle_ k))); try done.
      + apply Ho.
      + by rewrite Hh.
      + intros b. rewrite Hh. cbn [h_parked].
        destruct (decide (b = a)) as [->|]; [split; [done|intros [=]]|done].
    - eapply ghost_same; [apply Hg|by apply Ho|apply Ho]. }
  assert (HU : forall s', unclaimedCount s' c = unclaimedCount s' (ch σ)).
  { intros s'. by eapply unclaimed_prep. }
  assert (HP : forall s', h_parked (half_of s' c) = h_parked (half_of s' (ch σ))).
  { intros s'. destruct (decide (s' = s)) as [->|]; [by rewrite Hh|by rewrite (on_other _ _ _ Ho)]. }
  assert (HN' : forall s', (0 < unclaimedCount s' c)%Z -> h_parked (half_of s' c) = []).
  { intros s'. rewrite HU, HP. apply HN. }
  destruct (transfer_inv _ _ _ _ _ p _ _ _ Hc' Hg' HN' Hacc HT)
    as (vs & ans & c' & Er & HI' & (Hbd & wr & ww & Hres & HW1 & HW2) & j & Hj & Hvs & Hans).
  rewrite Hsx in HI'. assert (Htc : transfer_count x (Z.b2z (is_claimed k)) c = transfer_count x (Z.b2z (is_claimed k)) (ch σ)).
  { unfold transfer_count. by rewrite HU, (on_closed _ _ _ Ho), (on_bounded _ _ _ Ho). }
  rewrite Htc in Hj. subst j. rewrite Er in E.
  exists l, k, x, vs, ans, c'. unfold chan_step. rewrite E. res_cbn.
  change (log s vs (CSys c p (accepted σ) (delivered σ))) with (log s vs σ) in HI'.
  destruct (log s vs σ) as [acc' del']. cbn [fst snd] in HI'.
  eexists. split_and!; try done.
  split; [by rewrite Hbd, (on_bounded _ _ _ Ho)|].
  exists wr, ww. cbn [quiet]. rewrite Hres, (on_world _ _ _ Ho).
  pose proof (HP RD) as HPR. pose proof (HP WR) as HPW. cbn [half_of] in HPR, HPW.
  rewrite <- HPR, <- HPW. split; [|done]. f_equal.
  assert (Haws : h_aws (half_of s c) = <[a:=Parked 0 (handle_ k)]> (h_aws (half_of s (ch σ)))) by (by rewrite Hh).
  rewrite !(handles_only s _ a _ _ _ _ Ho Haws); [done|..].
  - destruct s; [by right|left]. intros Hin. apply Hna. cbn [half_of]. rewrite <- HPW, HW2. set_solver.
  - destruct s; [left|by right]. intros Hin. apply Hna. cbn [half_of]. rewrite <- HPR, HW1. set_solver.
Qed.

Lemma step_close `{!WakerSpec W} max σ : chan_inv max σ -> step_ok max Close σ.
Proof.
  intros [[l [Hok Hacc]] Hg HN].
  destruct (close_ok max l (ch σ) Hok) as (c' & E & Hok' & Hb & Hcl & Hbd & Hs & Hres).
  unfold step_ok, chan_step. rewrite E. res_cbn. eexists. split; [done|]. cbn [ch].
  split; [split; cbn [ch ph accepted delivered]|].
  - by exists l.
  - intros s. destruct (Hs s) as [Hp Ha].
    apply (ghost_wake s (ch σ) c' _ (h_parked (half_of s (ch σ))) 0); try done.
    + by rewrite Hp, app_nil_r.
    + apply (co_half _ _ _ _ Hok s).
    + intros a Hna. by rewrite Ha, decide_False.
    + intros a Hin. rewrite Ha, decide_True by done.
      destruct (ho_parked _ _ _ (co_half _ _ _ _ Hok s) a Hin) as (k & Hk & _). rewrite Hk.
      eexists. split; [done|]. by right.
  - intros s _. apply Hs.
  - split; [done|]. exists (h_parked (rd_ (ch σ))), (h_parked (wr_ (ch σ))). split; [done|]. cbn [quiet].
    destruct (Hs RD) as [HR _], (Hs WR) as [HW _]. cbn [half_of] in HR, HW.
    by rewrite HR, HW, !app_nil_r.
Qed.

Lemma chan_step_ok `{!WakerSpec W} max e σ : chan_inv max σ -> legal e σ = true -> step_ok max e σ.
Proof.
  destruct e.
  - apply step_new.
  - apply step_suspend.
  - intros HI Hl. destruct (resume_ok max σ s a HI Hl)
      as (l & k & x & vs & ans & c' & σ' & _ & _ & _ & _ & _ & _ & _ & _ & _ & E & <- & HI' & HW).
    by exists σ'.
  - apply step_cancel.
  - apply step_destroy.
  - apply step_try.
  - intros HI _. by apply step_close.
Qed.

Lemma chan_run_ok `{!WakerSpec W} max es σ :
  chan_inv max σ -> all_legal es σ -> exists σ', chan_run es σ = Ok σ' /\ chan_inv max σ' /\
    bounded_ (ch σ') = bounded_ (ch σ).
Proof.
  revert σ. induction es as [|e es IH]; intros σ HI Hl; cbn [chan_run].
  - eauto.
  - destruct Hl as [Hl Hls]. destruct (chan_step_ok max e σ HI Hl) as (σ1 & E & HI1 & [Hb _]).
    rewrite E in *. res_cbn. destruct (IH σ1 HI1 Hls) as (σ2 & E2 & HI2 & Hb2). exists σ2.
    split_and!; try done. congruence.
Qed.

(** A new channel, unbounded or bounded. *)
Definition chan_start (maxSize : option nat) (w : W) : res chan_sys :=
  c ← match maxSize with None => Ok (chan_unbounded w) | Some n => chan_bounded n w end;
  Ok (CSys c (fun _ => ∅) [] []).

Definition bound_of (maxSize : option nat) : nat := match maxSize with Some n => n | None => 0 end.

Lemma half_ok_empty s : half_ok s 0 empty_half.
Proof. split; try done; try set_solver. apply NoDup_nil_2. Qed.

Lemma chan_start_inv maxSize w σ :
  chan_start maxSize w = Ok σ -> (Z.of_nat (bound_of maxSize) < 2 ^ 64)%Z ->
  chan_inv (bound_of maxSize) σ /\ bounded_ (ch σ) = bool_decide (is_Some maxSize).
Proof.
  intros E Hm. assert (Hc : exists n, σ = CSys (Chan (fifo_new n) false
    (bool_decide (is_Some maxSize)) empty_half empty_half w) (fun _ => ∅) [] [] /\
    (bool_decide (is_Some maxSize) = true -> n = bound_of maxSize)).
  { unfold chan_start in E. destruct maxSize as [n|].
    - unfold chan_bounded in E. destruct (0 <? n); [|done]. injection E as <-. by exists n.
    - injection E as <-. by exists 0. }
  destruct Hc as (n & -> & Hn). split; [|done]. destruct (fifo_new_rep (A := A) (Q := Q) n) as [Hr Hc].
  assert (Hs : forall s, half_of s (Chan (fifo_new n) false (bool_decide (is_Some maxSize))
    empty_half empty_half w) = empty_half) by (by intros []).
  split; cbn [ch ph accepted delivered].
  - exists []. split; [|done]. split; cbn [buf_ bounded_ closed_ rd_ wr_]; try done.
    + intros Hb. specialize (Hn Hb). subst n. split_and!; [done|done|cbn; lia].
    + intros s. rewrite Hs. apply half_ok_empty.
  - intros s. split; rewrite ?Hs; cbn.
    + intros a. by rewrite !lookup_empty.
    + intros a. rewrite lookup_empty. set_solver.
    + intros a k. by rewrite lookup_empty.
    + intros a k. by rewrite lookup_empty.
  - intros s _. by rewrite Hs.
Qed.


Lemma chan_reach `{!WakerSpec W} maxSize w es σ0 :
  chan_start maxSize w = Ok σ0 -> (Z.of_nat (bound_of maxSize) < 2 ^ 64)%Z -> all_legal es σ0 ->
  exists σ, chan_run es σ0 = Ok σ /\ chan_inv (bound_of maxSize) σ /\
    bounded_ (ch σ) = bool_decide (is_Some maxSize).
Proof.
  intros E Hm Hl. destruct (chan_start_inv _ _ _ E Hm) as [HI Hb].
  destruct (chan_run_ok _ _ _ HI Hl) as (σ & ? & ? & ?). exists σ. split_and!; congruence.
Qed.

(** * Correctness *)

(** C3. In every legal use of a channel no operation fails, the
    elements delivered to readers followed by the buffer's contents are exactly
    the elements accepted from writers, in order, and the counts of claims
    never exceed what is there: claimed elements are in the buffer, and in a
    bounded channel the elements and the claimed slots fit the size given at
    construction, whose buffer is never reallocated. *)
Theorem channel_fifo `{!WakerSpec W} maxSize w es σ0 :
  chan_start maxSize w = Ok σ0 -> (Z.of_nat (bound_of maxSize) < 2 ^ 64)%Z -> all_legal es σ0 ->
  exists σ l, chan_run es σ0 = Ok σ /\ fifo_rep (buf_ (ch σ)) l /\
    accepted σ = delivered σ ++ l /\
    (0 <= claims_ (rd_ (ch σ)) <= Z.of_nat (length l))%Z /\
    chan_size (ch σ) = (Z.of_nat (length l) - claims_ (rd_ (ch σ)))%Z /\
    forall n, maxSize = Some n ->
      (0 <= claims_ (wr_ (ch σ)) /\ Z.of_nat (length l) + claims_ (wr_ (ch σ)) <= Z.of_nat n)%Z /\
      fifo_capacity (buf_ (ch σ)) = n.
Proof.
  intros E Hm Hl. destruct (chan_reach _ _ _ _ E Hm Hl) as (σ & Er & [[l [Hok Hacc]] _ _] & Hb).
  exists σ, l. pose proof (claims_nonneg _ _ _ _ RD Hok) as H0. pose proof (claims_nonneg _ _ _ _ WR Hok) as H1.
  cbn [half_of] in *. split_and!; try done; try (apply Hok); [tauto|by apply (size_eq _ _ _ _ Hok)|].
  intros n ->. rewrite bool_decide_true in Hb by eauto.
  destruct (co_write _ _ _ _ Hok Hb) as (? & ? & ?). cbn in *. split_and!; try done; lia.
Qed.

(** C5. Whatever happened before, an awaiter sits in a
    wait queue only while there is nothing unclaimed for it to transfer and the
    channel is open, and the queue holds exactly the suspended awaiters.  Every
    further legal event succeeds, and the awaiters it takes off a queue are the
    longest waiting ones, each resumed once, in order. *)
Theorem channel_no_lost_wakeup `{!WakerSpec W} maxSize w es σ0 :
  chan_start maxSize w = Ok σ0 -> (Z.of_nat (bound_of maxSize) < 2 ^ 64)%Z -> all_legal es σ0 ->
  exists σ, chan_run es σ0 = Ok σ /\
    (forall s, (0 < unclaimedCount s (ch σ))%Z \/ closed_ (ch σ) = true ->
       h_parked (half_of s (ch σ)) = []) /\
    (forall s a, a ∈ h_parked (half_of s (ch σ)) <-> ph σ s !! a = Some Waiting) /\
    (forall e, legal e σ = true ->
       exists σ', chan_step e σ = Ok σ' /\ step_wakes e (ch σ) (ch σ')).
Proof.
  intros E Hm Hl. destruct (chan_reach _ _ _ _ E Hm Hl) as (σ & Er & HI & Hb).
  exists σ. pose proof HI as [[l [Hok Hacc]] Hg HN]. split_and!; try done.
  - intros s [Hu|Hc]; [by apply HN|by apply Hok].
  - intros s a. apply Hg.
  - intros e He. destruct (chan_step_ok _ _ _ HI He) as (σ' & ? & _ & ?). eauto.
Qed.

(** [await_resume()] moves as many elements as are
    there for it: the oldest elements for a reader, a prefix of its input for a
    writer.  An awaiter that holds a claim always gets something, whatever
    happened since it claimed - closure included, for a reader.  So a single
    [receive()] answers end-of-file only on a closed channel with nothing
    unclaimed, and a single [send()] fails only on a closed channel. *)
Theorem channel_claim_honoured `{!WakerSpec W} maxSize w es σ0 s a :
  chan_start maxSize w = Ok σ0 -> (Z.of_nat (bound_of maxSize) < 2 ^ 64)%Z -> all_legal es σ0 ->
  exists σ, chan_run es σ0 = Ok σ /\
    (legal (Resume s a) σ = true ->
     exists x k l vs c', h_args (half_of s (ch σ)) !! a = Some x /\ fifo_rep (buf_ (ch σ)) l /\
       chan_resume s a (ch σ) = Ok (vs, answer_of x vs, c') /\
       vs = take k (match s with RD => l | WR => payload x end) /\
       (claim_of s a (ch σ) = 1%Z -> vs <> []) /\
       (x = RecvOne -> vs = [] -> closed_ (ch σ) = true /\ chan_size (ch σ) = 0%Z) /\
       (forall v, x = SendOne v -> vs = [] -> closed_ (ch σ) = true)).
Proof.
  intros E Hm Hl. destruct (chan_reach _ _ _ _ E Hm Hl) as (σ & Er & HI & Hb).
  exists σ. split; [done|]. intros Hlr.
  destruct (resume_ok _ _ _ _ HI Hlr)
    as (l & k & x & vs & ans & c' & σ' & Hok & _ & Hk & Hx & Hsx & Hno & Ec & Hvs & -> & _ & _ & _ & _).
  set (n := transfer_count x (Z.b2z (is_claimed k)) (ch σ)) in *.
  exists x, (Z.to_nat n), l, vs, c'. pose proof (unclaimed_nonneg _ _ _ _ s Hok) as Hu.
  assert (Hcl : claim_of s a (ch σ) = Z.b2z (is_claimed k)).
  { unfold claim_of, claimed, bits_of. cbn [lot_of aws]. by rewrite Hk. }
  assert (Hleg := Hlr). cbn in Hleg. apply andb_true_iff in Hleg as [_ Hmt]. rewrite Hx, Hcl in Hmt.
  apply may_transfer_ok in Hmt as [Hhz _]. pose proof (size_eq _ _ _ _ Hok) as HS.
  pose proof (ho_claims _ _ _ (co_half _ _ _ _ Hok s)) as HC.
  pose proof (countZ_weight_le is_claimed (h_aws (half_of s (ch σ))) a) as HW. rewrite Hk in HW.
  pose proof (co_read _ _ _ _ Hok) as HR. unfold settled in HC. cbn [weight] in HW.
  assert (Hmi : vs = take (Z.to_nat n) (match s with RD => l | WR => payload x end)).
  { subst vs. unfold moved_items. rewrite Hsx. by destruct s. }
  assert (Hsrc : forall b, (b <= n)%Z -> (0 < b)%Z -> (s = RD -> (b <= Z.of_nat (length l))%Z) ->
    (s = WR -> payload x <> []) -> vs <> []).
  { intros b Hbn Hb0 Hr Hw Hv. rewrite Hmi in Hv. apply (f_equal length) in Hv. cbn in Hv.
    rewrite length_take in Hv. destruct s; [specialize (Hr eq_refl); lia|].
    specialize (Hw eq_refl). destruct (payload x); [done|]. cbn in Hv. lia. }
  assert (Hn1 : Z.b2z (is_claimed k) = 1%Z -> (1 <= n)%Z).
  { intros H1. specialize (Hno H1). subst n. unfold hazard in Hhz. rewrite H1 in *.
    assert (Hax : args_ok x).
    { destruct (ho_args _ _ _ (co_half _ _ _ _ Hok s) _ _ Hk) as (x' & Hx' & _ & ? & _). congruence. }
    destruct x as [|m|[] m|v|ra us|ra us]; cbn [transfer_count side_of payload isNoop args_ok] in *;
      subst s; cbn [unclaimedCount] in *; rewrite ?Hno in Hhz; try (apply Z.eqb_neq in Hno);
      try (apply bool_decide_eq_false in Hno); try lia;
      destruct (closed_ (ch σ)), (bounded_ (ch σ)); cbn in Hhz; try done; cbn [length]; lia. }
  assert (Hrd : is_claimed k || closed_ (ch σ) || isNoop x = true).
  { unfold chan_resume, ready, claimed, bits_of in Ec. cbn [lot_of aws] in Ec. rewrite Hk in Ec.
    cbn [mbind res_bind deref] in Ec. rewrite Hx in Ec. cbn [mbind res_bind deref] in Ec.
    change (Nat.odd (pbits k)) with (is_claimed k) in Ec.
    by destruct (is_claimed k || closed_ (ch σ) || isNoop x). }
  split_and!; try done.
  - apply Hok.
  - rewrite Hcl. intros H1. apply (Hsrc 1%Z); [auto|lia| |].
    + intros ->. cbn [half_of] in *. lia.
    + intros ->. specialize (Hno H1). destruct x; cbn in *; try done; by intros ->.
  - intros -> Hv. cbn [side_of] in Hsx. subst s. cbn [isNoop] in Hrd. rewrite orb_false_r in Hrd.
    destruct (Z.leb_spec 1 n) as [Hn|Hn].
    { exfalso. apply (Hsrc 1%Z); [done|lia| |done|done]. intros _. subst n.
      cbn [transfer_count side_of unclaimedCount half_of] in *. lia. }
    subst n. cbn [transfer_count side_of unclaimedCount half_of] in *.
    assert (Hb0 : (0 <= Z.b2z (is_claimed k))%Z) by (destruct (is_claimed k); cbn; lia).
    destruct (is_claimed k); cbn [Z.b2z orb] in *; [lia|]. split; [done|lia].
  - intros v -> Hv. cbn [side_of] in Hsx. subst s. cbn [isNoop] in Hrd. rewrite orb_false_r in Hrd.
    destruct (closed_ (ch σ)) eqn:Hc; [done|]. exfalso. rewrite orb_false_r in Hrd.
    apply (Hsrc 1%Z); [|lia|done|done|done]. apply Hn1. by rewrite Hrd.
Qed.

(** The assertion on [closed()] that an awaiter or a [trySend()] runs into. *)
Lemma hazard_faults max x cc l c :
  chan_ok max (e_of (side_of x) cc) l c -> (cc = 0 \/ cc = 1)%Z -> hazard x cc c = true ->
  tryTransfer cc x c = Fault AssertFailed.
Proof.
  intros H Hcc Hz. unfold hazard in Hz. apply andb_true_iff in Hz as [Hcl Hz].
  pose proof (claimed_le _ _ _ _ _ H) as Hle. pose proof (space_eq _ _ _ _ H) as HP. rewrite Hcl in HP.
  assert (Hav : negb (bounded_ c) || (0 <? cc)%Z = true -> (available cc c =? 0)%Z = false).
  { intros Hb. apply Z.eqb_neq. unfold available. destruct (bounded_ c); cbn in Hb; [|done].
    apply Z.ltb_lt in Hb. cbn [unclaimedCount]. rewrite HP, Z.add_0_r, to_word_small; lia. }
  destruct x as [|n|fwd n|v|ra vs|ra vs]; try done; cbn [side_of half_of] in Hle; cbn [tryTransfer].
  - unfold send_one. rewrite (proj2 (Z.leb_le _ _) Hle). res_cbn. apply Z.ltb_lt in Hz.
    rewrite (proj2 (Z.eqb_neq cc 0) ltac:(lia)). cbn [andb]. by rewrite Hcl.
  - apply andb_true_iff in Hz as [Hv%negb_true_iff Hz]. unfold send_iter.
    rewrite (proj2 (Z.leb_le _ _) Hle). res_cbn. rewrite Hv, (Hav Hz). by rewrite Hcl.
  - apply andb_true_iff in Hz as [Hv%negb_true_iff Hz]. unfold send_range.
    rewrite (proj2 (Z.leb_le _ _) Hle). res_cbn. rewrite Hv, (Hav Hz). by rewrite Hcl.
Qed.

(** ** A closed channel *)

(** A write to it changes nothing, if it comes to an end. *)
Lemma closed_send x cc c vs ans c' :
  side_of x = WR -> closed_ c = true -> tryTransfer cc x c = Ok (vs, ans, c') ->
  vs = [] /\ ans = answer_of x [] /\ c' = c.
Proof.
  intros Hs Hc H. destruct x as [|n|fwd n|v|ra us|ra us]; try discriminate Hs; cbn [tryTransfer] in H;
    unfold send_one, send_iter, send_range in H; rewrite Hc in H; cbn [negb andb] in H; res_inv;
    repeat match goal with H : (if ?b then _ else _) = Ok _ |- _ => destruct b end; res_inv; done.
Qed.
(** Without a claim it comes to an end, unless it is a bulk write and the channel unbounded. *)
Lemma closed_try_send max l x c :
  chan_ok max settled l c -> side_of x = WR -> closed_ c = true ->
  try_now x c = if hazard x 0 c then Fault AssertFailed else Ok ([], answer_of x [], c).
Proof.
  intros Hok Hs Hc. apply (proj2 (settled_e max (side_of x) l c)) in Hok. destruct (hazard x 0 c) eqn:Hz.
  { apply (hazard_faults max x 0 l); [exact Hok|by left|done]. }
  pose proof (claimed_le _ _ _ _ _ Hok) as Hle.
  assert (Hsp : chan_space c = 0%Z) by (unfold chan_space; by rewrite Hc).
  assert (Hav : bounded_ c = true -> available 0 c = 0%Z) by (unfold available; intros ->; cbn [unclaimedCount]; by rewrite Hsp).
  unfold hazard in Hz. rewrite Hc in Hz. cbn [andb] in Hz.
  destruct x as [|n|fwd n|v|ra us|ra us]; try discriminate Hs; unfold try_now; cbn [tryTransfer side_of half_of] in *.
  - unfold send_one. rewrite (proj2 (Z.leb_le _ _) Hle). cbn [unclaimedCount]. by rewrite Hsp.
  - unfold send_iter. rewrite (proj2 (Z.leb_le _ _) Hle). res_cbn.
    destruct (bool_decide (length us = 0)); [done|]. cbn in Hz. destruct (bounded_ c); [|done]. by rewrite Hav.
  - unfold send_range. rewrite (proj2 (Z.leb_le _ _) Hle). res_cbn.
    destruct (bool_decide (length us = 0)); [done|]. cbn in Hz. destruct (bounded_ c); [|done]. by rewrite Hav.
Qed.

(** Once closed it stays so. *)
Lemma set_half_closed s h c : closed_ (set_half s h c) = closed_ c.
Proof. by destruct s. Qed.
Lemma set_lot_closed s l c : closed_ (set_lot s l c) = closed_ c.
Proof. by destruct s. Qed.
Lemma claim_closed s a c c' : claim s a c = Ok c' -> closed_ c' = closed_ c.
Proof. unfold claim. intros H. res_inv. unfold set_claims. by rewrite set_half_closed, set_lot_closed. Qed.
Lemma wake_loop_closed fuel s c c' : wake_loop fuel s c = Ok c' -> closed_ c' = closed_ c.
Proof.
  revert c. induction fuel as [|fuel IH]; intros c; cbn [wake_loop]; destruct (_ && _); try done; try (by intros [= <-]).
  intros H. apply bind_ok in H as (a & _ & H). apply bind_ok in H as (c1 & Hc & H).
  apply bind_ok in H as ([? l] & _ & H). apply IH in H. by rewrite H, set_lot_closed, (claim_closed _ _ _ _ Hc).
Qed.
Lemma tryTransfer_closed cc x c vs ans c' :
  closed_ c = true -> tryTransfer cc x c = Ok (vs, ans, c') -> closed_ c' = true.
Proof.
  intros Hc H. destruct (side_of x) eqn:Hs; [|by destruct (closed_send _ _ _ _ _ _ Hs Hc H) as (_ & _ & ->)].
  destruct x as [|n|fwd n|v|ra us|ra us]; try discriminate Hs; cbn [tryTransfer] in H;
    unfold recv_one, recv_iter, recv_range, wakeAwaiters in H; res_inv;
    repeat match goal with H : (if ?b then _ else _) = Ok _ |- _ => destruct b end; res_inv; try done;
    repeat match goal with p : list A * nat * Q |- _ => destruct p as [[? ?] ?] end; res_inv;
    match goal with W : wake_loop _ _ _ = Ok _ |- _ => apply wake_loop_closed in W; by rewrite W end.
Qed.
Lemma closed_step e σ σ' :
  closed_ (ch σ) = true ->
  match e with Resume s a => forall x, h_args (half_of s (ch σ)) !! a = Some x -> side_of x = s | _ => True end ->
  chan_step e σ = Ok σ' -> closed_ (ch σ') = true /\ accepted σ' = accepted σ.
Proof.
  intros Hc He H. destruct σ as [c p acc del]. cbn [ch accepted] in *. destruct e as [a x|s a h|s a|s a|s a|x|]; cbn [chan_step ch] in H.
  - apply bind_ok in H as (c' & H & [= <-]). split; [|done]. cbn. unfold new_awaiter in H.
    destruct (_ && _); [apply claim_closed in H; rewrite H|injection H as <-]; by rewrite set_half_closed, set_lot_closed.
  - apply bind_ok in H as ([b c'] & H & [= <-]). split; [|done]. cbn. unfold chan_suspend in H.
    apply bind_ok in H as (b' & _ & H). apply bind_ok in H as (u & _ & H). destruct (_ <? _)%Z.
    + apply bind_ok in H as (c1 & H1 & [= <- <-]). by rewrite (claim_closed _ _ _ _ H1).
    + apply bind_ok in H as (l & _ & [= <- <-]). by rewrite set_lot_closed.
  - apply bind_ok in H as ([[vs ans] c'] & H & H'). unfold chan_resume in H.
    apply bind_ok in H as (r & _ & H). apply bind_ok in H as (u & _ & H). apply bind_ok in H as (b & _ & H).
    apply bind_ok in H as (l & _ & H). apply bind_ok in H as (x & Hx%deref_ok & H). specialize (He x Hx).
    assert (Hcl : closed_ (set_lot s l c) = true) by (by rewrite set_lot_closed).
    pose proof (tryTransfer_closed _ _ _ _ _ _ Hcl H) as Hc'.
    destruct s; cbn [log accepted delivered] in H'; injection H' as <-; (split; [done|]); [done|].
    cbn [accepted].
    destruct (closed_send _ _ _ _ _ _ He Hcl H) as (-> & _). by rewrite app_nil_r.
  - apply bind_ok in H as ([b c'] & H & [= <-]). split; [|done]. cbn. unfold chan_cancel in H.
    apply bind_ok in H as ([r l] & _ & [= <- <-]). by rewrite set_lot_closed.
  - apply bind_ok in H as (c' & H & [= <-]). split; [|done]. cbn. unfold destroy_awaiter, wakeAwaiters in H.
    apply bind_ok in H as (b & _ & H). apply bind_ok in H as (c1 & H1 & [= <-]). rewrite set_half_closed.
    destruct b; [apply wake_loop_closed in H1; rewrite H1; unfold set_claims; by rewrite set_half_closed|by injection H1 as <-].
  - apply bind_ok in H as ([[vs ans] c'] & H & H'). pose proof (tryTransfer_closed _ _ _ _ _ _ Hc H) as Hc'.
    destruct (side_of x) eqn:Hs; cbn [log accepted delivered] in H'; injection H' as <-; (split; [done|]); [done|].
    destruct (closed_send _ _ _ _ _ _ Hs Hc H) as (-> & _). by rewrite app_nil_r.
  - apply bind_ok in H as (c' & H & [= <-]). split; [|done]. cbn. unfold close in H.
    apply bind_ok in H as (l & _ & H). apply bind_ok in H as (l' & _ & [= <-]). by rewrite !set_lot_closed.
Qed.

Lemma closed_resume `{!WakerSpec W} max σ a x :
  chan_inv max σ -> legal (Resume WR a) σ = true -> h_args (wr_ (ch σ)) !! a = Some x -> closed_ (ch σ) = true ->
  exists c, chan_resume WR a (ch σ) = Ok ([], answer_of x [], c) /\ buf_ c = buf_ (ch σ).
Proof.
  intros HI Hl Hx Hc. destruct (resume_ok max σ WR a HI Hl) as (l & k & x' & vs & ans & c' & σ' & _ & _ & _ & Hx' & Hs & _ & E & _).
  cbn [half_of] in Hx'. rewrite Hx in Hx'. injection Hx' as <-. exists c'. rewrite E. unfold chan_resume in E.
  apply bind_ok in E as (r & _ & E). apply bind_ok in E as (u & _ & E). apply bind_ok in E as (b & _ & E).
  apply bind_ok in E as (lot & _ & E). cbn [half_of] in E. rewrite Hx in E. cbn [deref mbind res_bind] in E.
  destruct (closed_send x _ (set_lot WR lot (ch σ)) _ _ _ Hs Hc E) as (-> & -> & ->). done.
Qed.
Lemma resume_side `{!WakerSpec W} max σ s a x :
  chan_inv max σ -> legal (Resume s a) σ = true -> h_args (half_of s (ch σ)) !! a = Some x -> side_of x = s.
Proof.
  intros HI Hl Hx. destruct (resume_ok max σ s a HI Hl) as (l & k & x' & vs & ans & c' & σ' & _ & _ & _ & Hx' & Hs & _).
  congruence.
Qed.
Lemma closed_run `{!WakerSpec W} max es σ :
  chan_inv max σ -> all_legal es σ -> closed_ (ch σ) = true ->
  exists σ', chan_run es σ = Ok σ' /\ closed_ (ch σ') = true /\ accepted σ' = accepted σ.
Proof.
  revert σ. induction es as [|e es IH]; intros σ HI Hl Hc; cbn [chan_run]; [by exists σ|].
  destruct Hl as [Hl Hls]. destruct (chan_step_ok max e σ HI Hl) as (σ1 & E & HI1 & _). rewrite E in *. res_cbn.
  assert (He : match e with Resume s a => forall x, h_args (half_of s (ch σ)) !! a = Some x -> side_of x = s | _ => True end)
    by (destruct e; try done; intros x; by eapply resume_side).
  destruct (closed_step e σ σ1 Hc He E) as [Hc1 Ha]. destruct (IH σ1 HI1 Hls Hc1) as (σ2 & E2 & ? & Ha2).
  exists σ2. split_and!; try done. congruence.
Qed.
(** Single receives take what is there and not claimed, oldest first. *)
Lemma drain `{!WakerSpec W} max n σ l :
  chan_inv max σ -> accepted σ = delivered σ ++ l -> (Z.of_nat n <= chan_size (ch σ))%Z ->
  exists σ', chan_run (replicate n (Try RecvOne)) σ = Ok σ' /\ accepted σ' = accepted σ /\
    delivered σ' = delivered σ ++ take n l /\ chan_size (ch σ') = (chan_size (ch σ) - Z.of_nat n)%Z.
Proof.
  revert σ l. induction n as [|n IH]; intros σ l HI Hl Hn; cbn [replicate chan_run].
  { exists σ. rewrite take_0, app_nil_r. split_and!; [done..|lia]. }
  destruct HI as [[l' [Hok Hacc]] Hg HN]. assert (l' = l) as -> by (apply (app_inv_head (delivered σ)); congruence).
  assert (HI : chan_inv max σ) by (split; [by exists l|done..]). clear Hg HN.
  pose proof (size_eq _ _ _ _ Hok) as HS. pose proof (claims_nonneg _ _ _ _ RD Hok) as H0. cbn [half_of] in H0.
  assert (Hlegal : legal (Try RecvOne) σ = true).
  { cbn. unfold may_transfer, hazard, fits. rewrite andb_false_r. cbn [negb andb payload length].
    destruct (fifo_size_rep _ _ (co_rep _ _ _ _ Hok)) as (-> & _). apply Z.ltb_lt. pose proof (co_len _ _ _ _ Hok). lia. }
  destruct (chan_step_ok max _ σ HI Hlegal) as (σ1 & E & HI1 & _). rewrite E. res_cbn.
  assert (HT : transferred max RecvOne 0 l (ch σ) (try_now RecvOne (ch σ))) by (apply recv_one_ok; [by apply settled_e|by left]).
  destruct HT as (k & c' & ws & -> & Et & Hok' & HM). unfold chan_step in E. rewrite Et in E. cbn [mbind res_bind] in E.
  assert (Hk : transfer_count RecvOne 0 (ch σ) = 1%Z) by (unfold transfer_count; cbn [side_of unclaimedCount]; lia).
  rewrite Hk in *. change (Z.to_nat 1) with 1 in *. cbn [side_of log] in *.
  unfold moved_items, contents_after in *. cbn [side_of] in *. injection E as <-.
  assert (HS' : chan_size c' = (chan_size (ch σ) - 1)%Z).
  { rewrite (size_eq _ _ _ _ Hok'), HS. pose proof (ho_claims _ _ _ (co_half _ _ _ _ Hok RD)) as C1.
    pose proof (ho_claims _ _ _ (co_half _ _ _ _ Hok' RD)) as C2. rewrite (mv_aws _ _ _ _ HM) in C2.
    unfold settled in *. cbn [half_of] in *. rewrite length_drop. lia. }
  destruct (IH _ (drop 1 l) HI1) as (σ2 & E2 & Ha2 & Hd2 & Hs2); cbn [ch accepted delivered] in *.
  { by rewrite Hacc, <- app_assoc, take_drop. }
  { rewrite HS'. lia. }
  exists σ2. split_and!; [exact E2|done| |rewrite Hs2, HS'; lia].
  rewrite Hd2, <- app_assoc. f_equal. destruct l as [|v l]; cbn; [by rewrite take_nil|by rewrite drop_0].
Qed.

(** C13. Once a channel is closed nothing more enters it, whatever legal operations
    follow.  A write that holds no claim fails, as its answer says, and changes
    nothing; the one exception is a bulk write of a non-empty range to an unbounded channel,
    which fails an assertion of the header and stops the program, and so does the
    resumption of a writer that claimed a slot before [close()] and has
    something to write, where the documentation promises a failure
    indication ([hazard]; [late_claimed_send], [late_bulk_send]).  Receivers drain
    what is buffered: single receives take all elements that are not claimed, oldest first, and
    only then answer end-of-file. *)
Theorem channel_write_after_close `{!WakerSpec W} maxSize w es σ0 :
  chan_start maxSize w = Ok σ0 -> (Z.of_nat (bound_of maxSize) < 2 ^ 64)%Z -> all_legal es σ0 ->
  exists σ, chan_run es σ0 = Ok σ /\
    (forall s a x, ph σ s !! a = Some Woken \/ ph σ s !! a = Some Fresh /\ is_ready s a (ch σ) = true ->
       h_args (half_of s (ch σ)) !! a = Some x ->
       hazard x (claim_of s a (ch σ)) (ch σ) = true ->
       chan_resume s a (ch σ) = Fault AssertFailed) /\
    (forall x, hazard x 0 (ch σ) = true -> try_now x (ch σ) = Fault AssertFailed) /\
    (closed_ (ch σ) = true ->
       (forall es', all_legal es' σ ->
          exists σ', chan_run es' σ = Ok σ' /\ closed_ (ch σ') = true /\ accepted σ' = accepted σ) /\
       (forall x, side_of x = WR -> hazard x 0 (ch σ) = false -> try_now x (ch σ) = Ok ([], answer_of x [], ch σ)) /\
       (forall a x, legal (Resume WR a) σ = true -> h_args (wr_ (ch σ)) !! a = Some x ->
          exists c, chan_resume WR a (ch σ) = Ok ([], answer_of x [], c) /\ buf_ c = buf_ (ch σ)) /\
       (exists l, fifo_rep (buf_ (ch σ)) l /\
          forall n, (Z.of_nat n <= chan_size (ch σ))%Z ->
            exists σ', chan_run (replicate n (Try RecvOne)) σ = Ok σ' /\ delivered σ' = delivered σ ++ take n l /\
              chan_size (ch σ') = (chan_size (ch σ) - Z.of_nat n)%Z) /\
       (chan_size (ch σ) = 0%Z -> try_now RecvOne (ch σ) = Ok ([], GotOne None, ch σ))).
Proof.
  intros E Hm Hl. destruct (chan_reach _ _ _ _ E Hm Hl) as (σ & Er & HI & Hb).
  exists σ. pose proof HI as [[l [Hok Hacc]] Hg HN]. split_and!; [done| | |].
  - intros s a x Hq Hx Hz.
    destruct (resume_prep _ σ s a l HI Hok Hq) as (k & x' & c & Hk & Hx' & Hsx & Hax & Hcc & Ec & Hc & Ho & Hh & Hno).
    rewrite Hx in Hx'. injection Hx' as <-. rewrite Ec. apply (hazard_faults (bound_of maxSize) x _ l).
    + by rewrite Hsx.
    + destruct (is_claimed k); auto.
    + rewrite <- Hz, Hcc. unfold hazard. by rewrite (on_closed _ _ _ Ho), (on_bounded _ _ _ Ho).
  - intros x Hz. apply (hazard_faults (bound_of maxSize) x 0 l); [by apply settled_e|by left|done].
  - intros Hc. split_and!.
    + intros es' Hl'. by apply (closed_run (bound_of maxSize)).
    + intros x Hx Hz. by rewrite (closed_try_send _ l x _ Hok Hx Hc), Hz.
    + intros a x Hlr Hx. by apply (closed_resume (bound_of maxSize)).
    + exists l. split; [apply Hok|]. intros n Hn.
      destruct (drain (bound_of maxSize) n σ l HI Hacc Hn) as (σ' & ? & _ & ? & ?). eauto.
    + intros Hs. unfold try_now. cbn [tryTransfer]. unfold recv_one. cbn [unclaimedCount]. rewrite Hs.
      pose proof (claimed_le _ RD 0 _ _ (proj2 (settled_e _ RD _ _) Hok)) as Hle. cbn [half_of] in Hle.
      by rewrite (proj2 (Z.leb_le _ _) Hle).
Qed.
End Chan.
Arguments args : clear implicits.
Arguments event : clear implicits.
Arguments chan_sys : clear implicits.

(** A channel of size one: a sender that claims the slot, a second one that has to
    wait, a reader that waits; closed with an element inside. *)
Definition demo_events : list (event nat) :=
  ([New 1 (SendOne 7%nat); New 2 (SendOne 8%nat); Suspend WR 2 (Coro 12); New 3 RecvOne;
    Suspend RD 3 (Coro 13); Resume WR 1; Resume RD 3; Destroy WR 1; Resume WR 2; New 4 RecvOne;
    New 5 (RecvIter 2%Z); Suspend RD 5 (Coro 15); New 6 RecvOne; Suspend RD 6 (Coro 16);
    Cancel RD 6; Close])%positive.
Definition demo_start (m : option nat) : res (chan_sys nat (queue nat) wlog) := chan_start m [].
Definition demo0 : chan_sys nat (queue nat) wlog :=
  CSys (Chan (fifo_new 1) false true empty_half empty_half []) (fun _ => ∅) [] [].

Example demo_channel :
  (fun σ => (accepted σ, delivered σ, cworld (ch σ), claims_ (rd_ (ch σ)))) <$> chan_run demo_events demo0
    = Ok ([7; 8], [7], [13; 12; 15]%positive, 1%Z).
Proof. vm_compute. reflexivity. Qed.

Lemma demo_legal : all_legal demo_events demo0.
Proof. vm_compute. repeat split. Qed.

Lemma channel_fifo_witness :
  exists σ l, chan_run demo_events demo0 = Ok σ /\ fifo_rep (buf_ (ch σ)) l /\
    accepted σ = delivered σ ++ l /\
    (0 <= claims_ (rd_ (ch σ)) <= Z.of_nat (length l))%Z /\
    chan_size (ch σ) = (Z.of_nat (length l) - claims_ (rd_ (ch σ)))%Z /\
    forall n, Some 1 = Some n ->
      (0 <= claims_ (wr_ (ch σ)) /\ Z.of_nat (length l) + claims_ (wr_ (ch σ)) <= Z.of_nat n)%Z /\
      fifo_capacity (buf_ (ch σ)) = n.
Proof. exact (channel_fifo (Some 1) [] demo_events demo0 eq_refl eq_refl demo_legal). Defined.

Lemma channel_no_lost_wakeup_witness :
  exists σ, chan_run demo_events demo0 = Ok σ /\
    (forall s, (0 < unclaimedCount s (ch σ))%Z \/ closed_ (ch σ) = true ->
       h_parked (half_of s (ch σ)) = []) /\
    (forall s a, a ∈ h_parked (half_of s (ch σ)) <-> ph σ s !! a = Some Waiting) /\
    (forall e, legal e σ = true ->
       exists σ', chan_step e σ = Ok σ' /\ step_wakes e (ch σ) (ch σ')).
Proof. exact (channel_no_lost_wakeup (Some 1) [] demo_events demo0 eq_refl eq_refl demo_legal). Defined.

Lemma channel_claim_honoured_witness :
  exists σ, chan_run demo_events demo0 = Ok σ /\
    (legal (Resume RD 4%positive) σ = true ->
     exists x k l vs c', h_args (half_of RD (ch σ)) !! 4%positive = Some x /\ fifo_rep (buf_ (ch σ)) l /\
       chan_resume RD 4%positive (ch σ) = Ok (vs, answer_of x vs, c') /\
       vs = take k l /\
       (claim_of RD 4%positive (ch σ) = 1%Z -> vs <> []) /\
       (x = RecvOne -> vs = [] -> closed_ (ch σ) = true /\ chan_size (ch σ) = 0%Z) /\
       (forall v, x = SendOne v -> vs = [] -> closed_ (ch σ) = true)).
Proof.
  exact (channel_claim_honoured (Some 1) [] demo_events demo0 RD 4%positive eq_refl eq_refl demo_legal).
Defined.

Definition demo_late : list (event nat) := [New 1%positive (SendOne 7%nat); Close].

(** Closed while a writer that came before waits for the slot, with one element in the buffer and nothing claimed. *)
Definition demo_closed : list (event nat) :=
  [New 1 (SendOne 7%nat); Resume WR 1; New 2 (SendOne 8%nat); Suspend WR 2 (Coro 12); Close]%positive.
Lemma channel_write_after_close_witness :
  exists σ, chan_run demo_closed demo0 = Ok σ /\ hazard (SendOne 9) 0 (ch σ) = false /\
    try_now (SendOne 9) (ch σ) = Ok ([], Sent false, ch σ) /\
    (exists c, chan_resume WR 2%positive (ch σ) = Ok ([], Sent false, c)) /\
    exists l σ', fifo_rep (buf_ (ch σ)) l /\ chan_run [Try RecvOne] σ = Ok σ' /\ delivered σ' = delivered σ ++ take 1 l.
Proof.
  destruct (channel_write_after_close (Some 1) [] demo_closed demo0 eq_refl eq_refl) as (σ & E & _ & _ & H);
    [vm_compute; repeat split|].
  assert (F : (fun σ => (closed_ (ch σ), hazard (SendOne 9) 0 (ch σ), legal (Resume WR 2%positive) σ,
                         h_args (wr_ (ch σ)) !! 2%positive, (1 <=? chan_size (ch σ))%Z)) <$> chan_run demo_closed demo0 =
              Ok (true, false, true, Some (SendOne 8), true)) by (vm_compute; reflexivity).
  rewrite E in F. injection F as F1 F2 F3 F4 F5%Z.leb_le.
  destruct (H F1) as (_ & H2 & H3 & (l & Hl & H4) & _).
  exists σ. split; [exact E|]. split; [exact F2|]. split; [exact (H2 (SendOne 9) eq_refl F2)|]. split.
  - destruct (H3 2%positive (SendOne 8) F3 F4) as (c & Ec & _). exists c. exact Ec.
  - destruct (H4 1 F5) as (σ' & Es & Hd & _). exists l, σ'. split; [exact Hl|]. split; [exact Es|exact Hd].
Defined.

(** The two situations of [channel_write_after_close], evaluated. *)
Example late_claimed_send :
  chan_run (demo_late ++ [Resume WR 1%positive]) demo0 = Fault AssertFailed.
Proof. vm_compute. reflexivity. Qed.
Example late_bulk_send :
  (σ ← demo_start None; chan_run [Close; Try (SendIter true [1; 2])] σ) = Fault AssertFailed.
Proof. vm_compute. reflexivity. Qed.
