(* ===== verification/Executor.v ===== *)
(** [Executor.h]: the queues of deferred callbacks, one executor per task tree.

    The executors of a thread share [current()], and each [drain()] frame owns a
    flag on its stack through which the destructor of an executor tells running
    frames to stop.  A callback is a user callback, identified by the address it
    was given, or the [runOnce()] of another executor; what user callback [c] does is
    [prog c], a list of calls to executors.  [run] interprets the calls; it is
    recursive through the callbacks, so it takes fuel.  A queue is the list of
    its callbacks ([RingQueue.v] relates [detail/Queue.h] to that list, growth
    and [for_each_item] included). *)
From S2P Require Export Waker.

Abbreviation eid := positive.

(** A [Task] pair of the executor: a function and its argument. *)
Inductive callback := CUser (c : loc) | CRunOnce (e : eid) | CNop.

#[export] Instance callback_eq_dec : EqDecision callback.
Proof. solve_decision. Defined.

(** A queue of callbacks: the executor's own, or the temporary of a [capture()]. *)
Inductive qid := QBuf (e : eid) | QTmp (n : nat).
#[export] Instance qid_eq_dec : EqDecision qid.
Proof. solve_decision. Defined.
#[export] Instance qid_countable : Countable qid.
Proof.
  refine (inj_countable' (fun q => match q with QBuf e => inl e | QTmp n => inr n end)
    (fun x => match x with inl e => QBuf e | inr n => QTmp n end) _). by intros [].
Defined.

Record executor := Exec {
  eventLoopID_ : nat; ready_ : qid; running_ : option nat; scheduled_ : option eid; active_ : handle }.

Inductive event := Submitted (e : eid) (c : loc) | Began (e : eid) (c : loc) | Ended (e : eid) (c : loc).

Record world := World {
  execs : gmap eid executor; queues : gmap qid (list callback); current_ : option eid;
  flags : gmap nat bool; next_ : nat; trace : list event }.

(** Calls a callback (or the code outside) makes. *)
Inductive cmd :=
  | RunSoon (e : eid) (c : loc) | Schedule (e : eid) (c : loc) | Kick (e : eid) | Drain (e : eid)
  | Capture (e : eid) (body : list cmd) | MarkActive (e : eid) (h : handle) (body : list cmd)
  | NewExec (e : eid) (loop : nat) | Destroy (e : eid).

Implicit Types (w : world) (e : eid) (q : qid).

Definition set_exec e (x : executor) w : world :=
  World (<[e := x]> (execs w)) (queues w) (current_ w) (flags w) (next_ w) (trace w).
Definition set_queue q (l : list callback) w : world :=
  World (execs w) (<[q := l]> (queues w)) (current_ w) (flags w) (next_ w) (trace w).
Definition set_current (c : option eid) w : world :=
  World (execs w) (queues w) c (flags w) (next_ w) (trace w).
Definition set_flag (n : nat) (b : bool) w : world :=
  World (execs w) (queues w) (current_ w) (<[n := b]> (flags w)) (next_ w) (trace w).
Definition emit (t : event) w : world :=
  World (execs w) (queues w) (current_ w) (flags w) (next_ w) (trace w ++ [t]).

Definition set_running (r : option nat) (x : executor) : executor :=
  Exec (eventLoopID_ x) (ready_ x) r (scheduled_ x) (active_ x).
Definition set_scheduled (s : option eid) (x : executor) : executor :=
  Exec (eventLoopID_ x) (ready_ x) (running_ x) s (active_ x).
Definition set_ready (q : qid) (x : executor) : executor :=
  Exec (eventLoopID_ x) q (running_ x) (scheduled_ x) (active_ x).
Definition set_active (h : handle) (x : executor) : executor :=
  Exec (eventLoopID_ x) (ready_ x) (running_ x) (scheduled_ x) h.

(** [Executor(eventLoopID, ...)] *)
Definition new_exec e (loop : nat) w : world :=
  set_queue (QBuf e) [] (set_exec e (Exec loop (QBuf e) None None Noop) w).

(** [schedule(c)]: [ready_->emplace_back(c)] *)
Definition schedule e (cb : callback) w : res world :=
  x ← deref (execs w !! e);
  l ← deref (queues w !! ready_ x);
  let w := set_queue (ready_ x) (l ++ [cb]) w in
  Ok (match cb with CUser c => emit (Submitted e c) w | _ => w end).

(** [~Executor()] *)
Definition disarm e (cb : callback) : callback := if decide (cb = CRunOnce e) then CNop else cb.
Definition destroy e w : res world :=
  x ← deref (execs w !! e);
  w ← match scheduled_ x with
      | Some s => l ← deref (queues w !! QBuf s); Ok (set_queue (QBuf s) (disarm e <$> l) w)
      | None => Ok w
      end;
  l ← deref (queues w !! QBuf e);
  corral_assert (bool_decide (l = []));;
  let w := match running_ x with Some r => set_flag r false w | None => w end in
  let w := if decide (current_ w = Some e) then set_current None w else w in
  Ok (World (delete e (execs w)) (delete (QBuf e) (queues w)) (current_ w) (flags w) (next_ w)
            (trace w)).

Section Run.
Context (prog : loc -> list cmd).

(** What is still to be executed: calls, [runSoon()], [runOnce()], [drain(tasks)],
    its loop, one callback. *)
Inductive todo :=
  | TCmds (cs : list cmd) | TCmd (c : cmd) | TKick e | TRunOnce e | TDrain e q
  | TLoop e q (running : nat) | TCall e (cb : callback).

(** The part of [drain(tasks)] before its loop: [current()], the flag [b], and
    [running_].  It answers the flag of this frame, the one the loop watches,
    and the previous [current()]. *)
Definition drain_enter e w : res (nat * nat * option eid * world) :=
  x ← deref (execs w !! e);
  let b := next_ w in
  let prev := current_ w in
  let w := World (execs w) (queues w) (Some e) (<[b := true]> (flags w)) (S b) (trace w) in
  let r := default b (running_ x) in
  Ok (b, r, prev, set_exec e (set_running (Some r) x) w).
(** The scope guards of [drain(tasks)], in the order they run. *)
Definition drain_leave e (b r : nat) (prev : option eid) w : res world :=
  alive ← deref (flags w !! r);
  w ← (if alive : bool then
         x ← deref (execs w !! e);
         Ok (if decide (running_ x = Some b) then set_exec e (set_running None x) w else w)
       else Ok w);
  Ok (set_current prev w).

Fixpoint run (fuel : nat) (t : todo) w : res world :=
  match fuel with
  | O => Fault OutOfFuel
  | S fuel =>
      match t with
      | TCmds [] => Ok w
      | TCmds (c :: cs) => w ← run fuel (TCmd c) w; run fuel (TCmds cs) w
      | TCmd (RunSoon e c) => w ← schedule e (CUser c) w; run fuel (TKick e) w
      | TCmd (Schedule e c) => schedule e (CUser c) w
      | TCmd (Kick e) => run fuel (TKick e) w
      | TCmd (Drain e) => x ← deref (execs w !! e); run fuel (TDrain e (ready_ x)) w
      | TCmd (Capture e body) =>
          x ← deref (execs w !! e);
          let old := ready_ x in
          let tmp := QTmp (next_ w) in
          let w := set_queue tmp [] (World (execs w) (queues w) (current_ w) (flags w)
                                           (S (next_ w)) (trace w)) in
          w ← run fuel (TCmds body) (set_exec e (set_ready tmp x) w);
          x ← deref (execs w !! e);
          run fuel (TDrain e tmp) (set_exec e (set_ready old x) w)
      | TCmd (MarkActive e h body) =>
          x ← deref (execs w !! e);
          let prev := active_ x in
          let w := set_exec e (set_active h x) w in
          r ← match running_ x with Some r => Ok r | None => Fault AssertFailed end;
          w ← run fuel (TCmds body) w;
          alive ← deref (flags w !! r);
          if alive : bool then
            x ← deref (execs w !! e);
            corral_assert (bool_decide (active_ x = h));;
            Ok (set_exec e (set_active prev x) w)
          else Ok w
      | TCmd (NewExec e loop) => Ok (new_exec e loop w)
      | TCmd (Destroy e) => destroy e w
      | TKick e =>
          x ← deref (execs w !! e);
          match running_ x, scheduled_ x with
          | None, None =>
              match current_ w with
              | Some c =>
                  cx ← deref (execs w !! c);
                  if decide (eventLoopID_ cx = eventLoopID_ x) then
                    w ← schedule c (CRunOnce e) (set_exec e (set_scheduled (Some c) x) w);
                    run fuel (TKick c) w
                  else run fuel (TRunOnce e) w
              | None => run fuel (TRunOnce e) w
              end
          | _, _ => Ok w
          end
      | TRunOnce e =>
          x ← deref (execs w !! e);
          let w := set_exec e (set_scheduled None x) w in
          match running_ x with
          | None => run fuel (TDrain e (ready_ x)) w
          | Some _ => Ok w
          end
      | TDrain e q =>
          '(b, r, prev, w) ← drain_enter e w;
          w ← run fuel (TLoop e q r) w;
          drain_leave e b r prev w
      | TLoop e q r =>
          alive ← deref (flags w !! r);
          if alive : bool then
            l ← deref (queues w !! q);
            match l with
            | [] => Ok w
            | cb :: l =>
                w ← run fuel (TCall e cb) (set_queue q l w);
                run fuel (TLoop e q r) w
            end
          else Ok w
      | TCall e (CUser c) =>
          w ← run fuel (TCmds (prog c)) (emit (Began e c) w); Ok (emit (Ended e c) w)
      | TCall _ (CRunOnce e) => run fuel (TRunOnce e) w
      | TCall _ CNop => Ok w
      end
  end.
End Run.

(** * The run-to-completion discipline

    The theorems below are about callbacks that only call [runSoon()], on live
    executors of one event loop, as a task that is woken does.  A callback that calls
    [capture()], as the cancellation of a nursery does, or [runSoon()] on an executor
    of another event loop runs others inside itself ([capture_runs_inside],
    [other_loop_runs_inside]).  [wt] says that callbacks do not go on forever: one
    weighs more than all the callbacks it submits, plus two for each. *)

Definition is_runsoon (c : cmd) : option (eid * loc) :=
  match c with RunSoon e c => Some (e, c) | _ => None end.
Definition wsum (wt : loc -> nat) (cs : list cmd) : nat :=
  sum_list_with (fun c => match is_runsoon c with Some (_, c) => wt c + 2 | None => 0 end) cs.

Lemma wsum_cons wt e c cs : wsum wt (RunSoon e c :: cs) = wt c + 2 + wsum wt cs.
Proof. done. Qed.

Record well_behaved (prog : loc -> list cmd) (alive : list eid) (wt : loc -> nat) : Prop := {
  wb_cmds : forall c k, k ∈ prog c -> exists e c', k = RunSoon e c' /\ e ∈ alive;
  wb_wt : forall c, wsum wt (prog c) + 1 <= wt c }.

(** Where the trace stands: no callback running, or which one.  [None] if a callback
    begins or ends out of place. *)
Definition scan_step (s : option (eid * loc)) (t : event) : option (option (eid * loc)) :=
  match t, s with
  | Submitted _ _, _ => Some s
  | Began e c, None => Some (Some (e, c))
  | Ended e c, Some (e', c') => if decide (e = e' /\ c = c') then Some None else None
  | _, _ => None
  end.
Fixpoint scan (s : option (eid * loc)) (tr : list event) : option (option (eid * loc)) :=
  match tr with [] => Some s | t :: tr => s ← scan_step s t; scan s tr end.
(** No callback begins while another one is running. *)
Definition not_nested (tr : list event) : Prop := scan None tr = Some None.

Lemma scan_app s tr1 tr2 : scan s (tr1 ++ tr2) = (s ← scan s tr1; scan s tr2).
Proof.
  revert s. induction tr1 as [|t tr1 IH]; intros s; [done|]. cbn [scan app].
  destruct (scan_step s t); cbn; [apply IH|done].
Qed.

Definition submitted e (tr : list event) : list loc :=
  omap (fun t => match t with Submitted e' c => if decide (e' = e) then Some c else None | _ => None end) tr.
Definition began e (tr : list event) : list loc :=
  omap (fun t => match t with Began e' c => if decide (e' = e) then Some c else None | _ => None end) tr.
Definition users (l : list callback) : list loc :=
  omap (fun cb => match cb with CUser c => Some c | _ => None end) l.
Definition runs (l : list callback) : list eid :=
  omap (fun cb => match cb with CRunOnce e => Some e | _ => None end) l.

Lemma elem_runs e l : e ∈ runs l <-> CRunOnce e ∈ l.
Proof.
  unfold runs. rewrite list_elem_of_omap. split; [|eauto].
  intros ([] & ? & [=]); by subst.
Qed.

Definition queue_of e w : list callback := default [] (queues w !! QBuf e).
Definition running_of e w : option nat := execs w !! e ≫= running_.

(** One executor between two steps of the interpreter; [sk] is the executor, if
    any, whose callbacks are just being slated to run. *)
Record exec_ok (lp : nat) (sk : option eid) w e (x : executor) : Prop := {
  eo_loop : eventLoopID_ x = lp;
  eo_ready : ready_ x = QBuf e;
  eo_queue : is_Some (queues w !! QBuf e);
  eo_runs : forall e', CRunOnce e' ∈ queue_of e w ->
    exists x', execs w !! e' = Some x' /\ scheduled_ x' = Some e;
  eo_once : NoDup (runs (queue_of e w));
  eo_flag : forall r, running_ x = Some r -> flags w !! r = Some true /\ r < next_ w;
  eo_sched : forall c, scheduled_ x = Some c -> running_ x = None /\ CRunOnce e ∈ queue_of c w /\
    running_of c w <> None;
  eo_slated : sk <> Some e -> queue_of e w <> [] -> running_ x <> None \/ scheduled_ x <> None;
  eo_fifo : submitted e (trace w) = began e (trace w) ++ users (queue_of e w) }.

Definition world_ok (lp : nat) (alive : list eid) (sk : option eid) w : Prop :=
  (forall e x, execs w !! e = Some x -> exec_ok lp sk w e x) /\
  (forall e, e ∈ alive -> is_Some (execs w !! e)).

Definition cb_weight (wt : loc -> nat) (cb : callback) : nat :=
  match cb with CUser c => wt c | _ => 1 end.
Definition load (wt : loc -> nat) w : nat := msum (sum_list_with (cb_weight wt)) (queues w).

(** What does not change while callbacks are queued: who is running. *)
Record calm w w' (tr : list event) : Prop := {
  ca_current : current_ w' = current_ w;
  ca_running : forall e, running_of e w' = running_of e w;
  ca_alive : forall e, is_Some (execs w' !! e) <-> is_Some (execs w !! e);
  ca_trace : trace w' = trace w ++ tr }.

Lemma calm_refl w : calm w w [].
Proof. split; try done. by rewrite app_nil_r. Qed.
Lemma calm_trans w w1 w2 t1 t2 : calm w w1 t1 -> calm w1 w2 t2 -> calm w w2 (t1 ++ t2).
Proof.
  intros [] []. split; try congruence.
  - intros e. by rewrite ca_alive1.
  - rewrite ca_trace1, ca_trace0. by rewrite app_assoc.
Qed.

Lemma users_app l1 l2 : users (l1 ++ l2) = users l1 ++ users l2.
Proof. apply omap_app. Qed.
Lemma runs_app l1 l2 : runs (l1 ++ l2) = runs l1 ++ runs l2.
Proof. apply omap_app. Qed.
Lemma submitted_app e l1 l2 : submitted e (l1 ++ l2) = submitted e l1 ++ submitted e l2.
Proof. apply omap_app. Qed.
Lemma began_app e l1 l2 : began e (l1 ++ l2) = began e l1 ++ began e l2.
Proof. apply omap_app. Qed.
#[export] Hint Rewrite users_app runs_app submitted_app began_app : corral.

Lemma load_push wt q l cb w :
  queues w !! q = Some l -> load wt (set_queue q (l ++ [cb]) w) = load wt w + cb_weight wt cb.
Proof.
  intros Hl. unfold load. cbn [queues set_queue].
  pose proof (msum_insert (sum_list_with (cb_weight wt)) (queues w) q (l ++ [cb])) as HM.
  rewrite Hl in HM. cbn [at_] in HM. rewrite sum_list_with_app in HM. cbn in HM. lia.
Qed.
Lemma load_pop wt q l cb w :
  queues w !! q = Some (cb :: l) -> load wt w = load wt (set_queue q l w) + cb_weight wt cb.
Proof.
  intros Hl. unfold load. cbn [queues set_queue].
  pose proof (msum_insert (sum_list_with (cb_weight wt)) (queues w) q l) as HM.
  rewrite Hl in HM. cbn in HM. lia.
Qed.

(** ** Reading a changed world *)

Lemma queue_set_queue e e' l w :
  queue_of e' (set_queue (QBuf e) l w) = if decide (e' = e) then l else queue_of e' w.
Proof.
  unfold queue_of. cbn. case_decide; [subst; by rewrite lookup_insert_eq|].
  rewrite lookup_insert_ne; [done|congruence].
Qed.
Lemma queue_set_exec e e' x w : queue_of e' (set_exec e x w) = queue_of e' w.
Proof. done. Qed.
Lemma queue_emit e' t w : queue_of e' (emit t w) = queue_of e' w.
Proof. done. Qed.
Lemma running_set_exec e e' x w :
  running_of e' (set_exec e x w) = if decide (e' = e) then running_ x else running_of e' w.
Proof.
  unfold running_of. cbn. case_decide; [subst; by rewrite lookup_insert_eq|].
  by rewrite lookup_insert_ne.
Qed.
Lemma running_set_queue e' q l w : running_of e' (set_queue q l w) = running_of e' w.
Proof. done. Qed.
Lemma running_emit e' t w : running_of e' (emit t w) = running_of e' w.
Proof. done. Qed.
#[export] Hint Rewrite queue_set_queue queue_set_exec queue_emit running_set_exec running_set_queue
  running_emit : world.
Ltac world := autorewrite with world in *; cbn [execs queues flags next_ trace set_exec set_queue emit] in *.

Lemma submitted_snoc e e' c tr :
  submitted e (tr ++ [Submitted e' c]) = submitted e tr ++ (if decide (e' = e) then [c] else []).
Proof. rewrite submitted_app. cbn. by case_decide. Qed.
Lemma began_snoc e e' c tr :
  began e (tr ++ [Began e' c]) = began e tr ++ (if decide (e' = e) then [c] else []).
Proof. rewrite began_app. cbn. by case_decide. Qed.

Section Steps.
Context (lp : nat) (alive : list eid).

Lemma exec_queue sk w e x : world_ok lp alive sk w -> execs w !! e = Some x ->
  queues w !! QBuf e = Some (queue_of e w).
Proof.
  intros [Hx _] He. destruct (eo_queue _ _ _ _ _ (Hx _ _ He)) as [l Hl].
  unfold queue_of. by rewrite Hl.
Qed.

Lemma slated_ok w e x :
  world_ok lp alive (Some e) w -> execs w !! e = Some x ->
  running_ x <> None \/ scheduled_ x <> None -> world_ok lp alive None w.
Proof.
  intros [Hx Ha] He Hs. split; [|done]. intros e' x' He'. pose proof (Hx _ _ He') as [].
  split; try done. intros _ Hq. destruct (decide (e' = e)) as [->|Hn]; [congruence|].
  apply eo_slated0; [congruence|done].
Qed.

(** [schedule(c)] of a user callback. *)
Lemma push_ok w e x c :
  world_ok lp alive None w -> execs w !! e = Some x ->
  world_ok lp alive (Some e) (emit (Submitted e c) (set_queue (QBuf e) (queue_of e w ++ [CUser c]) w)).
Proof.
  intros [Hx Ha] He. split; [|done]. intros e' x' He'. cbn in He'. pose proof (Hx _ _ He') as [].
  split; world; try done.
  - destruct (decide (e' = e)) as [->|]; [by rewrite lookup_insert_eq; eauto|].
    by rewrite lookup_insert_ne by congruence.
  - intros e2. world. case_decide; subst; [|by apply eo_runs0]. rewrite elem_of_app, list_elem_of_singleton.
    intros [?|[=]]. by apply eo_runs0.
  - case_decide; subst; [|done]. rewrite runs_app. cbn. by rewrite app_nil_r.
  - intros c' Hc. destruct (eo_sched0 c' Hc) as (? & ? & ?). world. split_and!; [done| |done].
    case_decide; subst; [|done]. apply elem_of_app. by left.
  - intros Hs. world. rewrite decide_False by congruence. by apply eo_slated0.
  - rewrite submitted_snoc, began_app. cbn. rewrite app_nil_r. destruct (decide (e' = e)) as [->|Hn].
    + rewrite decide_True, users_app, eo_fifo0 by done. by rewrite app_assoc.
    + rewrite decide_False by congruence. by rewrite app_nil_r.
Qed.

(** [scheduled_ = current(); scheduled_->schedule(runOnce)] *)
Lemma slate_ok w e x c xc :
  world_ok lp alive (Some e) w -> execs w !! e = Some x -> running_ x = None -> scheduled_ x = None ->
  execs w !! c = Some xc -> running_ xc <> None ->
  world_ok lp alive None
    (set_queue (QBuf c) (queue_of c w ++ [CRunOnce e]) (set_exec e (set_scheduled (Some c) x) w)).
Proof.
  intros [Hx Ha] He Hr Hs Hc Hrc. assert (Hce : c <> e) by congruence. split.
  2: { intros e' Hin. cbn. destruct (decide (e' = e)) as [->|]; [rewrite lookup_insert_eq; eauto|].
       rewrite lookup_insert_ne by done. auto. }
  assert (Hno : forall e1 x1, execs w !! e1 = Some x1 -> CRunOnce e ∉ queue_of e1 w).
  { intros e1 x1 H1 Hin. destruct (eo_runs _ _ _ _ _ (Hx _ _ H1) _ Hin) as (x2 & H2 & H3). congruence. }
  intros e' x' He'. cbn in He'.
  assert (Hx' : exists x0, execs w !! e' = Some x0 /\ eventLoopID_ x' = eventLoopID_ x0 /\
    ready_ x' = ready_ x0 /\ running_ x' = running_ x0 /\
    scheduled_ x' = if decide (e' = e) then Some c else scheduled_ x0).
  { destruct (decide (e' = e)) as [->|Hn].
    - rewrite lookup_insert_eq in He'. injection He' as <-. exists x. done.
    - rewrite lookup_insert_ne in He' by done. by exists x'. }
  destruct Hx' as (x0 & H0 & Elp & Erd & Ern & Esc). pose proof (Hx _ _ H0) as [].
  split; world; rewrite ?Elp, ?Erd, ?Ern, ?Esc; try done.
  - destruct (decide (e' = c)) as [->|]; [by rewrite lookup_insert_eq; eauto|].
    by rewrite lookup_insert_ne by congruence.
  - intros e2 Hin. world. assert (Hin' : CRunOnce e2 ∈ queue_of e' w \/ e' = c /\ e2 = e).
    { destruct (decide (e' = c)) as [->|]; [|by left]. apply elem_of_app in Hin as [?|Hin]; [by left|right].
      apply list_elem_of_singleton in Hin. by injection Hin. }
    destruct Hin' as [Hin'|[-> ->]].
    + destruct (eo_runs0 _ Hin') as (x2 & H2 & H3). exists x2.
      rewrite lookup_insert_ne; [done|]. intros ->. exact (Hno _ _ H0 Hin').
    + exists (set_scheduled (Some c) x). split; [apply lookup_insert_eq|done].
  - destruct (decide (e' = c)) as [->|]; [|done]. rewrite runs_app. cbn. apply NoDup_app. split_and!; [done| |].
    + intros e2 H2. rewrite list_elem_of_singleton. intros ->. apply elem_runs in H2. exact (Hno _ _ H0 H2).
    + apply NoDup_singleton.
  - intros c' Hc'. world. destruct (decide (e' = e)) as [->|Hne].
    + injection Hc' as <-. rewrite decide_True by done. rewrite decide_False by done.
      split_and!; [congruence| |].
      * apply elem_of_app. right. by apply list_elem_of_singleton.
      * unfold running_of. by rewrite Hc.
    + destruct (eo_sched0 _ Hc') as (? & Hin & Hrn). split_and!; [done| |].
      * destruct (decide (c' = c)) as [->|]; [|done]. apply elem_of_app. by left.
      * destruct (decide (c' = e)) as [->|]; [|done]. unfold running_of in Hrn. rewrite He in Hrn. cbn in *. done.
  - intros _ Hq. world. destruct (decide (e' = e)) as [->|Hne]; [by right|].
    destruct (decide (e' = c)) as [->|Hnc].
    + left. congruence.
    + apply eo_slated0; [congruence|done].
  - destruct (decide (e' = c)) as [->|]; [|done]. rewrite users_app. cbn. by rewrite app_nil_r.
Qed.

(** A user callback is taken off a running executor's queue. *)
Lemma begin_ok w e x c l :
  world_ok lp alive None w -> execs w !! e = Some x -> running_ x <> None ->
  queue_of e w = CUser c :: l ->
  world_ok lp alive None (emit (Began e c) (set_queue (QBuf e) l w)).
Proof.
  intros [Hx Ha] He Hr Hq. split; [|done]. intros e' x' He'. cbn in He'. pose proof (Hx _ _ He') as [].
  split; world; try done.
  - destruct (decide (e' = e)) as [->|]; [by rewrite lookup_insert_eq; eauto|].
    by rewrite lookup_insert_ne by congruence.
  - intros e2. world. destruct (decide (e' = e)) as [->|]; [|by apply eo_runs0].
    intros ?. apply eo_runs0. rewrite Hq. set_solver.
  - destruct (decide (e' = e)) as [->|]; [|done]. by rewrite Hq in eo_once0.
  - intros c' Hc. destruct (eo_sched0 c' Hc) as (? & Hin & ?). world. split_and!; [done| |done].
    destruct (decide (c' = e)) as [->|]; [|done]. rewrite Hq in Hin. by apply elem_of_cons in Hin as [[=]|?].
  - intros Hs. world. destruct (decide (e' = e)) as [->|]; [|by apply eo_slated0].
    intros _. left. congruence.
  - rewrite submitted_app, began_snoc. cbn. rewrite app_nil_r. destruct (decide (e' = e)) as [->|Hn].
    + rewrite decide_True, eo_fifo0, Hq by done. cbn. by rewrite <- app_assoc.
    + rewrite decide_False by congruence. by rewrite app_nil_r.
Qed.

(** A disarmed callback is taken off the queue. *)
Lemma nop_ok w e x l :
  world_ok lp alive None w -> execs w !! e = Some x -> running_ x <> None ->
  queue_of e w = CNop :: l -> world_ok lp alive None (set_queue (QBuf e) l w).
Proof.
  intros [Hx Ha] He Hr Hq. split; [|done]. intros e' x' He'. cbn in He'. pose proof (Hx _ _ He') as [].
  split; world; try done.
  - destruct (decide (e' = e)) as [->|]; [by rewrite lookup_insert_eq; eauto|].
    by rewrite lookup_insert_ne by congruence.
  - intros e2. world. destruct (decide (e' = e)) as [->|]; [|by apply eo_runs0].
    intros ?. apply eo_runs0. rewrite Hq. set_solver.
  - destruct (decide (e' = e)) as [->|]; [|done]. by rewrite Hq in eo_once0.
  - intros c' Hc. destruct (eo_sched0 c' Hc) as (? & Hin & ?). world. split_and!; [done| |done].
    destruct (decide (c' = e)) as [->|]; [|done]. rewrite Hq in Hin. by apply elem_of_cons in Hin as [[=]|?].
  - intros Hs. world. destruct (decide (e' = e)) as [->|]; [|by apply eo_slated0].
    intros _. left. congruence.
  - destruct (decide (e' = e)) as [->|]; [|done]. by rewrite Hq in eo_fifo0.
Qed.

Lemma end_ok w e c : world_ok lp alive None w -> world_ok lp alive None (emit (Ended e c) w).
Proof.
  intros [Hx Ha]. split; [|done]. intros e' x' He'. cbn in He'. pose proof (Hx _ _ He') as [].
  split; world; try done. rewrite submitted_app, began_app. cbn. by rewrite !app_nil_r.
Qed.

(** [runOnce()] of another executor is taken off the queue: [scheduled_ = nullptr]. *)
Lemma unslate_ok w e x e' l :
  world_ok lp alive None w -> execs w !! e = Some x -> running_ x <> None ->
  queue_of e w = CRunOnce e' :: l ->
  exists x', execs w !! e' = Some x' /\ running_ x' = None /\ scheduled_ x' = Some e /\ e' <> e /\
    world_ok lp alive (Some e') (set_exec e' (set_scheduled None x') (set_queue (QBuf e) l w)).
Proof.
  intros [Hx Ha] He Hr Hq. pose proof (Hx _ _ He) as Hok.
  destruct (eo_runs _ _ _ _ _ Hok e') as (x' & He' & Hs'); [rewrite Hq; set_solver|].
  destruct (eo_sched _ _ _ _ _ (Hx _ _ He') _ Hs') as (Hr' & _ & _).
  assert (Hne : e' <> e) by congruence.
  assert (Hnl : CRunOnce e' ∉ l).
  { pose proof (eo_once _ _ _ _ _ Hok) as Hn. rewrite Hq in Hn. cbn in Hn.
    apply NoDup_cons in Hn as [Hn _]. by rewrite elem_runs in Hn. }
  exists x'. split_and!; try done. split.
  2: { intros e2 Hin. cbn. destruct (decide (e2 = e')) as [->|]; [rewrite lookup_insert_eq; eauto|].
       rewrite lookup_insert_ne by done. auto. }
  intros e2 x2 He2. cbn in He2.
  assert (Hx0 : exists x0, execs w !! e2 = Some x0 /\ eventLoopID_ x2 = eventLoopID_ x0 /\
    ready_ x2 = ready_ x0 /\ running_ x2 = running_ x0 /\
    (e2 = e' -> scheduled_ x2 = None) /\ (e2 <> e' -> scheduled_ x2 = scheduled_ x0)).
  { destruct (decide (e2 = e')) as [->|Hn].
    - rewrite lookup_insert_eq in He2. injection He2 as <-. by exists x'.
    - rewrite lookup_insert_ne in He2 by done. by exists x2. }
  destruct Hx0 as (x0 & H0 & Elp & Erd & Ern & Es1 & Es2). pose proof (Hx _ _ H0) as [].
  split; rewrite ?Elp, ?Erd, ?Ern; world; try done.
  - destruct (decide (e2 = e)) as [->|]; [by rewrite lookup_insert_eq; eauto|].
    by rewrite lookup_insert_ne by congruence.
  - intros e3 Hin. world. assert (Hin' : CRunOnce e3 ∈ queue_of e2 w).
    { destruct (decide (e2 = e)) as [->|]; [rewrite Hq; set_solver|done]. }
    destruct (eo_runs0 _ Hin') as (x3 & H3 & Hs3). exists x3. split; [|done].
    rewrite lookup_insert_ne; [done|]. intros ->. rewrite He' in H3. injection H3 as <-.
    rewrite Hs' in Hs3. injection Hs3 as <-. by rewrite decide_True in Hin.
  - destruct (decide (e2 = e)) as [->|]; [|done]. rewrite Hq in eo_once0. cbn in eo_once0.
    by apply NoDup_cons in eo_once0 as [_ ?].
  - intros c Hc. destruct (decide (e2 = e')) as [->|Hn]; [rewrite Es1 in Hc; done|].
    rewrite Es2 in Hc by done. destruct (eo_sched0 _ Hc) as (? & Hin & Hrn). world.
    split_and!; [done| |].
    + destruct (decide (c = e)) as [->|]; [|done]. rewrite Hq in Hin.
      by apply elem_of_cons in Hin as [[=]|?].
    + destruct (decide (c = e')) as [->|]; [|done]. unfold running_of in Hrn. by rewrite He' in Hrn.
  - intros Hs Hq'. world. rewrite Es2 by congruence. apply eo_slated0; [done|].
    destruct (decide (e2 = e)) as [->|]; [by rewrite Hq|done].
  - destruct (decide (e2 = e)) as [->|]; [|done]. by rewrite Hq in eo_fifo0.
Qed.

(** Setting [running_] of one executor, up or down. *)
Lemma running_ok sk sk' w e x r w' :
  world_ok lp alive sk w -> execs w !! e = Some x -> scheduled_ x = None ->
  execs w' = <[e := set_running r x]> (execs w) -> queues w' = queues w -> trace w' = trace w ->
  (forall f, flags w !! f = Some true -> f < next_ w -> flags w' !! f = Some true /\ f < next_ w') ->
  (forall f, r = Some f -> flags w' !! f = Some true /\ f < next_ w') ->
  (r = None -> queue_of e w = []) -> (sk' = sk \/ sk = Some e /\ sk' = None) ->
  world_ok lp alive sk' w'.
Proof.
  intros [Hx Ha] He Hs Ee Eq Et Hf Hfr Hrq Hsk. assert (EQ : forall e1, queue_of e1 w' = queue_of e1 w).
  { intros e1. unfold queue_of. by rewrite Eq. }
  split.
  2: { intros e1 Hin. rewrite Ee. destruct (decide (e1 = e)) as [->|]; [rewrite lookup_insert_eq; eauto|].
       rewrite lookup_insert_ne by done. auto. }
  intros e1 x1 He1. rewrite Ee in He1.
  assert (Hx0 : exists x0, execs w !! e1 = Some x0 /\ eventLoopID_ x1 = eventLoopID_ x0 /\
    ready_ x1 = ready_ x0 /\ scheduled_ x1 = scheduled_ x0 /\
    (e1 = e -> running_ x1 = r) /\ (e1 <> e -> running_ x1 = running_ x0)).
  { destruct (decide (e1 = e)) as [->|Hn].
    - rewrite lookup_insert_eq in He1. injection He1 as <-. by exists x.
    - rewrite lookup_insert_ne in He1 by done. by exists x1. }
  destruct Hx0 as (x0 & H0 & Elp & Erd & Esc & Er1 & Er2). pose proof (Hx _ _ H0) as [].
  split; rewrite ?Elp, ?Erd, ?Esc, ?EQ, ?Eq, ?Et; try done.
  - intros e2 Hin. destruct (eo_runs0 _ Hin) as (x2 & H2 & Hs2). exists x2. rewrite Ee.
    rewrite lookup_insert_ne; [done|]. intros ->. congruence.
  - intros f Hfl. destruct (decide (e1 = e)) as [->|Hn]; [apply Hfr; by rewrite <- Er1|].
    rewrite Er2 in Hfl by done. destruct (eo_flag0 _ Hfl). auto.
  - intros c Hc. assert (Hn : e1 <> e) by congruence. destruct (eo_sched0 _ Hc) as (? & Hin & Hrn).
    rewrite Er2, EQ by done. split_and!; [done|done|]. unfold running_of in *. rewrite Ee.
    destruct (decide (c = e)) as [->|]; [|by rewrite lookup_insert_ne].
    rewrite lookup_insert_eq. cbn. intros ->. rewrite Hrq in Hin by done. set_solver.
  - intros Hsk' Hq. destruct (decide (e1 = e)) as [->|Hn].
    + rewrite Er1 by done. left. intros ->. by apply Hq, Hrq.
    + rewrite Er2 by done. apply eo_slated0; [|done]. destruct Hsk as [<-|[-> ->]]; congruence.
Qed.
End Steps.

Section Discipline.
Context (prog : loc -> list cmd) (lp : nat) (alive : list eid) (wt : loc -> nat).
Context (Hwb : well_behaved prog alive wt).

(** What a call made from inside a callback leaves behind: the same executors
    running, and [tr], which only records submissions. *)
Record called w w' (tr : list event) (n : nat) : Prop := {
  cl_ok : world_ok lp alive None w';
  cl_calm : calm w w' tr;
  cl_tr : forall t, t ∈ tr -> exists e c, t = Submitted e c;
  cl_load : load wt w' <= load wt w + n }.

(** [runSoon(c)] while a callback is running runs nothing: it queues. *)
Lemma runsoon_queues w cur r e c fuel :
  world_ok lp alive None w -> current_ w = Some cur -> running_of cur w = Some r -> e ∈ alive ->
  3 <= fuel ->
  exists w', run prog fuel (TCmd (RunSoon e c)) w = Ok w' /\ called w w' [Submitted e c] (wt c + 1) /\
    queue_of e w' = queue_of e w ++ [CUser c].
Proof.
  intros HW Hcur Hr He Hf. destruct fuel as [|[|[|fuel]]]; try lia. clear Hf.
  destruct (proj2 HW e He) as [x Hx]. pose proof (proj1 HW _ _ Hx) as Hok.
  pose proof (exec_queue _ _ _ _ _ _ HW Hx) as Hq.
  unfold running_of in Hr. destruct (execs w !! cur) as [xc|] eqn:Hxc; [|done]. cbn in Hr.
  set (w1 := emit (Submitted e c) (set_queue (QBuf e) (queue_of e w ++ [CUser c]) w)).
  pose proof (push_ok lp alive w e x c HW Hx) as HW1. fold w1 in HW1.
  assert (E1 : schedule e (CUser c) w = Ok w1).
  { unfold schedule. rewrite Hx. res_cbn. rewrite (eo_ready _ _ _ _ _ Hok), Hq. done. }
  cbn [run]. rewrite E1. res_cbn. change (execs w1) with (execs w). rewrite Hx. res_cbn.
  assert (Hcalm : calm w w1 [Submitted e c]) by (split; done).
  assert (Hload : load wt w1 = load wt w + wt c).
  { change (load wt w1) with (load wt (set_queue (QBuf e) (queue_of e w ++ [CUser c]) w)).
    by rewrite (load_push wt _ _ _ _ Hq). }
  assert (Hq1 : queue_of e w1 = queue_of e w ++ [CUser c]).
  { subst w1. world. by rewrite decide_True. }
  assert (Htr : forall t, t ∈ [Submitted e c] -> exists e c, t = Submitted e c).
  { intros t ->%list_elem_of_singleton. eauto. }
  assert (Hdone : running_ x <> None \/ scheduled_ x <> None -> called w w1 [Submitted e c] (wt c + 1)).
  { intros Hs. split; try done; [by eapply slated_ok|lia]. }
  destruct (running_ x) as [r0|] eqn:Er; [exists w1; split_and!; [done|by apply Hdone; left|done]|].
  destruct (scheduled_ x) as [s0|] eqn:Es; [exists w1; split_and!; [done|by apply Hdone; right|done]|].
  change (current_ w1) with (current_ w). rewrite Hcur, Hxc. res_cbn.
  rewrite decide_True.
  2: { rewrite (eo_loop _ _ _ _ _ Hok), (eo_loop _ _ _ _ _ (proj1 HW _ _ Hxc)). done. }
  assert (Hne : cur <> e) by congruence.
  set (w2 := set_queue (QBuf cur) (queue_of cur w1 ++ [CRunOnce e])
    (set_exec e (set_scheduled (Some cur) x) w1)).
  assert (E2 : schedule cur (CRunOnce e) (set_exec e (set_scheduled (Some cur) x) w1) = Ok w2).
  { unfold schedule. cbn [execs set_exec]. change (execs w1) with (execs w).
    rewrite lookup_insert_ne, Hxc by done. res_cbn. rewrite (eo_ready _ _ _ _ _ (proj1 HW _ _ Hxc)).
    cbn [queues set_exec]. rewrite (exec_queue lp alive (Some e) w1 cur xc HW1) by done. done. }
  rewrite E2. res_cbn. assert (Hxc2 : execs w2 !! cur = Some xc).
  { cbn. by rewrite lookup_insert_ne. }
  rewrite Hxc2. res_cbn.
  rewrite Hr. assert (HW2 : world_ok lp alive None w2).
  { eapply slate_ok; try done. congruence. }
  assert (Hrun2 : forall e', running_of e' w2 = running_of e' w).
  { intros e'. subst w2. world. destruct (decide (e' = e)) as [->|]; [|done]. unfold running_of. rewrite Hx. done. }
  eexists. split; [destruct (scheduled_ xc); reflexivity|]. split; [split; try done|].
  - split; try done. intros e'. cbn. destruct (decide (e' = e)) as [->|];
      [rewrite lookup_insert_eq, Hx; split; eauto|by rewrite lookup_insert_ne].
  - subst w2. rewrite (load_push wt (QBuf cur) (queue_of cur w1)).
    + change (load wt (set_exec e (set_scheduled (Some cur) x) w1)) with (load wt w1). cbn. lia.
    + cbn [queues set_exec]. by apply (exec_queue lp alive (Some e) w1 cur xc).
  - subst w2. world. by rewrite decide_False.
Qed.

Lemma cmds_queue cs w cur r fuel :
  world_ok lp alive None w -> current_ w = Some cur -> running_of cur w = Some r ->
  (forall k, k ∈ cs -> exists e c', k = RunSoon e c' /\ e ∈ alive) -> length cs + 3 <= fuel ->
  exists w' tr, run prog fuel (TCmds cs) w = Ok w' /\ called w w' tr (wsum wt cs).
Proof.
  revert w fuel. induction cs as [|k cs IH]; intros w [|fuel] HW Hcur Hr Hcs Hf; cbn [length] in Hf; try lia.
  - exists w, []. split; [done|]. split; [done|apply calm_refl|set_solver|lia].
  - destruct (Hcs k ltac:(set_solver)) as (e & c & -> & He). cbn [run].
    destruct (runsoon_queues w cur r e c fuel HW Hcur Hr He ltac:(lia)) as (w1 & -> & [H1 H2 H3 H4] & _).
    res_cbn. destruct (IH w1 fuel H1) as (w2 & tr & -> & [H5 H6 H7 H8]).
    + by rewrite (ca_current _ _ _ H2).
    + by rewrite (ca_running _ _ _ H2).
    + intros k Hk. apply Hcs. set_solver.
    + lia.
    + exists w2, (Submitted e c :: tr). split; [done|]. split.
      * done.
      * apply (calm_trans w w1 w2 [Submitted e c] tr); done.
      * intros t. rewrite elem_of_cons. intros [->|?]; eauto.
      * rewrite wsum_cons. lia.
Qed.

Lemma length_prog c : length (prog c) + 1 <= wt c.
Proof.
  pose proof (wb_wt _ _ _ Hwb c) as Hw. pose proof (wb_cmds _ _ _ Hwb c) as Hc. revert Hw Hc.
  generalize (prog c) as cs. intros cs. generalize (wt c) as n. induction cs as [|k cs IH]; intros n Hn Hc.
  - cbn in *. lia.
  - destruct (Hc k ltac:(set_solver)) as (e & c' & -> & _). rewrite wsum_cons in Hn. cbn [length].
    pose proof (IH (n - 2) ltac:(lia)) as HI. specialize (HI ltac:(set_solver)). lia.
Qed.

Lemma scan_submissions s tr :
  (forall t, t ∈ tr -> exists e c, t = Submitted e c) -> scan s tr = Some s.
Proof.
  induction tr as [|t tr IH]; intros Ht; [done|]. destruct (Ht t ltac:(set_solver)) as (e & c & ->).
  cbn. apply IH. set_solver.
Qed.

(** One unfolding of the interpreter at a time. *)
Lemma run_loop f e q r w :
  run prog (S f) (TLoop e q r) w =
    (alive ← deref (flags w !! r);
     if alive : bool then
       l ← deref (queues w !! q);
       match l with
       | [] => Ok w
       | cb :: l => w ← run prog f (TCall e cb) (set_queue q l w); run prog f (TLoop e q r) w
       end
     else Ok w).
Proof. done. Qed.
Lemma run_user f e c w :
  run prog (S f) (TCall e (CUser c)) w =
    (w ← run prog f (TCmds (prog c)) (emit (Began e c) w); Ok (emit (Ended e c) w)).
Proof. done. Qed.
Lemma run_once f e w :
  run prog (S f) (TRunOnce e) w =
    (x ← deref (execs w !! e);
     match running_ x with
     | None => run prog f (TDrain e (ready_ x)) (set_exec e (set_scheduled None x) w)
     | Some _ => Ok (set_exec e (set_scheduled None x) w)
     end).
Proof. done. Qed.
Lemma run_drain f e q w :
  run prog (S f) (TDrain e q) w =
    ('(b, r, prev, w) ← drain_enter e w; w ← run prog f (TLoop e q r) w; drain_leave e b r prev w).
Proof. done. Qed.

(** What a complete [drain] loop of [e] leaves behind. *)
Record drained e w w' : Prop := {
  dr_ok : world_ok lp alive None w';
  dr_empty : queue_of e w' = [];
  dr_calm : exists tr, calm w w' tr /\ not_nested tr;
  dr_load : load wt w' <= load wt w }.

Definition enough (n : nat) : nat := 4 * n + 8.

Lemma loop_drains n w e r fuel :
  load wt w <= n -> world_ok lp alive None w -> current_ w = Some e -> running_of e w = Some r ->
  enough n <= fuel ->
  exists w', run prog fuel (TLoop e (QBuf e) r) w = Ok w' /\ drained e w w'.
Proof.
  revert w e r fuel. induction n as [n IH] using lt_wf_ind. intros w e r fuel Hn HW Hcur Hr Hf.
  unfold enough in *. destruct fuel as [|fuel]; [lia|]. rewrite run_loop.
  assert (Hxe : exists x, execs w !! e = Some x /\ running_ x = Some r).
  { unfold running_of in Hr. destruct (execs w !! e) as [x|]; [by exists x|done]. }
  destruct Hxe as (x & Hx & Hrx). pose proof (proj1 HW _ _ Hx) as Hok.
  rewrite (proj1 (eo_flag _ _ _ _ _ Hok _ Hrx)). res_cbn.
  rewrite (exec_queue _ _ _ _ _ _ HW Hx). res_cbn.
  destruct (queue_of e w) as [|cb l] eqn:Hq.
  { exists w. split; [done|]. split; [done|done| |lia]. exists []. split; [apply calm_refl|done]. }
  pose proof (exec_queue _ _ _ _ _ _ HW Hx) as HQ. rewrite Hq in HQ.
  pose proof (load_pop wt _ _ _ _ HQ) as HL.
  destruct cb as [c|e'|].
  - (* a user callback *)
    destruct fuel as [|fuel]; [lia|]. rewrite run_user. pose proof (length_prog c) as Hlen. cbn [cb_weight] in HL.
    set (w1 := emit (Began e c) (set_queue (QBuf e) l w)).
    assert (HW1 : world_ok lp alive None w1) by (eapply begin_ok; try done; congruence).
    assert (HL1 : load wt w1 = load wt (set_queue (QBuf e) l w)) by done.
    destruct (cmds_queue (prog c) w1 e r fuel HW1) as (w2 & tr & -> & [HW2 HC2 HT2 HL2]);
      [done|done|apply Hwb|lia|]. res_cbn.
    set (w3 := emit (Ended e c) w2). assert (HW3 : world_ok lp alive None w3) by (by apply end_ok).
    pose proof (wb_wt _ _ _ Hwb c) as Hwt. assert (HL3 : load wt w3 = load wt w2) by done.
    destruct (IH (load wt w3) ltac:(lia) w3 e r (S fuel)) as (w' & -> & [H1 H2 (tr2 & H3 & Hnn) H4]);
      [done|done|by rewrite <- Hcur; apply HC2|by rewrite <- Hr; apply HC2|lia|].
    exists w'. split; [done|]. split; [done|done| |lia].
    exists ((Began e c :: tr ++ [Ended e c]) ++ tr2). split.
    + eapply calm_trans; [|exact H3]. destruct HC2. split; try done.
      cbn. rewrite ca_trace0. cbn. by rewrite <- !app_assoc.
    + unfold not_nested. rewrite scan_app. cbn. rewrite scan_app, (scan_submissions _ _ HT2). cbn.
      by rewrite decide_True.
  - (* runOnce() of another executor *)
    cbn [cb_weight] in HL.
    destruct (unslate_ok lp alive w e x e' l HW Hx ltac:(congruence) Hq) as (x' & Hx' & Hr' & Hs' & Hne & HW1).
    destruct fuel as [|[|[|fuel]]]; try lia.
    change (run prog (S (S (S fuel))) (TCall e (CRunOnce e'))) with (run prog (S (S fuel)) (TRunOnce e')).
    rewrite run_once. cbn [execs set_queue]. rewrite Hx'. res_cbn.
    rewrite Hr', run_drain. set (w1 := set_exec e' (set_scheduled None x') (set_queue (QBuf e) l w)) in *.
    assert (Hx1 : execs w1 !! e' = Some (set_scheduled None x')) by apply lookup_insert_eq.
    unfold drain_enter. rewrite Hx1. res_cbn. cbn [running_ set_scheduled]. rewrite Hr'. cbn [default].
    rewrite (eo_ready _ _ _ _ _ (proj1 HW _ _ Hx')). set (b := next_ w1).
    set (w2 := set_exec e' _ _).
    assert (HW2 : world_ok lp alive None w2).
    { eapply (running_ok lp alive (Some e') None w1 e' _ (Some b)); try done.
      - intros f Hf1 Hf2. change (f < b) in Hf2. change (next_ w2) with (S b). cbn [flags set_exec w2].
        rewrite lookup_insert_ne by lia. split; [done|lia].
      - intros f [= <-]. change (next_ w2) with (S b). cbn [flags set_exec w2].
        rewrite lookup_insert_eq. split; [done|lia].
      - by right. }
    assert (HL2 : load wt w2 = load wt (set_queue (QBuf e) l w)) by done.
    destruct (IH (load wt w2) ltac:(lia) w2 e' b fuel) as (w3 & -> & [H1 H2 (tr2 & H3 & Hnn) H4]);
      [done|done|done| |lia|].
    { subst w2. world. by rewrite decide_True. }
    res_cbn. unfold drain_leave.
    assert (Hr3 : running_of e' w3 = Some b).
    { rewrite (ca_running _ _ _ H3). subst w2. world. by rewrite decide_True. }
    unfold running_of in Hr3. destruct (execs w3 !! e') as [x3|] eqn:Hx3; [|done].
    cbn [mbind option_bind] in Hr3.
    pose proof (proj1 H1 _ _ Hx3) as Hok3. rewrite (proj1 (eo_flag _ _ _ _ _ Hok3 _ Hr3)). res_cbn.
    rewrite Hr3, decide_True by done. set (w4 := set_current _ _).
    assert (Hsn : scheduled_ x3 = None).
    { destruct (scheduled_ x3) as [s|] eqn:E; [|done].
      destruct (eo_sched _ _ _ _ _ Hok3 _ E) as (E1 & _). congruence. }
    assert (HW4 : world_ok lp alive None w4).
    { eapply (running_ok lp alive None None w3 e' x3 None); try done; auto. }
    assert (HC4 : calm w w4 tr2).
    { destruct H3. split; cbn.
      - done.
      - intros e2. unfold running_of. cbn. destruct (decide (e2 = e')) as [->|He2].
        + rewrite lookup_insert_eq, Hx'. cbn. done.
        + rewrite lookup_insert_ne by done. change (running_of e2 w3 = running_of e2 w).
          rewrite ca_running0. transitivity (running_of e2 w1).
          * subst w2. by rewrite running_set_exec, decide_False.
          * subst w1. by rewrite running_set_exec, decide_False.
      - intros e2. destruct (decide (e2 = e')) as [->|He2].
        + rewrite lookup_insert_eq, Hx'. split; eauto.
        + rewrite lookup_insert_ne, ca_alive0 by done. subst w2 w1. cbn. by rewrite !lookup_insert_ne.
      - rewrite ca_trace0. done. }
    assert (HL4 : load wt w4 = load wt w3) by done.
    destruct (IH (load wt w4) ltac:(lia) w4 e r (S (S (S fuel)))) as (w' & E & [H5 H6 (tr3 & H7 & Hnn3) H8]);
      [done|done|done|by rewrite (ca_running _ _ _ HC4)|lia|].
    rewrite E. exists w'. split; [done|]. split; [done|done| |lia].
    exists (tr2 ++ tr3). split; [by eapply calm_trans|]. unfold not_nested in *.
    rewrite scan_app, Hnn. done.
  - (* a callback of a destroyed executor *)
    destruct fuel as [|fuel]; [lia|]. cbn [cb_weight] in HL.
    change (run prog (S fuel) (TCall e CNop) (set_queue (QBuf e) l w)) with (Ok (set_queue (QBuf e) l w)).
    res_cbn. set (w1 := set_queue (QBuf e) l w) in *.
    assert (HW1 : world_ok lp alive None w1) by (eapply nop_ok; try done; congruence).
    destruct (IH (load wt w1) ltac:(lia) w1 e r (S fuel)) as (w' & -> & [H1 H2 (tr2 & H3 & Hnn) H4]);
      [done|done|done|done|lia|].
    exists w'. split; [done|]. split; [done|done| |lia]. exists tr2. split; [|done].
    eapply (calm_trans w w1 w' [] tr2); [|done]. split; try done. by rewrite app_nil_r.
Qed.

Definition idle w : Prop := current_ w = None /\ forall e, running_of e w = None.

Lemma idle_empty w e x : world_ok lp alive None w -> idle w -> execs w !! e = Some x ->
  queue_of e w = [] /\ scheduled_ x = None.
Proof.
  intros HW [_ Hr] Hx. destruct (proj1 HW _ _ Hx) as [].
  assert (Hs : scheduled_ x = None).
  { destruct (scheduled_ x) as [c|]; [|done]. destruct (eo_sched0 c eq_refl) as (_ & _ & Hc). by specialize (Hr c). }
  split; [|done]. destruct (queue_of e w) eqn:E; [done|]. specialize (Hr e). unfold running_of in Hr.
  rewrite Hx in Hr. cbn in Hr. destruct eo_slated0; done.
Qed.

(** [drain()] entered from outside: this frame is the one that runs. *)
Lemma enter_ok sk w e x :
  world_ok lp alive sk w -> sk = None \/ sk = Some e -> idle w -> execs w !! e = Some x -> scheduled_ x = None ->
  exists b w3, drain_enter e w = Ok (b, b, None, w3) /\
    world_ok lp alive None w3 /\ (forall e', running_of e' w3 = if decide (e' = e) then Some b else None) /\
    current_ w3 = Some e /\ queues w3 = queues w /\ trace w3 = trace w /\
    (forall e', is_Some (execs w3 !! e') <-> is_Some (execs w !! e')).
Proof.
  intros HW Hsk [Hcur Hrun] Hx Hs. assert (Hr : running_ x = None).
  { specialize (Hrun e). unfold running_of in Hrun. by rewrite Hx in Hrun. }
  unfold drain_enter. rewrite Hx. res_cbn. rewrite Hr, Hcur. cbn [default].
  set (b := next_ w). set (w3 := set_exec e _ _). exists b, w3. split_and!; try done.
  - eapply (running_ok lp alive sk None w e x (Some b)); try done.
    + intros f Hf1 Hf2. change (f < b) in Hf2. change (next_ w3) with (S b). cbn [flags set_exec w3].
      rewrite lookup_insert_ne by lia. split; [done|lia].
    + intros f [= <-]. change (next_ w3) with (S b). cbn [flags set_exec w3]. rewrite lookup_insert_eq. split; [done|lia].
    + destruct Hsk as [-> | ->]; auto.
  - intros e'. subst w3. rewrite running_set_exec. case_decide; [done|]. apply Hrun.
  - intros e'. cbn. destruct (decide (e' = e)) as [->|Hne]; [rewrite lookup_insert_eq, Hx; split; by eexists|].
    by rewrite lookup_insert_ne.
Qed.

(** The scope guards of the frame that runs, when its loop is done. *)
Lemma outside_leave w4 e b :
  world_ok lp alive None w4 -> queue_of e w4 = [] -> (forall e', running_of e' w4 = if decide (e' = e) then Some b else None) ->
  exists w5, drain_leave e b b None w4 = Ok w5 /\ world_ok lp alive None w5 /\ idle w5 /\ trace w5 = trace w4 /\
    load wt w5 = load wt w4 /\
    (forall e', is_Some (execs w5 !! e') <-> is_Some (execs w4 !! e')).
Proof.
  intros H1 H2 Hrun. pose proof (Hrun e) as Hr4. rewrite decide_True in Hr4 by done. unfold running_of in Hr4.
  destruct (execs w4 !! e) as [x4|] eqn:Hx4; [|done]. cbn [mbind option_bind] in Hr4.
  pose proof (proj1 H1 _ _ Hx4) as Hok4. unfold drain_leave. rewrite (proj1 (eo_flag _ _ _ _ _ Hok4 _ Hr4)). res_cbn.
  rewrite Hx4. res_cbn. rewrite Hr4, decide_True by done.
  assert (Hs4 : scheduled_ x4 = None).
  { destruct (scheduled_ x4) as [s|] eqn:E; [|done].
    destruct (eo_sched _ _ _ _ _ Hok4 _ E) as (E' & _). congruence. }
  set (w5 := set_current _ _). exists w5. split; [done|]. split_and!.
  - eapply (running_ok lp alive None None w4 e x4 None); try done; auto.
  - split; [done|]. intros e'. change (running_of e' w5) with (running_of e' (set_exec e (set_running None x4) w4)).
    rewrite running_set_exec. destruct (decide (e' = e)) as [->|]; [done|]. by rewrite Hrun, decide_False.
  - done.
  - done.
  - intros e'. cbn. destruct (decide (e' = e)) as [->|Hne]; [rewrite lookup_insert_eq, Hx4; split; by eexists|].
    by rewrite lookup_insert_ne.
Qed.

(** What a call from outside leaves behind, [tr] having happened meanwhile: nothing
    is queued or running. *)
Record settled w w' (tr : list event) (n : nat) : Prop := {
  se_ok : world_ok lp alive None w';
  se_idle : idle w';
  se_trace : trace w' = trace w ++ tr;
  se_nested : not_nested tr;
  se_load : load wt w' <= load wt w + n;
  se_alive : forall e, is_Some (execs w' !! e) <-> is_Some (execs w !! e) }.

Lemma settled_trans w w1 w2 t1 t2 n1 n2 :
  settled w w1 t1 n1 -> settled w1 w2 t2 n2 -> settled w w2 (t1 ++ t2) (n1 + n2).
Proof.
  intros [] []. split; try done.
  - rewrite se_trace1, se_trace0. by rewrite app_assoc.
  - unfold not_nested in *. rewrite scan_app, se_nested0. done.
  - lia.
  - intros e. by rewrite se_alive1.
Qed.
Lemma settled_submitted w e :
  world_ok lp alive None w -> idle w -> is_Some (execs w !! e) ->
  queue_of e w = [] /\ submitted e (trace w) = began e (trace w).
Proof.
  intros HW HI [x Hx]. destruct (idle_empty w e x HW HI Hx) as [Hq _].
  pose proof (eo_fifo _ _ _ _ _ (proj1 HW _ _ Hx)) as HF. by rewrite Hq, app_nil_r in HF.
Qed.

(** [drain()] from outside, with something queued or not. *)
Lemma outside_drains sk w e x fuel :
  world_ok lp alive sk w -> sk = None \/ sk = Some e -> idle w -> execs w !! e = Some x -> scheduled_ x = None ->
  enough (load wt w) + 1 <= fuel ->
  exists w' tr, run prog fuel (TDrain e (QBuf e)) w = Ok w' /\ settled w w' tr 0.
Proof.
  intros HW Hsk HI Hx Hs Hf. destruct fuel as [|fuel]; [lia|]. rewrite run_drain.
  destruct (enter_ok sk w e x HW Hsk HI Hx Hs) as (b & w3 & -> & HW3 & Hrun3 & Hcur3 & Hqs3 & Ht3 & Ha3). res_cbn.
  assert (HL3 : load wt w3 = load wt w) by (unfold load; by rewrite Hqs3).
  destruct (loop_drains (load wt w) w3 e b fuel) as (w4 & -> & [H1 H2 (tr & H3 & Hnn) H4]);
    [by rewrite HL3|done|done|by rewrite Hrun3, decide_True|lia|]. res_cbn.
  destruct (outside_leave w4 e b H1 H2) as (w5 & -> & HW5 & HI5 & Ht5 & HL5 & Ha5).
  { intros e'. by rewrite (ca_running _ _ _ H3). }
  exists w5, tr. split; [done|]. split; try done.
  - by rewrite Ht5, (ca_trace _ _ _ H3), Ht3.
  - lia.
  - intros e'. by rewrite Ha5, (ca_alive _ _ _ H3), Ha3.
Qed.

(** With nothing queued nothing happens. *)
Lemma idle_drains w e x fuel :
  world_ok lp alive None w -> idle w -> execs w !! e = Some x ->
  exists w', run prog (S (S fuel)) (TDrain e (QBuf e)) w = Ok w' /\ settled w w' [] 0.
Proof.
  intros HW HI Hx. destruct (idle_empty w e x HW HI Hx) as [Hq Hs]. rewrite run_drain.
  destruct (enter_ok None w e x HW (or_introl eq_refl) HI Hx Hs) as (b & w3 & -> & HW3 & Hrun3 & Hcur3 & Hqs3 & Ht3 & Ha3).
  res_cbn. destruct (proj2 (Ha3 e) (mk_is_Some _ _ Hx)) as [x3 Hx3]. pose proof (proj1 HW3 _ _ Hx3) as Hok3.
  assert (Hr3 : running_ x3 = Some b) by (pose proof (Hrun3 e) as Hr; unfold running_of in Hr; by rewrite Hx3, decide_True in Hr).
  assert (Hq3 : queue_of e w3 = []) by (unfold queue_of; by rewrite Hqs3).
  rewrite run_loop, (proj1 (eo_flag _ _ _ _ _ Hok3 _ Hr3)). res_cbn.
  rewrite (exec_queue _ _ _ _ _ _ HW3 Hx3), Hq3. res_cbn.
  destruct (outside_leave w3 e b HW3 Hq3 Hrun3) as (w5 & -> & HW5 & HI5 & Ht5 & HL5 & Ha5).
  exists w5. split; [done|]. split; try done.
  - by rewrite Ht5, Ht3, app_nil_r.
  - rewrite HL5. unfold load. rewrite Hqs3. lia.
  - intros e'. by rewrite Ha5.
Qed.

(** [runSoon()] from outside comes down to that. *)
Lemma kick_outside w e x fuel :
  idle w -> execs w !! e = Some x -> scheduled_ x = None -> ready_ x = QBuf e ->
  run prog (S (S fuel)) (TKick e) w = run prog fuel (TDrain e (QBuf e)) w.
Proof.
  intros [Hcur Hrun] Hx Hs Hq. assert (Hr : running_ x = None).
  { specialize (Hrun e). unfold running_of in Hrun. by rewrite Hx in Hrun. }
  assert (E1 : run prog (S (S fuel)) (TKick e) w = run prog (S fuel) (TRunOnce e) w).
  { cbn [run]. rewrite Hx. res_cbn. by rewrite Hr, Hs, Hcur. }
  rewrite E1, run_once, Hx. res_cbn. rewrite Hr, Hq. f_equal.
  replace (set_scheduled None x) with x by (destruct x; cbn in *; by subst).
  unfold set_exec. rewrite insert_id by done. by destruct w.
Qed.

(** [runSoon()] and [drain()] with nothing to do. *)
Lemma idle_cmd k w e fuel :
  k = Kick e \/ k = Drain e -> world_ok lp alive None w -> idle w -> e ∈ alive -> 5 <= fuel ->
  exists w', run prog fuel (TCmd k) w = Ok w' /\ settled w w' [] 0.
Proof.
  intros Hk HW HI He Hf. destruct (proj2 HW e He) as [x Hx]. destruct (idle_empty w e x HW HI Hx) as [_ Hs].
  pose proof (proj1 HW _ _ Hx) as Hok. do 5 (destruct fuel as [|fuel]; [lia|]). destruct Hk as [-> | ->].
  - change (run prog (S (S (S (S (S fuel))))) (TCmd (Kick e)) w) with (run prog (S (S (S (S fuel)))) (TKick e) w).
    rewrite (kick_outside w e x) by (done || apply Hok). by apply (idle_drains w e x).
  - change (run prog (S (S (S (S (S fuel))))) (TCmd (Drain e)) w) with
      (x ← deref (execs w !! e); run prog (S (S (S (S fuel)))) (TDrain e (ready_ x)) w).
    rewrite Hx. res_cbn. rewrite (eo_ready _ _ _ _ _ Hok). by apply (idle_drains w e x).
Qed.

Lemma runsoon_outside w e c fuel :
  world_ok lp alive None w -> idle w -> e ∈ alive -> enough (load wt w + wt c) + 4 <= fuel ->
  exists w' tr, run prog fuel (TCmd (RunSoon e c)) w = Ok w' /\ settled w w' (Submitted e c :: tr) (wt c).
Proof.
  intros HW HI He Hf. destruct (proj2 HW e He) as [x Hx]. unfold enough in Hf. do 3 (destruct fuel as [|fuel]; [lia|]).
  destruct (idle_empty w e x HW HI Hx) as [_ Hs]. pose proof (proj1 HW _ _ Hx) as Hok.
  pose proof (exec_queue _ _ _ _ _ _ HW Hx) as HQ.
  set (w1 := emit (Submitted e c) (set_queue (QBuf e) (queue_of e w ++ [CUser c]) w)).
  assert (E1 : schedule e (CUser c) w = Ok w1).
  { unfold schedule. rewrite Hx. res_cbn. by rewrite (eo_ready _ _ _ _ _ Hok), HQ. }
  change (run prog (S (S (S fuel))) (TCmd (RunSoon e c)) w) with
    (w ← schedule e (CUser c) w; run prog (S (S fuel)) (TKick e) w).
  assert (HL : load wt w1 = load wt w + wt c) by exact (load_push wt _ _ (CUser c) _ HQ).
  rewrite E1. res_cbn. rewrite (kick_outside w1 e x) by (done || apply Hok).
  destruct (outside_drains (Some e) w1 e x fuel) as (w' & tr & -> & []); auto.
  - by apply (push_ok lp alive w e x c).
  - unfold enough. lia.
  - exists w', tr. split; [done|]. split; try done.
    + rewrite se_trace0. cbn. by rewrite <- app_assoc.
    + lia.
Qed.

(** C6. If callbacks do nothing with executors but call [runSoon()], on executors
    that are alive and share one event loop, and do not submit work forever (each
    submits only callbacks of less weight, [well_behaved]), then [runSoon(c)] called
    from outside - by an event loop's handler, say - runs [c] and every callback
    submitted, directly or not, to any of these executors, and then returns: it
    terminates, no callback begins while another one is running, each executor runs its
    callbacks in the order of their submission, exactly once, and afterwards nothing
    is queued and nothing is running.  Callbacks that call [capture()], or [runSoon()] on
    an executor of another event loop, do nest ([capture_runs_inside],
    [other_loop_runs_inside]) and are not covered. *)
Theorem executor_runs_to_completion w e c fuel :
  world_ok lp alive None w -> idle w -> e ∈ alive -> enough (load wt w + wt c) + 4 <= fuel ->
  exists w' tr, run prog fuel (TCmd (RunSoon e c)) w = Ok w' /\
    trace w' = trace w ++ tr /\ not_nested tr /\ c ∈ began e tr /\ idle w' /\
    forall e', is_Some (execs w !! e') ->
      queue_of e' w' = [] /\ submitted e' (trace w') = began e' (trace w').
Proof.
  intros HW HI He Hf. destruct (runsoon_outside w e c fuel HW HI He Hf) as (w' & tr & E & [H1 H2 H3 H4 _ H5]).
  exists w', (Submitted e c :: tr). split_and!; try done.
  - (* [c] itself has been run *)
    destruct (settled_submitted w e HW HI (proj2 HW e He)) as [_ HF0].
    destruct (settled_submitted w' e H1 H2 (proj2 H1 e He)) as [_ HF]. rewrite H3, submitted_app, began_app, HF0 in HF.
    apply app_inv_head in HF. rewrite <- HF. cbn. rewrite decide_True by done. apply list_elem_of_here.
  - intros e' He'. by apply settled_submitted, H5.
Qed.

(** [runSoon(c)] called while a callback of the same
    event loop is running does not run [c], or anything else: it appends [c] to
    the executor's queue and returns. *)
Theorem runsoon_does_not_interrupt w cur r e c fuel :
  world_ok lp alive None w -> current_ w = Some cur -> running_of cur w = Some r -> e ∈ alive ->
  3 <= fuel ->
  exists w', run prog fuel (TCmd (RunSoon e c)) w = Ok w' /\ trace w' = trace w ++ [Submitted e c] /\
    queue_of e w' = queue_of e w ++ [CUser c] /\ current_ w' = Some cur /\
    (forall e', running_of e' w' = running_of e' w) /\ world_ok lp alive None w'.
Proof.
  intros HW Hcur Hr He Hf. destruct (runsoon_queues w cur r e c fuel HW Hcur Hr He Hf)
    as (w' & E & [H1 [] _ _] & Hq). exists w'. split_and!; try done. congruence.
Qed.
End Discipline.

(** Two executors of one event loop; coroutine 10 wakes 11 on the second executor
    and 12 on its own, 11 wakes 13 on the first. *)
Definition demo_prog (c : loc) : list cmd :=
  match c with
  | 10%positive => [RunSoon 2 11; RunSoon 1 12]%positive
  | 11%positive => [RunSoon 1 13]%positive
  | _ => []
  end.
Definition demo_wt (c : loc) : nat :=
  match c with 10%positive => 20 | 11%positive => 6 | _ => 1 end.
Definition demo_world : world := new_exec 2 0 (new_exec 1 0 (World ∅ ∅ None ∅ 0 [])).

Example demo_run :
  trace <$> run demo_prog 100 (TCmd (RunSoon 1 10)) demo_world = Ok (
    [Submitted 1 10; Began 1 10; Submitted 2 11; Submitted 1 12; Ended 1 10;
     Began 2 11; Submitted 1 13; Ended 2 11; Began 1 12; Ended 1 12; Began 1 13; Ended 1 13])%positive.
Proof. vm_compute. reflexivity. Qed.

Lemma demo_well_behaved : well_behaved demo_prog [1; 2]%positive demo_wt.
Proof.
  split.
  - intros c k Hk. unfold demo_prog in Hk.
    repeat case_match; simplify_eq; set_unfold in Hk; try tauto.
    all: repeat match goal with H : _ \/ _ |- _ => destruct H end; subst; try tauto;
      do 2 eexists; (split; [reflexivity|]); set_solver.
  - intros c. unfold demo_prog, demo_wt, wsum. repeat case_match; cbn; lia.
Qed.

(** A new executor, at an address where there was none. *)
Lemma new_exec_ok lp alive w e :
  world_ok lp alive None w -> execs w !! e = None ->
  submitted e (trace w) = [] -> began e (trace w) = [] ->
  world_ok lp (e :: alive) None (new_exec e lp w).
Proof.
  intros [Hx Ha] He Hs Hb. unfold new_exec. split.
  2: { intros e' Hin. cbn. destruct (decide (e' = e)) as [->|]; [rewrite lookup_insert_eq; eauto|].
       rewrite lookup_insert_ne by done. apply Ha. set_solver. }
  assert (Hno : forall e' x', execs w !! e' = Some x' -> CRunOnce e ∉ queue_of e' w).
  { intros e' x' H' Hin. destruct (eo_runs _ _ _ _ _ (Hx _ _ H') _ Hin) as (x2 & H2 & _). congruence. }
  intros e' x' He'. cbn in He'. destruct (decide (e' = e)) as [->|Hne].
  - rewrite lookup_insert_eq in He'. injection He' as <-.
    split; cbn [eventLoopID_ ready_ running_ scheduled_ queues set_queue set_exec]; world;
      rewrite ?decide_True by done; try done.
    + rewrite lookup_insert_eq. eauto.
    + intros e2. world. rewrite ?decide_True by done. set_solver.
    + apply NoDup_nil_2.
    + by rewrite Hs, Hb.
  - rewrite lookup_insert_ne in He' by done. pose proof (Hx _ _ He') as [].
    split; world; rewrite ?decide_False by done; try done.
    + rewrite lookup_insert_ne by congruence. done.
    + intros e2. world. rewrite ?decide_False by done. intros Hin. destruct (eo_runs0 _ Hin) as (x2 & H2 & ?).
      exists x2. rewrite lookup_insert_ne by congruence. done.
    + intros c Hc. world. destruct (eo_sched0 c Hc) as (? & Hin & Hr).
      assert (Hce : c <> e) by (intros ->; unfold running_of in Hr; by rewrite He in Hr).
      rewrite !decide_False by done. done.
Qed.

(** And one destroyed, with nothing going on. *)
Lemma destroy_ok lp alive w e :
  world_ok lp (e :: alive) None w -> idle w -> e ∉ alive ->
  exists w', destroy e w = Ok w' /\ world_ok lp alive None w' /\ idle w' /\ trace w' = trace w /\
    execs w' = delete e (execs w).
Proof.
  intros HW HI He. destruct (proj2 HW e ltac:(set_solver)) as [x Hx].
  destruct (idle_empty lp (e :: alive) w e x HW HI Hx) as [Hq Hs]. pose proof HI as [Hcur Hrun].
  assert (Hr : running_ x = None) by (specialize (Hrun e); unfold running_of in Hrun; by rewrite Hx in Hrun).
  set (w' := World (delete e (execs w)) (delete (QBuf e) (queues w)) None (flags w) (next_ w) (trace w)).
  exists w'. split.
  { unfold destroy. rewrite Hx. res_cbn. rewrite Hs. res_cbn.
    rewrite (exec_queue lp (e :: alive) None w e x HW Hx), Hq. res_cbn. rewrite Hr, decide_False by congruence.
    subst w'. by rewrite Hcur. }
  assert (HQ : forall e', e' <> e -> queue_of e' w' = queue_of e' w).
  { intros e' Hne. unfold queue_of. cbn. by rewrite lookup_delete_ne by congruence. }
  split_and!; try done.
  - split.
    2: { intros e' Hin. cbn. rewrite lookup_delete_ne by set_solver. apply (proj2 HW). set_solver. }
    intros e' x' He'. cbn in He'. apply lookup_delete_Some in He' as [Hne He'].
    destruct (idle_empty lp (e :: alive) w e' x' HW HI He') as [Hq' Hs']. pose proof (proj1 HW _ _ He') as [].
    assert (Hr' : running_ x' = None) by (specialize (Hrun e'); unfold running_of in Hrun; by rewrite He' in Hrun).
    split; rewrite ?HQ, ?Hq', ?Hr', ?Hs' by done; try done.
    + cbn. by rewrite lookup_delete_ne by congruence.
    + intros e2 Hin. by apply elem_of_nil in Hin.
    + apply NoDup_nil_2.
    + by rewrite Hq' in eo_fifo0.
  - split; [done|]. intros e'. unfold running_of. cbn. destruct (decide (e' = e)) as [->|]; [by rewrite lookup_delete_eq|].
    rewrite lookup_delete_ne by done. apply Hrun.
Qed.

Lemma demo_world_ok : world_ok 0 [2; 1]%positive None demo_world /\ idle demo_world.
Proof.
  split.
  - apply new_exec_ok; [apply new_exec_ok|..]; try done. split; [done|set_solver].
  - split; [done|]. intros e. unfold running_of, demo_world. cbn.
    destruct (decide (e = 2%positive)) as [->|]; [done|]. rewrite lookup_insert_ne by done.
    destruct (decide (e = 1%positive)) as [->|]; [done|]. by rewrite lookup_insert_ne, lookup_empty.
Qed.

Lemma demo_well_behaved' : well_behaved demo_prog [2; 1]%positive demo_wt.
Proof.
  split; [|apply demo_well_behaved]. intros c k Hk.
  destruct (wb_cmds _ _ _ demo_well_behaved c k Hk) as (e & c' & -> & He). exists e, c'.
  split; [done|set_solver].
Qed.

Lemma executor_runs_to_completion_witness :
  exists w' tr, run demo_prog 200 (TCmd (RunSoon 1%positive 10%positive)) demo_world = Ok w' /\
    trace w' = trace demo_world ++ tr /\ not_nested tr /\ 10%positive ∈ began 1 tr /\ idle w' /\
    forall e', is_Some (execs demo_world !! e') ->
      queue_of e' w' = [] /\ submitted e' (trace w') = began e' (trace w').
Proof.
  apply (executor_runs_to_completion demo_prog 0 [2; 1]%positive demo_wt demo_well_behaved' demo_world 1 10 200
    (proj1 demo_world_ok) (proj2 demo_world_ok)); [set_solver|vm_compute; lia].
Defined.

(** The same world inside a callback of executor 1. *)
Definition demo_inside : world :=
  World (<[1%positive := Exec 0 (QBuf 1) (Some 0) None Noop]> (execs demo_world)) (queues demo_world)
        (Some 1%positive) {[0 := true]} 1 [].

Lemma demo_inside_ok : world_ok 0 [2; 1]%positive None demo_inside.
Proof.
  apply (running_ok 0 [2; 1]%positive None None demo_world 1 (Exec 0 (QBuf 1) None None Noop) (Some 0));
    try done; try apply demo_world_ok; try (by left).
  intros f [= <-]. cbn. split; [done|lia].
Qed.

Lemma runsoon_does_not_interrupt_witness :
  exists w', run demo_prog 3 (TCmd (RunSoon 2%positive 11%positive)) demo_inside = Ok w' /\
    trace w' = [Submitted 2 11]%positive /\ queue_of 2 w' = [CUser 11%positive] /\
    current_ w' = Some 1%positive /\
    (forall e', running_of e' w' = running_of e' demo_inside) /\ world_ok 0 [2; 1]%positive None w'.
Proof.
  apply (runsoon_does_not_interrupt demo_prog 0 [2; 1]%positive demo_wt demo_inside 1 0 2 11 3 demo_inside_ok);
    [done|done|set_solver|lia].
Defined.

(** * Executors as wakers

    Inside a callback, [handle.resume()] of a task's frame is [runSoon()] on the
    task's executor: it satisfies the interface of Waker.v. *)
Section Active.
Context (prog : loc -> list cmd) (lp : nat) (alive : list eid) (cur e : eid).

Definition inside w : Prop :=
  world_ok lp alive None w /\ current_ w = Some cur /\ running_of cur w <> None /\ e ∈ alive.
Definition active : Type := { w : world | inside w }.

Definition resume_world (h : handle) w : world :=
  match h with
  | Noop => w
  | Coro c => match run prog 3 (TCmd (RunSoon e c)) w with Ok w' => w' | Fault _ => w end
  end.

Lemma resume_inside h w : inside w -> inside (resume_world h w) /\
  submitted e (trace (resume_world h w)) = submitted e (trace w) ++ handle_coro h.
Proof.
  intros Hin. pose proof Hin as (HW & Hc & Hr & He).
  destruct h as [|c]; cbn; [by rewrite app_nil_r|].
  destruct (running_of cur w) as [r|] eqn:Er; [|done].
  destruct (runsoon_queues prog lp alive (fun _ => 0) w cur r e c 3 HW Hc Er He ltac:(lia))
    as (w' & E & [H1 [] _ _] & _).
  cbn [run] in E. rewrite E. split; [split_and!; [done|congruence|by rewrite ca_running0, Er|done]|].
  rewrite ca_trace0, submitted_snoc. by rewrite decide_True.
Qed.

#[export] Instance exec_waker : Waker active := {
  resume h a := exist _ (resume_world h (`a)) (proj1 (resume_inside h (`a) (proj2_sig a)));
  resumed a := submitted e (trace (`a)) }.
#[export] Instance exec_waker_spec : WakerSpec active.
Proof. intros h [w Hw]. apply resume_inside, Hw. Qed.
End Active.

(** * Other behaviours, evaluated *)

(** An executor of another event loop does not wait: its callback runs inside. *)
Example other_loop_runs_inside :
  trace <$> run (fun c => if decide (c = 10%positive) then [RunSoon 2 11]%positive else []) 100
    (TCmd (RunSoon 1 10)%positive) (new_exec 2 7 (new_exec 1 0 (World ∅ ∅ None ∅ 0 []))) = Ok (
    [Submitted 1 10; Began 1 10; Submitted 2 11; Began 2 11; Ended 2 11; Ended 1 10])%positive.
Proof. vm_compute. reflexivity. Qed.

(** [capture()] runs what its body submits before it returns. *)
Example capture_runs_inside :
  trace <$> run (fun c => if decide (c = 10%positive)
      then [RunSoon 1 12; Capture 1 [RunSoon 1 11]; RunSoon 1 13]%positive else []) 100
    (TCmd (RunSoon 1 10)%positive) demo_world = Ok (
    [Submitted 1 10; Began 1 10; Submitted 1 12; Submitted 1 11; Began 1 11; Ended 1 11;
     Submitted 1 13; Ended 1 10; Began 1 12; Ended 1 12; Began 1 13; Ended 1 13])%positive.
Proof. vm_compute. reflexivity. Qed.

(** An executor destroyed by one of its own callbacks stops its loop. *)
Example destroyed_while_running :
  trace <$> run (fun c => if decide (c = 10%positive) then [RunSoon 2 11; Drain 2; Destroy 2]%positive else []) 100
    (TCmd (RunSoon 1 10)%positive) demo_world = Ok (
    [Submitted 1 10; Began 1 10; Submitted 2 11; Began 2 11; Ended 2 11; Ended 1 10])%positive.
Proof. vm_compute. reflexivity. Qed.

(** The destructor looks for its pending [runOnce()] in [scheduled_->buffer_], but
    inside a [capture()] the call was queued in the temporary list: the stale
    callback is then run on the destroyed executor. *)
Example destroyed_inside_capture :
  run (fun c => if decide (c = 10%positive)
      then [Capture 1 [RunSoon 2 11; Drain 2; Destroy 2]]%positive else []) 100
    (TCmd (RunSoon 1 10)%positive) demo_world = Fault BadAccess.
Proof. vm_compute. reflexivity. Qed.
