(* ===== verification/Awaiter.v ===== *)
(** [detail/utility.h]: awaiters as the library sees them.

    [behaviour] is an awaiter reduced to its answers.  [awaitSuspend()] and its
    siblings supply what an awaiter does not customise; [AwaiterStateChecker]
    (compiled in with [CORRAL_AWAITABLE_STATE_DEBUG]) is the protocol between an
    awaiter and whoever awaits it, as a state machine whose violations are
    assertion failures, and [SanitizedAwaiter] reports every call to it. *)
From S2P Require Export Waker.

(** * Behaviours *)

(** What [await_suspend(h).resume()] does: nothing yet, resume [h] on the spot,
    or throw; and what [await_cancel(h)] does: confirm, refuse for now, or
    refuse after having resumed [h]. *)
Inductive suspension := Later | AtOnce | Throws.
Inductive cancellation := Confirmed | Refused | RefusedResumed.
#[export] Instance suspension_eq_dec : EqDecision suspension.
Proof. solve_decision. Defined.
#[export] Instance cancellation_eq_dec : EqDecision cancellation.
Proof. solve_decision. Defined.

Record behaviour := Beh {
  b_ready : bool;            (* await_ready() *)
  b_skippable : bool;        (* Skippable<...>, the static type *)
  b_early : bool;            (* await_early_cancel() *)
  b_suspend : suspension;    (* await_suspend() *)
  b_cancel : cancellation;   (* await_cancel() *)
  b_must : bool;             (* await_must_resume() *)
  b_error : bool }.          (* await_resume() yields an error *)

(** What [await_suspend()] may return, and [awaitSuspend()]. *)
Inductive suspend_result := RVoid | RHandle (h : handle) | RBool (b : bool).
Definition awaitSuspend (r : suspend_result) (h : handle) : handle :=
  match r with
  | RVoid => Noop
  | RHandle h' => h'
  | RBool b => if b then Noop else h
  end.

(** The optional methods: [None] when the awaiter does not have it. *)
Definition awaitEarlyCancel (await_early_cancel : option bool) : bool :=
  match await_early_cancel with Some b => b | None => true end.
Definition awaitCancel (await_cancel : option (handle -> bool)) (h : handle) : bool :=
  match await_cancel with Some f => f h | None => false end.
Definition awaitMustResume (await_must_resume : option bool) (cancelAlwaysSucceeds : bool) : bool :=
  match await_must_resume with
  | Some b => b
  | None => negb cancelAlwaysSucceeds
  end.

(** * The protocol *)

Module Checker.
Inductive state :=
  Initial | NotReady | InitialCxlPend | CancelPending | ReadyImmediately | Running | Cancelling
  | ReadyAfterCancel | Ready | Cancelled | Done.
#[export] Instance state_eq_dec : EqDecision state.
Proof. solve_decision. Defined.

Record checker := Checker { realHandle_ : handle; hasExecutor_ : bool; state_ : state }.
Implicit Types (c : checker).
Definition initial : checker := Checker Noop false Initial.

Definition set (s : state) c : checker := Checker (realHandle_ c) (hasExecutor_ c) s.
Definition in_state (s : state) c : bool := bool_decide (state_ c = s).

Definition forceReset c : checker := Checker (realHandle_ c) false Initial.
Definition reset c : res checker :=
  corral_assert (in_state Cancelled c || in_state Done c || in_state Initial c);; Ok (forceReset c).
Definition readyReturned (val : bool) c : res checker :=
  match state_ c with
  | Initial | NotReady => Ok (set (if val then ReadyImmediately else NotReady) c)
  | InitialCxlPend | CancelPending => Ok (set (if val then ReadyAfterCancel else CancelPending) c)
  | ReadyImmediately | ReadyAfterCancel => corral_assert val;; Ok c
  | _ => Fault Unreachable
  end.
Definition earlyCancelReturned (val : bool) c : res checker :=
  match state_ c with
  | Initial => Ok (set (if val then Cancelled else InitialCxlPend) c)
  | NotReady => Ok (set (if val then Cancelled else CancelPending) c)
  | ReadyImmediately => Ok (set (if val then Cancelled else ReadyAfterCancel) c)
  | _ => Fault Unreachable
  end.
Definition aboutToSetExecutor c : res checker :=
  corral_assert (in_state NotReady c || in_state CancelPending c || in_state ReadyImmediately c || in_state Initial c
                 || in_state InitialCxlPend c);;
  Ok (Checker (realHandle_ c) true (state_ c)).
Definition aboutToSuspend (h : handle) c : res checker :=
  corral_assert (hasExecutor_ c);;
  match state_ c with
  | NotReady => Ok (Checker h (hasExecutor_ c) Running)
  | CancelPending => Ok (Checker h (hasExecutor_ c) Cancelling)
  | _ => Fault Unreachable
  end.
Definition suspendThrew c : res checker :=
  corral_assert (in_state Running c || in_state Cancelling c);; Ok (set Done c).
Definition aboutToCancel (h : handle) c : res checker :=
  corral_assert (in_state Running c);; corral_assert (bool_decide (realHandle_ c = h));;
  Ok (set Cancelling c).
Definition cancelReturned (val : bool) c : res checker :=
  if val then corral_assert (in_state Cancelling c);; Ok (set Cancelled c) else Ok c.
Definition mustResumeReturned (val : bool) c : res checker :=
  corral_assert (in_state ReadyAfterCancel c);; Ok (set (if val then Ready else Cancelled) c).
Definition aboutToResume c : res checker :=
  corral_assert (in_state ReadyImmediately c || in_state Ready c);; Ok (set Done c).
(** The resume function: the new state, and the handle to resume. *)
Definition resumed c : res (handle * checker) :=
  match state_ c with
  | Running => Ok (realHandle_ c, set Ready c)
  | Cancelling => Ok (realHandle_ c, set ReadyAfterCancel c)
  | _ => Fault Unreachable
  end.

(** The calls between the construction of a [SanitizedAwaiter] and its end. *)
Inductive call :=
| CReady (val : bool) | CEarlyCancel (val : bool) | CSetExecutor | CSuspend (h : handle) | CThrew
| CCancel (h : handle) | CCancelled (val : bool) | CMustResume (val : bool) | CResume | CResumed.
#[export] Instance call_eq_dec : EqDecision call.
Proof. solve_decision. Defined.
Definition step (k : call) c : res checker :=
  match k with
  | CReady v => readyReturned v c
  | CEarlyCancel v => earlyCancelReturned v c
  | CSetExecutor => aboutToSetExecutor c
  | CSuspend h => aboutToSuspend h c
  | CThrew => suspendThrew c
  | CCancel h => aboutToCancel h c
  | CCancelled v => cancelReturned v c
  | CMustResume v => mustResumeReturned v c
  | CResume => aboutToResume c
  | CResumed => '(_, c) ← resumed c; Ok c
  end.
Fixpoint run (ks : list call) c : res checker :=
  match ks with [] => Ok c | k :: ks => c ← step k c; run ks c end.

(** ** What the protocol guarantees *)

Definition count (f : call -> bool) (ks : list call) : nat := length (List.filter f ks).
Definition is_suspend (k : call) : bool := match k with CSuspend _ => true | _ => false end.
Definition is_resumed (k : call) : bool := match k with CResumed => true | _ => false end.
Definition is_over (k : call) : bool := match k with CResume | CThrew => true | _ => false end.
Definition is_dropped (k : call) : bool :=
  match k with CEarlyCancel true | CCancelled true | CMustResume false => true | _ => false end.

(** How often a call may still be made, or has been made, in each state. *)
Definition suspends_left (s : state) : nat :=
  match s with Initial | NotReady | InitialCxlPend | CancelPending => 1 | _ => 0 end.
Definition resumes_left (s : state) : nat :=
  match s with Initial | NotReady | InitialCxlPend | CancelPending | Running | Cancelling => 1 | _ => 0 end.
Definition ends_left (s : state) : nat := match s with Cancelled | Done => 0 | _ => 1 end.

Lemma step_measure k c c' :
  step k c = Ok c' ->
  suspends_left (state_ c') + Nat.b2n (is_suspend k) <= suspends_left (state_ c) /\
  resumes_left (state_ c') + Nat.b2n (is_resumed k) <= resumes_left (state_ c) /\
  ends_left (state_ c') + Nat.b2n (is_over k || is_dropped k) = ends_left (state_ c) /\
  (state_ c = Done -> state_ c' = Done) /\ (state_ c = Cancelled -> state_ c' = Cancelled) /\
  (is_over k = true -> state_ c' = Done) /\ (is_dropped k = true -> state_ c' = Cancelled).
Proof.
  destruct c as [h e s].
  destruct k as [v|v| |h'| |h'|v|v| |]; unfold step, readyReturned, earlyCancelReturned, aboutToSetExecutor,
    aboutToSuspend, suspendThrew, aboutToCancel, cancelReturned, mustResumeReturned, aboutToResume, resumed, in_state;
    cbn [state_ hasExecutor_ realHandle_];
    try destruct v; destruct s; cbn; intros E; res_inv; cbn;
    try (split_and!; (lia || done)).
  all: repeat match goal with H : context [bool_decide _] |- _ => revert H end; cbn; intros; try discriminate.
Qed.

Lemma run_measure ks c c' :
  run ks c = Ok c' ->
  suspends_left (state_ c') + count is_suspend ks <= suspends_left (state_ c) /\
  resumes_left (state_ c') + count is_resumed ks <= resumes_left (state_ c) /\
  ends_left (state_ c') + (count is_over ks + count is_dropped ks) = ends_left (state_ c) /\
  (state_ c = Done -> state_ c' = Done) /\ (state_ c = Cancelled -> state_ c' = Cancelled) /\
  (0 < count is_over ks -> state_ c' = Done) /\ (0 < count is_dropped ks -> state_ c' = Cancelled).
Proof.
  revert c. induction ks as [|k ks IH]; intros c E; cbn [run] in E.
  - injection E as <-. cbn. split_and!; (lia || done).
  - apply bind_ok in E as (c1 & E1 & E2). destruct (step_measure k c c1 E1) as (S1 & S2 & S3 & S4 & S5 & S6 & S7).
    destruct (IH c1 E2) as (R1 & R2 & R3 & R4 & R5 & R6 & R7). unfold count in *. cbn [List.filter].
    assert (Hx : is_over k && is_dropped k = false) by (by destruct k as [|[]| | | | |[]|[]| |]).
    destruct (is_suspend k), (is_resumed k), (is_over k), (is_dropped k);
      cbn [orb Nat.b2n length andb] in *; try done; split_and!; auto; try lia.
Qed.

(** ** Whose turn it is *)

(** The calls a parent may make, those an awaiter may ([resume()] of the handle it
    was given), for components that are both. *)
Inductive request := QReady | QEarlyCancel | QSetExecutor | QSuspend | QCancel | QMustResume | QResume.
Definition running c : bool := in_state Running c || in_state Cancelling c.
Definition before_suspension c : bool :=
  match state_ c with Initial | NotReady | InitialCxlPend | CancelPending => true | _ => false end.
Definition may (q : request) c : bool :=
  match q with
  | QReady => before_suspension c
  | QEarlyCancel => in_state Initial c || in_state NotReady c
  | QSetExecutor => before_suspension c && negb (hasExecutor_ c)
  | QSuspend => hasExecutor_ c && (in_state NotReady c || in_state CancelPending c)
  | QCancel => in_state Running c
  | QMustResume => in_state ReadyAfterCancel c
  | QResume => in_state ReadyImmediately c || in_state Ready c
  end.
End Checker.

Import Checker.

(** C17.  Every sequence of calls that the state machine lets
    through suspends the awaiter at most once and sees its handle resumed at
    most once; if the awaiter may be destroyed afterwards, then either it was
    never used beyond asking, or exactly one of these happened, and once:
    its result was taken (or [await_suspend()] threw), or it was dropped as
    cancelled. *)
Theorem awaiter_protocol ks c c' :
  run ks initial = Ok c -> reset c = Ok c' ->
  count is_suspend ks <= 1 /\ count is_resumed ks <= 1 /\
  count is_over ks + count is_dropped ks = (if in_state Initial c then 0 else 1) /\
  (state_ c = Done <-> count is_over ks = 1) /\ (state_ c = Cancelled <-> count is_dropped ks = 1).
Proof.
  intros E Hr. destruct (run_measure ks initial c E) as (R1 & R2 & R3 & _ & _ & R6 & R7).
  cbn in R1, R2, R3. unfold reset in Hr. res_inv. unfold in_state in *.
  destruct (state_ c) eqn:Hs; cbn in *; try done; split_and!; try lia; try (split; intros; try done; try lia).
  all: try (destruct (count is_over ks); [lia|]; assert (Hx : Cancelled = Done) by (apply R6; lia); done).
  all: try (destruct (count is_dropped ks); [lia|]; assert (Hx : Done = Cancelled) by (apply R7; lia); done).
  all: try (assert (Hx : Initial = Done) by (apply R6; lia); done).
  all: try (assert (Hx : Initial = Cancelled) by (apply R7; lia); done).
  all: first [rewrite bool_decide_true by done; lia | rewrite bool_decide_false by done; lia].
Qed.

Lemma awaiter_protocol_witness :
  let ks := [CReady false; CSetExecutor; CSuspend (Coro 1); CCancel (Coro 1); CResumed; CCancelled false;
             CMustResume true; CResume] in
  count is_suspend ks <= 1 /\ count is_resumed ks <= 1 /\ count is_over ks = 1.
Proof.
  destruct (awaiter_protocol [CReady false; CSetExecutor; CSuspend (Coro 1); CCancel (Coro 1); CResumed;
    CCancelled false; CMustResume true; CResume] (Checker (Coro 1) true Done) (Checker (Coro 1) false Initial)
    eq_refl eq_refl) as (E1 & E2 & _ & E3 & _).
  split_and!; [exact E1|exact E2|by apply E3].
Defined.
