(* ===== verification/Mux.v ===== *)
(** [detail/wait.h]: [anyOf], [mostOf] and [allOf].

    A mux ([MuxBase], as a tuple or a range) waits for its children through one
    [MuxHelper] each, a state machine that knows whether its awaitable has been
    started, cancelled, or has reported its result.  A child's awaiter is given
    by how it behaves ([behaviour]): whether it is ready, what its cancellation
    answers, whether suspending it or cancelling it resumes it on the spot, and
    whether its result is an error.  Later completions come from outside, as
    calls of the helper's [resumeFn].

    [MuxBase::invoke()] and [cancel()] call each other, at most once per child
    that is still unfinished; the fuel of [invoke] bounds the depth. *)
From S2P Require Import Awaiter.
From S2P Require Export Waker.

(** * Children *)

Inductive state :=
  NotStarted | CancellationPending | Running | Cancelling | Cancelled | Ready | Succeeded | Failed.
#[export] Instance state_eq_dec : EqDecision state.
Proof. solve_decision. Defined.

(** [MuxHelper]: the two halves of [mux_] and the awaiter. *)
Record helper := Helper { h_bound : bool; h_state : state; h_beh : behaviour }.

(** [MuxBase] with its children.  [abortable_] is [muxIsAbortable()],
    [all_] tells AllOf from the others; [log_] lists the parents resumed. *)
Record mux := Mux {
  kids : list helper; count_ : Z; parent_ : handle; error_ : bool;
  minReady : Z; abortable_ : bool; all_ : bool; log_ : list loc }.

Implicit Types (m : mux) (k : helper) (i : nat).

Definition size m : Z := Z.of_nat (length (kids m)).

Definition set_kids (ks : list helper) m : mux :=
  Mux ks (count_ m) (parent_ m) (error_ m) (minReady m) (abortable_ m) (all_ m) (log_ m).
Definition set_count (n : Z) m : mux :=
  Mux (kids m) n (parent_ m) (error_ m) (minReady m) (abortable_ m) (all_ m) (log_ m).
Definition set_parent (h : handle) m : mux :=
  Mux (kids m) (count_ m) h (error_ m) (minReady m) (abortable_ m) (all_ m) (log_ m).
Definition set_error (b : bool) m : mux :=
  Mux (kids m) (count_ m) (parent_ m) b (minReady m) (abortable_ m) (all_ m) (log_ m).
(** [h.resume()] for a parent: its proxy posts to the executor. *)
Definition resume_handle (h : handle) m : mux :=
  Mux (kids m) (count_ m) (parent_ m) (error_ m) (minReady m) (abortable_ m) (all_ m)
      (log_ m ++ handle_coro h).

Definition kid i m : res helper := deref (kids m !! i).
Definition setState i (s : state) m : res mux :=
  k ← kid i m; Ok (set_kids (<[i := Helper (h_bound k) s (h_beh k)]> (kids m)) m).

(** [MuxHelper(awaitable)], and the mux over the children. *)
Definition new_helper (b : behaviour) : helper := Helper false NotStarted b.
Definition new_mux (bs : list behaviour) (min : Z) (abortable all : bool) : mux :=
  Mux (new_helper <$> bs) 0 Noop false min abortable all [].
(** [AnyOf], [MostOf], [AllOf] over a tuple or a range *)
Definition anyOf (bs : list behaviour) (abortable : bool) : mux :=
  new_mux bs (Z.min 1 (Z.of_nat (length bs))) abortable false.
Definition mostOf (bs : list behaviour) : mux := new_mux bs (Z.of_nat (length bs)) false false.
Definition allOf (bs : list behaviour) : mux := new_mux bs (Z.of_nat (length bs)) false true.

(** [MuxHelper::bind()] of every child *)
Definition bind_all m : mux := set_kids ((fun k => Helper true (h_state k) (h_beh k)) <$> kids m) m.

(** * The helper, given the mux's [invoke] *)

Section Helper.
Context (inv : bool -> mux -> res mux).

(** [mux()->invoke(err)] *)
Definition notify i (err : bool) m : res mux :=
  k ← kid i m;
  if h_bound k then inv err m else Fault BadAccess.

(** [MuxHelper::reportResult()] *)
Definition reportResult i m : res mux :=
  m ← setState i Succeeded m;
  k ← kid i m;
  m ← (if b_error (h_beh k) then setState i Failed m else Ok m);
  notify i (b_error (h_beh k)) m.

(** [MuxHelper::invoke()], the resume function *)
Definition helper_invoke i m : res mux :=
  k ← kid i m;
  match h_state k with
  | Cancelling =>
      if b_must (h_beh k) then reportResult i m
      else m ← setState i Cancelled m; notify i false m
  | Running | Ready => reportResult i m
  | _ => Fault Unreachable
  end.

(** [MuxHelper::cancel()] *)
Definition cancel i m : res (bool * mux) :=
  k ← kid i m;
  match h_state k with
  | NotStarted =>
      if b_early (h_beh k) then
        m ← setState i Cancelled m;
        m ← (if h_bound k then inv false m else Ok m);
        Ok (true, m)
      else m ← setState i CancellationPending m; Ok (false, m)
  | Running =>
      m ← setState i Cancelling m;
      match b_cancel (h_beh k) with
      | Confirmed => m ← setState i Cancelled m; m ← notify i false m; Ok (true, m)
      | Refused => Ok (false, m)
      | RefusedResumed =>
          m ← helper_invoke i m;
          k ← kid i m;
          Ok (bool_decide (h_state k = Cancelled), m)
      end
  | Cancelled => Ok (true, m)
  | _ => Ok (false, m)
  end.

(** [internalCancel()]: every child, without short-circuit. *)
Fixpoint cancel_from (js : list nat) m : res (bool * mux) :=
  match js with
  | [] => Ok (true, m)
  | i :: js => '(b, m) ← cancel i m; '(bs, m) ← cancel_from js m; Ok (b && bs, m)
  end.
Definition internalCancel m : res (bool * mux) := cancel_from (seq 0 (length (kids m))) m.

(** [MuxHelper::kickOff()] and [suspend()] *)
Definition kickOff i m : res mux :=
  k ← kid i m;
  m ← setState i (if decide (h_state k = CancellationPending) then Cancelling else Running) m;
  if b_ready (h_beh k) then helper_invoke i m
  else match b_suspend (h_beh k) with
       | Later => Ok m
       | AtOnce => helper_invoke i m
       | Throws => m ← setState i Failed m; notify i true m
       end.
Definition suspend i m : res mux :=
  k ← kid i m;
  match h_state k with
  | NotStarted | CancellationPending => kickOff i m
  | Cancelled => notify i false m
  | _ => Fault Unreachable
  end.
Fixpoint suspend_from (js : list nat) m : res mux :=
  match js with [] => Ok m | i :: js => m ← suspend i m; suspend_from js m end.

(** [MuxHelper::reportImmediateResult()] *)
Definition reportImmediateResult i m : res mux :=
  k ← kid i m;
  m ← (if decide (h_state k = CancellationPending) then
         setState i (if b_must (h_beh k) then Ready else Cancelled) m
       else Ok m);
  k ← kid i m;
  if decide (h_state k = Cancelled) then notify i false m
  else if decide (h_state k = NotStarted) then
    if b_ready (h_beh k) then reportResult i m
    else '(b, m) ← cancel i m; corral_assert b;; Ok m
  else corral_assert (bool_decide (h_state k = Ready));; reportResult i m.
Fixpoint report_from (js : list nat) m : res mux :=
  match js with [] => Ok m | i :: js => m ← reportImmediateResult i m; report_from js m end.
End Helper.

(** * The mux *)

(** [MuxBase::invoke(err)] *)
Fixpoint invoke (fuel : nat) (err : bool) m : res mux :=
  match fuel with
  | O => Fault OutOfFuel
  | S fuel =>
      let i := (count_ m + 1)%Z in
      let m := set_count i m in
      let firstFail := err && negb (error_ m) in
      let m := if firstFail then set_error true m else m in
      if (i =? size m)%Z then Ok (resume_handle (parent_ m) m)
      else if firstFail || (i =? minReady m)%Z then
        let m := set_count (count_ m - 1) m in
        '(_, m) ← internalCancel (invoke fuel) m;
        let m := set_count (count_ m + 1) m in
        if (count_ m =? size m)%Z then Ok (resume_handle (parent_ m) m) else Ok m
      else Ok m
  end.

Definition fuel_of m : nat := S (S (length (kids m))).
Definition mux_invoke m : bool -> mux -> res mux := invoke (fuel_of m).

(** [MuxHelper::ready()] and [await_ready()] of the mux *)
Definition helper_ready k : res bool :=
  match h_state k with
  | NotStarted => Ok (b_ready (h_beh k))
  | Running | Cancelling => Fault Unreachable
  | CancellationPending | Cancelled => Ok false
  | Ready | Succeeded | Failed => Ok true
  end.
Fixpoint ready_counts (ks : list helper) : res (Z * bool) :=
  match ks with
  | [] => Ok (0%Z, true)
  | k :: ks =>
      r ← helper_ready k;
      '(n, skip) ← ready_counts ks;
      Ok ((Z.b2z r + n)%Z, (r || b_skippable (h_beh k)) && skip)
  end.
Definition mux_await_ready m : res bool :=
  '(n, skip) ← ready_counts (kids m); Ok (bool_decide (kids m = []) || (minReady m <=? n)%Z && skip).

(** [await_suspend(h)] *)
Definition mux_await_suspend (h : handle) m : res (bool * mux) :=
  if (size m =? 0)%Z then Ok (false, m)
  else
    let m := bind_all (set_parent h m) in
    m ← suspend_from (mux_invoke m) (seq 0 (length (kids m))) m;
    Ok (true, m).

(** [await_early_cancel()], and [await_cancel(h)] *)
Definition mux_await_early_cancel m : res (bool * mux) :=
  '(b, m) ← internalCancel (mux_invoke m) m;
  if forallb (fun k => b_skippable (h_beh k)) (kids m) then corral_assert b;; Ok (true, m)
  else Ok (b, m).
Definition mux_await_cancel (h : handle) m : res (bool * mux) :=
  let orig := parent_ m in
  '(allNowCancelled, m) ← internalCancel (mux_invoke m) (set_parent Noop m);
  let m := set_parent orig m in
  if abortable_ m then corral_assert allNowCancelled;; Ok (true, m)
  else if allNowCancelled : bool then Ok (true, m)
  else if (count_ m =? size m)%Z then Ok (false, resume_handle h m)
  else Ok (false, m).

(** [MuxHelper::mustResume()] and [await_must_resume()] *)
Definition mustResume i m : res (bool * mux) :=
  k ← kid i m;
  match h_state k with
  | NotStarted => Ok (true, m)
  | CancellationPending =>
      m ← setState i (if b_must (h_beh k) then Ready else Cancelled) m; Ok (b_must (h_beh k), m)
  | Cancelled => Ok (false, m)
  | Ready | Succeeded | Failed => Ok (true, m)
  | Running | Cancelling => Fault Unreachable
  end.
Fixpoint must_from (js : list nat) m : res (list bool * mux) :=
  match js with
  | [] => Ok ([], m)
  | i :: js => '(b, m) ← mustResume i m; '(bs, m) ← must_from js m; Ok (b :: bs, m)
  end.
Definition mux_await_must_resume m : res (bool * mux) :=
  if all_ m && error_ m then Ok (true, m)
  else
    '(bs, m) ← must_from (seq 0 (length (kids m))) m;
    Ok (if all_ m then negb (bool_decide (bs = [])) && forallb id bs else existsb id bs, m).

(** [handleResumeWithoutSuspend()] *)
Fixpoint first_ready i (ks : list helper) : res (option nat) :=
  match ks with
  | [] => Ok None
  | k :: ks => r ← helper_ready k; if (r : bool) then Ok (Some i) else first_ready (S i) ks
  end.
Definition handleResumeWithoutSuspend m : res mux :=
  match kids m with
  | [] => Ok m
  | k0 :: _ =>
      if h_bound k0 then Ok m
      else
        let m := bind_all (set_parent Noop m) in
        r ← first_ready 0 (kids m);
        match r with
        | None => Fault AssertFailed
        | Some i =>
            m ← reportImmediateResult (mux_invoke m) i m;
            report_from (mux_invoke m) (filter (fun j => j <> i) (seq 0 (length (kids m)))) m
        end
  end.

(** [await_resume()]: [Some] of the child's value or [None] for each child, or the
    error.  AllOf takes [result()] of every child, the others [asOptional()]. *)
Definition child_result (all : bool) k : res bool :=
  if all then corral_assert (bool_decide (h_state k = Succeeded));; Ok true
  else match h_state k with
       | Succeeded => Ok true
       | Cancelled => Ok false
       | _ => Fault Unreachable
       end.
Fixpoint results (all : bool) (ks : list helper) : res (list bool) :=
  match ks with
  | [] => Ok []
  | k :: ks => r ← child_result all k; rs ← results all ks; Ok (r :: rs)
  end.
Inductive outcome := Values (present : list bool) | Error.
Definition mux_await_resume m : res (outcome * mux) :=
  m ← handleResumeWithoutSuspend m;
  if error_ m then Ok (Error, m) else rs ← results (all_ m) (kids m); Ok (Values rs, m).

(** * The parent can be resumed too early

    The first child is ready, the second is cancellable before it starts, the
    third is not.  Completing the first cancels the second, which is counted
    then and once more when [await_suspend()] reaches it: the parent is resumed
    although the third child is still running, and collecting the results runs
    into [CORRAL_ASSERT_UNREACHABLE()]. *)
Definition b_done : behaviour := Beh true false false Later Confirmed true false.
Definition b_event : behaviour := Beh false true true Later Confirmed true false.
Definition b_task : behaviour := Beh false false false Later Refused true false.

Example premature_resume :
  ('(_, m) ← mux_await_suspend (Coro 1) (anyOf [b_done; b_event; b_task] false);
   Ok (log_ m, h_state <$> kids m)) = Ok ([1%positive], [Succeeded; Cancelled; Cancelling]).
Proof. vm_compute. reflexivity. Qed.
Example premature_resume_fails :
  ('(_, m) ← mux_await_suspend (Coro 1) (anyOf [b_done; b_event; b_task] false);
   mux_await_resume m) = Fault Unreachable.
Proof. vm_compute. reflexivity. Qed.

(** * Counting the finished children *)

Definition fin (s : state) : bool :=
  match s with Cancelled | Succeeded | Failed => true | _ => false end.

Definition cnt (f : helper -> bool) (ks : list helper) : nat :=
  sum_list_with (fun k => Nat.b2n (f k)) ks.

Lemma cnt_cons f k ks : cnt f (k :: ks) = Nat.b2n (f k) + cnt f ks.
Proof. done. Qed.
Lemma cnt_insert f ks i k k' :
  ks !! i = Some k -> cnt f (<[i:=k']> ks) + Nat.b2n (f k) = cnt f ks + Nat.b2n (f k').
Proof.
  revert i. induction ks as [|k0 ks IH]; intros [|i] Hi; cbn in Hi; try done.
  - injection Hi as ->. change (<[0:=k']> (k :: ks)) with (k' :: ks). rewrite !cnt_cons. lia.
  - specialize (IH _ Hi). change (<[S i:=k']> (k0 :: ks)) with (k0 :: <[i:=k']> ks).
    rewrite !cnt_cons. lia.
Qed.
Lemma cnt_length f ks : cnt f ks <= length ks.
Proof. induction ks as [|k ks IH]; [done|]. rewrite cnt_cons. cbn [length]. destruct (f k); cbn [Nat.b2n]; lia. Qed.
Lemma cnt_all f ks : cnt f ks = length ks -> forall k, k ∈ ks -> f k = true.
Proof.
  induction ks as [|k ks IH]; intros Hc k0; [set_solver|]. pose proof (cnt_length f ks).
  rewrite cnt_cons in Hc. cbn [length] in Hc. rewrite elem_of_cons. intros [->|Hin].
  - destruct (f k); [done|]. cbn in Hc. lia.
  - apply IH; [|done]. destruct (f k); cbn [Nat.b2n] in Hc; lia.
Qed.
Lemma cnt_full f ks : (forall k, k ∈ ks -> f k = true) -> cnt f ks = length ks.
Proof.
  induction ks as [|k ks IH]; intros Hf; [done|]. rewrite cnt_cons.
  rewrite (Hf k), IH by set_solver. done.
Qed.

Definition is_fin k : bool := fin (h_state k).
Definition not_fin k : bool := negb (fin (h_state k)).

(** The finished ones among the first [n] children, and all the unfinished ones. *)
Definition fcount (n : nat) (ks : list helper) : nat := cnt is_fin (take n ks).
Definition unfinished (ks : list helper) : nat := cnt not_fin ks.

Lemma fcount_insert n ks i k k' :
  ks !! i = Some k ->
  fcount n (<[i:=k']> ks) + (if decide (i < n) then Nat.b2n (is_fin k) else 0) =
  fcount n ks + (if decide (i < n) then Nat.b2n (is_fin k') else 0).
Proof.
  intros Hi. unfold fcount. case_decide as Hn.
  - rewrite take_insert_lt by lia. apply cnt_insert. by rewrite lookup_take_lt.
  - rewrite take_insert_ge by lia. done.
Qed.
Lemma fcount_le n ks : fcount n ks <= length ks.
Proof. unfold fcount. etrans; [apply cnt_length|]. rewrite length_take. lia. Qed.

(** * Invariant of a running mux *)

(** [n] children have been started; [d] counts the [invoke()] frames that have
    taken their increment back and the notification about to be made; [p] tells
    whether that notification carries an error. *)
Record mux_ok (p : bool) (n : nat) (d : Z) m : Prop := {
  mo_bound : forall k, k ∈ kids m -> h_bound k = true;
  mo_count : (count_ m + d = Z.of_nat (fcount n (kids m)))%Z;
  mo_started : forall i k, kids m !! i = Some k -> i < n ->
    h_state k = Running \/ h_state k = Cancelling \/ fin (h_state k) = true;
  mo_waiting : forall i k, kids m !! i = Some k -> n <= i ->
    h_state k = CancellationPending \/ h_state k = Cancelled \/
    h_state k = NotStarted /\ b_early (h_beh k) = false;
  mo_failed : forall k, k ∈ kids m -> h_state k = Failed -> error_ m || p = true;
  mo_n : n <= length (kids m) }.

(** No longer to be started or left running: what a child is once its siblings
    have made it redundant. *)
Definition calm (s : state) : bool :=
  match s with NotStarted | Running => false | _ => true end.
(** Once there is an error, or enough results, every child is finished or being
    cancelled. *)
Definition quiet m : Prop :=
  error_ m = true \/ (minReady m <= count_ m)%Z -> forall k, k ∈ kids m -> calm (h_state k) = true.

(** What never changes, and what a finished child keeps. *)
Record progress m m' : Prop := {
  pg_length : length (kids m') = length (kids m);
  pg_beh : forall i k', kids m' !! i = Some k' -> exists k, kids m !! i = Some k /\ h_beh k' = h_beh k /\
    (fin (h_state k) = true -> h_state k' = h_state k) /\
    (calm (h_state k) = true -> calm (h_state k') = true);
  pg_parent : parent_ m' = parent_ m;
  pg_min : minReady m' = minReady m;
  pg_all : all_ m' = all_ m;
  pg_abort : abortable_ m' = abortable_ m;
  pg_unfinished : unfinished (kids m') <= unfinished (kids m) }.

Lemma progress_refl m : progress m m.
Proof. split; try done. intros i k' Hk. by exists k'. Qed.
Lemma progress_trans m m1 m2 : progress m m1 -> progress m1 m2 -> progress m m2.
Proof.
  intros [] []. split; try congruence; [|lia].
  intros i k2 H2. destruct (pg_beh1 _ _ H2) as (k1 & Hk1 & ? & Hf1 & ?).
  destruct (pg_beh0 _ _ Hk1) as (k0 & Hk0 & ? & Hf0 & ?). exists k0. split_and!; [done|congruence| |auto].
  intros Hf. rewrite Hf1; [auto|]. by rewrite Hf0.
Qed.
Lemma size_progress m m' : progress m m' -> size m' = size m.
Proof. intros []. unfold size. congruence. Qed.

(** Changing the state of one unfinished child. *)
Lemma setState_ok p p' n d d' i k s m :
  mux_ok p n d m -> kids m !! i = Some k -> fin (h_state k) = false ->
  (i < n -> s = Running \/ s = Cancelling \/ fin s = true) ->
  (n <= i -> s = CancellationPending \/ s = Cancelled) ->
  (s = Failed -> error_ m || p' = true) -> (p = true -> p' = true) -> calm s = true ->
  (d' = d + (if decide (i < n)%nat then Z.b2z (fin s) else 0))%Z ->
  exists m', setState i s m = Ok m' /\ mux_ok p' n d' m' /\ progress m m' /\ log_ m' = log_ m /\
    error_ m' = error_ m /\ count_ m' = count_ m /\
    kids m' !! i = Some (Helper (h_bound k) s (h_beh k)) /\
    unfinished (kids m') + Nat.b2n (fin s) = unfinished (kids m).
Proof.
  intros Hm Hk Hf Hs1 Hs2 Hs3 Hp Hcalm Hd. unfold setState, kid. rewrite Hk. res_cbn.
  set (k' := Helper (h_bound k) s (h_beh k)). pose proof (lookup_lt_Some _ _ _ Hk) as Hlt.
  assert (Hu : unfinished (<[i:=k']> (kids m)) + Nat.b2n (fin s) = unfinished (kids m)).
  { pose proof (cnt_insert not_fin _ _ _ k' Hk) as HC. unfold unfinished.
    assert (E1 : not_fin k = true) by (unfold not_fin; by rewrite Hf).
    assert (E2 : not_fin k' = negb (fin s)) by done. rewrite E1, E2 in HC.
    destruct (fin s); cbn [negb Nat.b2n] in *; lia. }
  eexists. split; [done|]. cbn. split_and!; try done.
  - destruct Hm. split; cbn.
    + intros q [j Hq]%list_elem_of_lookup. apply list_lookup_insert_Some in Hq as [(-> & <- & _)|(_ & Hq)].
      * cbn. eapply mo_bound0, list_elem_of_lookup_2, Hk.
      * eapply mo_bound0, list_elem_of_lookup_2, Hq.
    + pose proof (fcount_insert n _ _ _ k' Hk) as HF.
      assert (E1 : is_fin k = false) by done. assert (E2 : is_fin k' = fin s) by done.
      rewrite E1, E2 in HF. subst d'.
      destruct (decide (i < n)); [|lia]. destruct (fin s); cbn [Nat.b2n Z.b2z] in *; lia.
    + intros j q Hq Hj. apply list_lookup_insert_Some in Hq as [(-> & <- & _)|(_ & Hq)]; [by apply Hs1|eauto].
    + intros j q Hq Hj. apply list_lookup_insert_Some in Hq as [(-> & <- & _)|(_ & Hq)]; [|eauto].
      destruct (Hs2 Hj); auto.
    + intros q [j Hq]%list_elem_of_lookup Hqf. apply list_lookup_insert_Some in Hq as [(-> & <- & _)|(_ & Hq)].
      * by apply Hs3.
      * pose proof (mo_failed0 q (list_elem_of_lookup_2 _ _ _ Hq) Hqf) as HE.
        destruct (error_ m); [done|]. cbn in *. auto.
    + by rewrite length_insert.
  - split; try done; cbn [kids set_kids]; [by rewrite length_insert| |lia].
    intros j q Hq. apply list_lookup_insert_Some in Hq as [(-> & <- & _)|(_ & Hq)]; [|by exists q].
    exists k. split_and!; [done|done|congruence|]. cbn. by intros _.
  - by rewrite list_lookup_insert_eq.
Qed.

Definition parent_coro m : list loc := handle_coro (parent_ m).
Definition all_finished m : Prop := unfinished (kids m) = 0.

(** What [invoke(err)] promises to the frames around it. *)
Definition invoke_spec (inv : bool -> mux -> res mux) (f : nat) : Prop :=
  forall err n d m, mux_ok err n (d + 1) m -> (0 <= d)%Z -> unfinished (kids m) < f ->
    exists m', inv err m = Ok m' /\ mux_ok false n d m' /\ progress m m' /\
      log_ m' = log_ m ++
        (if decide (d = 0%Z /\ fcount n (kids m') = length (kids m)) then parent_coro m else []) /\
      (quiet m -> quiet m').

Lemma notify_ok inv f i k err n d m :
  invoke_spec inv f -> mux_ok err n (d + 1) m -> (0 <= d)%Z -> unfinished (kids m) < f ->
  kids m !! i = Some k ->
  exists m', notify inv i err m = Ok m' /\ mux_ok false n d m' /\ progress m m' /\
    log_ m' = log_ m ++
      (if decide (d = 0%Z /\ fcount n (kids m') = length (kids m)) then parent_coro m else []) /\
    (quiet m -> quiet m').
Proof.
  intros Hi Hm Hd Hu Hk. unfold notify, kid. rewrite Hk. res_cbn.
  rewrite (mo_bound _ _ _ _ Hm k) by (by eapply list_elem_of_lookup_2). by apply Hi.
Qed.

(** One unfinished, started child finishes with [s] and the mux is told. *)
Definition finish_spec (n : nat) (d : Z) i m (r : res mux) : Prop :=
  exists m' k', r = Ok m' /\ mux_ok false n d m' /\ progress m m' /\
    kids m' !! i = Some k' /\ fin (h_state k') = true /\
    log_ m' = log_ m ++
      (if decide (d = 0%Z /\ fcount n (kids m') = length (kids m)) then parent_coro m else []) /\
    (quiet m -> quiet m').

(** Moving one child to a state that is neither fresh nor running. *)
Lemma quiet_set i k s m m' :
  kids m !! i = Some k -> setState i s m = Ok m' -> calm s = true -> quiet m -> quiet m'.
Proof.
  intros Hk E Hs Hq. unfold setState, kid in E. rewrite Hk in E. cbn in E. injection E as <-.
  intros Hc q [j Hj]%list_elem_of_lookup. specialize (Hq Hc). cbn in Hj.
  apply list_lookup_insert_Some in Hj as [(-> & <- & _)|(_ & Hj)]; [done|].
  apply Hq. by eapply list_elem_of_lookup_2.
Qed.

Lemma finish_ok inv f n d i k s err m :
  invoke_spec inv f -> mux_ok false n d m -> (0 <= d)%Z -> unfinished (kids m) <= f ->
  kids m !! i = Some k -> i < n -> fin (h_state k) = false -> fin s = true ->
  (s = Failed -> err = true) ->
  exists m1, setState i s m = Ok m1 /\
    exists m' k', notify inv i err m1 = Ok m' /\ mux_ok false n d m' /\ progress m m' /\
      kids m' !! i = Some k' /\ h_state k' = s /\
      log_ m' = log_ m ++
        (if decide (d = 0%Z /\ fcount n (kids m') = length (kids m)) then parent_coro m else []) /\
      (quiet m -> quiet m').
Proof.
  intros Hi Hm Hd Hu Hk Hlt Hf Hs He.
  destruct (setState_ok false err n d (d + 1) i k s m Hm Hk Hf) as (m1 & E1 & Hm1 & Hp1 & Hl1 & _ & _ & Hk1 & Hu1).
  - intros _. auto.
  - lia.
  - intros ->. rewrite He by done. apply orb_true_r.
  - done.
  - by destruct s.
  - rewrite decide_True by done. by rewrite Hs.
  - exists m1. split; [done|].
    assert (Hu1' : unfinished (kids m1) < f) by (rewrite Hs in Hu1; cbn in Hu1; lia).
    destruct (notify_ok inv f i _ err n d m1 Hi Hm1 Hd Hu1' Hk1) as (m' & E' & Hm' & Hp' & Hl' & Hq').
    pose proof (pg_length _ _ Hp') as Hlen.
    pose proof (lookup_lt_Some _ _ _ Hk1) as Hlt1. rewrite <- Hlen in Hlt1.
    destruct (lookup_lt_is_Some_2 _ _ Hlt1) as [k' Hk'].
    destruct (pg_beh _ _ Hp' _ _ Hk') as (k1 & Hk1' & _ & Hfin & _).
    rewrite Hk1 in Hk1'. injection Hk1' as <-. cbn in Hfin.
    exists m', k'. split_and!; try done.
    + by eapply progress_trans.
    + by apply Hfin.
    + rewrite Hl', Hl1. unfold parent_coro. rewrite (pg_parent _ _ Hp1), (pg_length _ _ Hp1). done.
    + intros Hq. apply Hq', (quiet_set i k s m m1 Hk E1); [by destruct s|done].
Qed.

Lemma reportResult_ok inv f n d i k m :
  invoke_spec inv f -> mux_ok false n d m -> (0 <= d)%Z -> unfinished (kids m) <= f ->
  kids m !! i = Some k -> i < n -> fin (h_state k) = false ->
  finish_spec n d i m (reportResult inv i m).
Proof.
  intros Hi Hm Hd Hu Hk Hlt Hf. unfold reportResult.
  set (k1 := Helper (h_bound k) Succeeded (h_beh k)).
  assert (E : setState i Succeeded m = Ok (set_kids (<[i:=k1]> (kids m)) m)).
  { unfold setState, kid. by rewrite Hk. }
  rewrite E. res_cbn.
  assert (Hk1 : kids (set_kids (<[i:=k1]> (kids m)) m) !! i = Some k1).
  { cbn. rewrite list_lookup_insert_eq; [done|]. by eapply lookup_lt_Some. }
  unfold kid at 1. rewrite Hk1. res_cbn. change (h_beh k1) with (h_beh k). destruct (b_error (h_beh k)).
  - assert (E2 : setState i Failed (set_kids (<[i:=k1]> (kids m)) m) = setState i Failed m).
    { unfold setState, kid. rewrite Hk1, Hk. res_cbn. cbn [kids set_kids]. by rewrite list_insert_insert_eq. }
    rewrite E2. destruct (finish_ok inv f n d i k Failed true m Hi Hm Hd Hu Hk Hlt Hf eq_refl)
      as (m1 & E1 & m' & k' & E' & Hm' & Hp' & Hk' & Hs' & Hl' & Hq'); [done|].
    rewrite E1. res_cbn. exists m', k'. rewrite Hs'. split_and!; done.
  - res_cbn. destruct (finish_ok inv f n d i k Succeeded false m Hi Hm Hd Hu Hk Hlt Hf eq_refl)
      as (m1 & E1 & m' & k' & E' & Hm' & Hp' & Hk' & Hs' & Hl' & Hq'); [done|].
    rewrite E in E1. injection E1 as <-. exists m', k'. rewrite Hs'. split_and!; done.
Qed.

Lemma helper_invoke_ok inv f n d i k m :
  invoke_spec inv f -> mux_ok false n d m -> (0 <= d)%Z -> unfinished (kids m) <= f ->
  kids m !! i = Some k -> i < n -> h_state k = Running \/ h_state k = Cancelling ->
  finish_spec n d i m (helper_invoke inv i m).
Proof.
  intros Hi Hm Hd Hu Hk Hlt Hs. unfold helper_invoke, kid. rewrite Hk. res_cbn.
  destruct Hs as [Hs|Hs]; rewrite Hs.
  - eapply reportResult_ok; try done. by rewrite Hs.
  - destruct (b_must (h_beh k)); [eapply reportResult_ok; try done; by rewrite Hs|].
    destruct (finish_ok inv f n d i k Cancelled false m Hi Hm Hd Hu Hk Hlt)
      as (m1 & E1 & m' & k' & E' & Hm' & Hp' & Hk' & Hs' & Hl' & Hq'); try done; [by rewrite Hs|].
    rewrite E1. res_cbn. exists m', k'. rewrite Hs'. split_and!; done.
Qed.

(** [cancel()]: it answers whether the child ended up [Cancelled]. *)
Definition cancel_spec (n : nat) (d : Z) i m (r : res (bool * mux)) : Prop :=
  exists b m' k', r = Ok (b, m') /\ mux_ok false n d m' /\ progress m m' /\
    kids m' !! i = Some k' /\ b = bool_decide (h_state k' = Cancelled) /\ calm (h_state k') = true /\
    (d <> 0%Z \/ parent_ m = Noop -> log_ m' = log_ m).

Lemma slot_cancel_ok inv f n d i k m :
  invoke_spec inv f -> mux_ok false n d m -> (0 <= d)%Z -> unfinished (kids m) <= f ->
  kids m !! i = Some k -> cancel_spec n d i m (cancel inv i m).
Proof.
  intros Hi Hm Hd Hu Hk.
  assert (Hdone : calm (h_state k) = true ->
    cancel_spec n d i m (Ok (bool_decide (h_state k = Cancelled), m))).
  { intros Hn. exists (bool_decide (h_state k = Cancelled)), m, k. split_and!; try done. apply progress_refl. }
  assert (Hlog : forall m' : mux, (d <> 0%Z \/ parent_ m = Noop) -> (if decide (d = 0%Z /\
    fcount n (kids m') = length (kids m)) then parent_coro m else []) = []).
  { intros m' Hc. destruct (decide _) as [[Hd0 _]|]; [|done].
    destruct Hc as [?|Hp]; [congruence|]. unfold parent_coro. by rewrite Hp. }
  unfold cancel, kid. rewrite Hk. res_cbn. destruct (h_state k) eqn:Hs; try exact (Hdone ltac:(done)).
  - (* NotStarted *)
    destruct (decide (i < n)) as [Hlt|Hge].
    { destruct (mo_started _ _ _ _ Hm i k Hk Hlt) as [?|[?|Hf]]; try congruence. by rewrite Hs in Hf. }
    destruct (mo_waiting _ _ _ _ Hm i k Hk ltac:(lia)) as [?|[?|[_ He]]]; try congruence. rewrite He.
    destruct (setState_ok false false n d d i k CancellationPending m Hm Hk) as (m1 & -> & Hm1 & Hp1 & Hl1 & _ & _ & Hk1 & _);
      rewrite ?Hs; try done; try lia; [by left|rewrite decide_False by done; lia|].
    res_cbn. eexists false, m1, _. split_and!; try done.
  - (* Running *)
    assert (Hlt : i < n).
    { destruct (decide (i < n)) as [?|Hge]; [done|].
      destruct (mo_waiting _ _ _ _ Hm i k Hk ltac:(lia)) as [?|[?|[? _]]]; congruence. }
    destruct (setState_ok false false n d d i k Cancelling m Hm Hk) as (m1 & E1 & Hm1 & Hp1 & Hl1 & _ & _ & Hk1 & Hu1);
      rewrite ?Hs; try done; try lia; [auto|rewrite decide_True by done; cbn; lia|].
    rewrite E1. res_cbn. cbn in Hu1. destruct (b_cancel (h_beh k)).
    + destruct (finish_ok inv f n d i _ Cancelled false m1 Hi Hm1 Hd ltac:(lia) Hk1 Hlt eq_refl eq_refl)
        as (m2 & E2 & m' & k' & E' & Hm' & Hp' & Hk' & Hs' & Hl' & Hq'); [done|].
      rewrite E2. res_cbn. rewrite E'. res_cbn. exists true, m', k'. rewrite Hs'. split_and!; try done.
      * by eapply progress_trans.
      * intros Hc. rewrite Hl', Hl1. unfold parent_coro. rewrite (pg_parent _ _ Hp1), (pg_length _ _ Hp1).
        change (handle_coro (parent_ m)) with (parent_coro m). rewrite Hlog by done. apply app_nil_r.
    + eexists false, m1, _. split_and!; try done.
    + destruct (helper_invoke_ok inv f n d i _ m1 Hi Hm1 Hd ltac:(lia) Hk1 Hlt)
        as (m' & k' & E' & Hm' & Hp' & Hk' & Hf' & Hl' & _); [by right|].
      rewrite E'. res_cbn. rewrite Hk'. res_cbn.
      eexists _, m', k'. split_and!; try done.
      * by eapply progress_trans.
      * by destruct (h_state k').
      * intros Hc. rewrite Hl', Hl1. unfold parent_coro. rewrite (pg_parent _ _ Hp1), (pg_length _ _ Hp1).
        change (handle_coro (parent_ m)) with (parent_coro m). rewrite Hlog by done. apply app_nil_r.
Qed.

Lemma cancel_from_ok inv f n d js m :
  invoke_spec inv f -> mux_ok false n d m -> (0 <= d)%Z -> unfinished (kids m) <= f ->
  (forall j, j ∈ js -> j < length (kids m)) ->
  exists b m', cancel_from inv js m = Ok (b, m') /\ mux_ok false n d m' /\ progress m m' /\
    (b = true -> forall j k, j ∈ js -> kids m' !! j = Some k -> h_state k = Cancelled) /\
    (forall j k, j ∈ js -> kids m' !! j = Some k -> calm (h_state k) = true) /\
    (d <> 0%Z \/ parent_ m = Noop -> log_ m' = log_ m).
Proof.
  revert m. induction js as [|j js IH]; intros m Hi Hm Hd Hu Hjs; cbn [cancel_from].
  - exists true, m. split_and!; try done; [apply progress_refl|set_solver..].
  - destruct (lookup_lt_is_Some_2 _ _ (Hjs j ltac:(set_solver))) as [k Hk].
    destruct (slot_cancel_ok inv f n d j k m Hi Hm Hd Hu Hk) as (b1 & m1 & k1 & -> & Hm1 & Hp1 & Hk1 & Hb1 & Hn1 & Hl1).
    res_cbn. destruct (IH m1 Hi Hm1 Hd) as (b2 & m2 & -> & Hm2 & Hp2 & Ht2 & Hn2 & Hl2).
    { pose proof (pg_unfinished _ _ Hp1). lia. }
    { intros j' Hj'. rewrite (pg_length _ _ Hp1). apply Hjs. set_solver. }
    res_cbn. exists (b1 && b2), m2.
    assert (Hj2 : forall k2, kids m2 !! j = Some k2 -> (fin (h_state k1) = true -> h_state k2 = h_state k1) /\
      (calm (h_state k1) = true -> calm (h_state k2) = true)).
    { intros k2 Hk2. destruct (pg_beh _ _ Hp2 _ _ Hk2) as (k1' & Hk1' & _ & Hfin & Hns). naive_solver. }
    split_and!; try done.
    + by eapply progress_trans.
    + intros [-> ->]%andb_true_iff j' k' Hj' Hk'. symmetry in Hb1. apply bool_decide_eq_true in Hb1.
      apply elem_of_cons in Hj' as [->|Hj']; [|by eapply Ht2].
      destruct (Hj2 _ Hk') as [Hfin _]. rewrite Hfin; rewrite Hb1; done.
    + intros j' k' Hj' Hk'. apply elem_of_cons in Hj' as [->|Hj']; [|by eapply Hn2].
      destruct (Hj2 _ Hk') as [_ Hns]. auto.
    + intros Hc. rewrite Hl2, Hl1; [done|done|]. destruct Hc; [by left|right]. by rewrite (pg_parent _ _ Hp1).
Qed.

Lemma mux_ok_count p n d m c e :
  mux_ok p n d m -> (error_ m = true -> e = true) -> (p = true -> e = true) ->
  mux_ok false n (d + (count_ m - c)) (set_count c (set_error e m)).
Proof.
  intros [] He Hp. split; cbn; try done; [lia|].
  intros k Hk Hs. specialize (mo_failed0 k Hk Hs). rewrite orb_false_r.
  apply orb_true_iff in mo_failed0 as [?|?]; auto.
Qed.

Lemma progress_set m c e : progress m (set_count c (set_error e m)).
Proof. split; try done. intros i k' Hk. by exists k'. Qed.

Lemma internalCancel_ok inv f n d m :
  invoke_spec inv f -> mux_ok false n d m -> (0 <= d)%Z -> unfinished (kids m) <= f ->
  exists b m', internalCancel inv m = Ok (b, m') /\ mux_ok false n d m' /\ progress m m' /\
    (b = true -> forall k, k ∈ kids m' -> h_state k = Cancelled) /\
    (forall k, k ∈ kids m' -> calm (h_state k) = true) /\
    (d <> 0%Z \/ parent_ m = Noop -> log_ m' = log_ m).
Proof.
  intros Hi Hm Hd Hu.
  destruct (cancel_from_ok inv f n d (seq 0 (length (kids m))) m Hi Hm Hd Hu)
    as (b & m' & E & Hm' & Hp' & Ht & Hn & Hl).
  { intros j Hj. apply elem_of_seq in Hj. lia. }
  exists b, m'. split_and!; try done.
  - intros Hb k [j Hk]%list_elem_of_lookup. apply (Ht Hb j); [|done]. apply elem_of_seq.
    apply lookup_lt_Some in Hk. rewrite (pg_length _ _ Hp') in Hk. lia.
  - intros k [j Hk]%list_elem_of_lookup. apply (Hn j); [|done]. apply elem_of_seq.
    apply lookup_lt_Some in Hk. rewrite (pg_length _ _ Hp') in Hk. lia.
Qed.

Lemma set_count_same c m : set_count c m = set_count c (set_error (error_ m) m).
Proof. done. Qed.

Lemma invoke_ok f : invoke_spec (invoke f) f.
Proof.
  induction f as [|f IH]; intros err n d m Hm Hd Hu; [lia|]. cbn [invoke]. cbv zeta.
  change (error_ (set_count (count_ m + 1) m)) with (error_ m).
  set (e := if err && negb (error_ m) then true else error_ m).
  assert (Hme : (if err && negb (error_ m) then set_error true (set_count (count_ m + 1) m)
    else set_count (count_ m + 1) m) = set_count (count_ m + 1) (set_error e m)).
  { subst e. by destruct (err && negb (error_ m)). }
  rewrite Hme. assert (He : (error_ m = true -> e = true) /\ (err = true -> e = true)).
  { subst e. destruct err, (error_ m); done. }
  destruct He as [He1 He2]. set (m1 := set_count (count_ m + 1) (set_error e m)).
  assert (Hm1 : mux_ok false n d m1).
  { pose proof (mux_ok_count err n (d + 1) m (count_ m + 1) e Hm He1 He2) as Hx.
    replace (d + 1 + (count_ m - (count_ m + 1)))%Z with d in Hx by lia. exact Hx. }
  assert (Hp1 : progress m m1) by apply progress_set.
  pose proof (mo_count _ _ _ _ Hm) as HC. pose proof (fcount_le n (kids m)) as HF. unfold size.
  change (kids m1) with (kids m).
  destruct (Z.eqb_spec (count_ m + 1) (Z.of_nat (length (kids m)))) as [Hi|Hi].
  { eexists. split; [done|]. split_and!; [by destruct Hm1|by destruct Hp1| |].
    - cbn. rewrite decide_True by lia. done.
    - intros _ _ k Hk. cbn in Hk. assert (Hall : is_fin k = true).
      { apply (cnt_all is_fin (kids m)); [|done]. pose proof (mo_n _ _ _ _ Hm).
        unfold fcount in *. pose proof (cnt_length is_fin (take n (kids m))) as HL.
        rewrite length_take in HL. assert (HT : take n (kids m) = kids m) by (apply take_ge; lia).
        rewrite HT in *. lia. }
      unfold is_fin in Hall. by destruct (h_state k). }
  destruct (err && negb (error_ m) || (count_ m + 1 =? minReady m1)%Z) eqn:Htrig.
  2: { apply orb_false_iff in Htrig as [Hff Hmin%Z.eqb_neq].
       exists m1. split_and!; try done.
       - rewrite decide_False; [by rewrite app_nil_r|]. change (kids m1) with (kids m). lia.
       - intros Hq Hc. apply Hq. destruct Hc as [Hc|Hc].
         + left. change (error_ m1) with e in Hc. subst e. by rewrite Hff in Hc.
         + right. change (minReady m1) with (minReady m) in *. change (count_ m1) with (count_ m + 1)%Z in Hc. lia. }
  set (m2 := set_count (count_ m1 - 1) m1).
  assert (Hm2 : mux_ok false n (d + 1) m2).
  { pose proof (mux_ok_count false n d m1 (count_ m1 - 1) (error_ m1) Hm1 ltac:(done) ltac:(done)) as Hx.
    replace (d + (count_ m1 - (count_ m1 - 1)))%Z with (d + 1)%Z in Hx by lia. exact Hx. }
  destruct (internalCancel_ok (invoke f) f n (d + 1) m2 IH Hm2 ltac:(lia)) as (b & m3 & E3 & Hm3 & Hp3 & _ & Hcm & Hl3).
  { change (kids m2) with (kids m). lia. }
  rewrite E3. res_cbn.
  pose proof (mo_count _ _ _ _ Hm3) as HC3. pose proof (fcount_le n (kids m3)) as HF3.
  set (m4 := set_count (count_ m3 + 1) m3).
  assert (Hm4 : mux_ok false n d m4).
  { pose proof (mux_ok_count false n (d + 1) m3 (count_ m3 + 1) (error_ m3) Hm3 ltac:(done) ltac:(done)) as Hx.
    replace (d + 1 + (count_ m3 - (count_ m3 + 1)))%Z with d in Hx by lia. exact Hx. }
  assert (Hp4 : progress m m4).
  { eapply progress_trans; [exact Hp1|]. apply (progress_trans m1 m3 m4).
    - eapply (progress_trans m1 m2 m3); [apply (progress_set m1 _ (error_ m1))|exact Hp3].
    - apply (progress_set m3 _ (error_ m3)). }
  assert (Hl4 : log_ m3 = log_ m) by (apply Hl3; left; lia).
  assert (Hpar : parent_ m4 = parent_ m) by (by rewrite (pg_parent _ _ Hp4)).
  change (count_ m4) with (count_ m3 + 1)%Z. change (kids m4) with (kids m3).
  pose proof (pg_length _ _ Hp4) as Hlen. change (kids m4) with (kids m3) in Hlen.
  destruct (Z.eqb_spec (count_ m3 + 1) (Z.of_nat (length (kids m3)))) as [Hj|Hj].
  - eexists. split; [done|]. split_and!; [by destruct Hm4|by destruct Hp4| |by intros _ _].
    cbn [log_ resume_handle]. change (log_ m4) with (log_ m3). rewrite Hl4, Hpar.
    rewrite decide_True; [done|]. cbn [kids resume_handle]. change (kids m4) with (kids m3). lia.
  - exists m4. split_and!; try done; [|by intros _ _]. change (log_ m4) with (log_ m3). rewrite Hl4.
    rewrite decide_False; [by rewrite app_nil_r|]. change (kids m4) with (kids m3). lia.
Qed.

(** * Starting the children *)

Lemma take_S_insert {A} (l : list A) n x y :
  l !! n = Some y -> take (S n) (<[n:=x]> l) = take n l ++ [x].
Proof.
  intros Hl. rewrite take_insert_lt by lia. rewrite (take_S_r _ _ _ Hl).
  rewrite insert_app_r_alt by (rewrite length_take; lia). f_equal.
  rewrite length_take, Nat.min_l by (apply lookup_lt_Some in Hl; lia). by rewrite Nat.sub_diag.
Qed.

Lemma cnt_app f l1 l2 : cnt f (l1 ++ l2) = cnt f l1 + cnt f l2.
Proof. unfold cnt. apply sum_list_with_app. Qed.

(** The next child is started. *)
Lemma advance_ok n d k s m :
  mux_ok false n d m -> kids m !! n = Some k -> (s = h_state k \/ fin (h_state k) = false) ->
  s = Running \/ s = Cancelling \/ s = Failed \/ s = Cancelled ->
  (s = Running -> h_state k = NotStarted) ->
  exists m', setState n s m = Ok m' /\ mux_ok (bool_decide (s = Failed)) (S n) (d + Z.b2z (fin s)) m' /\
    progress m m' /\ log_ m' = log_ m /\ kids m' !! n = Some (Helper (h_bound k) s (h_beh k)) /\ (quiet m -> quiet m').
Proof.
  intros Hm Hk Hf Hs Hsr. unfold setState, kid. rewrite Hk. res_cbn. eexists. split; [done|].
  set (k' := Helper (h_bound k) s (h_beh k)). pose proof (lookup_lt_Some _ _ _ Hk) as Hlt.
  destruct Hm. split; [|split; [|split; [done|split]]].
  - split; cbn [kids set_kids count_ error_].
    + intros q [j Hq]%list_elem_of_lookup. apply list_lookup_insert_Some in Hq as [(-> & <- & _)|(_ & Hq)].
      * cbn. eapply mo_bound0, list_elem_of_lookup_2, Hk.
      * eapply mo_bound0, list_elem_of_lookup_2, Hq.
    + unfold fcount in *. rewrite (take_S_insert _ _ _ _ Hk), cnt_app. unfold cnt at 2. cbn.
      change (is_fin k') with (fin s). destruct (fin s); cbn [Z.b2z Nat.b2n]; lia.
    + intros j q Hq Hj. apply list_lookup_insert_Some in Hq as [(-> & <- & _)|(Hne & Hq)].
      * cbn. destruct Hs as [->|[->|[->| ->]]]; auto.
      * apply (mo_started0 j); [done|lia].
    + intros j q Hq Hj. apply list_lookup_insert_Some in Hq as [(-> & <- & _)|(Hne & Hq)]; [lia|].
      apply (mo_waiting0 j); [done|lia].
    + intros q [j Hq]%list_elem_of_lookup Hqf. apply list_lookup_insert_Some in Hq as [(-> & <- & _)|(_ & Hq)].
      * cbn in Hqf. rewrite bool_decide_true by done. apply orb_true_r.
      * pose proof (mo_failed0 q (list_elem_of_lookup_2 _ _ _ Hq) Hqf) as HE.
        rewrite orb_false_r in HE. by rewrite HE.
    + rewrite length_insert. lia.
  - split; try done; cbn [kids set_kids]; [by rewrite length_insert| |].
    + intros j q Hq. apply list_lookup_insert_Some in Hq as [(-> & <- & _)|(_ & Hq)]; [|by exists q].
      exists k. split_and!; [done|done| |].
      * cbn. destruct Hf as [->|Hf]; [done|]. by rewrite Hf.
      * cbn. intros Hc. destruct Hs as [->|[->|[->| ->]]]; try done. by rewrite Hsr in Hc.
    + pose proof (cnt_insert not_fin _ _ _ k' Hk) as HC. unfold unfinished.
      assert (E1 : not_fin k' = negb (fin s)) by done. unfold not_fin in HC at 2. rewrite E1 in HC.
      destruct Hf as [->|Hf]; [lia|]. rewrite Hf in HC. destruct (fin s); cbn [negb Nat.b2n] in HC; lia.
  - cbn [kids set_kids]. by rewrite list_lookup_insert_eq.
  - intros Hq Hc q [j Hj]%list_elem_of_lookup. cbn in Hj.
    apply list_lookup_insert_Some in Hj as [(-> & <- & _)|(_ & Hj)].
    + cbn. specialize (Hq Hc k ltac:(by eapply list_elem_of_lookup_2)).
      destruct Hs as [->|[->|[->| ->]]]; try done. by rewrite Hsr in Hq.
    + apply (Hq Hc). by eapply list_elem_of_lookup_2.
Qed.

Definition step_log n m m' : Prop :=
  log_ m' = log_ m ++ (if decide (fcount n (kids m') = length (kids m)) then parent_coro m else []).

Lemma log_simpl n (m m' : mux) :
  (if decide (0%Z = 0%Z /\ fcount n (kids m') = length (kids m)) then parent_coro m else []) =
  (if decide (fcount n (kids m') = length (kids m)) then parent_coro m else []).
Proof. repeat case_decide; tauto. Qed.

(** A child has just been marked as started. *)
Definition kicked inv n k m : res mux :=
  if b_ready (h_beh k) then helper_invoke inv n m
  else match b_suspend (h_beh k) with
       | Later => Ok m
       | AtOnce => helper_invoke inv n m
       | Throws => m ← setState n Failed m; notify inv n true m
       end.
Lemma kicked_ok inv f n k m :
  invoke_spec inv f -> mux_ok false (S n) 0 m -> n < length (kids m) -> unfinished (kids m) < f ->
  kids m !! n = Some k -> h_state k = Running \/ h_state k = Cancelling ->
  exists m', kicked inv n k m = Ok m' /\ mux_ok false (S n) 0 m' /\ progress m m' /\ step_log (S n) m m' /\ (quiet m -> quiet m').
Proof.
  intros Hi Hm Hn Hu Hk Hs. unfold kicked.
  assert (Hrun : exists m', helper_invoke inv n m = Ok m' /\ mux_ok false (S n) 0 m' /\ progress m m' /\ step_log (S n) m m' /\ (quiet m -> quiet m')).
  { destruct (helper_invoke_ok inv f (S n) 0 n _ m Hi Hm ltac:(lia) ltac:(lia) Hk ltac:(lia) Hs)
      as (m' & k' & E' & Hm' & Hp' & _ & _ & Hl' & Hq').
    exists m'. split_and!; try done. unfold step_log. by rewrite Hl', log_simpl. }
  destruct (b_ready (h_beh k)); [done|]. destruct (b_suspend (h_beh k)); [|done|].
  - exists m. split_and!; try done; try apply progress_refl. unfold step_log. case_decide as Hd; [|by rewrite app_nil_r].
    exfalso. assert (HF : is_fin k = true).
    { apply (cnt_all is_fin (take (S n) (kids m))).
      - unfold fcount in Hd. pose proof (cnt_length is_fin (take (S n) (kids m))) as HL. rewrite length_take in *. lia.
      - apply list_elem_of_lookup_2 with n. by rewrite lookup_take_lt by lia. }
    unfold is_fin in HF. by destruct Hs as [Hs|Hs]; rewrite Hs in HF.
  - destruct (finish_ok inv f (S n) 0 n k Failed true m Hi Hm ltac:(lia))
      as (m2 & E2 & m' & k' & E' & Hm' & Hp' & _ & _ & Hl' & Hq'); try done; [lia|lia|by destruct Hs as [->| ->]|].
    rewrite E2. res_cbn. exists m'. split_and!; try done. unfold step_log. by rewrite Hl', log_simpl.
Qed.

Lemma slot_suspend_ok inv f n m :
  invoke_spec inv f -> mux_ok false n 0 m -> n < length (kids m) -> unfinished (kids m) < f ->
  exists m', suspend inv n m = Ok m' /\ mux_ok false (S n) 0 m' /\ progress m m' /\ step_log (S n) m m' /\ (quiet m -> quiet m').
Proof.
  intros Hi Hm Hn Hu. destruct (lookup_lt_is_Some_2 _ _ Hn) as [k Hk].
  unfold suspend, kickOff, kid. rewrite Hk. res_cbn.
  pose proof (mo_waiting _ _ _ _ Hm n k Hk (le_n n)) as Hw.
  assert (Hkick : fin (h_state k) = false ->
    exists m', (m0 ← setState n (if decide (h_state k = CancellationPending) then Cancelling else Running) m;
      kicked inv n k m0) = Ok m' /\
      mux_ok false (S n) 0 m' /\ progress m m' /\ step_log (S n) m m' /\ (quiet m -> quiet m')).
  { intros Hf. set (s := if decide (h_state k = CancellationPending) then Cancelling else Running).
    assert (Hs : s = Running \/ s = Cancelling) by (subst s; case_decide; auto).
    destruct (advance_ok n 0 k s m Hm Hk (or_intror Hf)) as (m1 & E1 & Hm1 & Hp1 & Hl1 & Hk1 & Hq1);
      [tauto|intros Hr; destruct Hw as [Hw|[Hw|[Hw _]]]; try done; [subst s; by rewrite decide_True in Hr|by rewrite Hw in Hf]|].
    rewrite bool_decide_false in Hm1 by (destruct Hs as [->| ->]; done).
    replace (0 + Z.b2z (fin s))%Z with 0%Z in Hm1 by (destruct Hs as [->| ->]; done).
    pose proof (pg_unfinished _ _ Hp1). pose proof (pg_length _ _ Hp1) as Hlen.
    destruct (kicked_ok inv f n _ m1 Hi Hm1 ltac:(lia) ltac:(lia) Hk1 Hs) as (m' & E' & Hm' & Hp' & Hl' & Hq').
    rewrite E1. res_cbn. exists m'. split_and!; [exact E'|done|by eapply progress_trans| |by auto].
    unfold step_log in *. rewrite Hl', Hl1. unfold parent_coro. by rewrite (pg_parent _ _ Hp1), Hlen. }
  destruct Hw as [Hs|[Hs|[Hs _]]]; rewrite Hs in *; [by apply Hkick| |by apply Hkick].
  (* cancelled before it was started *)
  destruct (advance_ok n 0 k Cancelled m Hm Hk (or_introl (eq_sym Hs))) as (m1 & E1 & Hm1 & Hp1 & Hl1 & Hk1 & _); [tauto|done|].
  assert (m1 = m) as ->.
  { unfold setState, kid in E1. rewrite Hk in E1. cbn in E1. injection E1 as <-.
    rewrite list_insert_id; [by destruct m|]. rewrite Hk. f_equal. destruct k; cbn in *. by subst. }
  rewrite bool_decide_false in Hm1 by done. cbn in Hm1.
  destruct (notify_ok inv f n k false (S n) 0 m Hi Hm1 ltac:(lia) Hu Hk) as (m' & E' & Hm' & Hp' & Hl' & Hq').
  exists m'. split_and!; try done. unfold step_log. by rewrite Hl', log_simpl.
Qed.

Lemma suspend_from_ok inv f n l p m :
  invoke_spec inv f -> mux_ok false n 0 m -> n + l = length (kids m) -> unfinished (kids m) < f ->
  quiet m -> parent_ m = Coro p -> 0 < l ->
  exists m', suspend_from inv (seq n l) m = Ok m' /\ mux_ok false (n + l) 0 m' /\ progress m m' /\
    log_ m' = log_ m ++ (if decide (fcount (n + l) (kids m') = length (kids m)) then [p] else []) /\
    quiet m'.
Proof.
  intros Hi. revert n m. induction l as [|l IH]; intros n m Hm Hn Hu Hq Hp Hl; [lia|].
  cbn [seq suspend_from].
  destruct (slot_suspend_ok inv f n m Hi Hm ltac:(lia) Hu) as (m1 & E1 & Hm1 & Hp1 & Hl1 & Hq1).
  rewrite E1. res_cbn. unfold step_log, parent_coro in Hl1. rewrite Hp in Hl1. cbn in Hl1.
  destruct (decide (l = 0)) as [->|Hne].
  { cbn [seq suspend_from]. rewrite Nat.add_1_r. exists m1. split_and!; auto. }
  assert (Hlt : fcount (S n) (kids m1) <> length (kids m)).
  { pose proof (cnt_length is_fin (take (S n) (kids m1))) as HL. rewrite length_take in HL.
    unfold fcount. lia. }
  rewrite decide_False in Hl1 by done. rewrite app_nil_r in Hl1.
  pose proof (pg_length _ _ Hp1) as Hlen. pose proof (pg_unfinished _ _ Hp1).
  destruct (IH (S n) m1 Hm1 ltac:(lia) ltac:(lia) (Hq1 Hq) ltac:(by rewrite (pg_parent _ _ Hp1)) ltac:(lia))
    as (m2 & E2 & Hm2 & Hp2 & Hl2 & Hq2).
  exists m2. rewrite Nat.add_succ_r, <- Nat.add_succ_l. split_and!; try done.
  - by eapply progress_trans.
  - by rewrite Hl2, Hl1, Hlen.
Qed.

(** * Life of a mux *)

(** Before [await_suspend()]: children that were not started, or were cancelled
    early.  A child that can still be cancelled early, and has not been, must not
    come after one that finishes while the children are being started: see
    [premature_resume].  [ks1] are started before any child finishes, [k] is the
    first that may. *)
Definition waiting k : Prop :=
  h_state k = CancellationPending \/ h_state k = Cancelled \/
  h_state k = NotStarted /\ b_early (h_beh k) = false.
Definition asynchronous k : Prop :=
  h_state k = NotStarted /\ b_ready (h_beh k) = false /\ b_suspend (h_beh k) = Later.

Record startable m : Prop := {
  st_kids : kids m <> [];
  st_count : count_ m = 0%Z;
  st_error : error_ m = false;
  st_log : log_ m = [];
  st_min : (0 < minReady m)%Z;
  st_safe : Forall waiting (kids m) \/
    exists ks1 k ks2, kids m = ks1 ++ k :: ks2 /\ Forall asynchronous ks1 /\ h_state k = NotStarted /\ Forall waiting ks2 }.

(** A mux whose children have all been started. *)
Record running (p : loc) m : Prop := {
  rn_ok : mux_ok false (length (kids m)) 0 m;
  rn_quiet : quiet m;
  rn_parent : parent_ m = Coro p }.

Lemma unfinished_fcount ks : fcount (length ks) ks + unfinished ks = length ks.
Proof.
  unfold fcount, unfinished. rewrite take_ge by lia.
  induction ks as [|k ks IH]; [done|]. rewrite !cnt_cons. cbn [length].
  unfold is_fin, not_fin in *. destruct (fin (h_state k)); cbn [negb Nat.b2n]; lia.
Qed.
Lemma cnt_ext f g ks : (forall k, k ∈ ks -> f k = g k) -> cnt f ks = cnt g ks.
Proof.
  induction ks as [|k ks IH]; intros He; [done|]. rewrite !cnt_cons, (He k), IH by set_solver. done.
Qed.
Lemma cnt_zero ks : unfinished ks = 0 <-> forall k, k ∈ ks -> fin (h_state k) = true.
Proof.
  pose proof (unfinished_fcount ks) as HF. unfold fcount in HF. rewrite take_ge in HF by lia. split.
  - intros Hz k Hk. apply (cnt_all is_fin ks); [lia|done].
  - intros Hf. rewrite (cnt_full is_fin ks) in HF; [lia|]. exact Hf.
Qed.
Lemma unfinished_le ks : unfinished ks <= length ks.
Proof. apply cnt_length. Qed.

Lemma mux_invoke_ok m f : f <= fuel_of m -> invoke_spec (mux_invoke m) f.
Proof.
  intros Hf err n d m0 Hm Hd Hu. apply (invoke_ok (fuel_of m)); [done|done|lia].
Qed.

(** Starting children that will all finish later. *)
Definition start_later k : helper := Helper (h_bound k) Running (h_beh k).
Lemma suspend_from_async inv n ks1 ks2 ks3 m :
  kids m = ks1 ++ ks2 ++ ks3 -> length ks1 = n -> Forall asynchronous ks2 ->
  suspend_from inv (seq n (length ks2)) m = Ok (set_kids (ks1 ++ (start_later <$> ks2) ++ ks3) m).
Proof.
  revert n ks1 m. induction ks2 as [|k ks2 IH]; intros n ks1 m Hk Hl Hf; cbn [length seq suspend_from].
  - cbn in *. rewrite <- Hk. by destruct m.
  - apply Forall_cons in Hf as [(Hs & Hr & Hb) Hf].
    assert (Hkn : kids m !! n = Some k) by (rewrite Hk, lookup_app_r, Hl, Nat.sub_diag by lia; done).
    unfold suspend, kickOff, setState, kid. rewrite Hkn. res_cbn. rewrite Hs. rewrite decide_False by done.
    rewrite ?Hkn. res_cbn. rewrite Hr, Hb. res_cbn.
    rewrite (IH (S n) (ks1 ++ [start_later k])).
    + f_equal. cbn. by rewrite <- app_assoc.
    + cbn. rewrite Hk, <- app_assoc. rewrite insert_app_r_alt by lia. by rewrite Hl, Nat.sub_diag.
    + rewrite length_app. cbn. lia.
    + done.
Qed.
Lemma suspend_from_app inv js1 js2 m :
  suspend_from inv (js1 ++ js2) m = m' ← suspend_from inv js1 m; suspend_from inv js2 m'.
Proof.
  revert m. induction js1 as [|j js1 IH]; intros m; [done|]. cbn [app suspend_from].
  destruct (suspend inv j m) as [m1|]; [apply IH|done].
Qed.
Lemma no_fin_started ks1 ks2 : fcount (length ks1) ((start_later <$> ks1) ++ ks2) = 0.
Proof.
  unfold fcount. rewrite take_app_le by (by rewrite length_fmap). rewrite take_ge by (by rewrite length_fmap).
  induction ks1 as [|k ks1 IH]; [done|]. cbn [fmap list_fmap]. by rewrite cnt_cons, IH.
Qed.

(** The first children are started without anything else happening, the next one
    and the others may finish at once. *)
Lemma started_prefix ks1 ks2 m :
  kids m = (start_later <$> ks1) ++ ks2 -> Forall waiting ks2 ->
  (forall k, k ∈ kids m -> h_bound k = true) -> count_ m = 0%Z -> error_ m = false -> (0 < minReady m)%Z ->
  mux_ok false (length ks1) 0 m /\ quiet m.
Proof.
  intros Hk Hw Hb Hc He Hmin.
  assert (Hat : forall i k, kids m !! i = Some k -> (i < length ks1 -> h_state k = Running) /\ (length ks1 <= i -> waiting k)).
  { intros i k Hi. rewrite Hk in Hi. apply lookup_app_Some in Hi as [Hi|[Hle Hi]].
    - split; [|apply lookup_lt_Some in Hi; rewrite length_fmap in Hi; lia]. intros _.
      apply list_lookup_fmap_Some in Hi as (k0 & -> & _). done.
    - rewrite length_fmap in Hle, Hi. split; [lia|]. intros _. by apply (Forall_lookup_1 _ _ _ _ Hw Hi). }
  split; [split|].
  - done.
  - rewrite Hk, no_fin_started, Hc. done.
  - intros i k Hi Hlt. left. by apply (Hat i k Hi).
  - intros i k Hi Hle. by apply (Hat i k Hi).
  - intros k [i Hi]%list_elem_of_lookup Hs. destruct (Hat i k Hi) as [H1 H2].
    destruct (Nat.lt_ge_cases i (length ks1)) as [Hx|Hx]; [rewrite H1 in Hs by done; done|].
    destruct (H2 Hx) as [?|[?|[? _]]]; congruence.
  - rewrite Hk, length_app, length_fmap. lia.
  - intros [Hx|Hx]; [congruence|rewrite Hc in Hx; lia].
Qed.

Lemma start_kids_ok p m ks1 k ks2 :
  kids m = ks1 ++ k :: ks2 -> Forall asynchronous ks1 -> h_state k = NotStarted -> Forall waiting ks2 ->
  (forall k, k ∈ kids m -> h_bound k = true) -> count_ m = 0%Z -> error_ m = false -> (0 < minReady m)%Z ->
  log_ m = [] -> parent_ m = Coro p ->
  exists m', suspend_from (mux_invoke m) (seq 0 (length (kids m))) m = Ok m' /\
    mux_ok false (length (kids m)) 0 m' /\ quiet m' /\
    progress (set_kids ((start_later <$> (ks1 ++ [k])) ++ ks2) m) m' /\
    log_ m' = if decide (fcount (length (kids m)) (kids m') = length (kids m)) then [p] else [].
Proof.
  intros Hk Ha Hs Hw Hb Hc He Hmin Hlog Hp. set (n := length ks1). set (m1 := set_kids _ m).
  assert (Hl : length (kids m) = n + S (length ks2)) by (by rewrite Hk, length_app).
  assert (Hl1 : length (kids m1) = length (kids m)) by (rewrite Hl; cbn; rewrite length_app, length_fmap, length_app; cbn; lia).
  assert (Hn : length (ks1 ++ [k]) = S n) by (rewrite length_app; cbn; lia).
  assert (Hb1 : forall k, k ∈ kids m1 -> h_bound k = true).
  { intros k' Hx. cbn in Hx. rewrite elem_of_app, list_elem_of_fmap in Hx.
    destruct Hx as [(k0 & -> & Hx)|Hx]; [change (h_bound k0 = true)|]; apply Hb; rewrite Hk, elem_of_app, elem_of_cons.
    - apply elem_of_app in Hx as [?|Hx%list_elem_of_singleton]; auto.
    - auto. }
  destruct (started_prefix (ks1 ++ [k]) ks2 m1 eq_refl Hw Hb1 Hc He Hmin) as [Hm1 Hq1]. rewrite Hn in Hm1.
  assert (Hk1 : kids m1 !! n = Some (start_later k)).
  { cbn. rewrite fmap_app, <- app_assoc, lookup_app_r; rewrite length_fmap; [by rewrite Nat.sub_diag|done]. }
  pose proof (unfinished_le (kids m1)).
  destruct (kicked_ok (mux_invoke m) (fuel_of m) n (start_later k) m1)
    as (m2 & E2 & Hm2 & Hp2 & Hl2 & Hq2); [by apply mux_invoke_ok|done|lia|unfold fuel_of; lia|done|by left|].
  assert (E1 : suspend_from (mux_invoke m) (seq 0 (length (kids m))) m =
    m' ← kicked (mux_invoke m) n (start_later k) m1; suspend_from (mux_invoke m) (seq (S n) (length ks2)) m').
  { unfold n in *. rewrite Hl, seq_app, suspend_from_app. rewrite (suspend_from_async _ 0 [] ks1 (k :: ks2) m Hk eq_refl Ha).
    res_cbn. cbn [app seq suspend_from Nat.add]. unfold suspend, kickOff, setState, kid. cbn [kids set_kids].
    assert (Hkn : ((start_later <$> ks1) ++ k :: ks2) !! length ks1 = Some k)
      by (rewrite lookup_app_r; rewrite length_fmap; [by rewrite Nat.sub_diag|done]).
    rewrite Hkn. res_cbn. rewrite Hs. rewrite decide_False by done. cbn [kids set_kids]. rewrite ?Hkn. res_cbn.
    assert (Ei : <[length ks1:=Helper (h_bound k) Running (h_beh k)]> ((start_later <$> ks1) ++ k :: ks2) = kids m1).
    { rewrite insert_app_r_alt by (by rewrite length_fmap). rewrite length_fmap, Nat.sub_diag. cbn.
      by rewrite fmap_app, <- app_assoc. }
    rewrite Ei. unfold kicked. cbn [start_later h_beh]. done. }
  rewrite E1, E2. res_cbn. unfold step_log, parent_coro in Hl2. change (parent_ m1) with (parent_ m) in Hl2.
  change (log_ m1) with (log_ m) in Hl2. rewrite Hp, Hlog, Hl1 in Hl2. cbn in Hl2.
  pose proof (pg_length _ _ Hp2) as Hlen2. pose proof (pg_unfinished _ _ Hp2).
  destruct (decide (length ks2 = 0)) as [Hz|Hz].
  { rewrite Hz. cbn [seq suspend_from]. exists m2. replace (S n) with (length (kids m)) in Hm2, Hl2 by lia.
    split_and!; auto. }
  assert (Hf : fcount (S n) (kids m2) <> length (kids m)).
  { pose proof (cnt_length is_fin (take (S n) (kids m2))) as HL. rewrite length_take in HL. unfold fcount. lia. }
  rewrite decide_False in Hl2 by done.
  destruct (suspend_from_ok (mux_invoke m) (fuel_of m) (S n) (length ks2) p m2)
    as (m' & E & Hm' & Hp' & Hl' & Hq'); [by apply mux_invoke_ok|done|lia|unfold fuel_of; lia|by apply Hq2| |lia|].
  { by rewrite (pg_parent _ _ Hp2). }
  exists m'. replace (S n + length ks2) with (length (kids m)) in Hm', Hl' by lia.
  split_and!; [done..|by eapply progress_trans|]. rewrite Hl', Hl2. by rewrite Hlen2, Hl1.
Qed.

Lemma start_ok p m :
  startable m ->
  exists m', mux_await_suspend (Coro p) m = Ok (true, m') /\ running p m' /\
    minReady m' = minReady m /\ abortable_ m' = abortable_ m /\ all_ m' = all_ m /\
    (h_beh <$> kids m') = (h_beh <$> kids m) /\
    log_ m' = (if decide (unfinished (kids m') = 0) then [p] else []).
Proof.
  intros []. unfold mux_await_suspend. assert (Hlen : 0 < length (kids m)) by (destruct (kids m); cbn; [done|lia]).
  destruct (Z.eqb_spec (size m) 0) as [?|_]; [unfold size in *; lia|].
  set (m0 := bind_all (set_parent (Coro p) m)). cbv zeta. set (bound := fun k => Helper true (h_state k) (h_beh k)).
  assert (Hl0 : length (kids m0) = length (kids m)) by (cbn; apply length_fmap).
  assert (Hb0 : forall k, k ∈ kids m0 -> h_bound k = true).
  { intros k Hx. cbn in Hx. by apply list_elem_of_fmap in Hx as (k0 & -> & _). }
  assert (H : exists m1 m', suspend_from (mux_invoke m0) (seq 0 (length (kids m0))) m0 = Ok m' /\
    mux_ok false (length (kids m0)) 0 m' /\ quiet m' /\ progress m1 m' /\
    log_ m' = (if decide (fcount (length (kids m0)) (kids m') = length (kids m0)) then [p] else []) /\
    h_beh <$> kids m1 = h_beh <$> kids m /\ m1 = set_kids (kids m1) m0).
  { destruct st_safe0 as [Hw|(ks1 & k & ks2 & Hk & Ha & Hs & Hw)].
    - assert (Hw0 : Forall waiting (kids m0)) by (cbn; apply Forall_fmap; by eapply Forall_impl).
      destruct (started_prefix [] (kids m0) m0 eq_refl Hw0) as [Hm0 Hq0]; [done..|].
      pose proof (unfinished_le (kids m0)).
      destruct (suspend_from_ok (mux_invoke m0) (fuel_of m0) 0 (length (kids m0)) p m0)
        as (m' & E & Hm' & Hp' & Hl' & Hq'); try done; [by apply mux_invoke_ok|unfold fuel_of; lia|lia|].
      exists m0, m'. change (log_ m0) with (log_ m) in Hl'. rewrite st_log0 in Hl'. split_and!; try done.
      cbn. by rewrite <- list_fmap_compose.
    - destruct (start_kids_ok p m0 (bound <$> ks1) (bound k) (bound <$> ks2)) as (m' & E & Hm' & Hq' & Hp' & Hl'); try done.
      { cbn. by rewrite Hk, fmap_app. }
      { apply Forall_fmap. by eapply Forall_impl. } { apply Forall_fmap. by eapply Forall_impl. }
      eexists _, m'. split_and!; [done..| |done]. cbn. rewrite Hk, !fmap_app, <- !list_fmap_compose, <- app_assoc. done. }
  destruct H as (m1 & m' & E & Hm' & Hq' & Hp' & Hl' & Hbeh & Em1). rewrite E. res_cbn. exists m'.
  assert (Hl2 : length (kids m') = length (kids m)).
  { rewrite (pg_length _ _ Hp'). by rewrite <- (length_fmap h_beh), Hbeh, length_fmap. }
  rewrite Hl0, <- Hl2 in Hm', Hl'.
  split_and!; try done; [split; [done..|]|..].
  - by rewrite (pg_parent _ _ Hp'), Em1.
  - by rewrite (pg_min _ _ Hp'), Em1.
  - by rewrite (pg_abort _ _ Hp'), Em1.
  - by rewrite (pg_all _ _ Hp'), Em1.
  - rewrite <- Hbeh. apply list_eq_same_length with (length (kids m')); rewrite ?length_fmap, ?(pg_length _ _ Hp'); [done..|].
    intros i b b' Hi Hb Hb'. apply list_lookup_fmap_Some in Hb as (k1 & -> & H1).
    apply list_lookup_fmap_Some in Hb' as (k2 & -> & H2).
    destruct (pg_beh _ _ Hp' _ _ H1) as (k3 & H3 & -> & _). congruence.
  - rewrite Hl'. pose proof (unfinished_fcount (kids m')) as HF. apply decide_ext. lia.
Qed.

(** A helper that may be resumed: its awaitable was suspended. *)
Definition pending k : Prop := h_state k = Running \/ h_state k = Cancelling.

Lemma parent_ext m h p n d : mux_ok p n d m -> mux_ok p n d (set_parent h m).
Proof. intros []. by split. Qed.

Lemma running_log p m m' :
  parent_ m = Coro p -> length (kids m') = length (kids m) ->
  (if decide (0%Z = 0%Z /\ fcount (length (kids m)) (kids m') = length (kids m)) then parent_coro m else []) =
  (if decide (unfinished (kids m') = 0) then [p] else []).
Proof.
  intros Hp Hl. pose proof (unfinished_fcount (kids m')) as HF. rewrite Hl in HF.
  unfold parent_coro. rewrite Hp. apply decide_ext. lia.
Qed.

Lemma complete_ok p i k m :
  running p m -> kids m !! i = Some k -> pending k ->
  exists m', helper_invoke (mux_invoke m) i m = Ok m' /\ running p m' /\ progress m m' /\
    unfinished (kids m) <> 0 /\
    log_ m' = log_ m ++ (if decide (unfinished (kids m') = 0) then [p] else []).
Proof.
  intros [] Hk Hs. pose proof (unfinished_le (kids m)).
  destruct (helper_invoke_ok (mux_invoke m) (fuel_of m) (length (kids m)) 0 i k m)
    as (m' & k' & E & Hm' & Hp' & _ & _ & Hl' & Hq'); try done.
  { by apply mux_invoke_ok. } { unfold fuel_of. lia. } { by eapply lookup_lt_Some. }
  pose proof (pg_length _ _ Hp') as Hlen.
  exists m'. split_and!; try done; [split| |].
  - by rewrite Hlen.
  - by apply Hq'.
  - by rewrite (pg_parent _ _ Hp').
  - intros Hz. rewrite cnt_zero in Hz. specialize (Hz k ltac:(by eapply list_elem_of_lookup_2)).
    by destruct Hs as [Hs|Hs]; rewrite Hs in Hz.
  - by rewrite Hl', (running_log p).
Qed.

Lemma cancel_all_ok p m :
  running p m -> abortable_ m = false -> kids m <> [] ->
  exists b m', mux_await_cancel (Coro p) m = Ok (b, m') /\ running p m' /\ progress m m' /\
    (forall k, k ∈ kids m' -> calm (h_state k) = true) /\
    (if b : bool then (forall k, k ∈ kids m' -> h_state k = Cancelled) /\ log_ m' = log_ m
     else log_ m' = log_ m ++ (if decide (unfinished (kids m') = 0) then [p] else [])).
Proof.
  intros [] Ha Hne. unfold mux_await_cancel. cbv zeta. set (m0 := set_parent Noop m).
  pose proof (unfinished_le (kids m)).
  destruct (internalCancel_ok (mux_invoke m) (fuel_of m) (length (kids m)) 0 m0)
    as (b & m1 & E & Hm1 & Hp1 & Ht & Hc & Hl); try done.
  { by apply mux_invoke_ok. } { by apply parent_ext. } { unfold fuel_of. cbn [kids m0 set_parent]. lia. }
  rewrite E. res_cbn. specialize (Hl (or_intror eq_refl)).
  assert (Hlen : length (kids m1) = length (kids m)) by (rewrite (pg_length _ _ Hp1); done).
  set (m2 := set_parent (parent_ m) m1).
  assert (Hp2 : progress m m2).
  { destruct Hp1. split; try done. }
  assert (Hr2 : running p m2).
  { split; [|intros _; exact Hc|done]. apply parent_ext. cbn [kids set_parent m2]. by rewrite Hlen. }
  change (abortable_ m2) with (abortable_ m1). rewrite (pg_abort _ _ Hp1).
  change (abortable_ m0) with (abortable_ m). rewrite Ha. destruct b.
  - exists true, m2. split_and!; try done. auto.
  - pose proof (mo_count _ _ _ _ Hm1) as HC. pose proof (unfinished_fcount (kids m1)) as HF.
    rewrite Hlen in HF. change (size m2) with (size m1). unfold size.
    change (count_ m2) with (count_ m1). rewrite Hlen.
    destruct (Z.eqb_spec (count_ m1) (Z.of_nat (length (kids m)))).
    + eexists false, _. split_and!; [done|..].
      * destruct Hr2. split; [|done..]. by destruct rn_ok1.
      * by destruct Hp2.
      * done.
      * cbn [log_ resume_handle kids m2 set_parent handle_coro]. rewrite Hl.
        rewrite decide_True; [done|]. lia.
    + exists false, m2. split_and!; try done. cbn [log_ m2 set_parent kids].
      rewrite Hl, decide_False by lia. by rewrite app_nil_r.
Qed.

(** The life of a mux after [await_suspend(p)], one event at a time: a pending
    child's resume function is called, or the mux is cancelled.  The flag says
    whether [await_cancel()] has confirmed. *)
Inductive reach (p : loc) : bool -> mux -> Prop :=
| reach_start m0 m : startable m0 -> abortable_ m0 = false ->
    mux_await_suspend (Coro p) m0 = Ok (true, m) -> reach p false m
| reach_complete c i k m m' : reach p c m -> kids m !! i = Some k -> pending k ->
    helper_invoke (mux_invoke m) i m = Ok m' -> reach p c m'
| reach_cancel b m m' : reach p false m -> unfinished (kids m) <> 0 ->
    mux_await_cancel (Coro p) m = Ok (b, m') -> reach p b m'.

Lemma kids_ne m : unfinished (kids m) <> 0 -> kids m <> [].
Proof. by destruct (kids m). Qed.

Lemma reach_ok p c m :
  reach p c m ->
  running p m /\ abortable_ m = false /\ (0 < minReady m)%Z /\ kids m <> [] /\
  (if c then (forall k, k ∈ kids m -> h_state k = Cancelled) /\ log_ m = []
   else log_ m = if decide (unfinished (kids m) = 0) then [p] else []).
Proof.
  induction 1 as [m0 m Hs Ha E|c i k m m' _ (Hr & Ha & Hmin & Hne & IH) Hk Hpend E|b m m' _ (Hr & Ha & Hmin & Hne & IH) Hu E].
  - destruct (start_ok p m0 Hs) as (m1 & E1 & Hr & H1 & H2 & _ & Hb & Hl). rewrite E in E1. injection E1 as <-.
    destruct Hs. rewrite H1, H2. split_and!; try done.
    intros Hnil. rewrite Hnil in Hb. by destruct (kids m0).
  - destruct (complete_ok p i k m Hr Hk Hpend) as (m1 & E1 & Hr1 & Hp1 & Hu & Hl). rewrite E in E1. injection E1 as <-.
    rewrite (pg_abort _ _ Hp1), (pg_min _ _ Hp1). split_and!; try done.
    { intros Hnil. pose proof (pg_length _ _ Hp1) as HL. rewrite Hnil in HL. by destruct (kids m). }
    destruct c.
    + destruct IH as [IH _]. specialize (IH k ltac:(by eapply list_elem_of_lookup_2)).
      destruct Hpend; congruence.
    + rewrite Hl, IH, decide_False by done. done.
  - destruct (cancel_all_ok p m Hr Ha Hne) as (b1 & m1 & E1 & Hr1 & Hp1 & _ & Hb). rewrite E in E1. injection E1 as <- <-.
    rewrite (pg_abort _ _ Hp1), (pg_min _ _ Hp1). split_and!; try done.
    { intros Hnil. pose proof (pg_length _ _ Hp1) as HL. rewrite Hnil in HL. by destruct (kids m). }
    destruct b; rewrite IH, decide_False in Hb by done; cbn in Hb; done.
Qed.

(** No child that finishes while the mux starts comes before one that can be
    cancelled early. *)
Definition finishes_at_start (b : behaviour) : bool := b_ready b || negb (bool_decide (b_suspend b = Later)).
Fixpoint well_placed (bs : list behaviour) : bool :=
  match bs with
  | [] => true
  | b :: bs => if finishes_at_start b then forallb (fun b => negb (b_early b)) bs else well_placed bs
  end.
Lemma well_placed_split bs :
  bs <> [] -> well_placed bs = true ->
  exists bs1 b bs2, bs = bs1 ++ b :: bs2 /\ Forall (fun b => finishes_at_start b = false) bs1 /\
    Forall (fun b => b_early b = false) bs2.
Proof.
  induction bs as [|b bs IH]; [done|]. intros _ Hw. cbn in Hw. destruct (finishes_at_start b) eqn:Hf.
  - exists [], b, bs. split_and!; [done..|]. apply Forall_forall. intros b' Hb'. rewrite forallb_forall in Hw.
    apply negb_true_iff, Hw. by apply list_elem_of_In.
  - destruct bs as [|b' bs]; [by exists [], b, []|].
    destruct IH as (bs1 & b2 & bs2 & -> & H1 & H2); [done..|]. exists (b :: bs1), b2, bs2. split_and!; [done| |done].
    by constructor.
Qed.
Lemma new_mux_startable bs min ab al :
  bs <> [] -> (0 < min)%Z -> well_placed bs = true -> startable (new_mux bs min ab al).
Proof.
  intros Hne Hmin (bs1 & b & bs2 & -> & H1 & H2)%well_placed_split; [|done]. split; try done.
  - cbn. rewrite fmap_app. cbn. by destruct (new_helper <$> bs1).
  - right. exists (new_helper <$> bs1), (new_helper b), (new_helper <$> bs2). split_and!; [cbn; by rewrite fmap_app| |done|].
    + apply Forall_fmap. eapply Forall_impl; [exact H1|]. unfold finishes_at_start. intros b' [Hr Hs]%orb_false_iff.
      split_and!; [done..|]. cbn. by apply negb_false_iff, bool_decide_eq_true_1 in Hs.
    + apply Forall_fmap. eapply Forall_impl; [exact H2|]. intros b' Hb. right. right. by split.
Qed.

(** * Properties *)

(** C2.  However the children of a mux finish, in
    whatever order, on the spot or later, and whether or not the parent is
    cancelled meanwhile: no operation faults, the parent is resumed exactly
    once, at the moment the last child finishes, and never when
    [await_cancel()] has confirmed the cancellation, in which case every child
    is cancelled.  The mux has children, and is not one whose type says that its cancellation
    always succeeds (Abortable.v has those).  The condition on the children ([startable]) is that one which finishes
    while the mux starts does not come before one that can be cancelled early and has
    not been: that one would be counted twice, as [premature_resume] shows, because
    [suspend()] reports it again (wait.h:130). *)
Theorem mux_resumes_parent_once p c m :
  reach p c m ->
  (if c then (forall k, k ∈ kids m -> h_state k = Cancelled) /\ log_ m = []
   else log_ m = if decide (unfinished (kids m) = 0) then [p] else []) /\
  (forall i k, kids m !! i = Some k -> pending k -> is_ok (helper_invoke (mux_invoke m) i m) = true) /\
  is_ok (mux_await_cancel (Coro p) m) = true.
Proof.
  intros (Hr & Ha & _ & Hne & Hl)%reach_ok. split_and!; [done|..].
  - intros i k Hk Hs. by destruct (complete_ok p i k m Hr Hk Hs) as (m' & -> & _).
  - by destruct (cancel_all_ok p m Hr Ha Hne) as (b & m' & -> & _).
Qed.

(** Three children: the second is ready, and cancels the others; the first
    finishes at once then, the third later. *)
Definition b_stoppable : behaviour := Beh false false false Later Confirmed true false.
Definition three : mux := anyOf [b_stoppable; b_done; b_task] false.
Definition three_started : mux :=
  match mux_await_suspend (Coro 1) three with Ok (_, m) => m | Fault _ => three end.
Definition three_finished : mux :=
  match helper_invoke (mux_invoke three_started) 2 three_started with Ok m => m | Fault _ => three end.
Lemma three_reach : reach 1 false three_finished.
Proof.
  eapply (reach_complete 1 false 2 (Helper true Cancelling b_task) three_started).
  - apply (reach_start 1 three); [|done|by vm_compute].
    apply new_mux_startable; done.
  - done.
  - by right.
  - by vm_compute.
Qed.

Lemma mux_resumes_parent_once_witness :
  (h_state <$> kids three_started, log_ three_started) = ([Cancelled; Succeeded; Cancelling], []) /\
  log_ three_finished = [1%positive].
Proof.
  split; [by vm_compute|].
  pose proof (mux_resumes_parent_once 1 false three_finished three_reach) as (Hl & _).
  rewrite Hl. by vm_compute.
Defined.

(** C11.  In every state of a running mux, [count_] is the
    number of finished children, and as soon as [minReady()] of them have
    finished or one has failed, no child is left running: each is finished, or
    has been told to cancel.  After a cancellation of the mux the same holds.  As in
    [mux_resumes_parent_once], the mux is not an abortable one, and a child that finishes while the mux starts must not come
    before one that can be cancelled early: in [premature_resume] the count is 3 with two
    children finished. *)
Theorem mux_cancels_siblings p c m :
  reach p c m ->
  (count_ m + Z.of_nat (unfinished (kids m)) = size m)%Z /\
  ((exists k, k ∈ kids m /\ h_state k = Failed) \/ (minReady m <= count_ m)%Z ->
   forall k, k ∈ kids m -> fin (h_state k) = true \/ h_state k = Cancelling).
Proof.
  intros ([Hm Hq _] & _)%reach_ok. split.
  - pose proof (mo_count _ _ _ _ Hm). pose proof (unfinished_fcount (kids m)). unfold size. lia.
  - intros Hc k Hk. assert (calm (h_state k) = true) as Hcalm.
    { apply Hq; [|done]. destruct Hc as [(k' & Hk' & Hs)|?]; [left|by right].
      pose proof (mo_failed _ _ _ _ Hm k' Hk' Hs) as HE. by rewrite orb_false_r in HE. }
    apply list_elem_of_lookup in Hk as [i Hk].
    destruct (mo_started _ _ _ _ Hm i k Hk ltac:(by eapply lookup_lt_Some)) as [Hs|[Hs|Hs]]; [|auto..].
    by rewrite Hs in Hcalm.
Qed.

Lemma three_started_reach : reach 1 false three_started.
Proof. apply (reach_start 1 three); [by apply new_mux_startable|done|by vm_compute]. Qed.
Lemma mux_cancels_siblings_witness :
  count_ three_started = 2%Z /\ minReady three_started = 1%Z /\
  forall k, k ∈ kids three_started -> fin (h_state k) = true \/ h_state k = Cancelling.
Proof.
  split_and!; [by vm_compute..|].
  apply (mux_cancels_siblings 1 false three_started three_started_reach). right. by vm_compute.
Defined.

Lemma must_from_spec js m :
  (forall j k, j ∈ js -> kids m !! j = Some k -> fin (h_state k) = true) ->
  (forall j, j ∈ js -> j < length (kids m)) ->
  must_from js m = Ok ((fun j => match kids m !! j with
    Some k => negb (bool_decide (h_state k = Cancelled)) | None => false end) <$> js, m).
Proof.
  induction js as [|j js IH]; intros Hf Hl; cbn [must_from fmap list_fmap]; [done|].
  destruct (lookup_lt_is_Some_2 _ _ (Hl j ltac:(set_solver))) as [k Hk].
  unfold mustResume, kid. rewrite Hk. res_cbn. specialize (Hf j k ltac:(set_solver) Hk) as Hfk.
  specialize (IH ltac:(set_solver) ltac:(set_solver)).
  destruct (h_state k); try done; res_cbn; by rewrite IH.
Qed.

Lemma results_spec al ks :
  (forall k, k ∈ ks -> h_state k = Succeeded \/ al = false /\ h_state k = Cancelled) ->
  results al ks = Ok ((fun k => bool_decide (h_state k = Succeeded)) <$> ks).
Proof.
  induction ks as [|k ks IH]; intros Hs; [done|]. cbn [results fmap list_fmap]. unfold child_result.
  rewrite IH by set_solver. destruct (Hs k ltac:(set_solver)) as [E|[-> E]]; rewrite E.
  - by destruct al.
  - done.
Qed.

(** C12.  Once every child of a running mux has finished,
    [await_must_resume()] and [await_resume()] do not fault: AnyOf and MostOf
    have to resume the parent unless every child was cancelled, AllOf unless
    some child was; and [await_resume()] yields the error if there is one, and
    otherwise for each child whether it delivered a value (for AllOf, provided
    the parent had to be resumed: all of them did).  The mux was started under the
    condition of [mux_resumes_parent_once] ([startable]; otherwise see
    [premature_resume_fails]). *)
Theorem mux_collects_results p c m :
  reach p c m -> unfinished (kids m) = 0 ->
  let cancelled k := bool_decide (h_state k = Cancelled) in
  let must := if all_ m then error_ m || negb (existsb cancelled (kids m))
              else negb (forallb cancelled (kids m)) in
  mux_await_must_resume m = Ok (must, m) /\
  (must || negb (all_ m) = true ->
   mux_await_resume m =
     Ok (if error_ m then Error
         else Values ((fun k => bool_decide (h_state k = Succeeded)) <$> kids m), m)).
Proof.
  intros ([Hm _ _] & _ & _ & Hne & _)%reach_ok Hz cancelled must. rewrite cnt_zero in Hz.
  assert (Hb : exists k0 ks, kids m = k0 :: ks /\ h_bound k0 = true).
  { destruct (kids m) as [|k0 ks] eqn:E; [done|]. exists k0, ks. split; [done|].
    apply (mo_bound _ _ _ _ Hm). rewrite E. set_solver. }
  set (canc_at := fun j => match kids m !! j with
    Some k => negb (bool_decide (h_state k = Cancelled)) | None => false end).
  assert (Hmap : canc_at <$> seq 0 (length (kids m)) = (fun k => negb (cancelled k)) <$> kids m).
  { apply list_eq_same_length with (length (kids m)); rewrite ?length_fmap, ?length_seq; [done..|].
    intros i b b' Hi E1 E2. apply list_lookup_fmap_Some in E1 as (j & -> & Hj).
    apply lookup_seq in Hj as [-> _]. apply list_lookup_fmap_Some in E2 as (k & -> & Hk).
    unfold canc_at. cbn. by rewrite Hk. }
  split.
  - unfold mux_await_must_resume.
    rewrite must_from_spec; [|intros j k _ Hk; apply Hz; by eapply list_elem_of_lookup_2
                             |intros j Hj%elem_of_seq; lia].
    fold canc_at. rewrite Hmap. subst must. destruct (all_ m) eqn:Ha; cbn [andb].
    + destruct (error_ m); [done|]. res_cbn. rewrite Ha. do 2 f_equal. clear -Hb.
      destruct Hb as (k0 & ks & -> & _). rewrite bool_decide_false by done. cbn [negb andb].
      induction (k0 :: ks) as [|k l IH]; [done|]. cbn. rewrite IH. unfold id. by destruct (cancelled k).
    + res_cbn. rewrite Ha. do 2 f_equal. clear. induction (kids m) as [|k l IH]; [done|]. cbn.
      rewrite IH. unfold id. by destruct (cancelled k).
  - intros Hmust. unfold mux_await_resume, handleResumeWithoutSuspend.
    destruct Hb as (k0 & ks & E & Hb). rewrite E, Hb. res_cbn. rewrite <- E.
    destruct (error_ m) eqn:He; [done|]. rewrite results_spec; [done|].
    intros k Hk. specialize (Hz k Hk) as Hf. destruct (h_state k) eqn:Hs; try done.
    + right. split; [|done]. destruct (all_ m) eqn:Ha; [|done]. subst must. rewrite orb_false_r in Hmust.
      cbn in Hmust. rewrite negb_true_iff in Hmust. exfalso.
      assert (HE : existsb cancelled (kids m) = true).
      { apply existsb_exists. exists k. split; [by apply list_elem_of_In|]. unfold cancelled.
        by rewrite bool_decide_true. }
      congruence.
    + by left.
    + pose proof (mo_failed _ _ _ _ Hm k Hk Hs) as HE. by rewrite He in HE.
Qed.

Lemma mux_collects_results_witness :
  ('(o, _) ← mux_await_resume three_finished; Ok o) = Ok (Values [false; true; true]).
Proof.
  assert (Hz : unfinished (kids three_finished) = 0) by (vm_compute; reflexivity).
  destruct (mux_collects_results 1 false three_finished three_reach Hz) as [_ H].
  rewrite H; [vm_compute; reflexivity|]. vm_compute. reflexivity.
Defined.
