(* ===== verification/Bits.v ===== *)
(** Words with spare bits: [detail/PointerBits.h], [detail/frames.h] and the
    storage of [detail/TaskAwaiter.h].

    Three classes keep a small tag in bits that a pointer does not use:
    [PointerBits] in the low bits, [ProxyFrame] in the two high bits of a
    function pointer, and [ValueOrPromise] in the low bits of a word that is a
    promise, a boxed value, or the value itself.  A [uintptr_t] is a [Z] in
    [0, 2^64); [x & ~m] is [Z.ldiff x m]. *)
From S2P Require Export Prelude.

Local Open Scope Z_scope.
Implicit Types (p b m n h x : Z).

(** * Splitting a word along a mask *)

Lemma land_zero_bits x m : Z.land x m = 0 <-> forall n, 0 <= n -> Z.testbit x n && Z.testbit m n = false.
Proof.
  split.
  - intros E n _. by rewrite <- Z.land_spec, E, Z.bits_0.
  - intros E. apply Z.bits_inj'. intros n Hn. rewrite Z.land_spec, Z.bits_0. by apply E.
Qed.
Lemma ldiff_zero_bits x m : Z.ldiff x m = 0 <-> forall n, 0 <= n -> Z.testbit x n && negb (Z.testbit m n) = false.
Proof.
  split.
  - intros E n _. by rewrite <- Z.ldiff_spec, E, Z.bits_0.
  - intros E. apply Z.bits_inj'. intros n Hn. rewrite Z.ldiff_spec, Z.bits_0. by apply E.
Qed.

(** Decides an equation between words bit by bit, from the facts [Z.land _ _ = 0]
    and [Z.ldiff _ _ = 0] in the context. *)
Ltac bitwise :=
  apply Z.bits_inj'; let n := fresh "n" in let Hn := fresh "Hn" in intros n Hn;
  repeat match goal with
  | E : Z.land _ _ = 0 |- _ => rewrite land_zero_bits in E; specialize (E n Hn); revert E
  | E : Z.ldiff _ _ = 0 |- _ => rewrite ldiff_zero_bits in E; specialize (E n Hn); revert E
  end;
  repeat first [rewrite Z.lor_spec | rewrite Z.land_spec | rewrite Z.ldiff_spec | rewrite Z.bits_0];
  repeat match goal with
  | |- context [Z.testbit ?x n] => destruct (Z.testbit x n)
  end; cbn; congruence.

Lemma lor_ldiff p b m : Z.land p m = 0 -> Z.ldiff b m = 0 -> Z.ldiff (Z.lor p b) m = p.
Proof. intros. bitwise. Qed.
Lemma lor_land p b m : Z.land p m = 0 -> Z.ldiff b m = 0 -> Z.land (Z.lor p b) m = b.
Proof. intros. bitwise. Qed.
Lemma ldiff_land x m : Z.land (Z.ldiff x m) m = 0.
Proof. bitwise. Qed.
Lemma land_ldiff x m : Z.ldiff (Z.land x m) m = 0.
Proof. bitwise. Qed.
Lemma ldiff_id p m : Z.land p m = 0 -> Z.ldiff p m = p.
Proof. intros. bitwise. Qed.
Lemma land_id b m : Z.ldiff b m = 0 -> Z.land b m = b.
Proof. intros. bitwise. Qed.
#[export] Hint Rewrite lor_ldiff lor_land ldiff_id land_id using assumption : corral.
#[export] Hint Resolve ldiff_land land_ldiff : corral.

Lemma land_ones_zero p w : 0 <= w -> Z.land p (Z.ones w) = 0 <-> p mod 2 ^ w = 0.
Proof. intros. by rewrite Z.land_ones. Qed.
Lemma ldiff_ones_zero b w : 0 <= w -> 0 <= b < 2 ^ w -> Z.ldiff b (Z.ones w) = 0.
Proof.
  intros. destruct (decide (b = 0)) as [->|]; [done|].
  apply Z.ldiff_ones_r_low; [lia|]. apply Z.log2_lt_pow2; lia.
Qed.

(** * [PointerBits] *)

(** [PointerBitsImpl<..., true>] and [PointerBitsImpl<..., false>] *)
Record merged := Merged { data_ : Z }.
Record separate := Separate { ptr_ : Z; bits_ : Z }.

(** [PointerBits::setPtr()] and [setBits()] are written with [set()], [ptr()] and
    [bits()]; the width is the template's. *)
Class PointerBits (P : Type) := {
  pb_new : P;
  pb_ptr : P -> Z;
  pb_bits : P -> Z;
  pb_set : Z -> Z -> P -> res P }.
Definition setPtr `{PointerBits P} (p : Z) (d : P) : res P := pb_set p (pb_bits d) d.
Definition setBits `{PointerBits P} (b : Z) (d : P) : res P := pb_set (pb_ptr d) b d.

Definition BitsMask (width : Z) : Z := Z.shiftl 1 width - 1.
Definition merged_ptr (width : Z) (d : merged) : Z := Z.ldiff (data_ d) (BitsMask width).
Definition merged_bits (width : Z) (d : merged) : Z := Z.land (data_ d) (BitsMask width).
Definition merged_set (width p b : Z) (d : merged) : res merged :=
  corral_assert (Z.land p (BitsMask width) =? 0);;
  corral_assert (Z.ldiff b (BitsMask width) =? 0);;
  Ok (Merged (Z.lor p b)).
Definition separate_set (p b : Z) (d : separate) : res separate := Ok (Separate p b).

Definition merged_pb (width : Z) : PointerBits merged :=
  {| pb_new := Merged 0; pb_ptr := merged_ptr width; pb_bits := merged_bits width;
     pb_set := merged_set width |}.
Definition separate_pb : PointerBits separate :=
  {| pb_new := Separate 0 0; pb_ptr := ptr_; pb_bits := bits_; pb_set := separate_set |}.

(** A sequence of updates, and what the object then answers. *)
Inductive pb_op := SetPtr (p : Z) | SetBits (b : Z).
Definition pb_run1 `{PointerBits P} (d : P) (o : pb_op) : res P :=
  match o with SetPtr p => setPtr p d | SetBits b => setBits b d end.
Fixpoint pb_run `{PointerBits P} (d : P) (os : list pb_op) : res P :=
  match os with [] => Ok d | o :: os => d ← pb_run1 d o; pb_run d os end.
Definition pb_answers `{PointerBits P} (os : list pb_op) : res (Z * Z) :=
  d ← pb_run pb_new os; Ok (pb_ptr d, pb_bits d).

(** Pointers to objects with the required alignment, tags that fit. *)
Definition pb_fits (width : Z) (o : pb_op) : bool :=
  match o with
  | SetPtr p => p mod 2 ^ width =? 0
  | SetBits b => (0 <=? b) && (b <? 2 ^ width)
  end.

Lemma BitsMask_ones width : 0 <= width -> BitsMask width = Z.ones width.
Proof. intros. unfold BitsMask, Z.ones. rewrite !Z.shiftl_1_l. lia. Qed.

Lemma merged_set_ok width p b d :
  Z.land p (BitsMask width) = 0 -> Z.ldiff b (BitsMask width) = 0 ->
  merged_set width p b d = Ok (Merged (Z.lor p b)).
Proof. intros E1 E2. unfold merged_set. rewrite E1, E2. done. Qed.

Lemma pb_run_sim width d s os :
  0 <= width -> forallb (pb_fits width) os = true ->
  merged_ptr width d = ptr_ s -> merged_bits width d = bits_ s ->
  (d' ← @pb_run _ (merged_pb width) d os; Ok (merged_ptr width d', merged_bits width d')) =
  (s' ← @pb_run _ separate_pb s os; Ok (ptr_ s', bits_ s')).
Proof.
  intros Hw. revert d s. induction os as [|o os IH]; intros d s Hf Hp Hb; cbn [pb_run].
  - res_cbn. congruence.
  - cbn [forallb] in Hf. apply andb_true_iff in Hf as [Hf1 Hf].
    assert (Hstep : forall p b, Z.land p (BitsMask width) = 0 -> Z.ldiff b (BitsMask width) = 0 ->
      (d' ← @pb_run _ (merged_pb width) (Merged (Z.lor p b)) os; Ok (merged_ptr width d', merged_bits width d')) =
      (s' ← @pb_run _ separate_pb (Separate p b) os; Ok (ptr_ s', bits_ s'))).
    { intros p b E1 E2. apply IH; [done|..]; unfold merged_ptr, merged_bits; cbn [data_ ptr_ bits_];
        autorewrite with corral; done. }
    destruct o as [p|b]; cbn [pb_run1 pb_fits] in *; unfold setPtr, setBits; cbn.
    + apply Z.eqb_eq in Hf1. rewrite <- land_ones_zero, <- BitsMask_ones in Hf1 by done.
      rewrite merged_set_ok; [res_cbn|done|apply land_ldiff]. rewrite <- Hb. apply Hstep; [done|apply land_ldiff].
    + apply andb_true_iff in Hf1 as [Hb1%Z.leb_le Hb2%Z.ltb_lt].
      assert (E : Z.ldiff b (BitsMask width) = 0) by (rewrite BitsMask_ones by done; apply ldiff_ones_zero; lia).
      rewrite merged_set_ok; [res_cbn|apply ldiff_land|done]. rewrite <- Hp. apply Hstep; [apply ldiff_land|done].
Qed.

(** Packing the tag into the low bits of the pointer is
    not observable: for any sequence of updates with pointers to suitably
    aligned objects and tags of the declared width, the packed representation
    answers what the plain struct answers, and no assertion fails. *)
Theorem pointer_bits_merged width os :
  0 <= width -> forallb (pb_fits width) os = true ->
  @pb_answers _ (merged_pb width) os = @pb_answers _ separate_pb os /\
  is_ok (@pb_answers _ separate_pb os) = true.
Proof.
  intros Hw Hf. split.
  - unfold pb_answers. cbn. apply pb_run_sim; [done|done|done|].
    unfold merged_bits. cbn. done.
  - unfold pb_answers. clear. generalize (@pb_new _ separate_pb).
    induction os as [|[p|b] os IH]; intros s; cbn; [done|apply IH..].
Qed.
Lemma pointer_bits_merged_witness :
  @pb_answers _ (merged_pb 2) [SetPtr 4096; SetBits 3; SetPtr 8; SetBits 1] = Ok (8, 1).
Proof.
  destruct (pointer_bits_merged 2 [SetPtr 4096; SetBits 3; SetPtr 8; SetBits 1]) as [E _];
    [lia|reflexivity|]. rewrite E. reflexivity.
Defined.
