(* ===== verification/Frames.v ===== *)
(** [detail/frames.h]: the frames that link a task to the one that awaits it,
    and the two walks along these links, [collectAsyncStackTrace()]
    ([detail/utility.h]) and [RethrowCurrentException] ([detail/exception.h]).

    A [ProxyFrame] keeps its uplink and its tag in the [destroyFn] field where
    function pointers have spare bits, and in an extra word where they have none.
    [FrameOps] are the operations of either, [FrameSpec] what the walks rely on. *)
From S2P Require Export Bits.

Local Open Scope Z_scope.

(** * The two representations *)

Class FrameOps (F : Type) := {
  f_raw : F;                            (* CoroutineFrame(), all fields null *)
  f_PROXY : Z;
  f_TASK : Z;
  linkTo : Z -> F -> res F;
  followLink : F -> Z;
  isTagged : Z -> F -> bool;
  tagWith : Z -> F -> F }.

(** [frame_tags], with and without spare bits in function pointers *)
Module Spare.
Definition PROXY : Z := Z.shiftl 1 63.
Definition TASK : Z := Z.shiftl 1 62.
Definition MASK : Z := Z.lor PROXY TASK.

(** [ProxyFrameImpl<true>]: the [destroyFn] field. *)
Record frame := Frame { destroyFn : Z }.
Definition isTagged (tag : Z) (f : frame) : bool := Z.land (destroyFn f) tag =? tag.
Definition linkTo (h : Z) (f : frame) : res frame :=
  corral_assert (Z.land h MASK =? 0);;
  Ok (Frame (Z.lor (Z.ldiff h MASK) (Z.land (destroyFn f) MASK))).
Definition followLink (f : frame) : Z := Z.ldiff (destroyFn f) MASK.
Definition tagWith (tag : Z) (f : frame) : frame := Frame (Z.lor (destroyFn f) tag).
End Spare.

Module NoSpare.
Definition PROXY : Z := 1.
Definition TASK : Z := 2.
Definition MASK : Z := Z.lor PROXY TASK.

(** [ProxyFrameImpl<false>]: [destroyFn], either [tagFn] or another function
    (or null), and [link_]. *)
Inductive fn := TagFn | OtherFn (addr : Z).
Record frame := Frame { destroyFn : fn; link_ : Z }.
Definition isTagFn (f : fn) : bool := match f with TagFn => true | OtherFn _ => false end.
Definition linkTo (h : Z) (f : frame) : res frame :=
  corral_assert (Z.land h MASK =? 0);;
  Ok (Frame (destroyFn f) (Z.lor (Z.land (link_ f) MASK) h)).
Definition followLink (f : frame) : Z := Z.ldiff (link_ f) MASK.
Definition isTagged (tag : Z) (f : frame) : bool :=
  isTagFn (destroyFn f) && (Z.land (link_ f) tag =? tag).
Definition tagWith (tag : Z) (f : frame) : frame := Frame TagFn tag.
End NoSpare.

#[export] Instance spare_ops : FrameOps Spare.frame := {|
  f_raw := Spare.Frame 0; f_PROXY := Spare.PROXY; f_TASK := Spare.TASK;
  linkTo := Spare.linkTo; followLink := Spare.followLink;
  isTagged := Spare.isTagged; tagWith := Spare.tagWith |}.
#[export] Instance nospare_ops : FrameOps NoSpare.frame := {|
  f_raw := NoSpare.Frame (NoSpare.OtherFn 0) 0; f_PROXY := NoSpare.PROXY; f_TASK := NoSpare.TASK;
  linkTo := NoSpare.linkTo; followLink := NoSpare.followLink;
  isTagged := NoSpare.isTagged; tagWith := NoSpare.tagWith |}.

Section Frames.
Context `{FrameOps F}.

(** [ProxyFrame::TAG], [TaskFrame::TAG], and the constructors *)
Definition proxy_TAG : Z := f_PROXY.
Definition task_TAG : Z := Z.lor f_TASK proxy_TAG.
Definition ProxyFrame : F := tagWith proxy_TAG f_raw.
Definition TaskFrame : F := tagWith task_TAG ProxyFrame.

(** The frames in memory, by address, with the [pc] of those that are task
    frames, and for each the parent's exception where the parent is a
    [TryBlockBase] (what [dynamic_cast<TryBlockBase*>(p->parent_)] finds). *)
Record cell := Cell { fr : F; pc : Z; try_exception : option (option positive) }.
Local Notation memory := (gmap Z cell).

(** [frameCast<F>(f)] for [f] not null *)
Definition frameCast (tag : Z) (c : cell) : bool := isTagged tag (fr c).

(** [collectAsyncStackTrace(h, out)] *)
Fixpoint collectAsyncStackTrace (fuel : nat) (M : memory) (f : Z) : res (list Z) :=
  if f =? 0 then Ok [] else
  match fuel with
  | O => Fault OutOfFuel
  | S fuel =>
      c ← deref (M !! f);
      rest ← (if frameCast proxy_TAG c then collectAsyncStackTrace fuel M (followLink (fr c)) else Ok []);
      Ok ((if frameCast task_TAG c then [pc c] else []) ++ rest)
  end.

(** [RethrowCurrentException::await_suspend(h)]: the exception found, [None]
    if the walk ends without one, or a fault where [std::terminate()] is called. *)
Fixpoint find_exception (fuel : nat) (M : memory) (f : Z) : res (option positive) :=
  if f =? 0 then Ok None else
  match fuel with
  | O => Fault OutOfFuel
  | S fuel =>
      c ← deref (M !! f);
      match (if frameCast task_TAG c then try_exception c else None) with
      | Some (Some e) => Ok (Some e)
      | _ => if frameCast proxy_TAG c then find_exception fuel M (followLink (fr c))
             else Fault Unreachable
      end
  end.
End Frames.
Arguments cell F : clear implicits.
Notation memory F := (gmap Z (cell F)).

(** * What a frame is *)

(** A compiler's frame, or a proxy: whether a task's, and its uplink. *)
Inductive view := Foreign | Proxy (task : bool) (link : Z).

Class FrameSpec (F : Type) `{FrameOps F} := {
  addr_ok : Z -> bool;
  addr_ok_null : addr_ok 0 = true;
  f_view : F -> view;
  view_proxy : f_view ProxyFrame = Proxy false 0;
  view_task : f_view TaskFrame = Proxy true 0;
  linkTo_ok f h t l : f_view f = Proxy t l -> addr_ok h = true ->
    exists f', linkTo h f = Ok f' /\ f_view f' = Proxy t h;
  linkTo_bad f h : addr_ok h = false -> linkTo h f = Fault AssertFailed;
  followLink_view f t l : f_view f = Proxy t l -> followLink f = l;
  tagged_proxy f : isTagged proxy_TAG f = match f_view f with Proxy _ _ => true | Foreign => false end;
  tagged_task f : isTagged task_TAG f = match f_view f with Proxy t _ => t | Foreign => false end }.

Lemma land_pow2_eqb x n : 0 <= n -> (Z.land x (2 ^ n) =? 2 ^ n) = Z.testbit x n.
Proof.
  intros Hn. destruct (Z.testbit x n) eqn:E.
  - apply Z.eqb_eq. apply Z.bits_inj'. intros k Hk. rewrite Z.land_spec, Z.pow2_bits_eqb by done.
    destruct (Z.eqb_spec n k) as [->|]; [by rewrite E|]. apply andb_false_r.
  - apply Z.eqb_neq. intros HE. assert (Z.testbit (Z.land x (2 ^ n)) n = true) as HT.
    { rewrite HE, Z.pow2_bits_eqb, Z.eqb_refl; done. }
    by rewrite Z.land_spec, E in HT.
Qed.
Lemma land_two_eqb x n k : 0 <= n -> 0 <= k ->
  (Z.land x (Z.lor (2 ^ n) (2 ^ k)) =? Z.lor (2 ^ n) (2 ^ k)) = Z.testbit x n && Z.testbit x k.
Proof.
  intros Hn Hk. destruct (Z.testbit x n && Z.testbit x k) eqn:E.
  - apply andb_true_iff in E as [E1 E2]. apply Z.eqb_eq. apply Z.bits_inj'. intros j Hj.
    rewrite Z.land_spec, Z.lor_spec, !Z.pow2_bits_eqb by done.
    destruct (Z.eqb_spec n j) as [->|]; [by rewrite E1|]. cbn.
    destruct (Z.eqb_spec k j) as [->|]; [by rewrite E2|]. apply andb_false_r.
  - apply Z.eqb_neq. intros HE.
    assert (forall j, 0 <= j -> (n =? j) || (k =? j) = true -> Z.testbit x j = true) as HT.
    { intros j Hj Ho. assert (Z.testbit (Z.land x (Z.lor (2 ^ n) (2 ^ k))) j = true) as HT.
      { rewrite HE, Z.lor_spec, !Z.pow2_bits_eqb; done. }
      rewrite Z.land_spec in HT. by apply andb_true_iff in HT as [? _]. }
    rewrite !HT in E; [done|done|by rewrite Z.eqb_refl, orb_true_r|done|by rewrite Z.eqb_refl].
Qed.

Module SpareSpec.
Import Spare.
Definition view_of (f : frame) : view :=
  if Z.testbit (destroyFn f) 63 then Proxy (Z.testbit (destroyFn f) 62) (Spare.followLink f)
  else Foreign.

Lemma mask_bit_spare n : Z.testbit MASK n = (n =? 63) || (n =? 62).
Proof.
  unfold MASK. rewrite Z.lor_spec. unfold PROXY, TASK. rewrite !Z.shiftl_1_l.
  rewrite !Z.pow2_bits_eqb by done. by rewrite !(Z.eqb_sym n).
Qed.
#[global] Program Instance spare_spec : FrameSpec Spare.frame := {|
  addr_ok h := Z.land h MASK =? 0; f_view := view_of |}.
Next Obligation. done. Qed.
Next Obligation. done. Qed.
Next Obligation. done. Qed.
Next Obligation.
  intros f h t l Hv Hh%Z.eqb_eq. cbn. unfold linkTo. rewrite Hh. cbn. eexists. split; [done|].
  unfold view_of in *. cbn [destroyFn].
  assert (Hbit : forall n, (n =? 63) || (n =? 62) = true ->
    Z.testbit (Z.lor (Z.ldiff h MASK) (Z.land (destroyFn f) MASK)) n = Z.testbit (destroyFn f) n).
  { intros n Hn. rewrite Z.lor_spec, Z.ldiff_spec, Z.land_spec, mask_bit_spare, Hn. cbn.
    by rewrite andb_false_r, andb_true_r. }
  rewrite !Hbit by done. destruct (Z.testbit (destroyFn f) 63); [|done]. injection Hv as <- <-.
  f_equal. unfold Spare.followLink. cbn [destroyFn]. bitwise.
Qed.
Next Obligation. intros f h Hh. cbn. unfold linkTo. by rewrite Hh. Qed.
Next Obligation.
  intros f t l. cbn. unfold view_of. destruct (Z.testbit (destroyFn f) 63); [|done]. by intros [= _ <-].
Qed.
Next Obligation.
  intros f. change (isTagged (2 ^ 63) f = match view_of f with Proxy _ _ => true | Foreign => false end). unfold isTagged, view_of.
  rewrite land_pow2_eqb by done. by destruct (Z.testbit (destroyFn f) 63).
Qed.
Next Obligation.
  intros f. change (isTagged (Z.lor (2 ^ 62) (2 ^ 63)) f = match view_of f with Proxy t _ => t | Foreign => false end). unfold isTagged, view_of.
  rewrite land_two_eqb by done. destruct (Z.testbit (destroyFn f) 63); [apply andb_true_r|apply andb_false_r].
Qed.
End SpareSpec.

Module NoSpareSpec.
Import NoSpare.
Definition view_of (f : frame) : view :=
  if isTagFn (destroyFn f) && Z.testbit (link_ f) 0
  then Proxy (Z.testbit (link_ f) 1) (NoSpare.followLink f) else Foreign.

Lemma mask_bit_nospare n : Z.testbit MASK n = (n =? 0) || (n =? 1).
Proof.
  change MASK with (Z.lor (2 ^ 0) (2 ^ 1)). rewrite Z.lor_spec, !Z.pow2_bits_eqb by done.
  by rewrite !(Z.eqb_sym n).
Qed.
#[global] Program Instance nospare_spec : FrameSpec NoSpare.frame := {|
  addr_ok h := Z.land h MASK =? 0; f_view := view_of |}.
Next Obligation. done. Qed.
Next Obligation. done. Qed.
Next Obligation. done. Qed.
Next Obligation.
  intros f h t l Hv Hh%Z.eqb_eq. cbn. unfold linkTo. rewrite Hh. cbn. eexists. split; [done|].
  unfold view_of in *. cbn [destroyFn link_].
  assert (Hbit : forall n, 0 <= n -> (n =? 0) || (n =? 1) = true ->
    Z.testbit (Z.lor (Z.land (link_ f) MASK) h) n = Z.testbit (link_ f) n).
  { intros n Hn0 Hn. rewrite land_zero_bits in Hh. specialize (Hh n Hn0).
    rewrite Z.lor_spec, Z.land_spec. rewrite mask_bit_nospare, Hn, ?andb_true_r in *. by rewrite Hh, orb_false_r. }
  rewrite !Hbit by done. destruct (isTagFn (destroyFn f) && Z.testbit (link_ f) 0); [|done].
  injection Hv as <- <-. f_equal. unfold NoSpare.followLink. cbn [link_]. bitwise.
Qed.
Next Obligation. intros f h Hh. cbn. unfold linkTo. by rewrite Hh. Qed.
Next Obligation.
  intros f t l. cbn. unfold view_of. destruct (_ && _); [|done]. by intros [= _ <-].
Qed.
Next Obligation.
  intros f. change (isTagged (2 ^ 0) f = match view_of f with Proxy _ _ => true | Foreign => false end). unfold isTagged, view_of.
  rewrite land_pow2_eqb by done. by destruct (_ && _).
Qed.
Next Obligation.
  intros f. change (isTagged (Z.lor (2 ^ 1) (2 ^ 0)) f = match view_of f with Proxy t _ => t | Foreign => false end). unfold isTagged, view_of.
  rewrite land_two_eqb by done.
  destruct (isTagFn _), (Z.testbit (link_ f) 0); cbn; by rewrite ?andb_true_r, ?andb_false_r.
Qed.
End NoSpareSpec.

(** * Walking the links *)

Section Walks.
Context `{FrameSpec F}.
Implicit Types (M : memory F) (c : cell F) (cs : list (cell F)) (f : F).

(** The frames reached from the one at [h]; the flag tells whether the chain
    ends in a frame that is not a proxy. *)
Inductive chain M : Z -> list (cell F) -> bool -> Prop :=
| chain_nil : chain M 0 [] false
| chain_foreign h c : h <> 0 -> M !! h = Some c -> f_view (fr c) = Foreign -> chain M h [c] true
| chain_proxy h c t l cs e : h <> 0 -> M !! h = Some c -> f_view (fr c) = Proxy t l ->
    chain M l cs e -> chain M h (c :: cs) e.

Definition is_task c : bool := match f_view (fr c) with Proxy t _ => t | Foreign => false end.
Definition pcs cs : list Z := omap (fun c => if is_task c then Some (pc c) else None) cs.
(** The exception of the innermost task whose parent is a try block that has one. *)
Definition exception_at c : option positive :=
  if is_task c then match try_exception c with Some (Some e) => Some e | _ => None end else None.
Definition first_exception cs : option positive := head (omap exception_at cs).

Lemma frameCast_proxy c : frameCast proxy_TAG c = match f_view (fr c) with Proxy _ _ => true | Foreign => false end.
Proof. apply tagged_proxy. Qed.
Lemma frameCast_task c : frameCast task_TAG c = is_task c.
Proof. apply tagged_task. Qed.

Lemma collect_chain M h cs e fuel :
  chain M h cs e -> (length cs <= fuel)%nat -> collectAsyncStackTrace fuel M h = Ok (pcs cs).
Proof.
  intros Hc. revert fuel. induction Hc as [|h c Hh Hm Hv|h c t l cs e Hh Hm Hv Hc IH]; intros fuel Hf.
  - by destruct fuel.
  - destruct fuel as [|fuel]; [cbn in Hf; lia|]. cbn [collectAsyncStackTrace].
    rewrite (proj2 (Z.eqb_neq _ _) Hh), Hm. res_cbn. rewrite frameCast_proxy, frameCast_task, Hv. res_cbn.
    unfold pcs. cbn. unfold is_task. by rewrite Hv.
  - destruct fuel as [|fuel]; [cbn in Hf; lia|]. cbn [collectAsyncStackTrace].
    rewrite (proj2 (Z.eqb_neq _ _) Hh), Hm. res_cbn. rewrite frameCast_proxy, frameCast_task, Hv.
    rewrite (followLink_view _ t l Hv), IH by (cbn in Hf; lia). res_cbn.
    unfold pcs. cbn. by destruct (is_task c).
Qed.

Lemma find_chain M h cs e fuel :
  chain M h cs e -> (length cs <= fuel)%nat ->
  find_exception fuel M h =
    match first_exception cs with
    | Some x => Ok (Some x) | None => if e then Fault Unreachable else Ok None end.
Proof.
  intros Hc. revert fuel. induction Hc as [|h c Hh Hm Hv|h c t l cs e Hh Hm Hv Hc IH]; intros fuel Hf.
  - by destruct fuel.
  - destruct fuel as [|fuel]; [cbn in Hf; lia|]. cbn [find_exception].
    rewrite (proj2 (Z.eqb_neq _ _) Hh), Hm. res_cbn. rewrite frameCast_proxy, frameCast_task.
    unfold first_exception, exception_at, is_task. cbn. by rewrite Hv.
  - destruct fuel as [|fuel]; [cbn in Hf; lia|]. cbn [find_exception].
    rewrite (proj2 (Z.eqb_neq _ _) Hh), Hm. res_cbn. rewrite frameCast_proxy, frameCast_task, Hv.
    rewrite (followLink_view _ t l Hv), IH by (cbn in Hf; lia).
    unfold first_exception. cbn. unfold exception_at.
    destruct (is_task c); [|done]. by destruct (try_exception c) as [[x|]|].
Qed.

Lemma chain_insert M h cs e a c : chain M h cs e -> M !! a = None -> chain (<[a:=c]> M) h cs e.
Proof.
  intros Hc Ha.
  assert (Hk : forall k q, M !! k = Some q -> (<[a:=c]> M : memory F) !! k = Some q).
  { intros k q Hq. rewrite lookup_insert_ne; [done|]. intros ->. by rewrite Ha in Hq. }
  induction Hc as [|h' c' Hh Hm Hv|h' c' t l cs e Hh Hm Hv Hc IH].
  - apply chain_nil.
  - eapply chain_foreign; eauto.
  - eapply chain_proxy; eauto.
Qed.

(** A task's frame at address [a] is started by [caller] ([Promise::start()]
    calls [linkTo(caller)]), or is replaced as the one [caller] awaits. *)
Definition start_frame (a pc : Z) (ex : option (option positive)) (caller : Z) M : res (memory F) :=
  f ← linkTo caller TaskFrame; Ok (<[a:=Cell f pc ex]> M).

(** Tasks that call each other, outermost first. *)
Fixpoint start_all (calls : list (Z * Z * option (option positive))) (caller : Z) M : res (Z * memory F) :=
  match calls with
  | [] => Ok (caller, M)
  | (a, pc, ex) :: calls => M ← start_frame a pc ex caller M; start_all calls a M
  end.

Definition call_cells (f : Z * Z * option (option positive)) (c : cell F) : Prop :=
  is_task c = true /\ pc c = f.1.2 /\ try_exception c = f.2.

Lemma start_all_chain calls caller M cs e :
  chain M caller cs e -> addr_ok caller = true ->
  NoDup (calls.*1.*1) -> (forall a, a ∈ calls.*1.*1 -> a <> 0 /\ addr_ok a = true /\ M !! a = None) ->
  exists h M' cs', start_all calls caller M = Ok (h, M') /\ chain M' h (cs' ++ cs) e /\
    Forall2 call_cells (rev calls) cs'.
Proof.
  revert caller M cs. induction calls as [|[[a p] ex] calls IH]; intros caller M cs Hc Hok Hnd Ha.
  - exists caller, M, []. split_and!; [done|done|constructor].
  - cbn [start_all]. unfold start_frame.
    destruct (linkTo_ok TaskFrame caller true 0 view_task Hok) as (f & -> & Hv). res_cbn.
    destruct (Ha a ltac:(set_solver)) as (Ha0 & Hoka & HaM).
    cbn in Hnd. apply NoDup_cons in Hnd as [Hni Hnd].
    set (c := Cell f p ex). destruct (IH a (<[a:=c]> M) (c :: cs)) as (h & M' & cs' & E & Hch & HF).
    + eapply chain_proxy; [done|by rewrite lookup_insert_eq|exact Hv|]. by apply chain_insert.
    + done.
    + done.
    + intros b Hb. destruct (Ha b ltac:(set_solver)) as (? & ? & ?). split_and!; [done..|].
      rewrite lookup_insert_ne; [done|]. intros ->. by apply Hni.
    + exists h, M', (cs' ++ [c]). split_and!; [done|by rewrite <- app_assoc|].
      cbn [rev]. apply Forall2_app; [done|]. repeat constructor. unfold call_cells, is_task. cbn. by rewrite Hv.
Qed.

(** C16.  After tasks have called each other, the stack
    trace taken from the innermost lists the program counters of all of them,
    innermost first, and a rethrow finds the exception of the innermost one
    whose parent is a try block with an active exception. *)
Theorem stack_trace_of_calls calls :
  NoDup (calls.*1.*1) -> (forall a, a ∈ calls.*1.*1 -> a <> 0 /\ addr_ok a = true) ->
  exists h M, start_all calls 0 ∅ = Ok (h, M) /\
    collectAsyncStackTrace (length calls) M h = Ok (rev (calls.*1.*2)) /\
    find_exception (length calls) M h =
      Ok (head (omap (fun ex => match ex with Some (Some e) => Some e | _ => None end) (rev (calls.*2)))).
Proof.
  intros Hnd Ha. destruct (start_all_chain calls 0 ∅ [] false) as (h & M & cs & E & Hc & HF);
    [constructor|apply addr_ok_null|done|intros a Haa; destruct (Ha a Haa); done|].
  rewrite app_nil_r in Hc. exists h, M. split; [done|].
  assert (Hlen : (length cs <= length calls)%nat).
  { apply Forall2_length in HF. rewrite length_rev in HF. lia. }
  rewrite (collect_chain _ _ _ _ _ Hc Hlen), (find_chain _ _ _ _ _ Hc Hlen).
  assert (HR : pcs cs = (rev calls).*1.*2 /\
    omap exception_at cs = omap (fun ex => match ex with Some (Some e) => Some e | _ => None end) ((rev calls).*2)).
  { clear -HF. induction HF as [|x c xs cs (Ht & Hp & Hx) _ [IH1 IH2]]; [done|].
    unfold pcs in *. cbn. unfold exception_at at 1. rewrite Ht, IH1, IH2, Hp, Hx. done. }
  destruct HR as [E1 E2]. rewrite E1. unfold first_exception. rewrite E2.
  assert (HV : forall {A B} (g : A -> B) l, g <$> rev l = rev (g <$> l)) by (intros; apply map_rev).
  rewrite !HV. split; [done|]. by destruct (head _).
Qed.
End Walks.

Definition sample_calls : list (Z * Z * option (option positive)) :=
  [(4096, 17, None); (8192, 23, Some (Some 5%positive)); (12288, 42, Some None)].

Lemma stack_trace_of_calls_witness :
  exists h M, start_all (F := Spare.frame) sample_calls 0 ∅ = Ok (h, M) /\
    collectAsyncStackTrace 3 M h = Ok [42; 23; 17] /\ find_exception 3 M h = Ok (Some 5%positive).
Proof.
  apply (stack_trace_of_calls (F := Spare.frame) sample_calls).
  - repeat constructor; set_solver.
  - intros a Ha. unfold sample_calls in Ha. cbn [fmap list_fmap fst] in Ha.
    repeat (apply elem_of_cons in Ha as [->|Ha]; [split; [lia|reflexivity]|]). by apply elem_of_nil in Ha.
Defined.
