(* ===== verification/TaskStorage.v ===== *)
(** [ValueOrPromise] of [detail/TaskAwaiter.h], and [Task] over it: a word that
    is a promise pointer, a value stored inline (as it is, or shifted by two),
    or a pointer to a boxed value.

    The value type is given by its object representation ([repr], what
    [memcpy()] copies into the word) and by whether it is small and trivial;
    [operator new] is the parameter [malloc].  Boxes and promises are aligned
    so that the two low bits of their addresses are zero. *)
From S2P Require Export Bits.

Local Open Scope Z_scope.

Section Storage.
Context {V : Type} (fitsInline : bool) (repr : V -> Z) (unrepr : Z -> V).
Context (malloc : gmap Z V -> Z).

(** The boxes allocated, and the promises destroyed. *)
Record heap := Heap { boxes : gmap Z V; destroyed : list Z }.
Implicit Types (v : V) (H : heap) (w p b : Z).

Definition TypeBits : Z := 2.
Definition Mask : Z := Z.shiftl 1 TypeBits - 1.
Definition IsPromise : Z := 0.
Definition IsValuePtr : Z := 1.
Definition IsInlineValue : Z := 2.
Definition IsShiftedInlineValue : Z := 3.

(** The constructors: no argument, [Promise<T>*], [Value] *)
Definition vp_empty : Z := 0.
Definition vp_promise p : Z := Z.lor p IsPromise.
Definition vp_value v H : Z * heap :=
  let boxed := let p := malloc (boxes H) in
               (Z.lor p IsValuePtr, Heap (<[p:=v]> (boxes H)) (destroyed H)) in
  if fitsInline then
    let bits := repr v in
    if Z.land bits Mask =? 0 then (Z.lor bits IsInlineValue, H)
    else if Z.land bits (to_word (Z.shiftl Mask (64 - TypeBits))) =? 0 then
      (Z.lor (to_word (Z.shiftl bits TypeBits)) IsShiftedInlineValue, H)
    else boxed
  else boxed.

(** [take()]: type, bits, and the word left behind *)
Definition Consumed : Z := Z.lor 0 IsValuePtr.
Definition take w : Z * Z * Z := (Z.land w Mask, Z.ldiff w Mask, Consumed).

(** [~ValueOrPromise()] *)
Definition vp_destroy w H : res heap :=
  let '(type, bits, _) := take w in
  if bits =? 0 then Ok H
  else if type =? IsPromise then Ok (Heap (boxes H) (destroyed H ++ [bits]))
  else if type =? IsValuePtr then _ ← deref (boxes H !! bits); Ok (Heap (delete bits (boxes H)) (destroyed H))
  else Ok H.

(** Move construction, and [operator=] *)
Definition vp_move w : Z * Z := (w, 0).
Definition vp_assign w rhs : Z * Z := (rhs, w).

Definition isEmpty w : bool := w =? 0.
Definition isConsumed w : bool := w =? IsValuePtr.
Definition hasPromise w : bool := Z.land w Mask =? IsPromise.
Definition hasValue w : bool := negb (hasPromise w).
Definition promise w : res Z := corral_assert (Z.land w Mask =? IsPromise);; Ok w.
Definition takePromise w : res (Z * Z) :=
  corral_assert (negb (w =? 0) && (Z.land w Mask =? IsPromise));; Ok (Z.ldiff w Mask, 0).

(** [takeValue()]: the value, and the word left behind *)
Definition takeValue w H : res (V * Z * heap) :=
  let '(type, bits, w') := take w in
  if type =? IsValuePtr then
    corral_assert (negb (bits =? 0));;
    v ← deref (boxes H !! bits); Ok (v, w', Heap (delete bits (boxes H)) (destroyed H))
  else if fitsInline then
    corral_assert ((type =? IsInlineValue) || (type =? IsShiftedInlineValue));;
    Ok (unrepr (if type =? IsShiftedInlineValue then Z.shiftr bits TypeBits else bits), w', H)
  else Fault Unreachable.

(** [Task::valid()], [ready()], [release()] *)
Definition task_valid w : bool := negb (isEmpty w).
Definition task_ready w : bool := hasValue w.
Definition task_release w : res (Z * Z) := takePromise w.

(** * Correctness *)

(** The value type and the allocator: an object representation fits a word
    when the value is stored inline, and can be read back; new boxes are
    aligned, and new. *)
Class StorageSpec : Prop := {
  repr_range v : fitsInline = true -> 0 <= repr v < 2 ^ 64;
  unrepr_repr v : fitsInline = true -> unrepr (repr v) = v;
  malloc_fresh m : m !! malloc m = None;
  malloc_aligned m : Z.land (malloc m) Mask = 0;
  malloc_null m : malloc m <> 0 }.
Context (HS : StorageSpec).

Lemma Mask_bits n : 0 <= n -> Z.testbit Mask n = (n <? 2).
Proof.
  intros Hn. change Mask with (Z.ones 2). destruct (Z.ltb_spec n 2).
  - apply Z.ones_spec_low. lia.
  - apply Z.ones_spec_high. lia.
Qed.
Lemma shifted_land bits : 0 <= bits < 2 ^ 64 ->
  Z.land bits (to_word (Z.shiftl Mask (64 - TypeBits))) = 0 -> 0 <= bits < 2 ^ 62.
Proof.
  intros Hb Hz. split; [lia|]. destruct (decide (bits < 2 ^ 62)) as [?|Hge]; [done|]. exfalso.
  change (to_word (Z.shiftl Mask (64 - TypeBits))) with (Z.shiftl 3 62) in Hz.
  assert (HT : Z.land (Z.shiftr bits 62) 3 = 0).
  { apply (f_equal (fun z => Z.shiftr z 62)) in Hz. rewrite Z.shiftr_land in Hz. exact Hz. }
  rewrite Z.shiftr_div_pow2 in HT by lia. change 3 with (Z.ones 2) in HT.
  rewrite Z.land_ones in HT by lia.
  assert (1 <= bits / 2 ^ 62 < 4).
  { split; [apply Z.div_le_lower_bound; lia|apply Z.div_lt_upper_bound; lia]. }
  rewrite Z.mod_small in HT by (change (2 ^ 2) with 4; lia). lia.
Qed.
Lemma lor_tag bits t : Z.land bits Mask = 0 -> Z.ldiff t Mask = 0 ->
  Z.land (Z.lor bits t) Mask = t /\ Z.ldiff (Z.lor bits t) Mask = bits.
Proof. intros. split; bitwise. Qed.
Lemma shiftl_tag bits : Z.land (Z.shiftl bits TypeBits) Mask = 0.
Proof.
  apply land_zero_bits. intros n Hn. rewrite Mask_bits by done. destruct (Z.ltb_spec n 2).
  - rewrite Z.shiftl_spec_low by (unfold TypeBits; lia). done.
  - apply andb_false_r.
Qed.

(** How a value is stored. *)
Inductive stored v H : Z -> heap -> Prop :=
| stored_inline w : fitsInline = true -> Z.land (repr v) Mask = 0 -> w = Z.lor (repr v) IsInlineValue -> stored v H w H
| stored_shifted w : fitsInline = true -> 0 <= repr v < 2 ^ 62 ->
    w = Z.lor (Z.shiftl (repr v) TypeBits) IsShiftedInlineValue -> stored v H w H
| stored_boxed p : boxes H !! p = None -> Z.land p Mask = 0 -> p <> 0 ->
    stored v H (Z.lor p IsValuePtr) (Heap (<[p:=v]> (boxes H)) (destroyed H)).

Lemma vp_value_stored v H : let '(w, H') := vp_value v H in stored v H w H'.
Proof.
  assert (Hbox : let '(w, H') := (Z.lor (malloc (boxes H)) IsValuePtr,
    Heap (<[malloc (boxes H):=v]> (boxes H)) (destroyed H)) in stored v H w H').
  { apply stored_boxed; [by apply malloc_fresh|by apply malloc_aligned|by apply malloc_null]. }
  unfold vp_value. cbv zeta. destruct fitsInline eqn:Hf; [|exact Hbox].
  destruct (Z.eqb_spec (Z.land (repr v) Mask) 0); [by apply stored_inline|].
  destruct (Z.eqb_spec (Z.land (repr v) (to_word (Z.shiftl Mask (64 - TypeBits)))) 0) as [Hz|_]; [|exact Hbox].
  pose proof (repr_range v Hf) as Hr. apply shifted_land in Hz; [|done].
  rewrite to_word_small; [by apply stored_shifted|].
  rewrite Z.shiftl_mul_pow2 by (unfold TypeBits; lia). unfold TypeBits. lia.
Qed.

Lemma heap_eta H : Heap (boxes H) (destroyed H) = H.
Proof. by destruct H. Qed.

Lemma stored_take v H w H' : stored v H w H' ->
  hasValue w = true /\ isEmpty w = false /\ isConsumed w = false /\
  takeValue w H' = Ok (v, Consumed, H) /\ vp_destroy w H' = Ok H.
Proof.
  intros Hs.
  assert (Hnz : forall b t, Z.land b Mask = 0 -> Z.ldiff t Mask = 0 -> t <> 0 ->
    (Z.lor b t =? 0) = false).
  { intros b t Hb Ht Ht0. apply Z.eqb_neq. intros E. destruct (lor_tag b t Hb Ht) as [Et _].
    rewrite E in Et. by rewrite <- Et in Ht0. }
  destruct Hs as [w Hf Hz ->|w Hf Hr ->|p Hp Ha Hnull].
  - destruct (lor_tag (repr v) IsInlineValue Hz eq_refl) as [E1 E2].
    unfold hasValue, hasPromise, isEmpty, isConsumed, takeValue, vp_destroy, take.
    rewrite E1, E2, Hf. split_and!; [done|by apply Hnz| |cbn; by rewrite unrepr_repr|].
    + apply Z.eqb_neq. intros E. rewrite E in E1. done.
    + destruct (repr v =? 0); done.
  - pose proof (shiftl_tag (repr v)) as Hz.
    destruct (lor_tag _ IsShiftedInlineValue Hz eq_refl) as [E1 E2].
    unfold hasValue, hasPromise, isEmpty, isConsumed, takeValue, vp_destroy, take.
    rewrite E1, E2, Hf. split_and!; [done|by apply Hnz| | |].
    + apply Z.eqb_neq. intros E. rewrite E in E1. done.
    + change (IsShiftedInlineValue =? IsValuePtr) with false.
      change (IsShiftedInlineValue =? IsShiftedInlineValue) with true. rewrite orb_true_r. res_cbn.
      rewrite Z.shiftr_shiftl_l by (unfold TypeBits; lia).
      rewrite Z.sub_diag, Z.shiftl_0_r. by rewrite unrepr_repr.
    + destruct (_ =? 0); done.
  - destruct (lor_tag p IsValuePtr Ha eq_refl) as [E1 E2].
    unfold hasValue, hasPromise, isEmpty, isConsumed, takeValue, vp_destroy, take.
    rewrite E1, E2. rewrite (proj2 (Z.eqb_neq p 0) Hnull). cbn [boxes destroyed].
    rewrite lookup_insert_eq, delete_insert_id by done. split_and!; [done|by apply Hnz| |..].
    + apply Z.eqb_neq. intros E. rewrite E in E2. change (Z.ldiff IsValuePtr Mask) with 0 in E2. congruence.
    + cbn. by rewrite heap_eta.
    + cbn. by rewrite heap_eta.
Qed.

(** C15.  A value put into a [ValueOrPromise] is what comes
    out again, whether it was stored inline, shifted, or boxed: the object
    says that it holds a value, taking it returns the heap to what it was, and
    leaves the consumed state behind, from which nothing can be taken and
    which is destroyed without effect; destroying it instead frees the box. *)
Theorem task_storage_value v H :
  let '(w, H') := vp_value v H in
  hasValue w = true /\ task_valid w = true /\ isConsumed w = false /\
  takeValue w H' = Ok (v, Consumed, H) /\ vp_destroy w H' = Ok H /\
  isConsumed Consumed = true /\ vp_destroy Consumed H = Ok H /\
  takeValue Consumed H = Fault AssertFailed.
Proof.
  pose proof (vp_value_stored v H) as Hs. destruct (vp_value v H) as [w H'].
  destruct (stored_take v H w H' Hs) as (E1 & E2 & E3 & E4 & E5).
  unfold task_valid. rewrite E2. by split_and!.
Qed.

(** A promise pointer is told from a value, and
    comes out unchanged; [takePromise()] leaves an empty object, which owns
    nothing, and destroying the object destroys the promise exactly once. *)
Theorem task_storage_promise p H :
  Z.land p Mask = 0 -> p <> 0 ->
  let w := vp_promise p in
  hasPromise w = true /\ task_ready w = false /\ promise w = Ok p /\
  task_release w = Ok (p, vp_empty) /\ vp_destroy vp_empty H = Ok H /\
  vp_destroy w H = Ok (Heap (boxes H) (destroyed H ++ [p])) /\
  task_release vp_empty = Fault AssertFailed.
Proof.
  intros Hp Hn w. assert (E : w = p) by apply Z.lor_0_r. rewrite E.
  unfold task_ready, hasValue, hasPromise, promise, task_release, takePromise, vp_destroy, take.
  rewrite Hp, (ldiff_id p Mask Hp), (proj2 (Z.eqb_neq p 0) Hn). by split_and!.
Qed.
End Storage.
Arguments heap V : clear implicits.

(** [justApx()]: the two low bits of the mantissa are cleared. *)
Definition justApx_bits (word_sized : bool) (bits : Z) : Z :=
  if word_sized then Z.ldiff bits Mask else bits.

(** A word-sized floating-point number passed through
    [justApx()] is never boxed: whatever its bits, it is stored inline and the heap
    does not change. *)
Theorem justApx_stays_inline malloc bits (H : heap Z) :
  vp_value true id malloc (justApx_bits true bits) H =
    (Z.lor (Z.ldiff bits Mask) IsInlineValue, H).
Proof.
  unfold vp_value, justApx_bits, id. cbv zeta. rewrite ldiff_land. done.
Qed.

(** Words as the values, boxes allocated upwards. *)
Definition bump {V} (m : gmap Z V) : Z := 4096 * (1 + fold_right Z.max 0 (map fst (map_to_list m))).
Lemma bump_above {V} (m : gmap Z V) k : is_Some (m !! k) -> k <= fold_right Z.max 0 (map fst (map_to_list m)).
Proof.
  intros [v Hk%elem_of_map_to_list]. induction (map_to_list m) as [|[k' v'] l IH]; [by apply elem_of_nil in Hk|].
  apply elem_of_cons in Hk as [[= -> ->]|Hk]; cbn; [lia|]. specialize (IH Hk). lia.
Qed.
Lemma bump_nonneg {V} (m : gmap Z V) : 0 <= fold_right Z.max 0 (map fst (map_to_list m)).
Proof. induction (map fst (map_to_list m)); cbn; lia. Qed.

Definition word_repr (v : Z) : Z := to_word v.
Definition words (v : Z) : bool := (0 <=? v) && (v <? 2 ^ 64).
Definition word_val := { v : Z | words v = true }.
#[global] Instance word_storage : @StorageSpec word_val true proj1_sig
  (fun z => match Sumbool.sumbool_of_bool (words z) with left E => exist _ z E | right _ => exist _ 0 eq_refl end) bump.
Proof.
  split.
  - intros [v Hv] _. cbn. unfold words in Hv. lia.
  - intros [v Hv] _. cbn. destruct (Sumbool.sumbool_of_bool (words v)) as [E|E]; [|congruence].
    f_equal. apply proof_irrel.
  - intros m. destruct (m !! bump m) eqn:E; [|done]. pose proof (bump_above m (bump m) ltac:(by eexists)).
    pose proof (bump_nonneg m). unfold bump in *. lia.
  - intros m. change Mask with (Z.ones 2). rewrite Z.land_ones by lia. unfold bump.
    change 4096 with (1024 * 2 ^ 2). rewrite <- Z.mul_assoc, (Z.mul_comm (2 ^ 2)), Z.mul_assoc. by apply Z.mod_mul.
  - intros m. pose proof (bump_nonneg m). unfold bump. lia.
Qed.

Definition big : word_val := exist _ (2 ^ 63 + 1) eq_refl.
Definition small : word_val := exist _ 7 eq_refl.
Definition get_word (r : res (word_val * Z * heap word_val)) : res (Z * Z) :=
  '(v, w, _) ← r; Ok (proj1_sig v, w).
Definition unword (z : Z) : word_val :=
  match Sumbool.sumbool_of_bool (words z) with left E => exist _ z E | right _ => exist _ 0 eq_refl end.

(** A large odd word has to be boxed, a small one is shifted. *)
Lemma task_storage_value_witness :
  let H := Heap ∅ [] in
  let '(w, H') := vp_value true (@proj1_sig Z _) bump big H in
  w = 4097 /\ (vp_value true (@proj1_sig Z _) bump small H).1 = 31 /\
  takeValue true unword w H' = Ok (big, Consumed, H).
Proof.
  pose proof (task_storage_value true (@proj1_sig Z _) unword bump word_storage big (Heap ∅ [])) as Hb.
  cbv zeta. destruct (vp_value true (@proj1_sig Z (fun v => words v = true)) bump big (Heap ∅ [])) as [w H'] eqn:E.
  assert (Ew : w = 4097) by (transitivity (vp_value true (@proj1_sig Z _) bump big (Heap ∅ [])).1;
    [by rewrite E|vm_compute; reflexivity]).
  split_and!; [done|vm_compute; reflexivity|apply Hb].
Defined.

Lemma task_storage_promise_witness :
  vp_destroy (vp_promise 4096) (Heap (V := Z) ∅ []) = Ok (Heap ∅ [4096]).
Proof. apply (task_storage_promise 4096 (Heap ∅ [])); [reflexivity|lia]. Defined.
