(* ===== verification/Task.v ===== *)
(** [detail/Promise.h] and [detail/TaskAwaiter.h]: a task and the awaiter that
    started it.

    The task is [BasePromise] with the awaiter it waits for, seen through the
    [SanitizedAwaiter] that checks the protocol; its parent is a [TaskAwaiter].
    The coroutine's body, the executor and the awaiter are the environment:
    [event] lists what they can do, and [enabled] when (a body acts while it is
    on the CPU, an awaiter that was suspended resumes the handle it was given
    once, unless the cancellation was confirmed, and a parent cancels once). *)
From S2P Require Export Awaiter.
Import Checker.

(** [resumeFn] of the promise's frame, and the words of the union: [state_] or
    [awaiter_.object_], [cancelState_] or [awaiter_.functions_]. *)
Inductive resume_fn := NoFn | DoNothing | DoResume | DoResumeAfterCancel.
Inductive word1 := SReady | SRunning | Object (b : behaviour).
Inductive word2 := CNone | CRequested | Functions.
#[export] Instance word2_eq_dec : EqDecision word2.
Proof. solve_decision. Defined.
(** [Result<T>] *)
Inductive result := RIncomplete | RValue | RException | RCancelled.
#[export] Instance result_eq_dec : EqDecision result.
Proof. solve_decision. Defined.

Record task := Task {
  (* BasePromise *)
  parent_ : bool; pstate_ : word1; cancelState_ : word2; resumeFn : resume_fn;
  (* the AwaitProxy of the co_await being evaluated, by its state checker *)
  proxy : option checker;
  (* TaskAwaiter: promise_ and result_; continuation_ is given by start *)
  promise_ : bool; result_ : result; continuation_ : handle;
  (* the environment: callbacks posted to the executor, the body is on the CPU,
     the awaiter holds the handle, the parent has asked to cancel, the frame
     exists, and the handles resumed *)
  posted : nat; on_cpu : bool; held : bool; asked : bool; alive : bool; resumed_ : list loc }.

Implicit Types (t : task) (b : behaviour).

Definition new_task : task :=
  Task false SReady CNone NoFn None true RIncomplete Noop 0 false false false true [].

Definition set_parent (v : bool) t : task :=
  Task v (pstate_ t) (cancelState_ t) (resumeFn t) (proxy t) (promise_ t) (result_ t) (continuation_ t)
       (posted t) (on_cpu t) (held t) (asked t) (alive t) (resumed_ t).
Definition set_state (v : word1) t : task :=
  Task (parent_ t) v (cancelState_ t) (resumeFn t) (proxy t) (promise_ t) (result_ t) (continuation_ t)
       (posted t) (on_cpu t) (held t) (asked t) (alive t) (resumed_ t).
Definition set_cancel (v : word2) t : task :=
  Task (parent_ t) (pstate_ t) v (resumeFn t) (proxy t) (promise_ t) (result_ t) (continuation_ t)
       (posted t) (on_cpu t) (held t) (asked t) (alive t) (resumed_ t).
Definition onResume (v : resume_fn) t : task :=
  Task (parent_ t) (pstate_ t) (cancelState_ t) v (proxy t) (promise_ t) (result_ t) (continuation_ t)
       (posted t) (on_cpu t) (held t) (asked t) (alive t) (resumed_ t).
Definition set_proxy (v : option checker) t : task :=
  Task (parent_ t) (pstate_ t) (cancelState_ t) (resumeFn t) v (promise_ t) (result_ t) (continuation_ t)
       (posted t) (on_cpu t) (held t) (asked t) (alive t) (resumed_ t).
Definition set_promise (v : bool) t : task :=
  Task (parent_ t) (pstate_ t) (cancelState_ t) (resumeFn t) (proxy t) v (result_ t) (continuation_ t)
       (posted t) (on_cpu t) (held t) (asked t) (alive t) (resumed_ t).
Definition set_result (v : result) t : task :=
  Task (parent_ t) (pstate_ t) (cancelState_ t) (resumeFn t) (proxy t) (promise_ t) v (continuation_ t)
       (posted t) (on_cpu t) (held t) (asked t) (alive t) (resumed_ t).
Definition set_continuation (v : handle) t : task :=
  Task (parent_ t) (pstate_ t) (cancelState_ t) (resumeFn t) (proxy t) (promise_ t) (result_ t) v
       (posted t) (on_cpu t) (held t) (asked t) (alive t) (resumed_ t).
Definition set_posted (v : nat) t : task :=
  Task (parent_ t) (pstate_ t) (cancelState_ t) (resumeFn t) (proxy t) (promise_ t) (result_ t) (continuation_ t)
       v (on_cpu t) (held t) (asked t) (alive t) (resumed_ t).
Definition set_cpu (v : bool) t : task :=
  Task (parent_ t) (pstate_ t) (cancelState_ t) (resumeFn t) (proxy t) (promise_ t) (result_ t) (continuation_ t)
       (posted t) v (held t) (asked t) (alive t) (resumed_ t).
Definition set_held (v : bool) t : task :=
  Task (parent_ t) (pstate_ t) (cancelState_ t) (resumeFn t) (proxy t) (promise_ t) (result_ t) (continuation_ t)
       (posted t) (on_cpu t) v (asked t) (alive t) (resumed_ t).
Definition set_asked (v : bool) t : task :=
  Task (parent_ t) (pstate_ t) (cancelState_ t) (resumeFn t) (proxy t) (promise_ t) (result_ t) (continuation_ t)
       (posted t) (on_cpu t) (held t) v (alive t) (resumed_ t).
Definition set_alive (v : bool) t : task :=
  Task (parent_ t) (pstate_ t) (cancelState_ t) (resumeFn t) (proxy t) (promise_ t) (result_ t) (continuation_ t)
       (posted t) (on_cpu t) (held t) (asked t) v (resumed_ t).
Definition resume_handle (h : handle) t : task :=
  Task (parent_ t) (pstate_ t) (cancelState_ t) (resumeFn t) (proxy t) (promise_ t) (result_ t) (continuation_ t)
       (posted t) (on_cpu t) (held t) (asked t) (alive t) (resumed_ t ++ handle_coro h).

(** * The parent: [TaskAwaiter] as a [TaskParent] *)

(** [storeValue()], [storeException()], [cancelled()], through [parent_] *)
Definition parent_store (r : result) t : res task :=
  corral_assert (parent_ t);; Ok (set_result r t).
(** [continuation()], and [resume()] of what it returns *)
Definition continuation t : res task :=
  corral_assert (negb (bool_decide (result_ t = RIncomplete)));;
  Ok (resume_handle (continuation_ t) (set_promise false t)).

(** * The promise *)

Definition hasAwaiter t : bool := match pstate_ t with Object _ => true | _ => false end.
Definition awaiter_beh t : res behaviour :=
  match pstate_ t with Object b => Ok b | _ => Fault BadAccess end.

(** A call of the state checker of the current awaiter. *)
Definition check (k : call) t : res task :=
  c ← deref (proxy t); c ← step k c; Ok (set_proxy (Some c) t).

(** [doResume()] *)
Definition do_resume t : res task :=
  let t := onResume DoNothing (set_state SReady t) in Ok (set_posted (S (posted t)) t).

(** [propagateCancel()] *)
Definition propagateCancel t : res task :=
  if parent_ t then
    t ← parent_store RCancelled t;
    continuation (set_parent false t)
  else Fault BadAccess.

(** [doResumeAfterCancel()] *)
Definition do_resume_after_cancel t : res task :=
  '(must, t) ← (if hasAwaiter t then
                  b ← awaiter_beh t; t ← check (CMustResume (b_must b)) t; Ok (b_must b, t)
                else Ok (false, t));
  if must : bool then do_resume (set_cancel CRequested t) else propagateCancel t.

(** [proxyHandle().resume()] *)
Definition proxy_resume t : res task :=
  match resumeFn t with
  | NoFn => Fault BadAccess
  | DoNothing => Ok t
  | DoResume => do_resume t
  | DoResumeAfterCancel => do_resume_after_cancel t
  end.

(** The awaiter calls [resume()] on the handle it was given: the checker's. *)
Definition awaiter_resumes t : res task := t ← check CResumed (set_held false t); proxy_resume t.

(** [cancel()] *)
Definition cancel t : res task :=
  if negb (hasAwaiter t) then Ok (set_cancel CRequested t)
  else
    let t := onResume DoResumeAfterCancel t in
    b ← awaiter_beh t;
    t ← check (CCancel (Coro 1)) t;
    match b_cancel b with
    | Confirmed => t ← check (CCancelled true) (set_held false t); propagateCancel t
    | Refused => check (CCancelled false) t
    | RefusedResumed =>
        t ← awaiter_resumes t; check (CCancelled false) t
    end.

(** [start()] and [reparent()], and [proxyHandle().resume()] by the caller *)
Definition start (h : handle) t : res task :=
  let t := set_continuation h t in
  let t := set_parent true (onResume DoResume t) in
  proxy_resume t.

(** [destroy()]: with it the frame's [AwaitProxy], whose checker is reset. *)
Definition destroy t : res task :=
  match proxy t with
  | None => Ok (set_alive false t)
  | Some c => _ ← reset c; Ok (set_alive false (set_proxy None t))
  end.

(** The callback posted by [doResume()]: if the body was suspended, the
    [co_await] is completed by [await_resume()] and the proxy destroyed. *)
Definition callback t : res task :=
  let t := set_cpu true (set_state SRunning (set_posted (pred (posted t)) t)) in
  match proxy t with
  | None => Ok t
  | Some _ => t ← check CResume t; c ← deref (proxy t); _ ← reset c; Ok (set_proxy None t)
  end.

(** [hookAwaitSuspend()], and [resume()] of the handle it returns.  The result
    tells whether [await_suspend()] has thrown. *)
Definition hookAwaitSuspend b t : res (bool * task) :=
  let cancelRequested := bool_decide (cancelState_ t = CRequested) in
  let t := set_cancel Functions (set_state (Object b) t) in
  let suspend t :=
    t ← check CSetExecutor t;
    t ← check (CSuspend (Coro 1)) t;
    match b_suspend b with
    | Later => Ok (false, set_held true t)
    | AtOnce => t ← awaiter_resumes t; Ok (false, t)
    | Throws =>
        t ← check CThrew t;
        let t := set_state SRunning t in
        Ok (true, if cancelRequested then set_cancel CRequested t else t)
    end in
  if cancelRequested then
    t ← check (CEarlyCancel (b_early b)) t;
    if b_early b then t ← propagateCancel t; Ok (false, t)
    else
      let t := onResume DoResumeAfterCancel t in
      t ← check (CReady (b_ready b)) t;
      if b_ready b then t ← proxy_resume t; Ok (false, t)
      else suspend t
  else suspend (onResume DoResume t).

(** [co_await]: the [AwaitProxy] is made, asked by [await_ready()], and the body
    suspended unless that says [true]; when the body goes on at once, the proxy
    ends with the expression. *)
Definition co_await b t : res task :=
  let t := set_proxy (Some initial) t in
  if bool_decide (cancelState_ t = CRequested) then
    '(threw, t) ← hookAwaitSuspend b (set_cpu false t);
    if threw : bool then c ← deref (proxy t); _ ← reset c; Ok (set_cpu true (set_proxy None t)) else Ok t
  else
    t ← check (CReady (b_ready b)) t;
    if b_ready b then
      t ← check CResume t; c ← deref (proxy t); _ ← reset c; Ok (set_proxy None t)
    else
      '(threw, t) ← hookAwaitSuspend b (set_cpu false t);
      if threw : bool then c ← deref (proxy t); _ ← reset c; Ok (set_cpu true (set_proxy None t)) else Ok t.

(** [return_value()] or [unhandled_exception()], then [hookFinalSuspend()] *)
Definition finish (r : result) t : res task :=
  t ← parent_store r t;
  corral_assert (parent_ t);;
  continuation (set_cpu false (set_parent false t)).

(** * [TaskAwaiter] as an awaiter *)

Definition ta_await_early_cancel t : res (bool * task) :=
  t ← (if promise_ t then cancel t else Ok t); Ok (false, set_asked true t).
Definition ta_await_ready t : bool := negb (bool_decide (result_ t = RIncomplete)).
Definition ta_await_cancel t : res (bool * task) :=
  t ← (if promise_ t then cancel (set_asked true t) else Ok (set_asked true t)); Ok (false, t).
Definition ta_await_must_resume t : bool := negb (bool_decide (result_ t = RCancelled)).
(** [Result::value()] for a [T] that is not [void]: [true] for the value, [false] for a rethrow *)
Definition ta_await_resume t : res bool :=
  match result_ t with
  | RValue => Ok true
  | r => corral_assert (bool_decide (r = RException));; Ok false
  end.

(** * Life of a task *)

Inductive event :=
| EEarlyCancel | EStart | ECancel | EResume | ECallback | EAwait (b : behaviour) | EFinish (throws : bool) | EDestroy.

Definition started t : bool := match resumeFn t with NoFn => false | _ => true end.
Definition enabled (e : event) t : bool :=
  alive t &&
  match e with
  | EEarlyCancel => negb (started t)
  | EStart => negb (started t)
  | ECancel => started t && negb (asked t)
  | EResume => held t
  | ECallback => (0 <? posted t)%nat
  | EAwait _ | EFinish _ => on_cpu t
  | EDestroy => negb (started t) || negb (promise_ t)
  end.
Definition event_step (e : event) t : res task :=
  match e with
  | EEarlyCancel => '(_, t) ← ta_await_early_cancel t; Ok t
  | EStart => start (Coro 2) t
  | ECancel => '(_, t) ← ta_await_cancel t; Ok t
  | EResume => awaiter_resumes t
  | ECallback => callback t
  | EAwait b => co_await b t
  | EFinish throws => finish (if throws : bool then RException else RValue) t
  | EDestroy => destroy t
  end.
Fixpoint run_events (es : list event) t : res task :=
  match es with
  | [] => Ok t
  | e :: es => if enabled e t then t ← event_step e t; run_events es t else Fault OutOfFuel
  end.

(** The states reached from a new task by enabled events. *)
Inductive reach : task -> Prop :=
| reach_new : reach new_task
| reach_step e t t' : reach t -> enabled e t = true -> event_step e t = Ok t' -> reach t'.

Lemma run_events_reach es t t' : reach t -> run_events es t = Ok t' -> reach t'.
Proof.
  revert t. induction es as [|e es IH]; intros t Hr E; cbn in E; [by injection E as <-|].
  destruct (enabled e t) eqn:He; [|done]. apply bind_ok in E as (t1 & E1 & E2).
  eapply IH; [|done]. by eapply reach_step.
Qed.

(** * Invariant: the phases of a task's life *)

Definition requested (a : bool) (cs : word2) : Prop := cs = CRequested <-> a = true.

Inductive phase : task -> Prop :=
| ph_fresh (a al : bool) cs : requested a cs ->
    phase (Task false SReady cs NoFn None true RIncomplete Noop 0 false false a al [])
| ph_queued (px : option checker) cs (a al : bool) : requested a cs ->
    match px with None => True | Some c => state_ c = Ready end ->
    phase (Task true SReady cs DoNothing px true RIncomplete (Coro 2) 1 false false a al [])
| ph_running f cs (a al : bool) : requested a cs -> f <> NoFn ->
    phase (Task true SRunning cs f None true RIncomplete (Coro 2) 0 true false a al [])
| ph_suspended b (a al : bool) :
    phase (Task true (Object b) Functions (if a then DoResumeAfterCancel else DoResume)
      (Some (Checker (Coro 1) true (if a then Cancelling else Running))) true RIncomplete (Coro 2)
      0 false true a al [])
| ph_done st cs f (px : option checker) r (a al : bool) : f <> NoFn -> r <> RIncomplete -> (r = RCancelled -> a = true) ->
    match px with None => True | Some c => state_ c = Cancelled end ->
    phase (Task false st cs f px false r (Coro 2) 0 false false a al [2%positive]).

Lemma requested_true cs : requested true cs <-> cs = CRequested.
Proof. unfold requested. naive_solver. Qed.
Lemma requested_false cs : requested false cs <-> cs <> CRequested.
Proof. unfold requested. naive_solver. Qed.
#[local] Hint Constructors phase : core.
#[local] Hint Extern 1 (requested _ _) => unfold requested; naive_solver : core.

(** A step that returns, in some phase. *)
Definition steps_to (r : res task) : Prop := exists t', r = Ok t' /\ phase t'.

(** Evaluates a step of a concrete phase as far as it goes. *)
Ltac task_eval := lazy beta iota zeta delta -[steps_to requested].

Lemma finish_phase f cs a al r :
  requested a cs -> f <> NoFn -> r = RValue \/ r = RException ->
  steps_to (finish r (Task true SRunning cs f None true RIncomplete (Coro 2) 0 true false a al [])).
Proof.
  intros Hr Hf [-> | ->]; task_eval; (eexists; split; [reflexivity|]); by apply ph_done.
Qed.

Lemma do_resume_phase st cs f (px : option checker) a al :
  requested a cs -> match px with None => True | Some c => state_ c = Ready end ->
  steps_to (do_resume (Task true st cs f px true RIncomplete (Coro 2) 0 false false a al [])).
Proof. intros Hr Hp. eexists. split; [done|]. by apply ph_queued. Qed.

Lemma propagate_phase st cs f (px : option checker) al :
  f <> NoFn -> match px with None => True | Some c => state_ c = Cancelled end ->
  steps_to (propagateCancel (Task true st cs f px true RIncomplete (Coro 2) 0 false false true al [])).
Proof.
  intros Hf Hp. task_eval. eexists. split; [reflexivity|]. by apply ph_done.
Qed.

(** The awaiter is ready after a request to cancel. *)
Lemma after_cancel_phase b cs h e al :
  steps_to (do_resume_after_cancel (Task true (Object b) cs DoResumeAfterCancel
    (Some (Checker h e ReadyAfterCancel)) true RIncomplete (Coro 2) 0 false false true al [])).
Proof.
  destruct b as [? ? ? ? ? [] ?]; task_eval; (eexists; split; [reflexivity|]).
  - by apply ph_queued; [apply requested_true|].
  - by apply ph_done.
Qed.

(** The suspended awaiter resumes its handle. *)
Lemma resumes_phase b cs hd a al :
  (a = false -> cs <> CRequested) ->
  steps_to (awaiter_resumes (Task true (Object b) cs (if a then DoResumeAfterCancel else DoResume)
    (Some (Checker (Coro 1) true (if a then Cancelling else Running))) true RIncomplete (Coro 2)
    0 false hd a al [])).
Proof.
  intros Hcs. destruct a; unfold awaiter_resumes.
  - apply after_cancel_phase.
  - apply do_resume_phase; [apply requested_false; auto|done].
Qed.

(** [await_suspend()] of a fresh awaiter, cancellation requested or not. *)
Lemma co_await_phase b f cs a al :
  requested a cs -> f <> NoFn ->
  steps_to (co_await b (Task true SRunning cs f None true RIncomplete (Coro 2) 0 true false a al [])).
Proof.
  intros Hr Hf. destruct b as [rd sk ea su ca mu er]. destruct a.
  - apply requested_true in Hr as ->. destruct ea; [|destruct rd; [destruct mu|destruct su; [|destruct mu|]]];
      task_eval; (eexists; split; [reflexivity|]).
    + by apply ph_done.
    + by apply ph_queued; [apply requested_true|].
    + by apply ph_done.
    + apply (ph_suspended _ true).
    + by apply ph_queued; [apply requested_true|].
    + by apply ph_done.
    + by apply ph_running; [apply requested_true|].
  - assert (Hc : cs <> CRequested) by (by apply requested_false).
    destruct rd; [|destruct su]; destruct cs; try done; task_eval; (eexists; split; [reflexivity|]).
    1-2: by apply ph_running.
    1-2: apply (ph_suspended _ false).
    1-2: by apply ph_queued.
    all: by apply ph_running.
Qed.

Lemma cancel_phase b al :
  steps_to (cancel (Task true (Object b) Functions DoResume (Some (Checker (Coro 1) true Running)) true
    RIncomplete (Coro 2) 0 false true true al [])).
Proof.
  destruct b as [rd sk ea su ca mu er]. destruct ca; [| |destruct mu]; task_eval; (eexists; split; [reflexivity|]).
  - by apply ph_done.
  - apply (ph_suspended _ true).
  - by apply ph_queued; [apply requested_true|].
  - by apply ph_done.
Qed.

Lemma phase_step e t : phase t -> enabled e t = true -> steps_to (event_step e t).
Proof.
  intros Hp He. destruct Hp as [a al cs Hr|px cs a al Hr Hpx|f cs a al Hr Hf|b a al|st cs f px r a al Hf Hres Hc Hpx];
    destruct e; unfold enabled, started in He; cbn [alive resumeFn asked held posted on_cpu promise_ negb] in He;
    repeat (rewrite ?andb_true_r, ?andb_false_r, ?andb_true_l, ?orb_false_r in He); try done.
  - eexists. split; [reflexivity|]. apply ph_fresh. by apply requested_true.
  - eexists. split; [reflexivity|]. by apply ph_queued.
  - eexists. split; [reflexivity|]. by apply ph_fresh.
  - destruct a; [by rewrite andb_false_r in He|]. eexists. split; [reflexivity|].
    apply ph_queued; [by apply requested_true|done].
  - destruct px as [[h ex st]|]; [cbn in Hpx; subst st|]; (eexists; split; [reflexivity|]); by apply ph_running.
  - by destruct f, al.
  - destruct f; try done; destruct al; done.
  - destruct a; [destruct f, al; done|]. eexists. split; [reflexivity|].
    apply ph_running; [by apply requested_true|done].
  - by apply co_await_phase.
  - apply finish_phase; [done..|]. destruct throws; auto.
  - destruct f, al; done.
  - destruct a, al; done.
  - destruct a, al; done.
  - destruct a; [destruct al; done|]. destruct (cancel_phase b al) as (t' & E & Ht').
    exists t'. split; [|done]. unfold event_step, ta_await_cancel. cbn [promise_]. unfold set_asked. cbn.
    cbn in E. rewrite E. done.
  - apply (resumes_phase b Functions false a al). intros; done.
  - destruct a, al; done.
  - destruct f, al; done.
  - destruct f, al; done.
  - destruct a; [destruct f, al; done|]. eexists. split; [reflexivity|]. by apply ph_done.
  - destruct px as [[h ex s]|]; [cbn in Hpx; subst s|]; (eexists; split; [reflexivity|]); by apply ph_done.
Qed.

Lemma reach_phase t : reach t -> phase t.
Proof.
  induction 1 as [|e t t' _ IH He E]; [by apply ph_fresh|].
  destruct (phase_step e t IH He) as (t1 & E1 & Hp). rewrite E in E1. by injection E1 as <-.
Qed.

(** * Properties *)

(** C4.  Whatever the body, the awaiters, the executor and
    the parent do, and in whatever order, no operation of the task or of its
    [TaskAwaiter] fails: every awaiter sees its methods called as the protocol
    of [AwaiterStateChecker] demands (its destruction included), the parent
    pointer is not used once it is gone, and no result is missing when the
    parent is resumed. *)
Theorem task_respects_protocol t e :
  reach t -> enabled e t = true -> is_ok (event_step e t) = true.
Proof. intros Hr He. by destruct (phase_step e t (reach_phase t Hr) He) as (t' & -> & _). Qed.

Definition b_sleepy : behaviour := Beh false true true Later Refused true false.
Definition sample_events : list event :=
  [EStart; ECallback; EAwait b_sleepy; ECancel; EResume; ECallback; EAwait b_sleepy].
Definition run_sample (es : list event) : task :=
  match run_events es new_task with Ok t => t | Fault _ => new_task end.
Lemma sample_reach (es : list event) : is_ok (run_events es new_task) = true -> reach (run_sample es).
Proof.
  unfold run_sample. destruct (run_events es new_task) as [t|] eqn:E; [|done]. intros _.
  by eapply run_events_reach; [apply reach_new|].
Qed.

Lemma task_respects_protocol_witness :
  is_ok (event_step EResume (run_sample [EStart; ECallback; EAwait b_sleepy; ECancel])) = true.
Proof.
  apply (task_respects_protocol (run_sample [EStart; ECallback; EAwait b_sleepy; ECancel]) EResume).
  - apply sample_reach. vm_compute. reflexivity.
  - vm_compute. reflexivity.
Defined.

(** C1.  From the start to the result exactly one party can
    make a task proceed: one callback is posted, or the body is on the CPU, or
    the awaiter holds the handle; in particular a wakeup is neither lost nor
    doubled.  The parent is resumed exactly once, when the result is there, and
    afterwards nothing is pending and the body never runs again. *)
Theorem task_completes_once t :
  reach t ->
  if ta_await_ready t then
    resumed_ t = [2%positive] /\ posted t = 0 /\ on_cpu t = false /\ held t = false /\ promise_ t = false
  else
    resumed_ t = [] /\ promise_ t = true /\
    posted t + Nat.b2n (on_cpu t) + Nat.b2n (held t) = Nat.b2n (started t).
Proof.
  intros Hr. unfold ta_await_ready.
  destruct (reach_phase t Hr) as [| |f ? ? ? _ Hf|? []|? ? f ? ? ? ? Hf Hn]; cbn; try done.
  - by destruct f.
  - by rewrite bool_decide_false.
Qed.
Lemma task_completes_once_witness :
  ta_await_ready (run_sample sample_events) = true /\ resumed_ (run_sample sample_events) = [2%positive].
Proof.
  assert (Hr : ta_await_ready (run_sample sample_events) = true) by (vm_compute; reflexivity).
  split; [exact Hr|].
  pose proof (task_completes_once (run_sample sample_events)) as Hc. rewrite Hr in Hc.
  apply Hc. apply sample_reach. vm_compute. reflexivity.
Defined.

(** C7.  A cancellation request is never forgotten:
    until the task has a result, it stays pending while the task runs or is
    scheduled, and while it is suspended its awaiter has been asked to cancel;
    the next [co_await] of an awaiter that can be cancelled early ends the task
    as cancelled without suspending it.  And a task is cancelled only if that
    was requested. *)
Theorem task_cancel_request_sticks t :
  reach t ->
  (asked t = true -> ta_await_ready t = false ->
    if hasAwaiter t then resumeFn t = DoResumeAfterCancel /\
      (c ← proxy t; Some (state_ c)) = Some Cancelling
    else cancelState_ t = CRequested) /\
  (asked t = true -> on_cpu t = true -> forall b, b_early b = true ->
    (t' ← co_await b t; Ok (result_ t', ta_await_must_resume t', c ← proxy t'; Some (state_ c), resumed_ t')) =
    Ok (RCancelled, false, Some Cancelled, [2%positive])) /\
  (ta_await_must_resume t = false -> asked t = true).
Proof.
  intros Hr.
  destruct (reach_phase t Hr) as [a al cs Hq|px cs a al Hq _|f cs a al Hq Hf|b a al|st cs f px r a al Hf Hres Hc _];
    unfold ta_await_ready, ta_await_must_resume, hasAwaiter; cbn; (split; [|split]); try done;
    try (intros -> _; by apply requested_true in Hq).
  - intros -> _ b Hb. apply requested_true in Hq as ->. destruct b as [rd sk ea su ca mu er]. cbn in Hb. subst ea.
    reflexivity.
  - intros -> _. done.
  - rewrite (bool_decide_false (r = RIncomplete)) by done. done.
  - intros Hn. apply Hc. destruct (decide (r = RCancelled)) as [|Hne]; [done|].
    by rewrite bool_decide_false in Hn.
Qed.
Lemma task_cancel_request_sticks_witness :
  ta_await_must_resume (run_sample sample_events) = false /\ asked (run_sample sample_events) = true.
Proof.
  assert (Hm : ta_await_must_resume (run_sample sample_events) = false) by (vm_compute; reflexivity).
  split; [exact Hm|]. apply (task_cancel_request_sticks (run_sample sample_events)); [|exact Hm].
  apply sample_reach. vm_compute. reflexivity.
Defined.
