(* ===== verification/Nursery.v ===== *)
(** [Nursery.h]: nurseries and [co_await nursery.start(...)].

    [nursery] is [NurseryBase] with the error of [BasicNursery], the frames of
    its tasks, the awaiters of its pending starts ([NurseryStartAwaiter]), the
    callbacks it has posted to the executor, and the parents it has resumed.
    What a task does is up to the environment: it ends at some point with a
    value, an error or a cancellation, and when it is told to cancel it may
    end on the spot ([sync]).  [doCancel()] captures the calls of [cancel()] and
    runs them at once ([Executor::capture()]); everything else it posts is run
    later, in order.  The counters are unsigned in the code; they count frames
    in memory, so they do not wrap. *)
From S2P Require Export Waker.

Local Open Scope Z_scope.

(** The frame of a task: how often [cancel()] was called on it, and whether it
    has finished and only waits to be destroyed. *)
Record tstate := TS { asked_ : nat; finished : bool }.
Inductive outcome := OValue | OError (e : positive) | OCancelled.
Inductive callback := Destroy (p : loc) | ResumeParent (h : loc).

(** [NurseryStartAwaiter]: [nursery_] (not null), [handle_], [promise_],
    the cancelling bit of [executor_], and [result_]. *)
Record starter := Starter {
  s_nursery : bool; s_handle : handle; s_promise : option loc; s_cancelling : bool;
  s_result : option outcome }.

Record nursery := Nursery {
  exec_ : bool; cancelling_ : bool;              (* executor_: pointer and bit *)
  tasks_ : list loc; taskCount_ : Z; pendingTaskCount_ : Z; parent_ : handle;
  error_ : option positive;
  frames : gmap loc tstate; starters : gmap loc starter;
  queue : list callback;
  log_ : list loc; slog_ : list loc }.           (* handles resumed: the parent's, the starters' *)

Implicit Types (n : nursery) (p a : loc).

Definition set_exec (v : bool) n : nursery :=
  Nursery v (cancelling_ n) (tasks_ n) (taskCount_ n) (pendingTaskCount_ n) (parent_ n) (error_ n)
          (frames n) (starters n) (queue n) (log_ n) (slog_ n).
Definition set_cancelling n : nursery :=
  Nursery (exec_ n) true (tasks_ n) (taskCount_ n) (pendingTaskCount_ n) (parent_ n) (error_ n)
          (frames n) (starters n) (queue n) (log_ n) (slog_ n).
Definition set_tasks (v : list loc) (c : Z) n : nursery :=
  Nursery (exec_ n) (cancelling_ n) v c (pendingTaskCount_ n) (parent_ n) (error_ n)
          (frames n) (starters n) (queue n) (log_ n) (slog_ n).
Definition set_pending (v : Z) n : nursery :=
  Nursery (exec_ n) (cancelling_ n) (tasks_ n) (taskCount_ n) v (parent_ n) (error_ n)
          (frames n) (starters n) (queue n) (log_ n) (slog_ n).
Definition set_parent (v : handle) n : nursery :=
  Nursery (exec_ n) (cancelling_ n) (tasks_ n) (taskCount_ n) (pendingTaskCount_ n) v (error_ n)
          (frames n) (starters n) (queue n) (log_ n) (slog_ n).
Definition set_error (v : option positive) n : nursery :=
  Nursery (exec_ n) (cancelling_ n) (tasks_ n) (taskCount_ n) (pendingTaskCount_ n) (parent_ n) v
          (frames n) (starters n) (queue n) (log_ n) (slog_ n).
Definition set_frames (v : gmap loc tstate) n : nursery :=
  Nursery (exec_ n) (cancelling_ n) (tasks_ n) (taskCount_ n) (pendingTaskCount_ n) (parent_ n) (error_ n)
          v (starters n) (queue n) (log_ n) (slog_ n).
Definition set_starters (v : gmap loc starter) n : nursery :=
  Nursery (exec_ n) (cancelling_ n) (tasks_ n) (taskCount_ n) (pendingTaskCount_ n) (parent_ n) (error_ n)
          (frames n) v (queue n) (log_ n) (slog_ n).
Definition post (c : callback) n : nursery :=
  Nursery (exec_ n) (cancelling_ n) (tasks_ n) (taskCount_ n) (pendingTaskCount_ n) (parent_ n) (error_ n)
          (frames n) (starters n) (queue n ++ [c]) (log_ n) (slog_ n).
Definition set_queue (v : list callback) n : nursery :=
  Nursery (exec_ n) (cancelling_ n) (tasks_ n) (taskCount_ n) (pendingTaskCount_ n) (parent_ n) (error_ n)
          (frames n) (starters n) v (log_ n) (slog_ n).
Definition resume (h : handle) n : nursery :=
  Nursery (exec_ n) (cancelling_ n) (tasks_ n) (taskCount_ n) (pendingTaskCount_ n) (parent_ n) (error_ n)
          (frames n) (starters n) (queue n) (log_ n ++ handle_coro h) (slog_ n).
Definition resume_starter (h : handle) n : nursery :=
  Nursery (exec_ n) (cancelling_ n) (tasks_ n) (taskCount_ n) (pendingTaskCount_ n) (parent_ n) (error_ n)
          (frames n) (starters n) (queue n) (log_ n) (slog_ n ++ handle_coro h).

Definition nursery_empty : nursery := Nursery false false [] 0 0 Noop None ∅ ∅ [] [] [].

Lemma nursery_ext n1 n2 :
  exec_ n1 = exec_ n2 -> cancelling_ n1 = cancelling_ n2 -> tasks_ n1 = tasks_ n2 -> taskCount_ n1 = taskCount_ n2 ->
  pendingTaskCount_ n1 = pendingTaskCount_ n2 -> parent_ n1 = parent_ n2 -> error_ n1 = error_ n2 ->
  frames n1 = frames n2 -> starters n1 = starters n2 -> queue n1 = queue n2 -> log_ n1 = log_ n2 ->
  slog_ n1 = slog_ n2 -> n1 = n2.
Proof. destruct n1, n2; cbn. by intros -> -> -> -> -> -> -> -> -> -> -> ->. Qed.

(** * [NurseryBase] *)

(** The frame of [promise] is marked as finished: its body has ended. *)
Definition finish_frame p n : res nursery :=
  t ← deref (frames n !! p);
  corral_assert (negb (finished t));;
  Ok (set_frames (<[p := TS (asked_ t) true]> (frames n)) n).

(** [continuation(promise)].  Erasing a promise that is in no list is harmless; the count
    is lowered all the same. *)
Definition continuation (promise : option loc) n : res nursery :=
  let executor := exec_ n in
  n ← match promise with
      | Some p => Ok (set_tasks (filter (fun q => q <> p) (tasks_ n)) (taskCount_ n - 1) n)
      | None => Ok n
      end;
  let closes := bool_decide (tasks_ n = []) && (pendingTaskCount_ n =? 0)
                && negb (bool_decide (parent_ n = Noop)) in
  let ret := if closes then parent_ n else Noop in
  let n := if closes then set_exec false (set_parent Noop n) else n in
  n ← match promise with
      | Some p => corral_assert executor;; Ok (post (Destroy p) n)
      | None => Ok n
      end;
  match ret with
  | Coro h => corral_assert executor;; Ok (post (ResumeParent h) n)
  | Noop => Ok n
  end.

Section Sync.
(** Whether a task ends on the spot when it is told to cancel. *)
Context (sync : loc -> bool).

(** [promise->cancel()] on a task that is not the nursery's (yet) *)
Definition ask_frame p n : res nursery :=
  t ← deref (frames n !! p);
  corral_assert (negb (finished t));;
  Ok (set_frames (<[p := TS (S (asked_ t)) (finished t)]> (frames n)) n).

(** [t.cancel()] of a task of the nursery, which on confirmation calls back
    [cancelled()] and [continuation()] *)
Definition cancel_task p n : res nursery :=
  n ← ask_frame p n;
  if sync p then n ← finish_frame p n; continuation (Some p) n else Ok n.
Fixpoint cancel_tasks (ps : list loc) n : res nursery :=
  match ps with [] => Ok n | p :: ps => n ← cancel_task p n; cancel_tasks ps n end.

(** [doCancel()], [cancel()] *)
Definition doCancel n : res nursery :=
  if negb (exec_ n) || bool_decide (tasks_ n = []) then Ok n else cancel_tasks (tasks_ n) n.
Definition cancel n : res nursery :=
  if cancelling_ n then Ok n else doCancel (set_cancelling n).

(** [adopt(promise)].  A task that is suspended, and whose parent the nursery is by now, may
    confirm the cancellation on the spot ([sync]): it then ends, and calls
    [continuation()], before it is in the list. *)
Definition adopt (sync : bool) p n : res nursery :=
  corral_assert (exec_ n);;
  n ← (if cancelling_ n then
         n ← ask_frame p n;
         if sync then n ← finish_frame p n; continuation (Some p) n else Ok n
       else Ok n);
  Ok (set_tasks (tasks_ n ++ [p]) (taskCount_ n + 1) n).

(** [storeError(e)]; without a parent to pass it to, the program ends. *)
Definition storeError (e : positive) n : res nursery :=
  if bool_decide (parent_ n = Noop) then Fault Unreachable
  else
    let needCancel := negb (cancelling_ n) in
    let n := if error_ n then n else set_error (Some e) n in
    let n := set_cancelling n in
    if needCancel then doCancel n else Ok n.

(** [storeValue()] or [storeException()], or [cancelled()], by a task *)
Definition store (o : outcome) n : res nursery :=
  match o with OError e => storeError e n | _ => Ok n end.

(** [addPromise(p)] of a new frame, with [start()].  It has not begun, so that a cancellation
    is only noted ([BasePromise::cancel()]). *)
Definition addPromise p n : res nursery :=
  corral_assert (bool_decide (frames n !! p = None));;
  adopt false p (set_frames (<[p := TS 0 false]> (frames n)) n).

(** [start()]: [makePromise()] yields a promise, or has already stored what the
    awaitable produced. *)
Definition start (r : loc + outcome) n : res nursery :=
  match r with inl p => addPromise p n | inr o => store o n end.

(** The end of a task: its result goes to the nursery, then [continuation()].
    The task is on the CPU, or has confirmed its cancellation; it does not end
    a second time when the nursery cancels it in between. *)
Definition task_end p (o : outcome) n : res nursery :=
  n ← store o n; n ← finish_frame p n; continuation (Some p) n.
End Sync.

Definition except p (sync : loc -> bool) : loc -> bool := fun q => sync q && negb (bool_decide (q = p)).

(** * [NurseryStartAwaiter] *)

Section Starter.
Context (sync : loc -> bool).

Definition starter_of a n : res starter := deref (starters n !! a).
(** A [Maker] is awaited. *)
Definition new_starter : starter := Starter true Noop None false None.
Definition set_starter a (s : starter) n : nursery := set_starters (<[a := s]> (starters n)) n.

(** [continuation(p)], and [resume()] of the handle it returns *)
Definition s_continuation a n : res nursery :=
  s ← starter_of a n;
  let n := if s_nursery s then set_pending (pendingTaskCount_ n - 1) n else n in
  let n := set_starter a (Starter false Noop (s_promise s) (s_cancelling s) (s_result s)) n in
  Ok (resume_starter (s_handle s) n).

(** [storeValue()], [storeException()], [cancelled()] *)
Definition s_store a (o : outcome) n : res nursery :=
  s ← starter_of a n;
  match o with
  | OValue => corral_assert (s_cancelling s);; Ok n
  | o => Ok (set_starter a (Starter (s_nursery s) (s_handle s) (s_promise s) (s_cancelling s) (Some o)) n)
  end.

(** The task ends before it was handed off. *)
Definition s_end a (o : outcome) n : res nursery :=
  s ← starter_of a n;
  p ← deref (s_promise s);
  n ← s_store a o n;
  n ← finish_frame p n;
  s_continuation a n.

(** [await_early_cancel()], [await_cancel()] *)
Definition s_await_early_cancel a n : res (bool * nursery) :=
  s ← starter_of a n;
  Ok (false, set_starter a (Starter (s_nursery s) (s_handle s) (s_promise s) true (s_result s)) n).
Definition s_await_cancel a n : res (bool * nursery) :=
  s ← starter_of a n;
  match s_promise s with
  | Some p =>
      let n := set_starter a (Starter (s_nursery s) (s_handle s) (s_promise s) true (s_result s)) n in
      n ← ask_frame p n;
      n ← (if sync p then s_end a OCancelled n else Ok n);
      Ok (false, n)
  | None => Ok (false, n)
  end.

(** [handOff()] *)
Definition handOff a n : res nursery :=
  s ← starter_of a n;
  if s_cancelling s then Ok n
  else
    match s_promise s with
    | Some p =>
        corral_assert (s_nursery s);;
        let n := set_starter a (Starter false (s_handle s) None (s_cancelling s) (s_result s)) n in
        n ← adopt (sync p) p (set_pending (pendingTaskCount_ n - 1) n);
        s ← starter_of a n;
        let n := set_starter a (Starter (s_nursery s) Noop (s_promise s) (s_cancelling s) (s_result s)) n in
        Ok (resume_starter (s_handle s) n)
    | None => Ok n
    end.

(** [markStarted()] *)
Definition markStarted a n : res nursery :=
  s ← starter_of a n;
  handOff a (set_starter a (Starter (s_nursery s) (s_handle s) (s_promise s) (s_cancelling s) (Some OValue)) n).

(** [await_suspend(h)], once [makePromise()] has given a promise or a result. *)
Definition s_submit a (h : loc) (r : loc + outcome) n : res nursery :=
  s ← starter_of a n;
  match s_result s with
  | Some _ =>
      corral_assert (s_nursery s);;
      let n := set_starter a (Starter false (s_handle s) (s_promise s) (s_cancelling s) (s_result s)) n in
      n ← match r with inl p => addPromise p n | inr _ => Ok n end;
      Ok (resume_starter (Coro h) n)
  | None =>
      match r with
      | inr _ => Fault AssertFailed
      | inl p =>
          corral_assert (bool_decide (frames n !! p = None));;
          let n := set_frames (<[p := TS 0 false]> (frames n)) n in
          let n := set_pending (pendingTaskCount_ n + 1) n in
          n ← (if s_cancelling s then ask_frame p n else Ok n);
          Ok (set_starter a (Starter (s_nursery s) (Coro h) (Some p) (s_cancelling s) (s_result s)) n)
      end
  end.

(** [await_suspend(h)]: [makePromise()] gives a promise or a result, and the
    callable may have called its [TaskStarted] meanwhile ([early]). *)
Definition s_await_suspend a (h : loc) (r : loc + outcome) (early : bool) n : res nursery :=
  n ← (if early then markStarted a n else Ok n);
  n ← match r with inl _ => Ok n | inr o => store sync o n end;
  s_submit a h r n.

(** [~NurseryStartAwaiter()], with the promise it still owns *)
Definition s_destroy a n : res nursery :=
  s ← starter_of a n;
  corral_assert (negb (s_nursery s));;
  let n := set_starters (delete a (starters n)) n in
  match s_promise s with
  | Some p => t ← deref (frames n !! p); corral_assert (finished t);; Ok (set_frames (delete p (frames n)) n)
  | None => Ok n
  end.

(** [await_must_resume()], [await_resume()] *)
Definition s_await_must_resume : bool := false.
Definition s_await_resume a n : res (option outcome) := s ← starter_of a n; Ok (s_result s).
End Starter.

(** * Parents *)

(** What the body of a nursery returns: [join], [cancel], or an error. *)
Inductive body_retval := JoinTag | CancelTag | BodyError (e : positive).

Section Parent.
Context (sync : loc -> bool).

(** [Scope::storeValue()], [storeException()] *)
Definition scope_storeValue (r : body_retval) n : res nursery :=
  match r with
  | JoinTag => Ok n
  | CancelTag => cancel sync n
  | BodyError e => storeError sync e n
  end.

(** [Scope::await_set_executor()], [await_suspend(h)]: the body is a promise, is
    ready with a value, or throws. *)
Definition scope_await_set_executor n : nursery := set_exec true n.
Definition scope_await_suspend (h : loc) (body : loc + body_retval) n : res nursery :=
  let n := set_parent (Coro h) n in
  match body with
  | inl p => addPromise p n
  | inr r => n ← scope_storeValue r n; continuation None n
  end.

(** The body's end: [Scope] is the parent of its task. *)
Definition body_end p (r : body_retval) n : res nursery :=
  n ← scope_storeValue r n; n ← finish_frame p n; continuation (Some p) n.

(** [NurseryParentAwaiter] *)
Definition await_early_cancel n : res (bool * nursery) := n ← cancel sync n; Ok (false, n).
Definition await_cancel n : res (bool * nursery) := n ← cancel sync n; Ok (false, n).
Definition await_resume n : option positive := error_ n.
Definition await_must_resume n : bool := bool_decide (is_Some (error_ n)).

(** [NurseryJoinAwaiter] *)
Definition join_await_ready n : bool := negb (exec_ n).
Definition join_await_suspend (h : loc) n : res (bool * nursery) :=
  corral_assert (bool_decide (parent_ n = Noop));;
  if bool_decide (tasks_ n = []) then Ok (false, set_exec false n)
  else Ok (true, set_parent (Coro h) n).

(** [BasicUnsafeNursery::asyncClose(continuation)] *)
Definition asyncClose (h : loc) n : res nursery :=
  corral_assert (bool_decide (parent_ n = Noop));;
  if bool_decide (tasks_ n = []) then Ok (resume (Coro h) (set_exec false n))
  else cancel sync (set_parent (Coro h) n).
End Parent.

(** The next callback of the executor.  With the frame goes the hook of the promise, which
    unlinks itself. *)
Definition run_one n : res nursery :=
  match queue n with
  | [] => Ok n
  | Destroy p :: q =>
      t ← deref (frames n !! p);
      corral_assert (finished t);;
      let n := set_tasks (filter (fun q => q <> p) (tasks_ n)) (taskCount_ n) n in
      Ok (set_queue q (set_frames (delete p (frames n)) n))
  | ResumeParent h :: q => Ok (resume (Coro h) (set_queue q n))
  end.

(** * Three ways to lose a nursery

    The count of pending starts is looked at when a task of the nursery ends, but
    not when a pending task ends without having been handed off: if it is the
    last one, nobody resumes the parent.  And joining (or closing) a nursery
    looks at its tasks only: a start that is pending then finds it closed.  A task that is
    handed off while it is suspended, to a nursery that is cancelled, ends before it is
    put into the list; if the last other task ends before its frame is destroyed, the
    list is not found empty then, and nobody looks again. *)
Definition nosync : loc -> bool := fun _ => false.
Example pending_end_hangs :
  (n ← scope_await_suspend nosync 1%positive (inl 10%positive) (scope_await_set_executor nursery_empty);
   n ← s_await_suspend nosync 5%positive 2%positive (inl 11%positive) false (set_starter 5%positive new_starter n);
   n ← body_end nosync 10%positive JoinTag n;
   n ← s_end 5%positive (OError 7) n;
   n ← run_one n;
   Ok (tasks_ n, pendingTaskCount_ n, parent_ n, queue n, log_ n)) = Ok ([], 0, Coro 1, [], []).
Proof. vm_compute. reflexivity. Qed.
Example join_ignores_pending :
  (n ← s_await_suspend nosync 5%positive 2%positive (inl 11%positive) false
         (set_starter 5%positive new_starter (set_exec true nursery_empty));
   '(_, n) ← join_await_suspend 1%positive n;
   markStarted nosync 5%positive n) = Fault AssertFailed.
Proof. vm_compute. reflexivity. Qed.

Example adopted_when_done_hangs :
  (n ← scope_await_suspend nosync 1%positive (inl 10%positive) (scope_await_set_executor nursery_empty);
   n ← s_await_suspend nosync 5%positive 2%positive (inl 11%positive) false (set_starter 5%positive new_starter n);
   n ← cancel nosync n;
   n ← markStarted (fun p => bool_decide (p = 11%positive)) 5%positive n;
   n ← body_end nosync 10%positive JoinTag n;
   n ← run_one n; n ← run_one n;
   Ok (tasks_ n, taskCount_ n, pendingTaskCount_ n, parent_ n, queue n, log_ n)) = Ok ([], 0, 0, Coro 1, [], []).
Proof. vm_compute. reflexivity. Qed.

(** * Life of a nursery *)

Inductive event :=
| EStart (p : loc) | EFail (e : positive) | ETaskEnd (p : loc) (o : outcome) | EBodyEnd (p : loc) (r : body_retval)
| ECancel | EJoin (h : loc) | ERun
| ESNew (a : loc) | ESEarly (a : loc) | ESSuspend (a h : loc) (r : loc + outcome) (early : bool) | ESStarted (a : loc)
| ESEnd (a : loc) (o : outcome) | ESCancel (a : loc) | ESDestroy (a : loc).

Section Life.
Context (sync : loc -> bool).

Definition event_step (e : event) n : res nursery :=
  match e with
  | EStart p => start sync (inl p) n
  | EFail e => start sync (inr (OError e)) n
  | ETaskEnd p o => task_end (except p sync) p o n
  | EBodyEnd p r => body_end (except p sync) p r n
  | ECancel => cancel sync n
  | EJoin h => '(_, n) ← join_await_suspend h n; Ok n
  | ERun => run_one n
  | ESNew a => Ok (set_starter a new_starter n)
  | ESEarly a => '(_, n) ← s_await_early_cancel a n; Ok n
  | ESSuspend a h r early => s_await_suspend sync a h r early n
  | ESStarted a => markStarted sync a n
  | ESEnd a o => s_end a o n
  | ESCancel a => '(_, n) ← s_await_cancel sync a n; Ok n
  | ESDestroy a => s_destroy a n
  end.

Definition has_error (o : outcome) : bool := match o with OError _ => true | _ => false end.
Definition body_error (r : body_retval) : bool := match r with BodyError _ => true | _ => false end.
Definition parented n : bool := negb (bool_decide (parent_ n = Noop)).
Definition pending_start (s : starter) : bool := s_nursery s && bool_decide (is_Some (s_promise s)).
Definition with_starter a n (f : starter -> bool) : bool :=
  match starters n !! a with Some s => f s | None => false end.

(** What the environment may do: start tasks in an open nursery, end the tasks
    that run, fail only where there is a parent to fail to (the program ends
    otherwise), and use each start awaiter by the protocol.  A pending task
    that is not handed off ends while the nursery still has tasks: the one
    that awaits the start.  And one that is handed off to a nursery that is being
    cancelled does not confirm its own cancellation on the spot: it is on the
    CPU, as a rule, since it is its body that calls [started()]. *)
Definition enabled (e : event) n : bool :=
  match e with
  | EStart p => exec_ n && bool_decide (frames n !! p = None)
  | EFail _ => exec_ n && parented n
  | ETaskEnd p o => bool_decide (p ∈ tasks_ n) && (negb (has_error o) || parented n)
  | EBodyEnd p r => bool_decide (p ∈ tasks_ n) && (negb (body_error r) || parented n)
  | ECancel => true
  | EJoin _ => exec_ n && negb (parented n) && negb (bool_decide (tasks_ n = []))
  | ERun => negb (bool_decide (queue n = []))
  | ESNew a => exec_ n && bool_decide (starters n !! a = None)
  | ESEarly a => with_starter a n (fun s => s_nursery s && bool_decide (s_promise s = None) && negb (s_cancelling s))
  | ESSuspend a _ r early => exec_ n &&
      (match r with
       | inl p => bool_decide (frames n !! p = None)
       | inr o => early && (negb (has_error o) || parented n)
       end) &&
      with_starter a n (fun s => s_nursery s && bool_decide (s_promise s = None) && bool_decide (s_result s = None))
  | ESStarted a => with_starter a n (fun s => pending_start s &&
      negb (cancelling_ n && negb (s_cancelling s) && match s_promise s with Some p => sync p | None => false end))
  | ESEnd a o => negb (bool_decide (tasks_ n = [])) &&
      with_starter a n (fun s => pending_start s && (match o with OValue => s_cancelling s | _ => true end))
  | ESCancel a => negb (bool_decide (tasks_ n = [])) &&
      with_starter a n (fun s => pending_start s && negb (s_cancelling s))
  | ESDestroy a => with_starter a n (fun s => negb (s_nursery s))
  end.

(** A nursery block opened by [h0], cancelled early or not, or a nursery that
    [h0] joins later ([join]). *)
Inductive reach (h0 : loc) : nursery -> Prop :=
| reach_scope (early : bool) body n :
    scope_await_suspend sync h0 body (scope_await_set_executor (if early then set_cancelling nursery_empty else nursery_empty)) = Ok n ->
    reach h0 n
| reach_unsafe : reach h0 (set_exec true nursery_empty)
| reach_step e n n' : reach h0 n -> enabled e n = true -> (forall h, e = EJoin h -> h = h0) ->
    event_step e n = Ok n' -> reach h0 n'.
End Life.

(** * Invariant *)

Definition asked_in (U : list loc) n p : nat := if cancelling_ n && bool_decide (p ∉ U) then 1%nat else 0%nat.

(** [U]: the tasks that have not been told yet that the nursery is cancelled. *)
Record ok (U : list loc) n : Prop := {
  o_nodup : NoDup (tasks_ n);
  o_count : taskCount_ n = Z.of_nat (length (tasks_ n));
  o_tasks p : p ∈ tasks_ n -> frames n !! p = Some (TS (asked_in U n p) false);
  o_pend a s p : starters n !! a = Some s -> s_promise s = Some p ->
    p ∉ tasks_ n /\ frames n !! p = Some (TS (Nat.b2n (s_cancelling s)) (negb (s_nursery s)));
  o_inj a1 a2 s1 s2 p : starters n !! a1 = Some s1 -> starters n !! a2 = Some s2 ->
    s_promise s1 = Some p -> s_promise s2 = Some p -> a1 = a2;
  o_pending : pendingTaskCount_ n = countZ pending_start (starters n);
  o_queue p : Destroy p ∈ queue n -> p ∉ tasks_ n /\ (exists k, frames n !! p = Some (TS k true)) /\
    forall a s, starters n !! a = Some s -> s_promise s <> Some p;
  o_qnodup : NoDup (queue n);
  o_dom p : is_Some (frames n !! p) ->
    p ∈ tasks_ n \/ Destroy p ∈ queue n \/ exists a s, starters n !! a = Some s /\ s_promise s = Some p;
  o_closed : exec_ n = false -> tasks_ n = [] /\ pendingTaskCount_ n = 0 /\ parent_ n = Noop;
  o_error : is_Some (error_ n) -> cancelling_ n = true }.

Definition no_resume (q : list callback) : Prop := forall h, ResumeParent h ∉ q.

(** The parent [h0], waiting, about to be resumed, or resumed. *)
Definition life (h0 : loc) n : Prop :=
  if exec_ n then log_ n = [] /\ no_resume (queue n) /\ (parent_ n = Noop \/ parent_ n = Coro h0) /\
    (parent_ n <> Noop -> tasks_ n <> [] \/ 0 < pendingTaskCount_ n)
  else (exists ds, queue n = ds ++ [ResumeParent h0] /\ no_resume ds /\ log_ n = []) \/
       (queue n = [] /\ log_ n = [h0]).

#[export] Instance callback_eq_dec : EqDecision callback.
Proof. solve_decision. Defined.

Lemma no_resume_app q p : no_resume q -> no_resume (q ++ [Destroy p]).
Proof. intros Hq h [Hh|Hh]%elem_of_app; [by eapply Hq|]. by apply list_elem_of_singleton in Hh. Qed.

Lemma length_filter_out p (l : list loc) :
  NoDup l -> p ∈ l -> (length (filter (fun q => q <> p) l) + 1 = length l)%nat.
Proof.
  induction l as [|q l IH]; intros Hnd Hp; [by apply elem_of_nil in Hp|].
  apply NoDup_cons in Hnd as [Hq Hnd]. rewrite filter_cons. destruct (decide (q <> p)) as [Hne|He].
  - cbn. rewrite <- IH; [lia|done|]. apply elem_of_cons in Hp as [->|?]; [done|done].
  - apply dec_stable in He as ->. cbn. clear IH Hp.
    assert (HE : filter (fun q => q <> p) l = l); [|rewrite HE; lia].
    induction l as [|q l IH]; [done|]. rewrite filter_cons_True by set_solver. f_equal.
    apply IH; [set_solver|]. by apply NoDup_cons in Hnd as [_ ?].
Qed.

(** The end of a task of the nursery. *)
Definition end_frame p n : res nursery := n ← finish_frame p n; continuation (Some p) n.

Lemma end_frame_ok U h0 p n :
  ok U n -> life h0 n -> p ∈ tasks_ n ->
  exists n', end_frame p n = Ok n' /\ ok U n' /\ life h0 n' /\
    tasks_ n' = filter (fun q => q <> p) (tasks_ n) /\ cancelling_ n' = cancelling_ n /\ error_ n' = error_ n /\
    starters n' = starters n /\ (forall q, q <> p -> frames n' !! q = frames n !! q).
Proof.
  intros [] Hl Hp. set (T := filter (fun q => q <> p) (tasks_ n)).
  assert (He : exec_ n = true).
  { destruct (exec_ n) eqn:E; [done|]. destruct (o_closed0 eq_refl) as [HT _]. rewrite HT in Hp.
    by apply elem_of_nil in Hp. }
  assert (HT : forall q, q ∈ T <-> q ∈ tasks_ n /\ q <> p).
  { intros q. unfold T. rewrite list_elem_of_filter. tauto. }
  unfold end_frame, finish_frame. rewrite (o_tasks0 p Hp). res_cbn. cbn [finished negb asked_].
  unfold continuation. res_cbn. cbn [tasks_ set_frames exec_]. res_cbn. cbn [tasks_ set_frames exec_].
  rewrite He. cbn [tasks_ set_tasks parent_ pendingTaskCount_ taskCount_ set_frames].
  fold T. unfold life in Hl. rewrite He in Hl. destruct Hl as (Hlog & Hq & Hpar & Hlive).
  set (F := <[p:=TS (asked_in U n p) true]> (frames n)).
  assert (HF : forall q, q <> p -> F !! q = frames n !! q) by (intros; unfold F; by rewrite lookup_insert_ne).
  assert (HFp : F !! p = Some (TS (asked_in U n p) true)) by apply lookup_insert_eq.
  assert (Hcount : taskCount_ n - 1 = Z.of_nat (length T)).
  { rewrite o_count0. pose proof (length_filter_out p _ o_nodup0 Hp). fold T in H. lia. }
  assert (Hdq : Destroy p ∉ queue n).
  { intros Hd. by destruct (o_queue0 p Hd) as [? _]. }
  (* the state with the destruction posted, closed or not *)
  assert (Hok : forall ex pa tl, (ex = false -> T = [] /\ pendingTaskCount_ n = 0 /\ pa = Noop) ->
    (tl = [] \/ tl = [ResumeParent h0]) ->
    ok U (Nursery ex (cancelling_ n) T (taskCount_ n - 1) (pendingTaskCount_ n) pa (error_ n) F (starters n)
            ((queue n ++ [Destroy p]) ++ tl) (log_ n) (slog_ n))).
  { intros ex pa tl Hcl Htl. split; cbn; try done.
    - by apply NoDup_filter.
    - intros q [Hq1 Hq2]%HT. rewrite HF by done. by apply o_tasks0.
    - intros a s q Ha Hs. destruct (o_pend0 a s q Ha Hs) as [Hn Hfr]. rewrite HT, HF; [tauto|]. by intros ->.
    - intros q Hin. rewrite HT. apply elem_of_app in Hin as [Hin|Hin]; [apply elem_of_app in Hin as [Hin|Hin]|].
      + destruct (o_queue0 q Hin) as (Hn & Hfr & Hs). rewrite HF; [tauto|]. by intros ->.
      + apply list_elem_of_singleton in Hin as [= ->]. split; [tauto|]. split; [eauto|].
        intros a s Ha Hs. by destruct (o_pend0 a s p Ha Hs).
      + destruct Htl as [->| ->]; [by apply elem_of_nil in Hin|by apply list_elem_of_singleton in Hin].
    - apply NoDup_app. split_and!.
      + apply NoDup_app. split_and!; [done| |apply NoDup_singleton].
        intros c Hc Hc2. apply list_elem_of_singleton in Hc2 as ->. done.
      + intros c Hc Hc2. destruct Htl as [->| ->]; [by apply elem_of_nil in Hc2|].
        apply list_elem_of_singleton in Hc2 as ->. apply (no_resume_app _ p Hq) in Hc. done.
      + destruct Htl as [->| ->]; [constructor|apply NoDup_singleton].
    - intros q Hin. destruct (decide (q = p)) as [->|Hne].
      + right. left. set_solver.
      + rewrite HF in Hin by done. destruct (o_dom0 q Hin) as [?|[?|?]]; [left; by apply HT|right; left; set_solver|tauto]. }
  destruct (bool_decide (T = []) && (pendingTaskCount_ n =? 0) && negb (bool_decide (parent_ n = Noop))) eqn:Hc.
  - apply andb_true_iff in Hc as [[HTe%bool_decide_eq_true Hpz%Z.eqb_eq]%andb_true_iff Hpn].
    rewrite negb_true_iff, bool_decide_eq_false in Hpn. destruct Hpar as [Hpar|Hpar]; [done|]. rewrite Hpar. res_cbn.
    eexists. split; [done|]. split_and!; try done.
    + apply Hok; [done|by right].
    + unfold life. cbn. left. exists (queue n ++ [Destroy p]). split_and!; [done|by apply no_resume_app|done].
  - res_cbn. eexists. split; [done|]. split_and!; try done.
    + pose proof (Hok (exec_ n) (parent_ n) [] ltac:(congruence) ltac:(by left)) as Hx. rewrite app_nil_r in Hx. exact Hx.
    + unfold life. cbn. rewrite He. split_and!; [done|by apply no_resume_app|done|]. intros Hpn.
      rewrite (bool_decide_false (parent_ n = Noop)) in Hc by done. rewrite andb_true_r in Hc.
      apply andb_false_iff in Hc as [Hc%bool_decide_eq_false|Hc%Z.eqb_neq]; [by left|right].
      rewrite o_pending0 in *. pose proof (countZ_nonneg pending_start (starters n)). lia.
Qed.

(** ** Shared steps *)

Lemma life_mono h0 n n' :
  life h0 n -> exec_ n' = exec_ n -> log_ n' = log_ n -> queue n' = queue n -> parent_ n' = parent_ n ->
  (exec_ n = true -> tasks_ n <> [] \/ 0 < pendingTaskCount_ n -> tasks_ n' <> [] \/ 0 < pendingTaskCount_ n') ->
  life h0 n'.
Proof.
  unfold life. intros Hl -> -> -> -> H. destruct (exec_ n); [|done].
  destruct Hl as (? & ? & ? & Hpar). split_and!; auto.
Qed.

(** What ending some of the tasks that confirm a cancellation leaves alone. *)
Definition kept (sync : loc -> bool) n n' : Prop :=
  cancelling_ n' = cancelling_ n /\ error_ n' = error_ n /\ starters n' = starters n /\
  (forall q, q ∈ tasks_ n' -> q ∈ tasks_ n) /\ (forall q, q ∈ tasks_ n -> sync q = false -> q ∈ tasks_ n').
Lemma kept_refl sync n : kept sync n n.
Proof. by split_and!. Qed.
Lemma kept_trans sync n1 n2 n3 : kept sync n1 n2 -> kept sync n2 n3 -> kept sync n1 n3.
Proof.
  intros (? & ? & ? & Ha & Hb) (? & ? & ? & Hc & Hd). split_and!; try congruence; eauto.
Qed.

Lemma ask_ok U h0 p n :
  ok (p :: U) n -> life h0 n -> cancelling_ n = true -> p ∉ U -> p ∈ tasks_ n ->
  exists n', ask_frame p n = Ok n' /\ ok U n' /\ life h0 n' /\ n' = set_frames (<[p := TS 1 false]> (frames n)) n.
Proof.
  intros [] Hl Hc HpU Hp. unfold ask_frame. rewrite (o_tasks0 p Hp). res_cbn. cbn.
  assert (Ha : asked_in (p :: U) n p = 0%nat).
  { unfold asked_in. rewrite (bool_decide_false (p ∉ p :: U)) by set_solver. by rewrite andb_false_r. }
  rewrite Ha. res_cbn. eexists. split; [done|]. split_and!; [|by apply (life_mono h0 n)|done].
  assert (HF : forall q, q <> p -> (<[p := TS 1 false]> (frames n)) !! q = frames n !! q)
    by (intros; by rewrite lookup_insert_ne).
  split; cbn; try done.
  - intros q Hq. destruct (decide (q = p)) as [->|Hne].
    + rewrite lookup_insert_eq. unfold asked_in. cbn. rewrite Hc, bool_decide_true by done. done.
    + rewrite HF by done. rewrite (o_tasks0 q Hq). unfold asked_in. cbn.
      rewrite (bool_decide_ext (q ∉ p :: U) (q ∉ U)); [done|]. set_solver.
  - intros a s q Hs Hq. destruct (o_pend0 a s q Hs Hq) as [Hn Hf]. rewrite HF; [done|]. by intros ->.
  - intros q Hq. destruct (o_queue0 q Hq) as (Hn & Hf & ?). rewrite HF; [done|]. by intros ->.
  - intros q [t Hq]. destruct (decide (q = p)) as [->|Hne]; [by left|]. rewrite HF in Hq by done.
    apply o_dom0. eauto.
Qed.

Lemma cancel_tasks_ok sync h0 ps : forall n,
  NoDup ps -> (forall p, p ∈ ps -> p ∈ tasks_ n) -> cancelling_ n = true -> ok ps n -> life h0 n ->
  exists n', cancel_tasks sync ps n = Ok n' /\ ok [] n' /\ life h0 n' /\ kept sync n n'.
Proof.
  induction ps as [|p ps IH]; intros n Hnd Hin Hc Hok Hl; cbn [cancel_tasks].
  { exists n. split_and!; try done; by apply kept_refl. }
  apply NoDup_cons in Hnd as [Hp Hnd].
  destruct (ask_ok ps h0 p n Hok Hl Hc Hp (Hin p ltac:(set_solver))) as (n1 & E1 & Hok1 & Hl1 & ->).
  unfold cancel_task. rewrite E1. res_cbn. set (n1 := set_frames _ n) in *.
  destruct (sync p) eqn:Hs.
  - destruct (end_frame_ok ps h0 p n1 Hok1 Hl1 (Hin p ltac:(set_solver))) as (n2 & E2 & Hok2 & Hl2 & Ht & Hc2 & He & Hst & _).
    unfold end_frame in E2. rewrite E2. res_cbn.
    assert (Hm : forall q, q ∈ tasks_ n2 <-> q ∈ tasks_ n /\ q <> p).
    { intros q. rewrite Ht, list_elem_of_filter. cbn. tauto. }
    destruct (IH n2) as (n3 & -> & Hok3 & Hl3 & Hk); [done| |by rewrite Hc2|done..|].
    { intros q Hq. apply Hm. split; [set_solver|]. by intros ->. }
    exists n3. split_and!; try done. apply (kept_trans _ _ n2); [|done]. split_and!; try done.
    + intros q Hq. by apply Hm.
    + intros q Hq Hsq. apply Hm. split; [done|]. intros ->. congruence.
  - res_cbn. destruct (IH n1) as (n3 & -> & Hok3 & Hl3 & Hk); [done|set_solver|done..|].
    exists n3. by split_and!.
Qed.

Lemma doCancel_ok sync h0 n :
  cancelling_ n = true -> ok (tasks_ n) n -> life h0 n ->
  exists n', doCancel sync n = Ok n' /\ ok [] n' /\ life h0 n' /\ kept sync n n'.
Proof.
  intros Hc Hok Hl. unfold doCancel.
  destruct (bool_decide_reflect (tasks_ n = [])) as [Ht|Ht].
  { rewrite orb_true_r. rewrite Ht in Hok. exists n. split_and!; try done; by apply kept_refl. }
  destruct (exec_ n) eqn:He; [|by destruct (o_closed _ _ Hok He)].
  cbn. by apply (cancel_tasks_ok sync h0 (tasks_ n) n (o_nodup _ _ Hok)).
Qed.

Lemma set_cancelling_ok n e :
  ok [] n -> cancelling_ n = false -> ok (tasks_ n) (set_cancelling (set_error e n)).
Proof.
  intros [] Hc. split; cbn; try done.
  intros p Hp. rewrite (o_tasks0 p Hp). unfold asked_in. cbn. rewrite Hc.
  by rewrite (bool_decide_false (p ∉ tasks_ n)) by tauto.
Qed.

Lemma n_cancel_ok sync h0 n :
  ok [] n -> life h0 n ->
  exists n', cancel sync n = Ok n' /\ ok [] n' /\ life h0 n' /\ kept sync (set_cancelling n) n'.
Proof.
  intros Hok Hl. unfold cancel. destruct (cancelling_ n) eqn:Hc.
  - exists n. by split_and!.
  - apply doCancel_ok; [done| |by apply (life_mono h0 n)].
    pose proof (set_cancelling_ok n (error_ n) Hok Hc) as H. by destruct n.
Qed.

Lemma storeError_ok sync h0 e n :
  ok [] n -> life h0 n -> parented n = true ->
  exists n', storeError sync e n = Ok n' /\ ok [] n' /\ life h0 n' /\
    kept sync (set_cancelling (set_error (Some (default e (error_ n))) n)) n'.
Proof.
  intros Hok Hl Hp. unfold storeError. unfold parented in Hp.
  rewrite (bool_decide_false (parent_ n = Noop)) by (by destruct (bool_decide_reflect (parent_ n = Noop))).
  set (n1 := if error_ n then n else set_error (Some e) n).
  assert (E : n1 = set_error (Some (default e (error_ n))) n).
  { subst n1. destruct (error_ n) as [e'|] eqn:He; [|done]. destruct n; cbn in *. by subst. }
  rewrite E. clear n1 E. cbv zeta. destruct (cancelling_ n) eqn:Hc; cbn.
  - eexists. split; [done|]. split_and!; [|by apply (life_mono h0 n)|by apply kept_refl].
    destruct Hok. split; cbn; try done.
    intros p Hin. rewrite (o_tasks0 p Hin). unfold asked_in. cbn. by rewrite Hc.
  - apply doCancel_ok; [done|exact (set_cancelling_ok n _ Hok Hc)|by apply (life_mono h0 n)].
Qed.

(** What storing an outcome leaves: the first error. *)
Definition outcome_error (o : outcome) : option positive := match o with OError e => Some e | _ => None end.
Definition first_error (old new : option positive) : option positive := match old with Some e => Some e | None => new end.
Definition stored (sync : loc -> bool) (new : option positive) n n' : Prop :=
  error_ n' = first_error (error_ n) new /\
  cancelling_ n' = cancelling_ n || bool_decide (is_Some new) /\
  starters n' = starters n /\ (forall q, q ∈ tasks_ n' -> q ∈ tasks_ n) /\
  (forall q, q ∈ tasks_ n -> sync q = false -> q ∈ tasks_ n').

Lemma store_ok sync h0 o n :
  ok [] n -> life h0 n -> negb (has_error o) || parented n = true ->
  exists n', store sync o n = Ok n' /\ ok [] n' /\ life h0 n' /\ stored sync (outcome_error o) n n'.
Proof.
  intros Hok Hl Hp.
  assert (H0 : stored sync None n n).
  { unfold stored, first_error. split_and!; try done; [by destruct (error_ n)|by rewrite orb_false_r]. }
  destruct o as [|e|]; cbn in *; [by exists n| |by exists n].
  destruct (storeError_ok sync h0 e n Hok Hl Hp) as (n' & -> & ? & ? & Hc & He & ? & ? & ?).
  exists n'. split; [done|]. unfold stored, first_error. cbn in *. split_and!; try done.
  - rewrite He. by destruct (error_ n).
  - rewrite Hc. by rewrite orb_true_r.
Qed.

(** A finished task of the nursery leaves; its error comes first. *)
Lemma n_task_end_ok sync h0 p o n :
  ok [] n -> life h0 n -> p ∈ tasks_ n -> negb (has_error o) || parented n = true ->
  exists n', task_end (except p sync) p o n = Ok n' /\ ok [] n' /\ life h0 n' /\
    error_ n' = first_error (error_ n) (outcome_error o) /\ p ∉ tasks_ n'.
Proof.
  intros Hok Hl Hp Ho. unfold task_end.
  destruct (store_ok (except p sync) h0 o n Hok Hl Ho) as (n1 & -> & Hok1 & Hl1 & He & _ & _ & _ & Hin).
  res_cbn. destruct (end_frame_ok [] h0 p n1 Hok1 Hl1) as (n2 & E & Hok2 & Hl2 & Ht & _ & He2 & _).
  { apply Hin; [done|]. unfold except. rewrite bool_decide_true by done. by rewrite andb_false_r. }
  exists n2. split; [exact E|]. split_and!; try done; [congruence|].
  rewrite Ht, list_elem_of_filter. tauto.
Qed.

(** A body's result is stored the way a task's outcome is. *)
Lemma scope_storeValue_ok sync h0 r n :
  ok [] n -> life h0 n -> negb (body_error r) || parented n = true ->
  exists n', scope_storeValue sync r n = Ok n' /\ ok [] n' /\ life h0 n' /\
    error_ n' = first_error (error_ n) (match r with BodyError e => Some e | _ => None end) /\
    (forall q, q ∈ tasks_ n -> sync q = false -> q ∈ tasks_ n').
Proof.
  intros Hok Hl Hr. destruct r as [| |e]; cbn [scope_storeValue].
  - exists n. split_and!; try done. unfold first_error. by destruct (error_ n).
  - destruct (n_cancel_ok sync h0 n Hok Hl) as (n' & -> & ? & ? & _ & He & _ & _ & ?).
    exists n'. split_and!; try done. rewrite He. cbn. unfold first_error. by destruct (error_ n).
  - destruct (store_ok sync h0 (OError e) n Hok Hl Hr) as (n' & E & ? & ? & ? & _ & _ & _ & ?).
    exists n'. by split_and!.
Qed.

Lemma n_body_end_ok sync h0 p r n :
  ok [] n -> life h0 n -> p ∈ tasks_ n -> negb (body_error r) || parented n = true ->
  exists n', body_end (except p sync) p r n = Ok n' /\ ok [] n' /\ life h0 n' /\
    error_ n' = first_error (error_ n) (match r with BodyError e => Some e | _ => None end) /\ p ∉ tasks_ n'.
Proof.
  intros Hok Hl Hp Hr. unfold body_end.
  destruct (scope_storeValue_ok (except p sync) h0 r n Hok Hl Hr) as (n1 & -> & Hok1 & Hl1 & He & Hin).
  res_cbn. destruct (end_frame_ok [] h0 p n1 Hok1 Hl1) as (n2 & E & Hok2 & Hl2 & Ht & _ & He2 & _).
  { apply Hin; [done|]. unfold except. rewrite bool_decide_true by done. by rewrite andb_false_r. }
  exists n2. split; [exact E|]. split_and!; try done; [congruence|].
  rewrite Ht, list_elem_of_filter. tauto.
Qed.

(** ** Adoption *)

Definition adopted p n : nursery :=
  set_tasks (tasks_ n ++ [p]) (taskCount_ n + 1)
    (set_frames (<[p := TS (Nat.b2n (cancelling_ n)) false]> (frames n)) n).

Lemma adopted_ok p n :
  ok [] n -> exec_ n = true -> frames n !! p = None -> ok [] (adopted p n).
Proof.
  intros [] He Hp.
  assert (Hnt : p ∉ tasks_ n) by (intros H%o_tasks0; congruence).
  assert (HF : forall q, q <> p -> (<[p := TS (Nat.b2n (cancelling_ n)) false]> (frames n)) !! q = frames n !! q)
    by (intros; by rewrite lookup_insert_ne).
  unfold adopted. split; cbn; try done.
  - apply NoDup_app. split_and!; [done| |apply NoDup_singleton]. set_solver.
  - rewrite length_app. cbn. lia.
  - intros q [Hq|Hq]%elem_of_app.
    + rewrite HF by (by intros ->). rewrite (o_tasks0 q Hq). done.
    + apply list_elem_of_singleton in Hq as ->. rewrite lookup_insert_eq. unfold asked_in. cbn.
      rewrite (bool_decide_true (p ∉ [])) by set_solver. by destruct (cancelling_ n).
  - intros a s q Hs Hq. destruct (o_pend0 a s q Hs Hq) as [Hn Hf].
    assert (q <> p) by (intros ->; congruence). rewrite HF by done. split; [set_solver|done].
  - intros q Hq. destruct (o_queue0 q Hq) as (Hn & [k Hf] & ?).
    assert (q <> p) by (intros ->; congruence). rewrite HF by done. split_and!; [set_solver|eauto|done].
  - intros q Hq. destruct (decide (q = p)) as [->|Hne]; [left; set_solver|].
    rewrite HF in Hq by done. destruct (o_dom0 q Hq) as [?|?]; [left; set_solver|by right].
  - congruence.
Qed.

(** [adopt()] of a frame that was not told to cancel. *)
Lemma adopt_run b p n :
  exec_ n = true -> frames n !! p = Some (TS 0 false) ->
  (cancelling_ n = true -> b = false) -> adopt b p n = Ok (adopted p n).
Proof.
  intros He Hp Hb. unfold adopt, ask_frame, adopted. rewrite He, Hp. res_cbn. cbn.
  destruct (cancelling_ n) eqn:Hc; res_cbn; [by rewrite Hb|].
  do 2 f_equal. destruct n; cbn in *. unfold set_frames. cbn. f_equal. symmetry. by apply insert_id.
Qed.

Lemma addPromise_ok p n :
  ok [] n -> exec_ n = true -> frames n !! p = None ->
  addPromise p n = Ok (adopted p n) /\ ok [] (adopted p n).
Proof.
  intros Hok He Hp. split; [|by apply adopted_ok]. unfold addPromise. rewrite bool_decide_true by done. res_cbn.
  rewrite (adopt_run false p (set_frames (<[p:=TS 0 false]> (frames n)) n)); [|done|apply lookup_insert_eq|done].
  unfold adopted, set_frames, set_tasks. cbn. by rewrite insert_insert_eq.
Qed.

Lemma adopted_life h0 p n : life h0 n -> life h0 (adopted p n).
Proof.
  intros Hl. apply (life_mono h0 n); try done. intros _ _. left. cbn. by destruct (tasks_ n).
Qed.

(** ** Start awaiters *)

Lemma owned_frame U n a s p :
  ok U n -> starters n !! a = Some s -> s_promise s = Some p ->
  p ∉ tasks_ n /\ Destroy p ∉ queue n /\
  (forall a' s', a' <> a -> starters n !! a' = Some s' -> s_promise s' <> Some p).
Proof.
  intros Hok Ha Hs. split_and!.
  - by destruct (o_pend _ _ Hok a s p Ha Hs).
  - intros Hq. destruct (o_queue _ _ Hok p Hq) as (_ & _ & H). by apply (H a s).
  - intros a' s' Hne Ha' Hs'. apply Hne. by apply (o_inj _ _ Hok a' a s' s p).
Qed.

Lemma fresh_frame U n p :
  ok U n -> frames n !! p = None ->
  p ∉ tasks_ n /\ Destroy p ∉ queue n /\ (forall a' s', starters n !! a' = Some s' -> s_promise s' <> Some p).
Proof.
  intros Hok Hp. split_and!.
  - intros H%(o_tasks _ _ Hok). congruence.
  - intros Hq. destruct (o_queue _ _ Hok p Hq) as (_ & [k H] & _). congruence.
  - intros a' s' Ha Hs. destruct (o_pend _ _ Hok a' s' p Ha Hs). congruence.
Qed.

Lemma pending_open U n a s :
  ok U n -> starters n !! a = Some s -> pending_start s = true ->
  exec_ n = true /\ 0 < pendingTaskCount_ n /\ s_nursery s = true /\
  exists p, s_promise s = Some p /\ frames n !! p = Some (TS (Nat.b2n (s_cancelling s)) false).
Proof.
  intros Hok Ha Hs.
  assert (Hpos : 0 < pendingTaskCount_ n).
  { rewrite (o_pending _ _ Hok). pose proof (countZ_weight_le pending_start (starters n) a) as H.
    rewrite Ha in H. cbn in H. rewrite Hs in H. cbn in H. lia. }
  split; [|split; [done|]].
  - destruct (exec_ n) eqn:He; [done|]. destruct (o_closed _ _ Hok He) as (_ & ? & _). lia.
  - unfold pending_start in Hs. apply andb_true_iff in Hs as [Hn [p Hp]%bool_decide_eq_true]. split; [done|].
    exists p. split; [done|]. destruct (o_pend _ _ Hok a s p Ha Hp) as [_ ->]. by rewrite Hn.
Qed.

(** The number of pending starts [a] accounts for. *)
Definition pending_of a n : Z := weight pending_start (starters n !! a).

Lemma starter_ok U n a s' F' :
  ok U n -> (pending_start s' = true -> exec_ n = true) ->
  (forall q, s_promise s' <> Some q -> F' !! q = frames n !! q) ->
  (forall p, s_promise s' = Some p ->
     F' !! p = Some (TS (Nat.b2n (s_cancelling s')) (negb (s_nursery s'))) /\ p ∉ tasks_ n /\ Destroy p ∉ queue n /\
     (forall a2 s2, a2 <> a -> starters n !! a2 = Some s2 -> s_promise s2 <> Some p)) ->
  (forall s p, starters n !! a = Some s -> s_promise s = Some p -> s_promise s' = Some p) ->
  ok U (set_pending (pendingTaskCount_ n + Z.b2z (pending_start s') - pending_of a n) (set_starter a s' (set_frames F' n))).
Proof.
  intros [] He HF Hp Hkeep.
  assert (Hne : forall q, q ∈ tasks_ n \/ Destroy q ∈ queue n -> s_promise s' <> Some q).
  { intros q Hq E. destruct (Hp q E) as (_ & ? & ? & _). tauto. }
  assert (Hpend : pendingTaskCount_ n + Z.b2z (pending_start s') - pending_of a n = countZ pending_start (<[a:=s']> (starters n))).
  { unfold pending_of. rewrite o_pending0, countZ_insert. lia. }
  split; cbn; try done.
  - intros p Hin. rewrite HF by auto. by apply o_tasks0.
  - intros a2 s2 p. destruct (decide (a2 = a)) as [->|Hn].
    + rewrite lookup_insert_eq. intros [= <-] Hs. destruct (Hp p Hs) as (? & ? & _). done.
    + rewrite lookup_insert_ne by done. intros Ha Hs. destruct (o_pend0 a2 s2 p Ha Hs) as [Hnt Hf].
      rewrite HF; [done|]. intros E. destruct (Hp p E) as (_ & _ & _ & Ho). by apply (Ho a2 s2).
  - assert (Hw : forall a2 s2 p, a2 <> a -> starters n !! a2 = Some s2 -> s_promise s2 = Some p -> s_promise s' <> Some p).
    { intros a2 s2 p Hn Ha Hs E. destruct (Hp p E) as (_ & _ & _ & Ho). by apply (Ho a2 s2). }
    intros a1 a2 s1 s2 p. destruct (decide (a1 = a)) as [->|H1], (decide (a2 = a)) as [->|H2]; [done|..].
    + rewrite lookup_insert_eq, lookup_insert_ne by done. intros [= <-] Ha E1 E2. by destruct (Hw a2 s2 p H2 Ha E2).
    + rewrite lookup_insert_eq, lookup_insert_ne by done. intros Ha [= <-] E1 E2. by destruct (Hw a1 s1 p H1 Ha E1).
    + rewrite !lookup_insert_ne by done. apply o_inj0.
  - intros p Hq. rewrite HF by auto. destruct (o_queue0 p Hq) as (? & ? & Ho). split_and!; try done.
    intros a2 s2. destruct (decide (a2 = a)) as [->|Hn]; [|rewrite lookup_insert_ne by done; apply Ho].
    rewrite lookup_insert_eq. intros [= <-]. auto.
  - intros p Hin. destruct (decide (s_promise s' = Some p)) as [E|E].
    { right. right. exists a, s'. by rewrite lookup_insert_eq. }
    rewrite HF in Hin by done. destruct (o_dom0 p Hin) as [?|[?|(a2 & s2 & Ha & Hs)]]; [tauto..|].
    right. right. exists a2, s2. rewrite lookup_insert_ne; [done|]. intros <-. by apply E, (Hkeep s2).
  - intros Hx. destruct (o_closed0 Hx) as (? & Hz & ?). split_and!; try done.
    assert (pending_start s' = false) as -> by (destruct (pending_start s'); [rewrite He in Hx|]; done).
    pose proof (countZ_weight_le pending_start (starters n) a) as Hw. unfold pending_of.
    rewrite Hz. rewrite o_pending0 in Hz. rewrite Hz in Hw. cbn.
    assert (0 <= weight pending_start (starters n !! a)) by (unfold weight; destruct (starters n !! a) as [s|]; [destruct (pending_start s)|]; cbn; lia).
    lia.
Qed.

(** The awaiter is gone, or gives up its frame. *)
Lemma released_ok U n a s :
  ok U n -> starters n !! a = Some s ->
  ok U (set_pending (pendingTaskCount_ n - Z.b2z (pending_start s))
         (set_starters (delete a (starters n))
            (set_frames (match s_promise s with Some p => delete p (frames n) | None => frames n end) n))).
Proof.
  intros Hok Ha. pose proof (fun p => owned_frame U n a s p Hok Ha) as Hown. destruct Hok.
  set (F := match s_promise s with Some p => delete p (frames n) | None => frames n end).
  assert (HF : forall q, s_promise s <> Some q -> F !! q = frames n !! q).
  { intros q Hq. unfold F. destruct (s_promise s) as [p|]; [|done]. rewrite lookup_delete_ne; [done|congruence]. }
  assert (Hgone : forall p, s_promise s = Some p -> F !! p = None).
  { intros p Hp. unfold F. rewrite Hp. apply lookup_delete_eq. }
  split; cbn; try done.
  - intros p Hp. rewrite HF; [by apply o_tasks0|]. intros E. by destruct (Hown p E).
  - intros a2 s2 p [Hne Ha2]%lookup_delete_Some Hs. destruct (o_pend0 a2 s2 p Ha2 Hs). rewrite HF; [done|].
    intros E. destruct (Hown p E) as (_ & _ & Ho). by apply (Ho a2 s2).
  - intros a1 a2 s1 s2 p [_ H1]%lookup_delete_Some [_ H2]%lookup_delete_Some. by apply o_inj0.
  - by rewrite o_pending0, countZ_delete, Ha.
  - intros p Hq. destruct (o_queue0 p Hq) as (? & ? & Ho). rewrite HF by (by apply (Ho a s)). split_and!; try done.
    intros a2 s2 [_ H2]%lookup_delete_Some. by eapply Ho.
  - intros p [t Hp]. destruct (decide (s_promise s = Some p)) as [E|E]; [rewrite (Hgone p E) in Hp; done|].
    rewrite HF in Hp by done. destruct (o_dom0 p ltac:(eauto)) as [?|[?|(a2 & s2 & H2 & Hs)]]; [tauto..|].
    right. right. exists a2, s2. split; [|done]. apply lookup_delete_Some. split; [|done]. intros <-. congruence.
  - intros Hx. destruct (o_closed0 Hx) as (? & Hz & ?). split_and!; try done.
    rewrite o_pending0 in Hz. pose proof (countZ_weight_le pending_start (starters n) a) as Hw. rewrite Ha, Hz in Hw.
    rewrite o_pending0, Hz. cbn in *. destruct (pending_start s); cbn in *; lia.
Qed.

Lemma resume_starter_ok U h n : ok U n -> ok U (resume_starter h n).
Proof. intros []. by split. Qed.

(** A change of an awaiter's fields that concerns neither its frame nor the count. *)
Lemma starter_same_ok U n a s s' :
  ok U n -> starters n !! a = Some s -> s_promise s' = s_promise s ->
  (s_promise s = None \/ (s_nursery s' = s_nursery s /\ s_cancelling s' = s_cancelling s)) -> ok U (set_starter a s' n).
Proof.
  intros Hok Ha Hp Hc.
  assert (Hs : pending_start s' = pending_start s).
  { unfold pending_start. rewrite Hp. destruct Hc as [->|[-> _]]; [|done].
    rewrite (bool_decide_false (is_Some None)) by (by intros [? ?]). by rewrite !andb_false_r. }
  assert (E : set_starter a s' n =
    set_pending (pendingTaskCount_ n + Z.b2z (pending_start s') - pending_of a n) (set_starter a s' (set_frames (frames n) n))).
  { unfold pending_of. rewrite Ha, Hs. cbn. rewrite Z.add_simpl_r. by destruct n. }
  rewrite E. apply starter_ok; try done.
  - rewrite Hs. intros H. by apply (pending_open U n a s).
  - intros p Hp'. rewrite Hp in Hp'. destruct Hc as [Hc|[Hn Hc]]; [congruence|]. rewrite Hc, Hn.
    split; [by apply (o_pend _ _ Hok a s p)|]. by apply (owned_frame U n a s p).
  - intros ? p. rewrite Ha. intros [= <-]. congruence.
Qed.

Lemma s_end_ok h0 a s o n :
  ok [] n -> life h0 n -> starters n !! a = Some s -> pending_start s = true -> tasks_ n <> [] ->
  (o = OValue -> s_cancelling s = true) ->
  exists n', s_end a o n = Ok n' /\ ok [] n' /\ life h0 n' /\ error_ n' = error_ n /\ slog_ n' = slog_ n ++ handle_coro (s_handle s).
Proof.
  intros Hok Hl Ha Hs Ht Ho. destruct (pending_open [] n a s Hok Ha Hs) as (He & Hpos & Hn & p & Hp & Hf).
  destruct (owned_frame [] n a s p Hok Ha Hp) as (Hpt & Hpq & Hpo).
  set (r := match o with OValue => s_result s | o => Some o end).
  assert (E1 : s_store a o n = Ok (set_starter a (Starter true (s_handle s) (Some p) (s_cancelling s) r) n)).
  { unfold s_store, starter_of. rewrite Ha. res_cbn. rewrite Hn, Hp.
    destruct o; [rewrite (Ho eq_refl)|done..]. res_cbn. unfold set_starter.
    rewrite insert_id; [by destruct n|]. destruct s; cbn in *. subst. rewrite Ha. by rewrite (Ho eq_refl). }
  unfold s_end. rewrite E1. unfold starter_of at 1. rewrite Ha. res_cbn. rewrite Hp. res_cbn.
  assert (Ef : forall x, frames (set_starter a x n) = frames n) by done.
  unfold finish_frame. rewrite Ef, Hf. res_cbn. cbn [finished negb asked_]. res_cbn.
  unfold s_continuation, starter_of. cbn [starters set_frames set_starters set_starter].
  rewrite lookup_insert_eq. res_cbn. cbn [s_nursery s_handle s_promise s_cancelling s_result].
  eexists. split; [done|].
  set (s' := Starter false Noop (Some p) (s_cancelling s) r).
  split_and!; [|apply (life_mono h0 n); try done; by left|done|done].
  apply resume_starter_ok.
  pose proof (starter_ok [] n a s' (<[p:=TS (Nat.b2n (s_cancelling s)) true]> (frames n)) Hok) as H.
  unfold pending_of in H. rewrite Ha in H. cbn [weight] in H. rewrite Hs in H.
  replace (pendingTaskCount_ n + Z.b2z (pending_start s') - Z.b2z true) with (pendingTaskCount_ n - 1) in H by (cbn; lia).
  unfold set_starter, set_pending, set_frames, set_starters in *. cbn in *. rewrite insert_insert_eq. apply H.
  - done.
  - intros q Hq. rewrite lookup_insert_ne; [done|congruence].
  - intros q [= <-]. rewrite lookup_insert_eq. done.
  - intros s2 q [= <-]. congruence.
Qed.

Lemma s_await_cancel_ok sync h0 a s n :
  ok [] n -> life h0 n -> starters n !! a = Some s -> pending_start s = true -> tasks_ n <> [] ->
  s_cancelling s = false ->
  exists n', s_await_cancel sync a n = Ok (false, n') /\ ok [] n' /\ life h0 n' /\ error_ n' = error_ n.
Proof.
  intros Hok Hl Ha Hs Ht Hc. destruct (pending_open [] n a s Hok Ha Hs) as (He & Hpos & Hn & p & Hp & Hf).
  destruct (owned_frame [] n a s p Hok Ha Hp) as (Hpt & Hpq & Hpo). rewrite Hc in Hf.
  set (s1 := Starter (s_nursery s) (s_handle s) (s_promise s) true (s_result s)).
  set (n1 := set_starter a s1 (set_frames (<[p:=TS 1 false]> (frames n)) n)).
  assert (Hok1 : ok [] n1).
  { pose proof (starter_ok [] n a s1 (<[p:=TS 1 false]> (frames n)) Hok) as H.
    unfold pending_of in H. rewrite Ha in H. cbn [weight] in H.
    replace (pendingTaskCount_ n + Z.b2z (pending_start s1) - Z.b2z (pending_start s)) with (pendingTaskCount_ n) in H
      by (unfold pending_start, s1; cbn; lia).
    unfold n1. unfold set_starter, set_pending, set_frames, set_starters in *. cbn in *. apply H; [done|..].
    - intros q Hq. rewrite lookup_insert_ne; [done|congruence].
    - intros q Hq. assert (q = p) as -> by congruence. rewrite lookup_insert_eq. by rewrite Hn.
    - intros s2 q [= <-]. done. }
  assert (Hl1 : life h0 n1) by (by apply (life_mono h0 n)).
  assert (E1 : ask_frame p (set_starter a s1 n) = Ok n1).
  { unfold ask_frame, set_starter. cbn. rewrite Hf. res_cbn. cbn. res_cbn. done. }
  unfold s_await_cancel, starter_of. rewrite Ha. res_cbn. rewrite Hp. fold s1.
  replace (Starter (s_nursery s) (s_handle s) (Some p) true (s_result s)) with s1 by (unfold s1; by rewrite Hp).
  rewrite E1. res_cbn. destruct (sync p); [|res_cbn; by exists n1].
  destruct (s_end_ok h0 a s1 OCancelled n1) as (n2 & -> & Hok2 & Hl2 & He2 & _); try done.
  - apply lookup_insert_eq.
  - res_cbn. by exists n2.
Qed.

Lemma markStarted_ok sync h0 a s n :
  ok [] n -> life h0 n -> starters n !! a = Some s -> pending_start s = true ->
  cancelling_ n && negb (s_cancelling s) && match s_promise s with Some p => sync p | None => false end = false ->
  exists n', markStarted sync a n = Ok n' /\ ok [] n' /\ life h0 n' /\ error_ n' = error_ n /\
    (s_cancelling s = false -> s_promise s ≫= (fun p => Some (bool_decide (p ∈ tasks_ n'))) = Some true).
Proof.
  intros Hok Hl Ha Hs Hsync. destruct (pending_open [] n a s Hok Ha Hs) as (He & Hpos & Hn & p & Hp & Hf).
  unfold markStarted, handOff, starter_of. rewrite Ha. res_cbn.
  assert (Es : forall x, starters (set_starter a x n) !! a = Some x) by (intros; apply lookup_insert_eq).
  rewrite Es. res_cbn. cbn [s_cancelling s_promise s_nursery s_handle s_result].
  destruct (s_cancelling s) eqn:Hc.
  { eexists. split; [done|]. split_and!; [|by apply (life_mono h0 n)|done|done].
    apply (starter_same_ok [] n a s); try done. by right. }
  rewrite Hp, Hn. res_cbn. set (s2 := Starter false _ None _ _).
  assert (Hfr : forall S z, frames (set_pending z (set_starter a s2 (set_starters S n))) !! p = Some (TS 0 false)) by done.
  rewrite adopt_run; [|done|apply Hfr|intros Hcn; cbn in Hcn; by rewrite Hcn, Hp in Hsync]. res_cbn.
  match goal with |- context [starters ?m !! a] =>
    assert (Ex : starters m !! a = Some s2) by apply lookup_insert_eq; rewrite Ex; clear Ex end. res_cbn. cbn [s_cancelling s_promise s_nursery s_handle s_result s2].
  eexists. split; [done|]. set (s' := Starter false Noop None _ _).
  split_and!; [|apply (life_mono h0 n); try done; intros _ _; left; cbn; by destruct (tasks_ n)|done|].
  - apply resume_starter_ok. pose proof (released_ok [] n a s Hok Ha) as H1. rewrite Hp, Hs in H1.
    set (n1 := set_pending _ _) in H1.
    assert (Hn1 : starters n1 !! a = None) by apply lookup_delete_eq.
    assert (H2 : ok [] (set_pending (pendingTaskCount_ n1 + 0 - pending_of a n1) (set_starter a s' (set_frames (frames n1) n1)))).
    { apply (starter_ok [] n1 a s' (frames n1) H1); try done. intros s3 q E. by rewrite Hn1 in E. }
    unfold pending_of in H2. rewrite Hn1 in H2. cbn [weight] in H2.
    refine (eq_ind _ (ok []) (adopted_ok p _ H2 He (lookup_delete_eq _ _)) _ _).
    apply nursery_ext; try reflexivity; cbn.
    + lia.
    + apply insert_delete_eq.
    + by rewrite !insert_insert_eq, insert_delete_eq.
  - intros _. cbn. rewrite bool_decide_true; [done|]. set_solver.
Qed.

Lemma markStarted_early sync a s n :
  starters n !! a = Some s -> s_promise s = None ->
  markStarted sync a n = Ok (set_starter a (Starter (s_nursery s) (s_handle s) None (s_cancelling s) (Some OValue)) n).
Proof.
  intros Ha Hp. unfold markStarted, handOff, starter_of. rewrite Ha. res_cbn.
  assert (Es : forall x, starters (set_starter a x n) !! a = Some x) by (intros; apply lookup_insert_eq).
  rewrite Es. res_cbn. cbn. rewrite Hp. by destruct (s_cancelling s).
Qed.

(** Awaiting a start whose callable reports at once. *)
Lemma s_await_suspend_early_ok sync h0 a h r s n :
  ok [] n -> life h0 n -> exec_ n = true -> starters n !! a = Some s -> s_nursery s = true -> s_promise s = None ->
  match r with inl p => frames n !! p = None | inr o => negb (has_error o) || parented n = true end ->
  exists n', s_await_suspend sync a h r true n = Ok n' /\ ok [] n' /\ life h0 n' /\
    error_ n' = first_error (error_ n) (match r with inl _ => None | inr o => outcome_error o end).
Proof.
  intros Hok Hl He Ha Hn Hp Hr. unfold s_await_suspend, s_submit. rewrite (markStarted_early sync a s n Ha Hp). res_cbn.
  set (s1 := Starter _ _ _ _ _). set (n1 := set_starter a s1 n).
  assert (Hok1 : ok [] n1) by (apply (starter_same_ok [] n a s); [done..|by left]).
  assert (Hl1 : life h0 n1) by (by apply (life_mono h0 n)).
  assert (Hs1 : starters n1 !! a = Some s1) by apply lookup_insert_eq.
  set (s2 := Starter false (s_handle s) None (s_cancelling s) (Some OValue)).
  assert (Hdone : forall n2, ok [] n2 -> starters n2 !! a = Some s1 -> ok [] (set_starter a s2 n2)).
  { intros n2 H2 E2. apply (starter_same_ok [] n2 a s1); [done..|by left]. }
  destruct r as [p|o].
  - res_cbn. unfold starter_of. rewrite Hs1. res_cbn. cbn [s1 s_result s_nursery s_handle s_promise s_cancelling].
    rewrite Hn. res_cbn. fold s2.
    destruct (addPromise_ok p (set_starter a s2 n1) (Hdone n1 Hok1 Hs1) He Hr) as [-> Hok2]. res_cbn.
    eexists. split; [done|]. split_and!; [by apply resume_starter_ok| |unfold first_error; cbn; by destruct (error_ n)].
    apply (life_mono h0 n); try done. intros _ _. left. cbn. by destruct (tasks_ n).
  - destruct (store_ok sync h0 o n1 Hok1 Hl1 Hr) as (n2 & -> & Hok2 & Hl2 & Herr & _ & Est & _). res_cbn.
    assert (Hs2 : starters n2 !! a = Some s1) by (by rewrite Est).
    unfold starter_of. rewrite Hs2. res_cbn. cbn [s1 s_result s_nursery s_handle s_promise s_cancelling].
    rewrite Hn. res_cbn. fold s2. eexists. split; [done|].
    split_and!; [by apply resume_starter_ok, Hdone|by apply (life_mono h0 n2)|done].
Qed.

(** Awaiting a start whose task runs on. *)
Lemma s_await_suspend_ok sync h0 a h p s n :
  ok [] n -> life h0 n -> exec_ n = true -> starters n !! a = Some s -> s_nursery s = true -> s_promise s = None ->
  s_result s = None -> frames n !! p = None ->
  exists n', s_await_suspend sync a h (inl p) false n = Ok n' /\ ok [] n' /\ life h0 n' /\ error_ n' = error_ n.
Proof.
  intros Hok Hl He Ha Hn Hp Hres Hf. unfold s_await_suspend, s_submit, starter_of. res_cbn. rewrite Ha. res_cbn. rewrite Hres.
  rewrite bool_decide_true by done. res_cbn.
  set (F := <[p:=TS (Nat.b2n (s_cancelling s)) false]> (frames n)).
  set (s' := Starter (s_nursery s) (Coro h) (Some p) (s_cancelling s) None).
  assert (Hok' : ok [] (set_pending (pendingTaskCount_ n + 1) (set_starter a s' (set_frames F n)))).
  { destruct (fresh_frame [] n p Hok Hf) as (Hpt & Hpq & Hpo).
    pose proof (starter_ok [] n a s' F Hok) as H. unfold pending_of in H. rewrite Ha in H. cbn [weight] in H.
    assert (Hs : pending_start s = false) by (unfold pending_start; rewrite Hp; by rewrite andb_false_r).
    assert (Hs' : pending_start s' = true) by (unfold pending_start, s'; cbn; by rewrite Hn).
    rewrite Hs, Hs', Z.sub_0_r in H. apply H; [done|..].
    - intros q Hq. unfold F. rewrite lookup_insert_ne; [done|]. cbn in Hq. congruence.
    - intros q [= <-]. unfold F. rewrite lookup_insert_eq. cbn. rewrite Hn. split_and!; try done. eauto.
    - intros s2 q [= <-]. congruence. }
  assert (E : (if s_cancelling s
               then ask_frame p (set_pending (pendingTaskCount_ n + 1) (set_frames (<[p:=TS 0 false]> (frames n)) n))
               else Ok (set_pending (pendingTaskCount_ n + 1) (set_frames (<[p:=TS 0 false]> (frames n)) n))) =
              Ok (set_pending (pendingTaskCount_ n + 1) (set_frames F n))).
  { unfold F. destruct (s_cancelling s); [|done]. unfold ask_frame. cbn [frames set_pending set_frames].
    rewrite lookup_insert_eq. res_cbn. cbn. by rewrite insert_insert_eq. }
  cbn zeta. cbn [pendingTaskCount_ set_frames]. rewrite E. res_cbn. eexists. split; [done|].
  split_and!; [exact Hok'| |done]. apply (life_mono h0 n); try done. cbn. intros _ [?|?]; [by left|right; lia].
Qed.

Lemma s_destroy_ok h0 a s n :
  ok [] n -> life h0 n -> starters n !! a = Some s -> s_nursery s = false ->
  exists n', s_destroy a n = Ok n' /\ ok [] n' /\ life h0 n' /\ error_ n' = error_ n.
Proof.
  intros Hok Hl Ha Hn. unfold s_destroy, starter_of. rewrite Ha. res_cbn. rewrite Hn. res_cbn.
  pose proof (released_ok [] n a s Hok Ha) as H.
  assert (Hs : pending_start s = false) by (unfold pending_start; by rewrite Hn).
  rewrite Hs, Z.sub_0_r in H. destruct (s_promise s) as [p|] eqn:Hp.
  - cbn [frames set_starters]. destruct (o_pend _ _ Hok a s p Ha Hp) as [_ ->]. rewrite Hn. res_cbn.
    cbn. res_cbn. eexists. split; [done|]. split_and!; [|by apply (life_mono h0 n)|done].
    refine (eq_ind _ (ok []) H _ _). by destruct n.
  - res_cbn. eexists. split; [done|]. split_and!; [|by apply (life_mono h0 n)|done].
    refine (eq_ind _ (ok []) H _ _). by destruct n.
Qed.

(** ** The executor's turn, and the start *)

Lemma run_one_ok h0 n :
  ok [] n -> life h0 n -> queue n <> [] ->
  exists n', run_one n = Ok n' /\ ok [] n' /\ life h0 n' /\ error_ n' = error_ n /\
    exec_ n' = exec_ n /\ queue n' = tail (queue n).
Proof.
  intros Hok Hl Hq. unfold run_one. destruct (queue n) as [|[p|h] q] eqn:Eq; [done|..].
  - destruct (o_queue _ _ Hok p ltac:(rewrite Eq; by left)) as (Hpt & [k Hf] & Hpo). rewrite Hf. res_cbn. cbn [finished]. res_cbn.
    replace (set_tasks (filter (fun r => r <> p) (tasks_ n)) (taskCount_ n) n) with n
      by (pose proof (without_id p (tasks_ n) Hpt) as Hw; unfold without in Hw; rewrite Hw; by destruct n).
    eexists. split; [done|]. split_and!; [| |done..].
    + pose proof (o_qnodup _ _ Hok) as Hnd. rewrite Eq in Hnd. apply NoDup_cons in Hnd as [Hpq Hnd].
      assert (HF : forall r, r <> p -> (delete p (frames n)) !! r = frames n !! r)
        by (intros; by rewrite lookup_delete_ne).
      destruct Hok. split; cbn; try done.
      * intros r Hr. rewrite HF by (by intros ->). by apply o_tasks0.
      * intros a s r Ha Hs. rewrite HF; [by apply (o_pend0 a)|]. intros ->. by apply (Hpo a s).
      * intros r Hr. rewrite HF by (by intros ->). apply o_queue0. rewrite Eq. by right.
      * intros r Hr. assert (Hne : r <> p) by (intros ->; rewrite lookup_delete_eq in Hr; by destruct Hr).
        rewrite HF in Hr by done. destruct (o_dom0 r Hr) as [?|[Hin|?]]; [tauto| |tauto]. rewrite Eq in Hin.
        apply elem_of_cons in Hin as [[= ->]|?]; [done|tauto].
    + unfold life in *. cbn. rewrite Eq in Hl. destruct (exec_ n).
      * destruct Hl as (? & Hn & ? & ?). split_and!; try done. intros h Hh. apply (Hn h). by right.
      * destruct Hl as [(ds & E & Hn & ?)|[? ?]]; [|done]. left. destruct ds as [|d ds]; [done|]. injection E as <- ->.
        exists ds. split_and!; [done| |done]. intros h Hh. apply (Hn h). by right.
  - eexists. split; [done|]. unfold life in Hl. rewrite Eq in Hl. destruct (exec_ n) eqn:He.
    { destruct Hl as (_ & Hn & _). destruct (Hn h). by left. }
    destruct Hl as [(ds & E & Hn & Hlog)|[? ?]]; [|done].
    destruct ds as [|d ds]; [|injection E as <- ->; destruct (Hn h); by left]. injection E as -> ->.
    split_and!; [| |done..].
    + pose proof (o_closed _ _ Hok He). destruct Hok. split; cbn; try done.
      * intros r Hr. by apply elem_of_nil in Hr.
      * constructor.
      * intros r Hr. destruct (o_dom0 r Hr) as [?|[Hin|?]]; [tauto| |tauto]. rewrite Eq in Hin.
        apply list_elem_of_singleton in Hin. done.
    + unfold life. cbn. rewrite He. right. by rewrite Hlog.
Qed.

Ltac empty_cases :=
  cbn; intros; try done; try apply NoDup_nil_2; try apply NoDup_singleton;
  try (match goal with
       | H : _ ∈ [] |- _ => by apply elem_of_nil in H
       | H : _ ∈ [_] |- _ => by apply list_elem_of_singleton in H
       | H : is_Some (∅ !! _) |- _ => destruct H; by rewrite lookup_empty in *
       | H : is_Some None |- _ => by destruct H
       | H : ∅ !! _ = Some _ |- _ => by rewrite lookup_empty in H
       end).

Lemma fresh_nursery_ok e c : ok [] (Nursery e c [] 0 0 Noop None ∅ ∅ [] [] []).
Proof.
  split; empty_cases.
Qed.

Definition opened (early : bool) : nursery :=
  scope_await_set_executor (if early then set_cancelling nursery_empty else nursery_empty).

Lemma scope_ok sync h0 early body :
  exists n, scope_await_suspend sync h0 body (opened early) = Ok n /\ ok [] n /\ life h0 n.
Proof.
  unfold scope_await_suspend. destruct body as [p|r].
  - set (n := set_parent (Coro h0) (opened early)).
    assert (Hn : ok [] n).
    { pose proof (fresh_nursery_ok true early) as [].
      subst n. destruct early; split; cbn; try done. }
    destruct (addPromise_ok p n Hn) as [E Ha]; [by subst n; destruct early|by subst n; destruct early|].
    rewrite E. eexists. split; [done|]. split; [done|]. subst n.
    destruct early; unfold life; cbn; (split_and!; [done|by intros h Hh%elem_of_nil|by right|by left]).
  - assert (Hr : forall e c, ok [] (Nursery false c [] 0 0 Noop e ∅ ∅ [ResumeParent h0] [] []) \/ (is_Some e /\ c = false)).
    { intros e c. destruct (decide (is_Some e /\ c = false)) as [?|Hx]; [by right|left].
      split; empty_cases. destruct c; [done|tauto]. }
    destruct r as [| |e], early; cbn; res_cbn; cbn; (eexists; split; [done|]);
      (split; [|unfold life; cbn; left; exists []; split_and!; [done|by intros h Hh%elem_of_nil|done]]).
    all: lazymatch goal with |- ok [] ?m => let m' := eval lazy in m in lazymatch m' with Nursery _ ?c _ _ _ _ ?e _ _ _ _ _ =>
      by destruct (Hr e c) as [?|[[? ?] ?]] end end.
Qed.

(** ** Reachable nurseries *)

Definition event_error (e : event) : option positive :=
  match e with
  | EFail e | ETaskEnd _ (OError e) | EBodyEnd _ (BodyError e) | ESSuspend _ _ (inr (OError e)) _ => Some e
  | _ => None
  end.

Lemma first_error_None o : first_error o None = o.
Proof. by destruct o. Qed.

Lemma with_starter_true a n f : with_starter a n f = true -> exists s, starters n !! a = Some s /\ f s = true.
Proof. unfold with_starter. destruct (starters n !! a) as [s|]; [|done]. eauto. Qed.

(** The awaiter an event is for, and what [enabled] says of it. *)
Ltac starter_of_event H s Ha Hs :=
  apply with_starter_true in H as (s & Ha & Hs);
  repeat lazymatch type of Hs with _ && _ = true => let H' := fresh "Hs" in apply andb_true_iff in Hs as [Hs H'] end.
Ltac flags :=
  repeat match goal with
  | H : negb ?b = true |- _ => apply negb_true_iff in H
  | H : bool_decide _ = true |- _ => apply bool_decide_eq_true in H
  | H : bool_decide _ = false |- _ => apply bool_decide_eq_false in H
  | H : _ && _ = true |- _ => apply andb_true_iff in H as [? ?]
  end.

Lemma event_step_ok sync h0 e n :
  ok [] n -> life h0 n -> enabled sync e n = true -> (forall h, e = EJoin h -> h = h0) ->
  exists n', event_step sync e n = Ok n' /\ ok [] n' /\ life h0 n' /\ error_ n' = first_error (error_ n) (event_error e).
Proof.
  intros Hok Hl He Hj.
  destruct e as [p|e|p o|p r| |h| |a|a|a h r early|a|a o|a|a];
    cbn [event_step enabled event_error] in *; try rewrite first_error_None.
  - flags. destruct (addPromise_ok p n Hok) as [E ?]; [done..|]. exists (adopted p n). split; [exact E|].
    split_and!; [done|by apply adopted_life|done].
  - flags. destruct (store_ok sync h0 (OError e) n Hok Hl) as (n' & E & ? & ? & ? & _); [done|].
    by exists n'.
  - apply andb_true_iff in He as [Hp Ho]. flags.
    destruct (n_task_end_ok sync h0 p o n Hok Hl Hp Ho) as (n' & E & ? & ? & He & _). by exists n'.
  - apply andb_true_iff in He as [Hp Ho]. flags.
    destruct (n_body_end_ok sync h0 p r n Hok Hl Hp Ho) as (n' & E & ? & ? & He & _). by exists n'.
  - destruct (n_cancel_ok sync h0 n Hok Hl) as (n' & E & ? & ? & _ & ? & _). by exists n'.
  - apply andb_true_iff in He as [[He Hp]%andb_true_iff Ht]. unfold parented in Hp. rewrite negb_involutive in Hp. flags.
    rewrite (Hj h eq_refl). unfold join_await_suspend. rewrite (bool_decide_true (parent_ n = Noop)) by done. res_cbn.
    rewrite (bool_decide_false (tasks_ n = [])) by done. res_cbn. eexists. split; [done|]. split_and!; [|unfold life in *; cbn; rewrite He in *|done].
    + destruct Hok. split; cbn; try done. congruence.
    + destruct Hl as (? & ? & _). split_and!; try done; [by right|by left].
  - flags. destruct (run_one_ok h0 n Hok Hl He) as (n' & E & ? & ? & ? & _). by exists n'.
  - flags. eexists. split; [done|]. split_and!; [|by apply (life_mono h0 n)|done].
    pose proof (starter_ok [] n a new_starter (frames n) Hok) as Hs. unfold pending_of in Hs.
    rewrite H0 in Hs. cbn [weight] in Hs. rewrite Z.add_0_r, Z.sub_0_r in Hs.
    refine (eq_ind _ (ok []) (Hs _ _ _ _) _ _); try done; by destruct n.
  - starter_of_event He s Ha Hs. flags. unfold s_await_early_cancel, starter_of. rewrite Ha. res_cbn.
    eexists. split; [done|]. split_and!; [|by apply (life_mono h0 n)|done].
    apply (starter_same_ok [] n a s); [done..|by left].
  - apply andb_true_iff in He as [[Hx Hr]%andb_true_iff Hst]. starter_of_event Hst s Ha Hs. flags. destruct early.
    + destruct (s_await_suspend_early_ok sync h0 a h r s n Hok Hl Hx Ha Hs) as (n' & E & ? & ? & He);
        [done|destruct r; by flags|]. exists n'. by destruct r.
    + destruct r as [p|o]; [|done]. flags.
      destruct (s_await_suspend_ok sync h0 a h p s n Hok Hl Hx Ha Hs) as (n' & E & ? & ? & He); [done..|].
      exists n'. split_and!; try done. by rewrite He, first_error_None.
  - starter_of_event He s Ha Hs. flags.
    destruct (markStarted_ok sync h0 a s n Hok Hl Ha) as (n' & E & ? & ? & ? & _); [done..|]. by exists n'.
  - apply andb_true_iff in He as [Ht Hst]. starter_of_event Hst s Ha Hs. flags.
    destruct (s_end_ok h0 a s o n Hok Hl Ha) as (n' & E & ? & ? & ? & _); [done..|by intros ->|]. by exists n'.
  - apply andb_true_iff in He as [Ht Hst]. starter_of_event Hst s Ha Hs. flags.
    destruct (s_await_cancel_ok sync h0 a s n Hok Hl Ha) as (n' & -> & ? & ? & ?); [done..|]. by exists n'.
  - starter_of_event He s Ha Hs. flags.
    destruct (s_destroy_ok h0 a s n Hok Hl Ha Hs) as (n' & E & ? & ? & ?). by exists n'.
Qed.

Lemma n_reach_ok sync h0 n : reach sync h0 n -> ok [] n /\ life h0 n.
Proof.
  induction 1 as [early body n E| |e n n' _ [Hok Hl] He Hj E].
  - destruct (scope_ok sync h0 early body) as (n' & E' & ? & ?). unfold opened in E'. rewrite E in E'. by injection E' as ->.
  - split; [apply (fresh_nursery_ok true false)|]. unfold life. cbn.
    split_and!; [done|by intros h Hh%elem_of_nil|by left|done].
  - destruct (event_step_ok sync h0 e n Hok Hl He Hj) as (n'' & E' & ? & ? & _). rewrite E in E'. by injection E' as ->.
Qed.

(** The executor runs what has been posted. *)
Fixpoint run_queue (fuel : nat) n : res nursery :=
  match fuel with O => Ok n | S f => n ← run_one n; run_queue f n end.

Lemma run_queue_ok h0 k : forall n,
  ok [] n -> life h0 n -> length (queue n) = k ->
  exists n', run_queue k n = Ok n' /\ ok [] n' /\ life h0 n' /\ exec_ n' = exec_ n /\ queue n' = [].
Proof.
  induction k as [|k IH]; intros n Hok Hl Hk; cbn [run_queue].
  - exists n. split_and!; try done. by apply nil_length_inv.
  - destruct (run_one_ok h0 n Hok Hl) as (n1 & -> & Hok1 & Hl1 & _ & He & Hq); [by intros E; rewrite E in Hk|].
    res_cbn. destruct (IH n1 Hok1 Hl1) as (n2 & -> & ? & ? & ? & ?).
    { rewrite Hq. destruct (queue n); cbn in *; lia. }
    exists n2. split_and!; try done. congruence.
Qed.

(** * Properties *)

(** C18. Whatever the tasks, the pending starts and
    the callers of a nursery do, and in whatever order, under three conditions
    ([enabled]), its parent is resumed at
    most once, and only when every task has ended and its frame has been
    destroyed (except those a start awaiter still owns); while the parent waits
    and the nursery is open there is a task or a pending start to wait for; and
    once the nursery is closed the callbacks it has posted resume the parent.

    The conditions: the nursery is joined while it has a task ([join()] looks at tasks only
    and closes it over a pending start, Nursery.h:1105, [join_ignores_pending]); a pending
    start that ends or is cancelled without being handed off does so while the nursery
    has a task (nobody resumes the parent otherwise, Nursery.h:557,
    [pending_end_hangs]); and a task that is handed off to a cancelled nursery does
    not confirm its own cancellation on the spot (it is listed after it has ended
    otherwise, Nursery.h:748, [adopted_when_done_hangs]).  Errors are reported only while
    there is a parent to be told: the program ends otherwise. *)
Theorem nursery_parent_resumed_once sync h0 n :
  reach sync h0 n ->
  (log_ n = [] \/ log_ n = [h0]) /\
  (log_ n = [h0] -> exec_ n = false /\ tasks_ n = [] /\ queue n = [] /\
     forall p, is_Some (frames n !! p) -> exists a s, starters n !! a = Some s /\ s_promise s = Some p) /\
  (parent_ n <> Noop -> parent_ n = Coro h0 /\ (tasks_ n <> [] \/ 0 < pendingTaskCount_ n)) /\
  (exec_ n = false -> exists n', run_queue (length (queue n)) n = Ok n' /\ log_ n' = [h0]).
Proof.
  intros [Hok Hl]%n_reach_ok. destruct (exec_ n) eqn:He.
  - unfold life in Hl. rewrite He in Hl. destruct Hl as (Hlog & Hq & Hp & Hlive).
    rewrite Hlog. split_and!; [by left|done| |done]. intros Hn. split; [by destruct Hp|by apply Hlive].
  - destruct (o_closed _ _ Hok He) as (Ht & _ & Hpar).
    destruct (run_queue_ok h0 _ n Hok Hl eq_refl) as (n' & E & _ & Hl' & He' & Hq').
    unfold life in Hl, Hl'. rewrite He', He, Hq' in Hl'. rewrite He in Hl.
    assert (Hlog' : log_ n' = [h0]).
    { destruct Hl' as [(ds & E' & _)|[_ ?]]; [by destruct ds|done]. }
    split_and!; [destruct Hl as [(? & _ & _ & ?)|[_ ?]]; auto| |by rewrite Hpar|by exists n'].
    intros Hlog. destruct Hl as [(ds & _ & _ & Hl)|[Hq _]]; [congruence|]. split_and!; try done.
    intros p Hp. destruct (o_dom _ _ Hok p Hp) as [Hin|[Hin|?]]; [|rewrite Hq in Hin|done];
      [rewrite Ht in Hin|]; by apply elem_of_nil in Hin.
Qed.

(** C19. Opening a nursery succeeds, and so does everything that its tasks, its pending
    starts and its callers may do to it afterwards ([enabled]): no frame is used after its
    destruction, destroyed twice or before its task has ended, nothing is adopted by a
    closed nursery, and no assertion fails.  That is under the conditions of
    [nursery_parent_resumed_once]: it is joined while it has a task (joined with nothing
    but a pending start it is closed, and the hand-off then fails the assertion,
    [join_ignores_pending]); a pending start that is not handed off ends, or is cancelled, while
    there is a task ([pending_end_hangs]); and a task handed off to a cancelled nursery
    does not confirm its cancellation on the spot ([adopted_when_done_hangs]).  An error
    is reported only while the nursery has a parent, as the program ends otherwise. *)
Theorem nursery_never_fails sync h0 :
  (forall early body, exists n, scope_await_suspend sync h0 body (opened early) = Ok n) /\
  (forall n e, reach sync h0 n -> enabled sync e n = true -> (forall h, e = EJoin h -> h = h0) ->
     exists n', event_step sync e n = Ok n').
Proof.
  split.
  - intros early body. destruct (scope_ok sync h0 early body) as (n & E & _). by exists n.
  - intros n e [Hok Hl]%n_reach_ok He Hj.
    destruct (event_step_ok sync h0 e n Hok Hl He Hj) as (n' & E & _). by exists n'.
Qed.

(** C20. In every state that a nursery reaches under the conditions of
    [nursery_parent_resumed_once] - it is joined while it has a task, a pending start that
    is not handed off ends or is cancelled while there is a task, and a task that is handed
    off to a cancelled nursery does not confirm its cancellation on the spot - every task
    of a nursery that is being cancelled, adopted before or after, has been told to cancel
    exactly once, and no task of any other nursery has; a pending start has been told
    exactly once if its awaiter was cancelled.  The counts the code keeps are right: without
    the last condition a task that has ended is put into the list
    ([adopted_when_done_hangs], Nursery.h:748). *)
Theorem nursery_cancels_tasks_once sync h0 n :
  reach sync h0 n ->
  (forall p, p ∈ tasks_ n -> frames n !! p = Some (TS (Nat.b2n (cancelling_ n)) false)) /\
  (forall a s p, starters n !! a = Some s -> pending_start s = true -> s_promise s = Some p ->
     p ∉ tasks_ n /\ frames n !! p = Some (TS (Nat.b2n (s_cancelling s)) false)) /\
  NoDup (tasks_ n) /\ taskCount_ n = Z.of_nat (length (tasks_ n)) /\
  pendingTaskCount_ n = countZ pending_start (starters n).
Proof.
  intros [Hok _]%n_reach_ok. split_and!.
  - intros p Hp. rewrite (o_tasks _ _ Hok p Hp). unfold asked_in. rewrite (bool_decide_true (p ∉ [])) by set_solver.
    by destruct (cancelling_ n).
  - intros a s p Ha Hs Hp. split; [by apply (owned_frame [] n a s p)|].
    destruct (pending_open [] n a s Hok Ha Hs) as (_ & _ & _ & p' & Hp' & Hf). congruence.
  - apply (o_nodup _ _ Hok).
  - apply (o_count _ _ Hok).
  - apply (o_pending _ _ Hok).
Qed.

(** The error of a nursery is the first that any of
    its tasks, its body or a start gave it; it is never replaced, it cancels the
    nursery, and the parent must be resumed with it even if it was cancelled. *)
Theorem nursery_first_error sync h0 n e n' :
  reach sync h0 n -> enabled sync e n = true -> (forall h, e = EJoin h -> h = h0) -> event_step sync e n = Ok n' ->
  error_ n' = first_error (error_ n) (event_error e) /\
  (is_Some (error_ n') -> cancelling_ n' = true) /\
  await_resume n' = error_ n' /\ (await_must_resume n' = true <-> is_Some (error_ n')).
Proof.
  intros [Hok Hl]%n_reach_ok He Hj E.
  destruct (event_step_ok sync h0 e n Hok Hl He Hj) as (n1 & E1 & Hok1 & _ & Herr). rewrite E in E1.
  injection E1 as <-. split_and!; [done|apply (o_error _ _ Hok1)|done|]. unfold await_must_resume. apply bool_decide_eq_true.
Qed.

(** ** A nursery with two tasks, a pending start, an error and a cancellation *)

Definition sample_sync : loc -> bool := fun p => bool_decide (p = 12%positive).
Fixpoint run_trace (es : list event) n : res nursery :=
  match es with [] => Ok n | e :: es => corral_assert (enabled sample_sync e n);; n ← event_step sample_sync e n; run_trace es n end.
Definition sample_start : res nursery := scope_await_suspend sample_sync 1 (inl 10%positive) (opened false).
Definition sample_trace : list event :=
  [EStart 11; EStart 12; ESNew 5; ESSuspend 5 2 (inl 13%positive) false; EBodyEnd 10 JoinTag; ESStarted 5]%positive.
Definition sample_end : list event :=
  [ETaskEnd 11 (OError 7); ETaskEnd 13 OCancelled; ERun; ERun; ERun; ERun; ERun; ESDestroy 5]%positive.
Definition sample (es : list event) : nursery :=
  match (n ← sample_start; run_trace es n) with Ok n => n | Fault _ => nursery_empty end.

Lemma sample_trace_reach h0 es : forall n n',
  (forall h, EJoin h ∉ es) -> reach sample_sync h0 n -> run_trace es n = Ok n' -> reach sample_sync h0 n'.
Proof.
  induction es as [|e es IH]; intros n n' Hj Hn; cbn [run_trace]; [by intros [= ->]|].
  unfold corral_assert. destruct (enabled sample_sync e n) eqn:He; res_cbn; [|done].
  destruct (event_step sample_sync e n) as [n1|] eqn:E; res_cbn; [|done]. apply IH; [set_solver|].
  apply (reach_step sample_sync h0 e n n1 Hn He); [|done]. intros h ->. destruct (Hj h). by left.
Qed.
Lemma sample_reach_n es n :
  (forall h, EJoin h ∉ es) -> (n ← sample_start; run_trace es n) = Ok n -> reach sample_sync 1%positive (sample es).
Proof.
  intros Hj E. unfold sample. rewrite E. unfold sample_start in E.
  destruct (scope_await_suspend _ _ _ _) as [n0|] eqn:E0; [|done].
  apply (sample_trace_reach _ es n0 n Hj); [|done].
  by apply (reach_scope sample_sync 1%positive false (inl 10%positive)).
Qed.
Ltac no_join := let h := fresh in let H := fresh in
  intros h H; repeat (apply elem_of_cons in H as [H|H]; [done|]); by apply elem_of_nil in H.
Lemma sample_all_reach : reach sample_sync 1%positive (sample (sample_trace ++ sample_end)).
Proof. eapply sample_reach_n; [no_join|vm_compute; reflexivity]. Qed.
Lemma sample_mid_reach : reach sample_sync 1%positive (sample sample_trace).
Proof. eapply sample_reach_n; [no_join|vm_compute; reflexivity]. Qed.

Lemma nursery_parent_resumed_once_witness :
  log_ (sample (sample_trace ++ sample_end)) = [1%positive] /\
  (log_ (sample (sample_trace ++ sample_end)) = [1%positive] -> exec_ (sample (sample_trace ++ sample_end)) = false /\
     tasks_ (sample (sample_trace ++ sample_end)) = [] /\ queue (sample (sample_trace ++ sample_end)) = [] /\
     forall p, is_Some (frames (sample (sample_trace ++ sample_end)) !! p) ->
       exists a s, starters (sample (sample_trace ++ sample_end)) !! a = Some s /\ s_promise s = Some p).
Proof.
  split; [vm_compute; reflexivity|].
  exact (proj1 (proj2 (nursery_parent_resumed_once sample_sync 1%positive _ sample_all_reach))).
Defined.

Lemma nursery_never_fails_witness :
  exists n', event_step sample_sync (ETaskEnd 11 (OError 7))%positive (sample sample_trace) = Ok n'.
Proof.
  apply (proj2 (nursery_never_fails sample_sync 1%positive) (sample sample_trace) _ sample_mid_reach);
    [vm_compute; reflexivity|done].
Defined.

Lemma nursery_cancels_tasks_once_witness :
  tasks_ (sample (sample_trace ++ [ETaskEnd 11 (OError 7)]%positive)) = [13%positive] /\
  frames (sample (sample_trace ++ [ETaskEnd 11 (OError 7)]%positive)) !! 13%positive = Some (TS 1 false).
Proof.
  assert (H : reach sample_sync 1%positive (sample (sample_trace ++ [ETaskEnd 11 (OError 7)]%positive))).
  { eapply sample_reach_n; [no_join|vm_compute; reflexivity]. }
  split; [vm_compute; reflexivity|].
  refine (proj1 (nursery_cancels_tasks_once sample_sync 1%positive _ H) 13%positive _).
  vm_compute. by left.
Defined.

Lemma nursery_first_error_witness :
  error_ (sample (sample_trace ++ [ETaskEnd 11 (OError 7)]%positive)) = first_error (error_ (sample sample_trace)) (Some 7%positive) /\
  cancelling_ (sample (sample_trace ++ [ETaskEnd 11 (OError 7)]%positive)) = true.
Proof.
  destruct (nursery_first_error sample_sync 1%positive (sample sample_trace) (ETaskEnd 11 (OError 7))%positive
              (sample (sample_trace ++ [ETaskEnd 11 (OError 7)]%positive)) sample_mid_reach) as (H1 & H2 & _);
    [vm_compute; reflexivity|done|vm_compute; reflexivity|].
  split; [exact H1|]. apply H2. rewrite H1. vm_compute. by eexists.
Defined.
