(* ===== verification/OpenNursery.v ===== *)
(** [Nursery.h]: nurseries that are opened by code rather than by a block,
    [openNursery()] and [UnsafeNursery::close()].

    [openNursery(ptr)] runs a [BackreferencedNursery], which sets the user's pointer
    to itself and clears it when its last task ends: it overrides the virtual
    [continuation()].  An operation of Nursery.v that gets to call [continuation()] is
    therefore written again, on the pair of the nursery and the pointer ([bn_...]); the
    others are lifted ([on_base]).  [bn_step_base] says that the nursery inside
    cannot tell the difference, which makes the theorems of Nursery.v hold of it. *)
From S2P Require Import Nursery.

Local Open Scope Z_scope.

(** The nursery, and whether the user's pointer points to it. *)
Record backreferenced := BN { base : nursery; backref_ : bool }.
Implicit Types (b : backreferenced) (n : nursery) (p a : loc).

Definition on_base (f : nursery -> res nursery) b : res backreferenced :=
  n ← f (base b); Ok (BN n (backref_ b)).

(** [BackreferencedNursery::continuation(p)] *)
Definition bn_continuation p b : res backreferenced :=
  let b := if (taskCount_ (base b) =? 1) && (pendingTaskCount_ (base b) =? 0) then BN (base b) false else b in
  on_base (continuation (Some p)) b.

Section Sync.
Context (sync : loc -> bool).

Definition bn_cancel_task p b : res backreferenced :=
  b ← on_base (ask_frame p) b;
  if sync p then b ← on_base (finish_frame p) b; bn_continuation p b else Ok b.
Fixpoint bn_cancel_tasks (ps : list loc) b : res backreferenced :=
  match ps with [] => Ok b | p :: ps => b ← bn_cancel_task p b; bn_cancel_tasks ps b end.
Definition bn_doCancel b : res backreferenced :=
  if negb (exec_ (base b)) || bool_decide (tasks_ (base b) = []) then Ok b else bn_cancel_tasks (tasks_ (base b)) b.
Definition bn_cancel b : res backreferenced :=
  if cancelling_ (base b) then Ok b else bn_doCancel (BN (set_cancelling (base b)) (backref_ b)).
Definition bn_storeError (e : positive) b : res backreferenced :=
  let n := base b in
  if bool_decide (parent_ n = Noop) then Fault Unreachable
  else
    let needCancel := negb (cancelling_ n) in
    let n := if error_ n then n else set_error (Some e) n in
    let b := BN (set_cancelling n) (backref_ b) in
    if needCancel then bn_doCancel b else Ok b.
Definition bn_store (o : outcome) b : res backreferenced :=
  match o with OError e => bn_storeError e b | _ => Ok b end.
Definition bn_start (r : loc + outcome) b : res backreferenced :=
  match r with inl p => on_base (addPromise p) b | inr o => bn_store o b end.
Definition bn_task_end p (o : outcome) b : res backreferenced :=
  b ← bn_store o b; b ← on_base (finish_frame p) b; bn_continuation p b.

(** [adopt(promise)], [handOff()], [markStarted()]: the task may end in between. *)
Definition bn_adopt (sync : bool) p b : res backreferenced :=
  corral_assert (exec_ (base b));;
  b ← (if cancelling_ (base b) then
         b ← on_base (ask_frame p) b;
         if sync then b ← on_base (finish_frame p) b; bn_continuation p b else Ok b
       else Ok b);
  Ok (BN (set_tasks (tasks_ (base b) ++ [p]) (taskCount_ (base b) + 1) (base b)) (backref_ b)).
Definition bn_handOff a b : res backreferenced :=
  s ← starter_of a (base b);
  if s_cancelling s then Ok b
  else
    match s_promise s with
    | Some p =>
        corral_assert (s_nursery s);;
        let n := set_starter a (Starter false (s_handle s) None (s_cancelling s) (s_result s)) (base b) in
        b ← bn_adopt (sync p) p (BN (set_pending (pendingTaskCount_ n - 1) n) (backref_ b));
        s ← starter_of a (base b);
        let n := set_starter a (Starter (s_nursery s) Noop (s_promise s) (s_cancelling s) (s_result s)) (base b) in
        Ok (BN (resume_starter (s_handle s) n) (backref_ b))
    | None => Ok b
    end.
Definition bn_markStarted a b : res backreferenced :=
  s ← starter_of a (base b);
  bn_handOff a (BN (set_starter a (Starter (s_nursery s) (s_handle s) (s_promise s) (s_cancelling s) (Some OValue)) (base b))
                   (backref_ b)).

(** [NurseryStartAwaiter::await_suspend(h)] *)
Definition bn_s_await_suspend a (h : loc) (r : loc + outcome) (early : bool) b : res backreferenced :=
  b ← (if early then bn_markStarted a b else Ok b);
  b ← match r with inl _ => Ok b | inr o => bn_store o b end;
  on_base (s_submit a h r) b.

(** [openNursery(ptr)] up to [started()]: the constructor, and the task that
    suspends forever. *)
Definition openNursery p : res backreferenced :=
  bn_start (inl p) (BN (set_exec true nursery_empty) true).
(** [nursery.join()], awaited *)
Definition bn_join (h : loc) b : res (bool * backreferenced) :=
  '(v, n) ← join_await_suspend h (base b); Ok (v, BN n (backref_ b)).

End Sync.

(** ** Its life *)

Section Life.
Context (sync : loc -> bool).

(** There is no block, so no body: [EBodyEnd] is a task's end. *)
Definition bn_step (e : event) b : res backreferenced :=
  match e with
  | EStart p => bn_start sync (inl p) b
  | EFail e => bn_start sync (inr (OError e)) b
  | ETaskEnd p o => bn_task_end (except p sync) p o b
  | ECancel => bn_cancel sync b
  | EJoin h => '(_, b) ← bn_join h b; Ok b
  | ESSuspend a h r early => bn_s_await_suspend sync a h r early b
  | ESStarted a => bn_markStarted sync a b
  | e => on_base (event_step sync e) b
  end.

(** Tasks are started, and starts awaited, through the pointer. *)
Definition through_pointer (e : event) : bool :=
  match e with EStart _ | EFail _ | ESNew _ | ESSuspend _ _ _ _ => true | _ => false end.
Definition bn_enabled (e : event) b : bool :=
  enabled sync e (base b) && (negb (through_pointer e) || backref_ b) && match e with EBodyEnd _ _ => false | _ => true end.

Inductive bn_reach (h0 : loc) : backreferenced -> Prop :=
| bn_reach_open p b : openNursery sync p = Ok b -> bn_reach h0 b
| bn_reach_step e b b' : bn_reach h0 b -> bn_enabled e b = true -> (forall h, e = EJoin h -> h = h0) ->
    bn_step e b = Ok b' -> bn_reach h0 b'.
End Life.

(** * The nursery inside cannot tell *)

Lemma base_bind (m : res backreferenced) (M : res nursery) f F :
  base <$> m = M -> (forall b, base <$> f b = F (base b)) -> base <$> (m ≫= f) = M ≫= F.
Proof. intros <- Hf. destruct m as [b|x]; [apply Hf|done]. Qed.
Lemma base_on_base f b : base <$> on_base f b = f (base b).
Proof. unfold on_base. by destruct (f (base b)). Qed.
#[local] Hint Resolve base_bind base_on_base : corral.

Section Base.
Context (sync : loc -> bool).

Lemma bn_continuation_base p b : base <$> bn_continuation p b = continuation (Some p) (base b).
Proof. unfold bn_continuation. rewrite base_on_base. by case_match. Qed.
#[local] Hint Resolve bn_continuation_base : corral.
Lemma bn_cancel_task_base p b : base <$> bn_cancel_task sync p b = cancel_task sync p (base b).
Proof. unfold bn_cancel_task, cancel_task. apply base_bind; [auto with corral|]. intros b'. destruct (sync p); auto with corral. Qed.
Lemma bn_cancel_tasks_base ps : forall b, base <$> bn_cancel_tasks sync ps b = cancel_tasks sync ps (base b).
Proof. induction ps; intros b; [done|]. apply base_bind; [apply bn_cancel_task_base|done]. Qed.
Lemma bn_doCancel_base b : base <$> bn_doCancel sync b = doCancel sync (base b).
Proof. unfold bn_doCancel, doCancel. destruct (_ || _); [done|apply bn_cancel_tasks_base]. Qed.
Lemma bn_cancel_base b : base <$> bn_cancel sync b = cancel sync (base b).
Proof. unfold bn_cancel, cancel. destruct (cancelling_ _); [done|apply bn_doCancel_base]. Qed.
Lemma bn_store_base o b : base <$> bn_store sync o b = store sync o (base b).
Proof.
  destruct o as [|e|]; [done| |done]. cbn. unfold bn_storeError, storeError. destruct (bool_decide _); [done|].
  cbv zeta. destruct (negb _); [apply bn_doCancel_base|done].
Qed.
Lemma bn_start_base r b : base <$> bn_start sync r b = start sync r (base b).
Proof. destruct r; [apply base_on_base|apply bn_store_base]. Qed.
Lemma base_bind_nursery {A} (m : res A) f F : (forall x, base <$> f x = F x) -> base <$> (m ≫= f) = m ≫= F.
Proof. intros Hf. destruct m; [apply Hf|done]. Qed.
Lemma bn_adopt_base v p b : base <$> bn_adopt v p b = adopt v p (base b).
Proof.
  unfold bn_adopt, adopt. apply base_bind_nursery. intros _. apply base_bind; [|done].
  destruct (cancelling_ (base b)); [|done]. apply base_bind; [apply base_on_base|]. intros b1.
  destruct v; [|done]. apply base_bind; [apply base_on_base|apply bn_continuation_base].
Qed.
Lemma bn_markStarted_base a b : base <$> bn_markStarted sync a b = markStarted sync a (base b).
Proof.
  unfold bn_markStarted, markStarted. apply base_bind_nursery. intros s. unfold bn_handOff, handOff.
  apply base_bind_nursery. intros s1. destruct (s_cancelling s1); [done|]. destruct (s_promise s1) as [p|]; [|done].
  apply base_bind_nursery. intros _. apply base_bind; [apply bn_adopt_base|]. intros b1. by apply base_bind_nursery.
Qed.
End Base.

(** Whatever happens, happens to the nursery inside as it would to any other. *)
Lemma bn_step_base sync e b : base <$> bn_step sync e b = event_step sync e (base b).
Proof.
  destruct e; cbn [bn_step event_step]; try apply base_on_base; try apply bn_start_base.
  - unfold bn_task_end, task_end. apply base_bind; [apply bn_store_base|]. intros b1.
    apply base_bind; [apply base_on_base|apply bn_continuation_base].
  - apply bn_cancel_base.
  - unfold bn_join. by destruct (join_await_suspend h (base b)) as [[v n]|].
  - unfold bn_s_await_suspend, s_await_suspend. apply base_bind; [destruct early; [apply bn_markStarted_base|done]|].
    intros b1. apply base_bind; [destruct r; [done|apply bn_store_base]|apply base_on_base].
  - apply bn_markStarted_base.
Qed.

Lemma bn_step_ok sync e b b' : bn_step sync e b = Ok b' -> event_step sync e (base b) = Ok (base b').
Proof. intros E. by rewrite <- bn_step_base, E. Qed.
Lemma bn_reach_base sync h0 b : bn_reach sync h0 b -> reach sync h0 (base b).
Proof.
  induction 1 as [p b E|e b b' _ IH He Hj E].
  - apply (reach_step sync h0 (EStart p) (set_exec true nursery_empty)); [apply reach_unsafe|done..|].
    exact (bn_step_ok sync (EStart p) (BN (set_exec true nursery_empty) true) b E).
  - apply (reach_step sync h0 e (base b)); [done| |done|by apply bn_step_ok].
    by unfold bn_enabled in He; apply andb_true_iff in He as [[? _]%andb_true_iff _].
Qed.

(** * The pointer *)

(** The nursery has something to wait for. *)
Definition busy n : bool := negb (bool_decide (tasks_ n = []) && (pendingTaskCount_ n =? 0)).
(** What the pointer depends on. *)
Definition counts n : list loc * Z * Z := (tasks_ n, taskCount_ n, pendingTaskCount_ n).
Record pointed b : Prop := {
  pt_nodup : NoDup (tasks_ (base b));
  pt_count : taskCount_ (base b) = Z.of_nat (length (tasks_ (base b)));
  pt_backref : backref_ b = busy (base b) }.

Lemma pointed_counts b n : pointed b -> counts n = counts (base b) -> pointed (BN n (backref_ b)).
Proof. intros [] [= E1 E2 E3]. split; unfold busy; cbn; rewrite ?E1, ?E2, ?E3; done. Qed.
Lemma on_base_pointed f b b' :
  (forall n n', f n = Ok n' -> counts n' = counts n) -> pointed b -> on_base f b = Ok b' -> pointed b'.
Proof. intros Hf Hb E. unfold on_base in E. res_inv. apply pointed_counts; [done|]. by apply Hf. Qed.
Lemma on_base_tasks f b b' :
  (forall n n', f n = Ok n' -> counts n' = counts n) -> on_base f b = Ok b' -> tasks_ (base b') = tasks_ (base b).
Proof. intros Hf E. unfold on_base in E. apply bind_ok in E as (n & E & [= <-]). apply Hf in E as [= Et _ _]. exact Et. Qed.
Lemma ask_frame_counts p n n' : ask_frame p n = Ok n' -> counts n' = counts n.
Proof. unfold ask_frame. intros. by res_inv. Qed.
Lemma finish_frame_counts p n n' : finish_frame p n = Ok n' -> counts n' = counts n.
Proof. unfold finish_frame. intros. by res_inv. Qed.

Lemma continuation_counts p n n' :
  continuation (Some p) n = Ok n' ->
  counts n' = (filter (fun q => q <> p) (tasks_ n), taskCount_ n - 1, pendingTaskCount_ n).
Proof.
  unfold continuation. intros E. res_inv. destruct (_ && _); cbn in *; [destruct (parent_ n)|]; by res_inv.
Qed.

Lemma bn_continuation_pointed p b b' :
  pointed b -> p ∈ tasks_ (base b) -> bn_continuation p b = Ok b' ->
  pointed b' /\ tasks_ (base b') = filter (fun q => q <> p) (tasks_ (base b)).
Proof.
  intros [Hn Hc Hb] Hp E. unfold bn_continuation, on_base in E. res_inv.
  pose proof (continuation_counts p (base b) x ltac:(by case_match)) as [= E1 E2 E3].
  pose proof (length_filter_out p _ Hn Hp) as Hl. split; [|done]. set (T := filter _ _) in *.
  split; cbn; [rewrite E1; by apply NoDup_filter|rewrite E1, E2; lia|].
  assert (Hbusy : busy (base b) = true) by (unfold busy; rewrite bool_decide_false; [done|intros HT; rewrite HT in Hp; by apply elem_of_nil in Hp]).
  rewrite Hbusy in Hb. unfold busy. rewrite E1, E3, Hc.
  destruct (Z.eqb_spec (pendingTaskCount_ (base b)) 0); rewrite ?andb_true_r, ?andb_false_r; [|done].
  destruct (Z.eqb_spec (Z.of_nat (length (tasks_ (base b)))) 1), (bool_decide_reflect (T = [])) as [HT|HT];
    cbn; try done; destruct T; cbn in Hl; (lia || done).
Qed.

Section Pointed.
Context (sync : loc -> bool).

(** The tasks that do not confirm stay. *)
Definition stay b b' : Prop := forall q, q ∈ tasks_ (base b) -> sync q = false -> q ∈ tasks_ (base b').

Lemma bn_cancel_task_pointed p b b' :
  pointed b -> p ∈ tasks_ (base b) -> bn_cancel_task sync p b = Ok b' ->
  pointed b' /\ stay b b' /\ (forall q, q ∈ tasks_ (base b) -> q <> p -> q ∈ tasks_ (base b')).
Proof.
  intros Hb Hp E. unfold bn_cancel_task in E. apply bind_ok in E as (b1 & E1 & E).
  pose proof (on_base_tasks _ _ _ (ask_frame_counts p) E1) as Ht1.
  apply (on_base_pointed (ask_frame p)) in E1; [|apply ask_frame_counts|done]. unfold stay. rewrite <- Ht1.
  destruct (sync p) eqn:Hs; [|by res_inv]. apply bind_ok in E as (b2 & E2 & E).
  pose proof (on_base_tasks _ _ _ (finish_frame_counts p) E2) as Ht2.
  apply (on_base_pointed (finish_frame p)) in E2; [|apply finish_frame_counts|done].
  apply bn_continuation_pointed in E as [? Ht]; [|done|by rewrite Ht2, Ht1]. rewrite Ht, Ht2.
  split_and!; [done| |]; intros q Hq Hq2; rewrite list_elem_of_filter; (split; [|done]); [|done].
  intros ->. congruence.
Qed.
Lemma bn_cancel_tasks_pointed ps : forall b b',
  NoDup ps -> (forall p, p ∈ ps -> p ∈ tasks_ (base b)) -> pointed b ->
  bn_cancel_tasks sync ps b = Ok b' -> pointed b' /\ stay b b'.
Proof.
  induction ps as [|p ps IH]; intros b b' Hnd Hin Hb E; cbn in E; [by res_inv; split; [|intros ?]|]. apply bind_ok in E as (b1 & E1 & E).
  apply NoDup_cons in Hnd as [Hp Hnd].
  apply bn_cancel_task_pointed in E1 as (Hb1 & Hs & Hq); [|done|by apply Hin; left].
  apply IH in E as [? Hs']; [|done| |done].
  - split; [done|]. intros q ? ?. apply Hs'; [by apply Hs|done].
  - intros q Hqs. apply Hq; [by apply Hin; right|]. by intros ->.
Qed.
Lemma bn_doCancel_pointed b b' : pointed b -> bn_doCancel sync b = Ok b' -> pointed b' /\ stay b b'.
Proof.
  unfold bn_doCancel. intros Hb E. destruct (_ || _); [by res_inv; split; [|intros ?]|].
  by apply bn_cancel_tasks_pointed in E; [|apply Hb|..].
Qed.
Lemma bn_cancel_pointed b b' : pointed b -> bn_cancel sync b = Ok b' -> pointed b'.
Proof.
  unfold bn_cancel. intros Hb E. destruct (cancelling_ _); [by res_inv|].
  apply bn_doCancel_pointed in E as [? _]; [done|by apply pointed_counts].
Qed.
Lemma bn_store_pointed o b b' : pointed b -> bn_store sync o b = Ok b' -> pointed b' /\ stay b b'.
Proof.
  intros Hb E. destruct o as [|e|]; cbn in E; [by res_inv; split; [|intros ?]| |by res_inv; split; [|intros ?]]. unfold bn_storeError in E.
  destruct (bool_decide _); [done|]. cbv zeta in E.
  assert (Hb1 : pointed (BN (set_cancelling (if error_ (base b) then base b else set_error (Some e) (base b))) (backref_ b)))
    by (apply pointed_counts; [done|by destruct (error_ _)]).
  assert (Ht : forall q, q ∈ tasks_ (base b) ->
    q ∈ tasks_ (set_cancelling (if error_ (base b) then base b else set_error (Some e) (base b)))) by (by destruct (error_ _)).
  destruct (negb _).
  - apply bn_doCancel_pointed in E as [? Hs]; [|done]. split; [done|]. intros q ? ?. apply Hs; [by apply Ht|done].
  - res_inv. split; [done|]. intros q ? _. by apply Ht.
Qed.
End Pointed.

Lemma bn_task_end_pointed sync p o b b' :
  pointed b -> p ∈ tasks_ (base b) -> sync p = false -> bn_task_end sync p o b = Ok b' -> pointed b'.
Proof.
  unfold bn_task_end. intros Hb Hp Hs E. apply bind_ok in E as (b1 & E1 & E).
  apply bn_store_pointed in E1 as [Hb1 Hst]; [|done]. apply bind_ok in E as (b2 & E2 & E).
  pose proof (on_base_tasks _ _ _ (finish_frame_counts p) E2) as Ht2.
  apply (on_base_pointed (finish_frame p)) in E2; [|apply finish_frame_counts|done].
  apply bn_continuation_pointed in E as [? _]; [done..|]. rewrite Ht2. by apply Hst.
Qed.

(** ** The operations that are not overridden *)

Lemma busy_counts n n' : counts n' = counts n -> busy n' = busy n.
Proof. intros [= E1 _ E3]. unfold busy. by rewrite E1, E3. Qed.
Lemma busy_tasks n : tasks_ n <> [] -> busy n = true.
Proof. intros H. unfold busy. by rewrite bool_decide_false. Qed.
Lemma busy_pending n : 0 < pendingTaskCount_ n -> busy n = true.
Proof. intros H. unfold busy. destruct (Z.eqb_spec (pendingTaskCount_ n) 0); [lia|]. by rewrite andb_false_r. Qed.

Lemma adopt_busy v p n n' : adopt v p n = Ok n' -> busy n' = true.
Proof. unfold adopt. intros E. res_inv. apply busy_tasks. cbn. by destruct (tasks_ _). Qed.
Lemma addPromise_busy p n n' : addPromise p n = Ok n' -> busy n' = true.
Proof. unfold addPromise. intros E. res_inv. by apply adopt_busy in H0. Qed.
(** A frame that is to be destroyed is in no list. *)
Lemma run_one_counts n n' : ok [] n -> run_one n = Ok n' -> counts n' = counts n /\ cancelling_ n' = cancelling_ n.
Proof.
  unfold run_one. intros Hok E. destruct (queue n) as [|[p|h] q] eqn:Eq; [by res_inv| |by res_inv].
  destruct (o_queue _ _ Hok p ltac:(rewrite Eq; by left)) as [Hp _]. res_inv. split; [|done].
  pose proof (without_id p (tasks_ n) Hp) as Hw. unfold counts, without in *. cbn. by rewrite Hw.
Qed.
Lemma s_destroy_counts a n n' : s_destroy a n = Ok n' -> counts n' = counts n.
Proof. unfold s_destroy. intros E. res_inv. destruct (s_promise _); by res_inv. Qed.
Lemma s_end_tasks a o n n' : s_end a o n = Ok n' -> tasks_ n' = tasks_ n.
Proof.
  unfold s_end, s_store, finish_frame, s_continuation. intros E. res_inv.
  destruct o; res_inv; by case_match.
Qed.
Lemma s_await_cancel_tasks sync a n v n' : s_await_cancel sync a n = Ok (v, n') -> tasks_ n' = tasks_ n.
Proof.
  unfold s_await_cancel. intros E. res_inv. destruct (s_promise _) as [p|]; [|by res_inv]. res_inv.
  pose proof (ask_frame_counts _ _ _ H0) as [= E1 _ _]. rewrite <- E1.
  destruct (sync p); [by apply s_end_tasks in H1|by res_inv].
Qed.
Lemma markStarted_busy sync a n n' : busy n = true -> markStarted sync a n = Ok n' -> busy n' = true.
Proof.
  unfold markStarted, handOff. intros Hb E. res_inv. case_match; [by res_inv|]. case_match; res_inv; [|done].
  by lazymatch goal with H : adopt _ _ _ = Ok _ |- _ => apply adopt_busy in H end.
Qed.
(** As long as no task confirms while it is handed off, [adopt()] does what it would in
    any nursery. *)
Lemma bn_adopt_quiet v p b : (cancelling_ (base b) = true -> v = false) -> bn_adopt v p b = on_base (adopt v p) b.
Proof.
  intros Hv. unfold bn_adopt, on_base, adopt. destruct (exec_ (base b)); [|done]. res_cbn.
  destruct (cancelling_ (base b)); [|done]. rewrite Hv by done. by destruct (ask_frame p (base b)).
Qed.
Lemma bn_markStarted_quiet sync a s b :
  starters (base b) !! a = Some s ->
  cancelling_ (base b) && negb (s_cancelling s) && match s_promise s with Some p => sync p | None => false end = false ->
  bn_markStarted sync a b = on_base (markStarted sync a) b.
Proof.
  intros Ha Hq. unfold bn_markStarted, on_base, markStarted, bn_handOff, handOff, starter_of. rewrite Ha. res_cbn.
  assert (Es : forall x, starters (set_starter a x (base b)) !! a = Some x) by (intros; apply lookup_insert_eq).
  cbn [base backref_]. rewrite Es. res_cbn. cbn [s_cancelling s_promise s_nursery s_handle s_result].
  destruct (s_cancelling s); [done|]. destruct (s_promise s) as [p|]; [|done].
  destruct (s_nursery s); [|done]. res_cbn. rewrite bn_adopt_quiet by (cbn; intros Hc; by rewrite Hc in Hq).
  unfold on_base. cbn [base backref_]. destruct (adopt _ _ _) as [n1|]; [|done]. res_cbn. cbn [base backref_].
  by destruct (deref _).
Qed.
Lemma s_submit_busy a h r n n' :
  (forall p, r = inl p -> 0 <= pendingTaskCount_ n) -> s_submit a h r n = Ok n' ->
  busy n' = match r with inl _ => true | inr _ => busy n end.
Proof.
  unfold s_submit. intros Hp E. apply bind_ok in E as (s & _ & E). destruct (s_result s).
  - destruct r as [p|v]; res_inv; [|done]. by lazymatch goal with H : addPromise _ _ = Ok _ |- _ => apply addPromise_busy in H end.
  - destruct r as [p|v]; [|done]. specialize (Hp p eq_refl).
    apply bind_ok in E as (_ & _ & E). apply bind_ok in E as (n1 & E1 & E). injection E as <-.
    apply busy_pending. cbn. destruct (s_cancelling s); [apply ask_frame_counts in E1 as [= _ _ Ec]; cbn in *; lia|].
    injection E1 as <-. cbn. lia.
Qed.

(** [bn_step] keeps the pointer right: the operations that end tasks by what was
    shown above, the others because the nursery is busy before and after, or
    because nothing changes. *)
Lemma on_base_busy f b b' :
  backref_ b = busy (base b) -> (forall n', f (base b) = Ok n' -> busy n' = busy (base b)) ->
  on_base f b = Ok b' -> backref_ b' = busy (base b').
Proof. intros Hb Hf E. unfold on_base in E. res_inv. rewrite Hb. symmetry. by apply Hf. Qed.

Lemma bn_s_await_suspend_pointed sync a s h r early b b' :
  pointed b -> ok [] (base b) -> busy (base b) = true ->
  starters (base b) !! a = Some s -> s_promise s = None ->
  bn_s_await_suspend sync a h r early b = Ok b' -> backref_ b' = busy (base b').
Proof.
  intros Hb Hok Hy Ha Hp E. unfold bn_s_await_suspend in E. apply bind_ok in E as (b1 & E1 & E).
  assert (Hc : counts (base b1) = counts (base b) /\ backref_ b1 = backref_ b).
  { destruct early; [|by res_inv]. rewrite (bn_markStarted_quiet sync a s) in E1 by (done || by rewrite Hp, andb_false_r).
    unfold on_base in E1. rewrite (markStarted_early sync a s) in E1 by done. by res_inv. }
  destruct Hc as [Hc Hr]. assert (Hb1 : pointed b1) by (pose proof (pointed_counts b (base b1) Hb Hc) as Hx; by rewrite <- Hr in Hx; destruct b1).
  destruct r as [p|o]; res_cbn in *.
  - apply (on_base_busy _ b1) in E; [done|apply Hb1|]. intros n' En. apply s_submit_busy in En.
    + rewrite (busy_counts _ _ Hc). by rewrite En, Hy.
    + intros _ _. injection Hc as _ _ ->. rewrite (o_pending _ _ Hok). apply countZ_nonneg.
  - apply bind_ok in E as (b2 & E2 & E). apply bn_store_pointed in E2 as [E2 _]; [|done].
    apply (on_base_busy _ b2) in E; [done|apply E2|]. intros n' En. by apply s_submit_busy in En.
Qed.

Lemma bn_step_pointed sync e b b' :
  pointed b -> ok [] (base b) -> bn_enabled sync e b = true -> bn_step sync e b = Ok b' -> backref_ b' = busy (base b').
Proof.
  intros Hb Hok He E. unfold bn_enabled in He. apply andb_true_iff in He as [[He Ht]%andb_true_iff Hn].
  pose proof (pt_backref b Hb) as Hp.
  assert (Hsame : forall f, (forall n', f (base b) = Ok n' -> counts n' = counts (base b)) ->
    on_base f b = Ok b' -> backref_ b' = busy (base b')).
  { intros f Hf. apply on_base_busy; [done|]. intros n' En. by apply busy_counts, Hf. }
  assert (Hbusy : forall f, busy (base b) = true -> (forall n', f (base b) = Ok n' -> busy n' = true) ->
    on_base f b = Ok b' -> backref_ b' = busy (base b')).
  { intros f Hy Hf. apply on_base_busy; [done|]. intros n' En. rewrite Hy. by apply Hf. }
  destruct e as [p|e|p o|p r| |h| |a|a|a h r early|a|a o|a|a]; cbn [bn_step enabled through_pointer negb orb] in *; try done.
  - apply (Hbusy (addPromise p)); [congruence|apply addPromise_busy|done].
  - by apply (bn_store_pointed sync (OError e)) in E as [[] _].
  - apply andb_true_iff in He as [Hin _]. flags. apply bn_task_end_pointed in E as []; [done..|].
    unfold except. by rewrite bool_decide_true, andb_false_r.
  - by apply bn_cancel_pointed in E as [].
  - unfold bn_join, join_await_suspend in E. flags. res_inv. rewrite (bool_decide_false (tasks_ _ = [])) in * by done. by res_inv.
  - apply (Hsame run_one); [intros n' En; by apply run_one_counts|done].
  - by apply (Hsame (fun n => Ok (set_starter a new_starter n))); [intros; res_inv|].
  - apply (Hsame (event_step sync (ESEarly a))); [|done]. cbn. unfold s_await_early_cancel. intros. by res_inv.
  - apply andb_true_iff in He as [_ Hst]. starter_of_event Hst s Ha Hs. flags.
    by apply (bn_s_await_suspend_pointed sync a s h r early b b'); [|congruence..|].
  - starter_of_event He s Ha Hs. flags. destruct (pending_open _ _ _ _ Hok Ha Hs) as (_ & Hpos & _).
    rewrite (bn_markStarted_quiet sync a s) in E by done.
    apply (Hbusy (markStarted sync a)); [by apply busy_pending|intros n'; by apply markStarted_busy, busy_pending|done].
  - apply andb_true_iff in He as [Hta _]. flags. apply (Hbusy (s_end a o)); [by apply busy_tasks| |done].
    intros n' En. apply busy_tasks. by rewrite (s_end_tasks _ _ _ _ En).
  - apply andb_true_iff in He as [Hta _]. flags.
    apply (Hbusy (event_step sync (ESCancel a))); [by apply busy_tasks| |done].
    cbn. intros n' En. apply bind_ok in En as ([v n1] & En & [= ->]). apply busy_tasks.
    by rewrite (s_await_cancel_tasks _ _ _ _ _ En).
  - apply (Hsame (s_destroy a)); [apply s_destroy_counts|done].
Qed.

Lemma bn_reach_pointed sync h0 b : bn_reach sync h0 b -> pointed b.
Proof.
  induction 1 as [p b E|e b b' Hr IH He Hj E].
  - vm_compute in E. injection E as <-. split; cbn; [apply NoDup_singleton|done..].
  - pose proof (bn_reach_base _ _ _ (bn_reach_step _ _ e b b' Hr He Hj E)) as Hr'.
    destruct (n_reach_ok _ _ _ Hr') as [[] _]. split; [done..|].
    destruct (n_reach_ok _ _ _ (bn_reach_base _ _ _ Hr)) as [Hok _]. by apply (bn_step_pointed sync e b).
Qed.

(** C40.  Under the conditions below the pointer that [openNursery()] was given is set
    exactly as long as the nursery has a task or a pending start.  While it is set a
    task can be started through it, cancelled or not, and is told to cancel at once if
    the nursery is; once the parent of the nursery is about to be resumed, or was, so
    that the nursery goes away, the pointer is null; and if it is null before
    anybody has joined the nursery, joining it does not suspend.  No operation that these
    conditions admit ([bn_enabled]) fails.

    The conditions are those of [Nursery.nursery_parent_resumed_once]: the nursery, unless
    the pointer is null already, is joined while it has a task (Nursery.h:1105); a pending start that
    is not handed off ends or is cancelled while there is a task (Nursery.h:557); a task
    that is handed off to a cancelled nursery does not confirm its cancellation on the spot
    (Nursery.h:748).  Besides, tasks are started through the pointer only while it is set. *)
Theorem openNursery_pointer sync h0 b :
  bn_reach sync h0 b ->
  (backref_ b = true <-> tasks_ (base b) <> [] \/ 0 < pendingTaskCount_ (base b)) /\
  (backref_ b = true -> forall p, frames (base b) !! p = None ->
     exists b', bn_start sync (inl p) b = Ok b' /\ backref_ b' = true /\ p ∈ tasks_ (base b') /\
       frames (base b') !! p = Some (TS (Nat.b2n (cancelling_ (base b))) false)) /\
  (h0 ∈ log_ (base b) \/ ResumeParent h0 ∈ queue (base b) -> backref_ b = false) /\
  (backref_ b = false -> exec_ (base b) = true ->
     forall h, exists b', bn_join h b = Ok (false, b') /\ backref_ b' = false /\ exec_ (base b') = false) /\
  (forall e, bn_enabled sync e b = true -> (forall h, e = EJoin h -> h = h0) -> exists b', bn_step sync e b = Ok b').
Proof.
  intros Hr. pose proof (bn_reach_pointed _ _ _ Hr) as [Hnd Hc Hp].
  destruct (n_reach_ok _ _ _ (bn_reach_base _ _ _ Hr)) as [Hok Hl].
  assert (Hpend : 0 <= pendingTaskCount_ (base b)) by (rewrite (o_pending _ _ Hok); apply countZ_nonneg).
  assert (Hbusy : busy (base b) = true <-> tasks_ (base b) <> [] \/ 0 < pendingTaskCount_ (base b)).
  { unfold busy. destruct (bool_decide_reflect (tasks_ (base b) = [])), (Z.eqb_spec (pendingTaskCount_ (base b)) 0); cbn;
      (split; [intros|intros [?|?]]); try done; try lia; first [by left|right; lia]. }
  assert (Hopen : backref_ b = true -> exec_ (base b) = true).
  { rewrite Hp, Hbusy. intros Hb. destruct (exec_ (base b)) eqn:He; [done|].
    destruct (o_closed _ _ Hok He) as (Ht & Hz & _). rewrite Ht, Hz in Hb. destruct Hb; [done|lia]. }
  split_and!.
  - by rewrite Hp.
  - intros Hb p Hf. destruct (addPromise_ok p (base b) Hok (Hopen Hb) Hf) as [E Ha].
    exists (BN (adopted p (base b)) true). unfold bn_start, on_base. rewrite E, Hb. res_cbn.
    split_and!; [done..| |]; cbn; [set_solver|by rewrite lookup_insert_eq].
  - intros Hx. destruct (backref_ b) eqn:Hb; [|done]. unfold life in Hl. rewrite (Hopen eq_refl) in Hl.
    destruct Hl as (Hlog & Hq & _). rewrite Hlog in Hx. destruct Hx as [Hx%elem_of_nil|Hx]; [done|by apply Hq in Hx].
  - intros Hb He h. assert (Hnb : ~ (tasks_ (base b) <> [] \/ 0 < pendingTaskCount_ (base b))) by (rewrite <- Hbusy, <- Hp, Hb; done).
    unfold life in Hl. rewrite He in Hl. destruct Hl as (_ & _ & _ & Hl).
    assert (Hpa : parent_ (base b) = Noop) by (destruct (parent_ (base b)); [done|]; by destruct Hnb; apply Hl).
    assert (Ht : tasks_ (base b) = []) by (destruct (tasks_ (base b)); [done|]; destruct Hnb; by left).
    eexists. unfold bn_join, join_await_suspend. rewrite Hpa, Ht. cbn. split; [reflexivity|]. by rewrite Hb.
  - intros e He Hj. unfold bn_enabled in He. apply andb_true_iff in He as [[He _]%andb_true_iff _].
    destruct (event_step_ok sync h0 e (base b) Hok Hl He Hj) as (n' & En & _).
    rewrite <- (bn_step_base sync e b) in En. destruct (bn_step sync e b) as [b'|]; [by exists b'|done].
Qed.

(** ** An opened nursery *)

Section Play.
Context (sync : loc -> bool) (h0 : loc).

Definition joins_as (e : event) : bool := match e with EJoin h => bool_decide (h = h0) | _ => true end.
Fixpoint bn_play (es : list event) b : option backreferenced :=
  match es with
  | [] => Some b
  | e :: es => if bn_enabled sync e b && joins_as e then match bn_step sync e b with Ok b => bn_play es b | Fault _ => None end else None
  end.
Lemma bn_play_reach es : forall b b', bn_reach sync h0 b -> bn_play es b = Some b' -> bn_reach sync h0 b'.
Proof.
  induction es as [|e es IH]; intros b b' Hr E; cbn in E; [by injection E as <-|].
  destruct (bn_enabled sync e b) eqn:He; [|done]. destruct (joins_as e) eqn:Hj; [|done].
  destruct (bn_step sync e b) as [b1|] eqn:E1; [|done]. apply (IH b1); [|done].
  apply (bn_reach_step sync h0 e b); try done. intros h ->. by apply bool_decide_eq_true_1 in Hj.
Qed.
End Play.

(** The suspended task, 10, is cancelled on the spot; 12 is not, and is still using the
    pointer when 13 is started through it, in a nursery that is cancelled. *)
Definition suspends_forever : loc -> bool := fun p => bool_decide (p = 10%positive).
Definition nursery_opened : backreferenced := BN (adopted 10 (set_exec true nursery_empty)) true.
Lemma nursery_opened_reach : bn_reach suspends_forever 1 nursery_opened.
Proof. apply (bn_reach_open _ _ 10). reflexivity. Qed.
Definition use_of_pointer : list event := [EJoin 1; EStart 12; ECancel; EStart 13; ETaskEnd 12 OValue].
Definition nursery_in_use : backreferenced := default nursery_opened (bn_play suspends_forever 1 use_of_pointer nursery_opened).
Lemma nursery_in_use_reach : bn_reach suspends_forever 1 nursery_in_use.
Proof. apply (bn_play_reach _ _ use_of_pointer nursery_opened); [apply nursery_opened_reach|vm_compute; reflexivity]. Qed.
Definition end_of_use : list event := [ETaskEnd 13 OCancelled; ERun; ERun; ERun; ERun].
Definition nursery_left : backreferenced :=
  default nursery_opened (bn_play suspends_forever 1 end_of_use nursery_in_use).
Lemma nursery_left_reach : bn_reach suspends_forever 1 nursery_left.
Proof. apply (bn_play_reach _ _ end_of_use nursery_in_use); [apply nursery_in_use_reach|vm_compute; reflexivity]. Qed.

Lemma openNursery_pointer_witness :
  (backref_ nursery_in_use = true /\ cancelling_ (base nursery_in_use) = true /\
   exists b', bn_start suspends_forever (inl 14%positive) nursery_in_use = Ok b' /\ 14%positive ∈ tasks_ (base b')) /\
  log_ (base nursery_left) = [1%positive] /\ backref_ nursery_left = false.
Proof.
  split.
  - destruct (openNursery_pointer _ _ _ nursery_in_use_reach) as (_ & H & _).
    split; [vm_compute; reflexivity|]. split; [vm_compute; reflexivity|].
    destruct (H ltac:(vm_compute; reflexivity) 14%positive ltac:(vm_compute; reflexivity)) as (b' & E & _ & Hin & _).
    exists b'. split; [exact E|exact Hin].
  - destruct (openNursery_pointer _ _ _ nursery_left_reach) as (_ & _ & H & _).
    assert (Hl : log_ (base nursery_left) = [1%positive]) by (vm_compute; reflexivity).
    split; [exact Hl|]. apply H. left. rewrite Hl. by left.
Defined.

(** * [UnsafeNursery::close()]

    Its executor is its own, so that draining it runs what the nursery has posted
    ([run_queue]) and nothing that runs for ever; the dangling tasks fail the assertion. *)
Definition close (sync : loc -> bool) n : res nursery :=
  let asks := negb (bool_decide (tasks_ n = [])) in
  n ← run_queue (length (queue n)) n;
  n ← (if asks then cancel sync n else Ok n);
  n ← run_queue (length (queue n)) n;
  corral_assert (bool_decide (tasks_ n = []));;
  Ok (set_exec false n).

Lemma run_queue_tasks h0 k : forall n n', ok [] n -> life h0 n -> length (queue n) = k ->
  run_queue k n = Ok n' -> tasks_ n' = tasks_ n /\ cancelling_ n' = cancelling_ n.
Proof.
  induction k as [|k IH]; intros n n' Hok Hl Hk E; cbn in E; [by res_inv|]. apply bind_ok in E as (n1 & E1 & E).
  destruct (run_one_ok h0 n Hok Hl) as (n2 & E2 & Hok2 & Hl2 & _ & _ & Hq2); [by intros Eq; rewrite Eq in Hk|].
  rewrite E1 in E2. injection E2 as <-. apply IH in E as [-> ->]; [|done..|rewrite Hq2; destruct (queue n); cbn in *; lia].
  by destruct (run_one_counts n n1 Hok E1) as [[= -> _ _] ->].
Qed.
Lemma cancel_tasks_leaves sync ps : forall n n',
  cancel_tasks sync ps n = Ok n' ->
  (forall q, q ∈ tasks_ n' -> q ∈ tasks_ n) /\ (forall q, q ∈ ps -> sync q = true -> q ∉ tasks_ n').
Proof.
  induction ps as [|p ps IH]; intros n n' E; cbn in E; [res_inv; split; [done|by intros ? ?%elem_of_nil]|].
  apply bind_ok in E as (n1 & E1 & E). destruct (IH n1 n' E) as [Hsub Hgone].
  unfold cancel_task in E1. apply bind_ok in E1 as (n2 & E2 & E1). apply ask_frame_counts in E2 as [= Et _ _].
  destruct (sync p) eqn:Hs.
  - apply bind_ok in E1 as (n3 & E3 & E1). apply finish_frame_counts in E3 as [= Et3 _ _].
    apply continuation_counts in E1 as [= Et1 _ _].
    assert (Hm : forall q, q ∈ tasks_ n1 <-> q ∈ tasks_ n /\ q <> p) by (intros q; rewrite Et1, Et3, Et, list_elem_of_filter; tauto).
    split; [intros q Hq; by apply Hm, Hsub|]. intros q [->|Hq]%elem_of_cons; [|by apply Hgone].
    intros _ Hq. by apply Hsub, Hm in Hq as [_ ?].
  - injection E1 as <-. split; [intros q Hq; by rewrite <- Et; apply Hsub|].
    intros q [->|Hq]%elem_of_cons; [congruence|by apply Hgone].
Qed.

(** Nobody has cancelled the nursery: if all tasks confirm a cancellation on
    the spot, closing it ends them and destroys their frames. *)
Theorem close_ends_tasks sync h0 n :
  reach sync h0 n -> exec_ n = true -> cancelling_ n = false ->
  (forall p, p ∈ tasks_ n -> sync p = true) ->
  exists n', close sync n = Ok n' /\ exec_ n' = false /\ tasks_ n' = [] /\ queue n' = [] /\
    forall p, is_Some (frames n' !! p) -> exists a s, starters n' !! a = Some s /\ s_promise s = Some p.
Proof.
  intros [Hok Hl]%n_reach_ok He Hc Hs. unfold close.
  destruct (run_queue_ok h0 _ n Hok Hl eq_refl) as (n0 & E0 & Hok0 & Hl0 & He0 & _). rewrite E0. res_cbn.
  destruct (run_queue_tasks h0 _ _ _ Hok Hl eq_refl E0) as [Ht0 Hc0]. rewrite Hc in Hc0. rewrite He in He0.
  assert (H1 : exists n1, (if negb (bool_decide (tasks_ n = [])) then cancel sync n0 else Ok n0) = Ok n1 /\
    ok [] n1 /\ life h0 n1 /\ tasks_ n1 = []).
  { rewrite <- Ht0 in *. destruct (bool_decide_reflect (tasks_ n0 = [])) as [Ht|Ht]; [by exists n0|]. cbn.
    destruct (n_cancel_ok sync h0 n0 Hok0 Hl0) as (n1 & E & Hok1 & Hl1 & _). exists n1. split_and!; [done..|].
    unfold cancel in E. rewrite Hc0 in E. unfold doCancel in E. cbn in E. rewrite He0, (bool_decide_false _ Ht) in E.
    destruct (cancel_tasks_leaves _ _ _ _ E) as [Hsub Hgone]. apply elem_of_nil_inv. intros q Hq.
    by apply (Hgone q); [apply Hsub|apply Hs, Hsub|]. }
  destruct H1 as (n1 & E1 & Hok1 & Hl1 & Ht1). rewrite E1. res_cbn.
  destruct (run_queue_ok h0 _ n1 Hok1 Hl1 eq_refl) as (n2 & E2 & Hok2 & Hl2 & _ & Hq2). rewrite E2. res_cbn.
  destruct (run_queue_tasks h0 _ _ _ Hok1 Hl1 eq_refl E2) as [Ht2 _]. rewrite Ht1 in Ht2.
  rewrite bool_decide_true by done. res_cbn. eexists. split; [done|]. split_and!; try done.
  cbn. intros p Hp2. destruct (o_dom _ _ Hok2 p Hp2) as [Hin|[Hin|?]]; [rewrite Ht2 in Hin|rewrite Hq2 in Hin|done];
    by apply elem_of_nil in Hin.
Qed.

(** Already cancelled, it ends nothing: [cancel()] does not ask a second time. *)
Example close_after_cancel :
  (n ← start suspends_forever (inl 12%positive) (set_exec true nursery_empty);
   n ← cancel suspends_forever n; close suspends_forever n) = Fault AssertFailed.
Proof. vm_compute. reflexivity. Qed.
