(* ===== verification/ThreadPool.v ===== *)
(** [ThreadPool.h]: a pool of worker threads.

    [pool] is [ThreadPool::Data] together with the [next_] fields of the tasks
    that exist, a program counter for each worker ([wphase]) and for the main
    thread ([mphase]), and the logs of the tasks submitted, run and resumed.
    Every step of a worker or of the main thread performs at most one access to
    memory that the other side can see, so the interleavings of [pool_step] are
    those of the code with sequentially consistent atomics; weaker orders, the
    adaptive spin cutoff (a worker may fail any number of times before it goes to
    sleep) and what the event loop does with a posted [tick()] are not modelled.
    A task is named by the address of its [Task] object, which may be used again
    once its awaiter was resumed. *)
From Stdlib Require Import Znumtheory Zpow_facts.
From S2P Require Export Waker.

Local Open Scope Z_scope.

(** * Cancellation of a task that runs *)

Module Token.
(** [CancelState] *)
Inductive state := None | Requested | Confirmed.
#[global] Instance state_eq_dec : EqDecision state.
Proof. solve_decision. Defined.

(** [compare_exchange_strong(Requested, Confirmed)]: the value found, and the new one. *)
Definition cas (st : state) : state * state :=
  match st with Requested => (Requested, Confirmed) | st => (st, st) end.

(** [CancelToken::operator bool()], [peek()], [consume()] *)
Definition query (st : state) : bool * state :=
  let '(found, st) := cas st in (bool_decide (found = Requested) || bool_decide (found = Confirmed), st).
Definition peek (st : state) : bool := bool_decide (st = Requested) || bool_decide (st = Confirmed).
Definition consume (st : state) : state := (cas st).2.

(** [TaskImpl::await_cancel()], [await_must_resume()] *)
Definition await_cancel (st : state) : bool * state := (false, Requested).
Definition await_must_resume (st : state) : bool := negb (bool_decide (st = Confirmed)).

(** What the two threads do, in the order in which it takes effect. *)
Inductive op := Query | Peek | Consume | Cancel.
Definition exec (o : op) (st : state) : bool * state :=
  match o with
  | Query => query st
  | Peek => (peek st, st)
  | Consume => (false, consume st)
  | Cancel => await_cancel st
  end.
Fixpoint run (os : list op) (st : state) : list bool * state :=
  match os with
  | [] => ([], st)
  | o :: os => let '(b, st) := exec o st in let '(bs, st) := run os st in (b :: bs, st)
  end.
#[global] Instance op_eq_dec : EqDecision op.
Proof. solve_decision. Defined.

(** The task took the cancellation: after the request, a query or [consume()]. *)
Fixpoint taken (requested : bool) (os : list op) : bool :=
  match os with
  | [] => false
  | Cancel :: os => taken true os
  | Peek :: os => taken requested os
  | _ :: os => requested || taken requested os
  end.
Definition once (os : list op) : Prop := (length (filter (fun o => o = Cancel) os) <= 1)%nat.
End Token.

(** [ThreadPoolTaskBase::doRun()]: the callable returns or throws. *)
Inductive task_result := TValue | TException (e : positive).
Definition doRun {S} (f : S -> task_result * S) (s : S) : option task_result * S :=
  let '(r, s) := f s in (Some r, s).

(** * The pool *)

(** What a slot may hold: a task, or [ExitRequest]. *)
Inductive item := ITask (t : loc) | IExit.
Record slot := Slot { slot_task : option item; dequeuing : bool }.

(** Where a worker is: about to claim a slot; having claimed one; having found
    it empty; having announced that it goes to sleep; asleep; about to withdraw
    the announcement; about to run a task; about to read [cqHead]; about to swing
    it; about to post [tick()]; gone. *)
Inductive wphase :=
| WIdle | WClaimed (head : Z) | WSpin (head : Z) | WDeq (head : Z) | WBlocked (head : Z) | WWake (head : Z)
| WRun (t : loc) | WLoad (t : loc) | WCas (t : loc) (head : option loc) | WPost | WExit.

(** Where the main thread is: in the event loop; in [drainCQ()], about to take
    the completed tasks or resuming them; in [tick()] after that; in
    [submitBackoffSQ()]; in the destructor with [n] threads to go; past it. *)
Inductive mphase := MIdle | MCheck | MDrain (t : option loc) | MBackoff | MSubmit (t : option loc) | MExit (n : nat) | MGone.

#[export] Instance mphase_eq_dec : EqDecision mphase.
Proof. solve_decision. Defined.
#[export] Instance wphase_eq_dec : EqDecision wphase.
Proof. solve_decision. Defined.
#[export] Instance item_eq_dec : EqDecision item.
Proof. solve_decision. Defined.
#[export] Instance slot_eq_dec : EqDecision slot.
Proof. solve_decision. Defined.

(** [ThreadPool::Data]; [sqNotify] is the slot [pushToSQ()] has written and not
    yet looked at [dequeuing] of; [backoffSqTail] the task whose [next_]
    [backoffSqTailPtr] points to, none for [&backoffSqHead]. *)
Record pool := Pool {
  sqCapacity : Z;
  sq : gmap Z slot;
  sqHead : Z;
  sqTail : Z;
  sqNotify : option Z;
  backoffSqHead : option loc;
  backoffSqTail : option loc;
  cqHead : option loc;
  next_ : gmap loc (option loc);
  threads : gmap positive wphase;
  main : mphase;
  posted : nat;
  submitted : list loc;
  ran : list loc;
  resumed : list loc }.
Implicit Types (p : pool) (t : loc) (i : positive).

Definition set_sq (v : gmap Z slot) p : pool :=
  Pool (sqCapacity p) v (sqHead p) (sqTail p) (sqNotify p) (backoffSqHead p) (backoffSqTail p) (cqHead p)
       (next_ p) (threads p) (main p) (posted p) (submitted p) (ran p) (resumed p).
Definition set_sqHead (v : Z) p : pool :=
  Pool (sqCapacity p) (sq p) v (sqTail p) (sqNotify p) (backoffSqHead p) (backoffSqTail p) (cqHead p) (next_
       p) (threads p) (main p) (posted p) (submitted p) (ran p) (resumed p).
Definition set_sqTail (v : Z) p : pool :=
  Pool (sqCapacity p) (sq p) (sqHead p) v (sqNotify p) (backoffSqHead p) (backoffSqTail p) (cqHead p) (next_
       p) (threads p) (main p) (posted p) (submitted p) (ran p) (resumed p).
Definition set_sqNotify (v : option Z) p : pool :=
  Pool (sqCapacity p) (sq p) (sqHead p) (sqTail p) v (backoffSqHead p) (backoffSqTail p) (cqHead p) (next_ p)
       (threads p) (main p) (posted p) (submitted p) (ran p) (resumed p).
Definition set_backoffSqHead (v : option loc) p : pool :=
  Pool (sqCapacity p) (sq p) (sqHead p) (sqTail p) (sqNotify p) v (backoffSqTail p) (cqHead p) (next_ p)
       (threads p) (main p) (posted p) (submitted p) (ran p) (resumed p).
Definition set_backoffSqTail (v : option loc) p : pool :=
  Pool (sqCapacity p) (sq p) (sqHead p) (sqTail p) (sqNotify p) (backoffSqHead p) v (cqHead p) (next_ p)
       (threads p) (main p) (posted p) (submitted p) (ran p) (resumed p).
Definition set_cqHead (v : option loc) p : pool :=
  Pool (sqCapacity p) (sq p) (sqHead p) (sqTail p) (sqNotify p) (backoffSqHead p) (backoffSqTail p) v (next_
       p) (threads p) (main p) (posted p) (submitted p) (ran p) (resumed p).
Definition set_next (v : gmap loc (option loc)) p : pool :=
  Pool (sqCapacity p) (sq p) (sqHead p) (sqTail p) (sqNotify p) (backoffSqHead p) (backoffSqTail p) (cqHead p)
       v (threads p) (main p) (posted p) (submitted p) (ran p) (resumed p).
Definition set_threads (v : gmap positive wphase) p : pool :=
  Pool (sqCapacity p) (sq p) (sqHead p) (sqTail p) (sqNotify p) (backoffSqHead p) (backoffSqTail p) (cqHead p)
       (next_ p) v (main p) (posted p) (submitted p) (ran p) (resumed p).
Definition set_main (v : mphase) p : pool :=
  Pool (sqCapacity p) (sq p) (sqHead p) (sqTail p) (sqNotify p) (backoffSqHead p) (backoffSqTail p) (cqHead p)
       (next_ p) (threads p) v (posted p) (submitted p) (ran p) (resumed p).
Definition set_posted (v : nat) p : pool :=
  Pool (sqCapacity p) (sq p) (sqHead p) (sqTail p) (sqNotify p) (backoffSqHead p) (backoffSqTail p) (cqHead p)
       (next_ p) (threads p) (main p) v (submitted p) (ran p) (resumed p).
Definition set_submitted (v : list loc) p : pool :=
  Pool (sqCapacity p) (sq p) (sqHead p) (sqTail p) (sqNotify p) (backoffSqHead p) (backoffSqTail p) (cqHead p)
       (next_ p) (threads p) (main p) (posted p) v (ran p) (resumed p).
Definition set_ran (v : list loc) p : pool :=
  Pool (sqCapacity p) (sq p) (sqHead p) (sqTail p) (sqNotify p) (backoffSqHead p) (backoffSqTail p) (cqHead p)
       (next_ p) (threads p) (main p) (posted p) (submitted p) v (resumed p).
Definition set_resumed (v : list loc) p : pool :=
  Pool (sqCapacity p) (sq p) (sqHead p) (sqTail p) (sqNotify p) (backoffSqHead p) (backoffSqTail p) (cqHead p)
       (next_ p) (threads p) (main p) (posted p) (submitted p) (ran p) v.

(** ** Construction *)

(** [std::bit_ceil], and [bit_ceil(threadCount) * 512] in [unsigned] *)
Definition bit_ceil (n : Z) : Z := 2 ^ Z.log2_up n.
Definition capacity_for (threadCount : Z) : Z := (bit_ceil threadCount * 512) mod 2 ^ 32.
Definition Stride : Z := 7.

(** [ThreadPool(eventLoop, threadCount)] *)
Definition new_slots (cap : Z) : gmap Z slot := gset_to_gmap (Slot None false) (list_to_set (seqZ 0 cap)).
Definition new_threads (n : nat) : gmap positive wphase :=
  list_to_map ((fun k => (Pos.of_succ_nat k, WIdle)) <$> seq 0 n).
Definition new_pool (threadCount : nat) : option pool :=
  if bool_decide (threadCount = 0%nat) then None
  else
    let cap := capacity_for (Z.of_nat threadCount) in
    Some (Pool cap (new_slots cap) 0 0 None None None None ∅ (new_threads threadCount) MIdle 0 [] [] []).

(** ** Submission queue *)

Definition slot_of (h : Z) p : Z := h mod sqCapacity p.

(** [pushToSQ(task)] up to the look at [dequeuing], and that look: [notify_one()]
    wakes one thread that sleeps on the slot, if there is one. *)
Definition pushToSQ (it : item) p : res (bool * pool) :=
  let k := slot_of (sqTail p) p in
  s ← deref (sq p !! k);
  match slot_task s with
  | Some _ => Ok (false, p)
  | None =>
      let p := set_sq (<[k := Slot (Some it) (dequeuing s)]> (sq p)) p in
      Ok (true, set_sqNotify (Some k) (set_sqTail (to_word (sqTail p + Stride)) p))
  end.
Definition blocked_on (k : Z) p (w : wphase) : bool :=
  match w with WBlocked h => slot_of h p =? k | _ => false end.
Definition unblock (w : wphase) : wphase := match w with WBlocked h => WDeq h | w => w end.
Definition notify_one (k : Z) p : pool :=
  match filter (fun iw => blocked_on k p iw.2 = true) (map_to_list (threads p)) with
  | [] => p
  | (i, w) :: _ => set_threads (<[i := unblock w]> (threads p)) p
  end.
Definition finish_push (k : Z) p : res pool :=
  s ← deref (sq p !! k);
  let p := set_sqNotify None p in
  Ok (if dequeuing s then notify_one k p else p).

(** [pushToBackoffSQ(task)] *)
Definition pushToBackoffSQ t p : res pool :=
  let p := set_next (<[t := None]> (next_ p)) p in
  p ← match backoffSqTail p with
      | None => Ok (set_backoffSqHead (Some t) p)
      | Some u => _ ← deref (next_ p !! u); Ok (set_next (<[u := Some t]> (next_ p)) p)
      end;
  Ok (set_backoffSqTail (Some t) p).

(** [TaskImpl::await_suspend(h)] of a new task *)
Definition await_suspend t p : res pool :=
  corral_assert (bool_decide (next_ p !! t = None));;
  let p := set_submitted (submitted p ++ [t]) (set_next (<[t := None]> (next_ p)) p) in
  '(b, p) ← pushToSQ (ITask t) p;
  if b : bool then Ok p else pushToBackoffSQ t p.

(** The same with the degenerate case: without threads the task is run at once,
    and the awaiter does not suspend.  Third, the tasks run on the spot. *)
Definition await_suspend' t (d : option pool) : res (bool * option pool * list loc) :=
  match d with
  | None => Ok (false, None, [t])
  | Some p => p ← await_suspend t p; Ok (true, Some p, [])
  end.
Definition isDegenerate (d : option pool) : bool := match d with None => true | Some _ => false end.

(** ** Workers *)

Definition set_worker i (w : wphase) p : pool := set_threads (<[i := w]> (threads p)) p.
Definition set_dequeuing (k : Z) (b : bool) p : res pool :=
  s ← deref (sq p !! k); Ok (set_sq (<[k := Slot (slot_task s) b]> (sq p)) p).

(** [slot.task.exchange(nullptr)] *)
Definition try_take i (h : Z) p : res pool :=
  let k := slot_of h p in
  s ← deref (sq p !! k);
  match slot_task s with
  | None => Ok (set_worker i (WSpin h) p)
  | Some it =>
      let p := set_sq (<[k := Slot None (dequeuing s)]> (sq p)) p in
      Ok (set_worker i (match it with ITask t => WRun t | IExit => WExit end) p)
  end.

(** [popFromSQ()] *)
Definition pop_step i (w : wphase) p : res pool :=
  match w with
  | WIdle => Ok (set_worker i (WClaimed (sqHead p)) (set_sqHead (to_word (sqHead p + Stride)) p))
  | WClaimed h | WSpin h => try_take i h p
  | WDeq h =>
      s ← deref (sq p !! slot_of h p);
      Ok (set_worker i (match slot_task s with None => WBlocked h | Some _ => WWake h end) p)
  | WWake h => p ← set_dequeuing (slot_of h p) false p; Ok (set_worker i (WSpin h) p)
  | _ => Ok p
  end.

(** [pushToCQ(t)] *)
Definition cq_step i (w : wphase) p : res pool :=
  match w with
  | WLoad t =>
      _ ← deref (next_ p !! t);
      Ok (set_worker i (WCas t (cqHead p)) (set_next (<[t := cqHead p]> (next_ p)) p))
  | WCas t h =>
      if bool_decide (cqHead p = h) then
        Ok (set_worker i (match h with None => WPost | Some _ => WIdle end) (set_cqHead (Some t) p))
      else Ok (set_worker i (WLoad t) p)
  | WPost => Ok (set_worker i WIdle (set_posted (S (posted p)) p))
  | _ => Ok p
  end.

(** [threadBody()] *)
Definition worker i p : res pool :=
  w ← deref (threads p !! i);
  match w with
  | WRun t => Ok (set_worker i (WLoad t) (set_ran (ran p ++ [t]) p))
  | WExit => Ok p
  | WLoad _ | WCas _ _ | WPost => cq_step i w p
  | _ => pop_step i w p
  end.

(** The worker gives up spinning; the weak compare-and-swap fails for no reason. *)
Definition fall_asleep i p : res pool :=
  w ← deref (threads p !! i);
  match w with
  | WSpin h => p ← set_dequeuing (slot_of h p) true p; Ok (set_worker i (WDeq h) p)
  | _ => Ok p
  end.
Definition spurious i p : res pool :=
  w ← deref (threads p !! i);
  match w with WCas t _ => Ok (set_worker i (WLoad t) p) | _ => Ok p end.

(** ** The main thread *)

(** The loop of [drainCQ()] that reverses the list, for at most [fuel] tasks. *)
Fixpoint reverse (fuel : nat) (prev curr : option loc) (nx : gmap loc (option loc)) : res (option loc * gmap loc (option loc)) :=
  match curr with
  | None => Ok (prev, nx)
  | Some c =>
      match fuel with
      | O => Fault OutOfFuel
      | S fuel => next ← deref (nx !! c); reverse fuel (Some c) next (<[c := prev]> nx)
      end
  end.

(** [~ThreadPool()] begins. *)
Definition shutdown p : res pool :=
  corral_assert (bool_decide (backoffSqHead p = None));;
  Ok (set_main (MExit (size (threads p))) p).
Definition all_gone p : bool := bool_decide (map_Forall (fun _ w => w = WExit) (threads p)).

(** [drainCQ()].  [parent_.resume()] destroys the task; what the parent does then
    are steps of its own, with the main thread in [MDrain]. *)
Definition drain_step p : res pool :=
  match main p with
  | MCheck =>
      match cqHead p with
      | None => Ok (set_main MBackoff p)
      | Some h =>
          '(first, nx) ← reverse (size (next_ p)) None (Some h) (next_ p);
          Ok (set_main (MDrain first) (set_next nx (set_cqHead None p)))
      end
  | MDrain (Some t) =>
      next ← deref (next_ p !! t);
      Ok (set_main (MDrain next) (set_resumed (resumed p ++ [t]) (set_next (delete t (next_ p)) p)))
  | MDrain None => Ok (set_main MCheck p)
  | _ => Ok p
  end.

(** The end of [tick()], and [submitBackoffSQ()] *)
Definition backoff_step p : res pool :=
  match main p with
  | MBackoff => Ok (set_main (match backoffSqHead p with None => MIdle | Some t => MSubmit (Some t) end) p)
  | MSubmit (Some t) =>
      next ← deref (next_ p !! t);
      '(b, p) ← pushToSQ (ITask t) p;
      Ok (if b : bool then set_main (MSubmit next) p else set_main MIdle (set_backoffSqHead (Some t) p))
  | MSubmit None => Ok (set_main MIdle (set_backoffSqTail None (set_backoffSqHead None p)))
  | _ => Ok p
  end.

(** [~ThreadPool()]: an [ExitRequest] for each thread, then [join()]. *)
Definition exit_step p : res pool :=
  match main p with
  | MExit (S n) =>
      '(b, p) ← pushToSQ IExit p;
      corral_assert b;;
      Ok (set_main (MExit n) p)
  | MExit O =>
      if all_gone p then
        corral_assert (sqHead p =? sqTail p);;
        corral_assert (bool_decide (cqHead p = None));;
        Ok (set_main MGone p)
      else Ok p
  | _ => Ok p
  end.

Definition main_step p : res pool :=
  match main p with
  | MIdle | MGone => Ok p
  | MCheck | MDrain _ => drain_step p
  | MBackoff | MSubmit _ => backoff_step p
  | MExit _ => exit_step p
  end.

(** [tick()], called by the event loop *)
Definition tick p : res pool :=
  match posted p with O => Ok p | S n => Ok (set_main MCheck (set_posted n p)) end.

(** * Runs of the pool *)

Inductive event := Submit t | Tick | Main | Notify | Work i | GiveUp i | Spurious i | Shutdown.

Definition pool_step (e : event) p : res pool :=
  match e with
  | Submit t => await_suspend t p
  | Tick => tick p
  | Main => main_step p
  | Notify => match sqNotify p with Some k => finish_push k p | None => Ok p end
  | Work i => worker i p
  | GiveUp i => fall_asleep i p
  | Spurious i => spurious i p
  | Shutdown => shutdown p
  end.

Definition in_loop p : bool := match main p with MIdle | MDrain _ => true | _ => false end.

(** The main thread does one thing at a time; tasks are submitted from the event
    loop or by a parent that was resumed, and the pool is destroyed when no
    task is left. *)
Definition enabled (e : event) p : bool :=
  match e with
  | Submit t => in_loop p && bool_decide (sqNotify p = None) && bool_decide (next_ p !! t = None)
  | Tick => bool_decide (main p = MIdle) && bool_decide (sqNotify p = None)
  | Main => bool_decide (sqNotify p = None)
  | Notify => true
  | Work i | GiveUp i | Spurious i => bool_decide (is_Some (threads p !! i))
  | Shutdown => in_loop p && bool_decide (sqNotify p = None) && bool_decide (next_ p = ∅)
  end.

Inductive reach (p0 : pool) : pool -> Prop :=
| reach_start : reach p0 p0
| reach_next p e p' : reach p0 p -> enabled e p = true -> pool_step e p = Ok p' -> reach p0 p'.

(** * Counting claims *)

(** How many of the first [n] indices, [Stride] apart, fall on slot [k]. *)
Definition falls_on (cap k j : Z) : bool := (Stride * j) mod cap =? k.
Fixpoint hits (cap k : Z) (n : nat) : Z :=
  match n with O => 0 | S n => hits cap k n + Z.b2z (falls_on cap k (Z.of_nat n)) end.

Lemma hits_mono cap k n m : (n <= m)%nat -> hits cap k n <= hits cap k m.
Proof. induction 1 as [|m _ IH]; cbn [hits]; [lia|]. destruct (falls_on cap k (Z.of_nat m)); cbn; lia. Qed.

Lemma stride_coprime e : 0 <= e -> Z.gcd (2 ^ e) Stride = 1.
Proof.
  intros He. apply Zgcd_1_rel_prime. apply rel_prime_sym, rel_prime_Zpower_r; [lia|].
  apply Zgcd_1_rel_prime. reflexivity.
Qed.

(** Two indices that fall on the same slot are a capacity apart. *)
Lemma falls_on_apart (e k i j : Z) :
  0 <= e -> falls_on (2 ^ e) k i = true -> falls_on (2 ^ e) k j = true -> i < j -> 2 ^ e <= j - i.
Proof.
  unfold falls_on. intros He Hi%Z.eqb_eq Hj%Z.eqb_eq Hlt.
  assert (Hpos : 0 < 2 ^ e) by lia.
  assert (Hd : (2 ^ e | Stride * (j - i))).
  { apply Z.mod_divide; [lia|]. rewrite Z.mul_sub_distr_l, Zminus_mod, Hi, Hj, Z.sub_diag. apply Zmod_0_l. }
  apply Z.gauss in Hd; [|by apply stride_coprime]. apply Z.divide_pos_le in Hd; lia.
Qed.

Lemma no_hits e k n m d :
  0 <= e -> falls_on (2 ^ e) k (Z.of_nat m) = true -> m = (n + d)%nat -> Z.of_nat d < 2 ^ e ->
  hits (2 ^ e) k m = hits (2 ^ e) k n.
Proof.
  intros He Hm -> Hd. enough (H : forall c, (c <= d)%nat -> hits (2 ^ e) k (n + c) = hits (2 ^ e) k n) by (by apply H).
  induction c as [|c IH]; intros Hc; [by rewrite Nat.add_0_r|].
  rewrite Nat.add_succ_r. cbn [hits]. rewrite IH by lia.
  destruct (falls_on (2 ^ e) k (Z.of_nat (n + c))) eqn:Hf; cbn; [|lia].
  pose proof (falls_on_apart e k _ _ He Hf Hm ltac:(lia)). lia.
Qed.

(** So a window no longer than the capacity meets each slot at most once. *)
Lemma hits_window e k n m :
  0 <= e -> Z.of_nat m - Z.of_nat n <= 2 ^ e -> hits (2 ^ e) k m - hits (2 ^ e) k n <= 1.
Proof.
  intros He Hw. destruct (Nat.le_gt_cases m n) as [Hle|Hlt]; [pose proof (hits_mono (2 ^ e) k m n Hle); lia|].
  assert (exists d, m = (n + d)%nat) as [d ->] by (exists (m - n)%nat; lia). clear Hlt.
  induction d as [|d IH]; [rewrite Nat.add_0_r; lia|].
  rewrite Nat.add_succ_r in *. cbn [hits].
  destruct (falls_on (2 ^ e) k (Z.of_nat (n + d))) eqn:Hm; cbn; [|specialize (IH ltac:(lia)); lia].
  rewrite (no_hits e k n (n + d) d He Hm eq_refl) by lia. lia.
Qed.

(** * Scheduling: slots, claims and sleepers *)

Definition claim_of (w : wphase) : option Z :=
  match w with WClaimed h | WSpin h | WDeq h | WBlocked h | WWake h => Some h | _ => None end.
Definition nonfresh (w : wphase) : bool := match w with WSpin _ | WDeq _ | WBlocked _ | WWake _ => true | _ => false end.
Definition asleep (w : wphase) : bool := match w with WDeq _ | WBlocked _ | WWake _ => true | _ => false end.
Definition claiming (w : wphase) : bool := match claim_of w with Some _ => true | None => false end.
Definition claims (cap k : Z) (w : wphase) : bool := match claim_of w with Some h => h mod cap =? k | None => false end.
Definition waits (cap k : Z) (w : wphase) : bool := nonfresh w && claims cap k w.
Definition sleeps (cap k : Z) (w : wphase) : bool := asleep w && claims cap k w.
Definition full (s : slot) : bool := match slot_task s with Some _ => true | None => false end.
Definition occ (k : Z) p : Z := weight full (sq p !! k).

(** After [nc] claims and [np] pushes. *)
Record sched (e : Z) (nc np : nat) p : Prop := {
  sc_exp : 0 <= e <= 64;
  sc_cap : sqCapacity p = 2 ^ e;
  sc_size : Z.of_nat (size (threads p)) <= 2 ^ e;
  sc_head : sqHead p = to_word (Stride * Z.of_nat nc);
  sc_tail : sqTail p = to_word (Stride * Z.of_nat np);
  sc_sq k : is_Some (sq p !! k) <-> 0 <= k < 2 ^ e;
  sc_bal k : hits (2 ^ e) k nc - hits (2 ^ e) k np = countZ (claims (2 ^ e) k) (threads p) - occ k p;
  sc_tot : Z.of_nat nc - Z.of_nat np = countZ claiming (threads p) - countZ full (sq p);
  sc_one k : countZ (waits (2 ^ e) k) (threads p) <= 1;
  sc_deq k s : sq p !! k = Some s -> Z.b2z (dequeuing s) = countZ (sleeps (2 ^ e) k) (threads p);
  sc_block i h : threads p !! i = Some (WBlocked h) -> occ (h mod 2 ^ e) p = 1 -> sqNotify p = Some (h mod 2 ^ e);
  sc_note k : sqNotify p = Some k -> 0 <= k < 2 ^ e }.

Lemma sched_same e nc np p p' :
  sched e nc np p -> sqCapacity p' = sqCapacity p -> sq p' = sq p -> sqHead p' = sqHead p -> sqTail p' = sqTail p ->
  sqNotify p' = sqNotify p -> threads p' = threads p -> sched e nc np p'.
Proof. intros [] Hc Hs Hh Ht Hn Hth. split; unfold occ in *; rewrite ?Hc, ?Hs, ?Hh, ?Ht, ?Hn, ?Hth; done. Qed.

Lemma occ_range k p : occ k p = 0 \/ occ k p = 1.
Proof. unfold occ, weight. destruct (sq p !! k) as [s|]; [destruct (full s)|]; cbn; auto. Qed.

(** Two workers never share a slot, except one that has yet to look at it while
    it holds a task. *)
Lemma claims_bound e nc np p k :
  sched e nc np p -> countZ (claims (2 ^ e) k) (threads p) <= 1 + occ k p.
Proof.
  intros []. pose proof (countZ_le_size claiming (threads p)). pose proof (countZ_nonneg full (sq p)).
  pose proof (hits_window e k np nc ltac:(lia) ltac:(lia)). specialize (sc_bal0 k). lia.
Qed.

Lemma claims_of e k w : claims (2 ^ e) k w = match claim_of w with Some h => h mod 2 ^ e =? k | None => false end.
Proof. done. Qed.

Lemma count_two (f : wphase -> bool) (m : gmap positive wphase) i j w w' :
  i <> j -> m !! i = Some w -> m !! j = Some w' -> f w = true -> f w' = true -> 2 <= countZ f m.
Proof.
  intros Hij Hi Hj Hw Hw'. pose proof (countZ_delete f m i) as H. rewrite Hi in H. cbn in H. rewrite Hw in H.
  pose proof (countZ_weight_le f (delete i m) j) as H2. rewrite lookup_delete_ne, Hj in H2 by done. cbn in H2.
  rewrite Hw' in H2. cbn in *. lia.
Qed.
Lemma count_one (f : wphase -> bool) (m : gmap positive wphase) i w :
  m !! i = Some w -> f w = true -> 1 <= countZ f m.
Proof. intros Hi Hw. pose proof (countZ_weight_le f m i) as H. rewrite Hi in H. cbn in H. rewrite Hw in H. cbn in H. lia. Qed.

Lemma recount (f : wphase -> bool) (m : gmap positive wphase) i w w' :
  m !! i = Some w -> countZ f (<[i:=w']> m) = countZ f m - Z.b2z (f w) + Z.b2z (f w').
Proof. intros Hi. by rewrite countZ_insert, Hi. Qed.

(** A worker moves on without touching a slot. *)
Lemma sched_phase e nc np p i w w' :
  sched e nc np p -> threads p !! i = Some w ->
  claim_of w' = claim_of w -> nonfresh w' = nonfresh w -> asleep w' = asleep w ->
  (forall h, w' = WBlocked h -> occ (h mod 2 ^ e) p = 0) ->
  sched e nc np (set_worker i w' p).
Proof.
  intros [] Hi Hc Hn Ha Hb.
  assert (E : forall f, f w' = f w -> countZ f (<[i:=w']> (threads p)) = countZ f (threads p)).
  { intros f Hf. rewrite countZ_insert, Hi. cbn. rewrite Hf. lia. }
  assert (Ec : forall k, claims (2 ^ e) k w' = claims (2 ^ e) k w) by (intros; unfold claims; by rewrite Hc).
  split; cbn; try done.
  - by rewrite map_size_insert_Some by eauto.
  - intros k. rewrite E by done. apply sc_bal0.
  - rewrite E; [done|]. unfold claiming. by rewrite Hc.
  - intros k. rewrite E; [done|]. unfold waits. by rewrite Hn, Ec.
  - intros k s Hs. rewrite E; [by apply sc_deq0|]. unfold sleeps. by rewrite Ha, Ec.
  - intros j h. destruct (decide (j = i)) as [->|Hj].
    + rewrite lookup_insert_eq. intros [= ->] Ho. specialize (Hb h eq_refl). unfold occ in *. cbn in Ho. lia.
    + rewrite lookup_insert_ne by done. apply sc_block0.
Qed.

Lemma countZ_le (f g : wphase -> bool) (m : gmap positive wphase) :
  (forall w, f w = true -> g w = true) -> countZ f m <= countZ g m.
Proof.
  intros H. induction m as [|j w m Hj IH] using map_ind; [done|]. rewrite !countZ_insert_new by done.
  specialize (H w). destruct (f w), (g w); cbn; try lia; by specialize (H eq_refl).
Qed.
Lemma waits_le cap k (m : gmap positive wphase) : countZ (waits cap k) m <= countZ (claims cap k) m.
Proof. apply countZ_le. unfold waits. by intros w [_ ?]%andb_true_iff. Qed.

(** A worker finds its slot empty for the first time. *)
Lemma sched_spin e nc np p i h :
  sched e nc np p -> threads p !! i = Some (WClaimed h) -> occ (h mod 2 ^ e) p = 0 ->
  sched e nc np (set_worker i (WSpin h) p).
Proof.
  intros Hsc Hi Ho. pose proof (claims_bound e nc np p (h mod 2 ^ e) Hsc) as Hbound. destruct Hsc.
  assert (E : forall f, f (WSpin h) = f (WClaimed h) -> countZ f (<[i:=WSpin h]> (threads p)) = countZ f (threads p)).
  { intros f Hf. rewrite countZ_insert, Hi. cbn. rewrite Hf. lia. }
  split; cbn; try done.
  - by rewrite map_size_insert_Some by eauto.
  - intros k. rewrite E by done. apply sc_bal0.
  - by rewrite E.
  - intros k. rewrite countZ_insert, Hi. unfold waits at 2 3, claims at 1 2. cbn.
    destruct (Z.eqb_spec (h mod 2 ^ e) k) as [<-|?]; cbn; [|specialize (sc_one0 k); lia].
    assert (Hz : countZ (waits (2 ^ e) (h mod 2 ^ e)) (threads p) = 0); [|lia].
    pose proof (countZ_nonneg (waits (2 ^ e) (h mod 2 ^ e)) (threads p)).
    destruct (decide (countZ (waits (2 ^ e) (h mod 2 ^ e)) (threads p) = 0)) as [|Hne]; [done|].
    assert (Hx : countZ (waits (2 ^ e) (h mod 2 ^ e)) (threads p) + 1 <= countZ (claims (2 ^ e) (h mod 2 ^ e)) (threads p)); [|lia].
    rewrite <- (insert_delete_id (threads p) i _ Hi), !countZ_insert_new by apply lookup_delete_eq.
    unfold waits at 2, claims at 3. cbn. rewrite Z.eqb_refl. cbn.
    pose proof (waits_le (2 ^ e) (h mod 2 ^ e) (delete i (threads p))). lia.
  - intros k s Hs. rewrite E by done. by apply sc_deq0.
  - intros j h'. destruct (decide (j = i)) as [->|Hj]; [by rewrite lookup_insert_eq|].
    rewrite lookup_insert_ne by done. apply sc_block0.
Qed.

(** What [dequeuing] is does not matter for the counts. *)
Lemma full_insert (m : gmap Z slot) k s s' :
  m !! k = Some s -> full s' = full s -> countZ full (<[k:=s']> m) = countZ full m.
Proof. intros Hk Hf. rewrite countZ_insert, Hk. cbn. rewrite Hf. lia. Qed.
Lemma weight_insert (m : gmap Z slot) k k' s s' :
  m !! k = Some s -> full s' = full s -> weight full ((<[k:=s']> m) !! k') = weight full (m !! k').
Proof.
  intros Hk Hf. destruct (decide (k' = k)) as [->|Hne]; [|by rewrite lookup_insert_ne].
  rewrite lookup_insert_eq, Hk. cbn. by rewrite Hf.
Qed.

(** A worker announces that it goes to sleep, or withdraws that. *)
Lemma sched_dequeuing e nc np p i h w w' s :
  sched e nc np p -> threads p !! i = Some w -> sq p !! (h mod 2 ^ e) = Some s ->
  (w = WSpin h /\ w' = WDeq h) \/ (w = WWake h /\ w' = WSpin h) ->
  sched e nc np (set_worker i w' (set_sq (<[h mod 2 ^ e := Slot (slot_task s) (asleep w')]> (sq p)) p)).
Proof.
  intros [] Hi Hs Hw. set (k := h mod 2 ^ e) in *. set (s' := Slot (slot_task s) (asleep w')).
  assert (Hfl : nonfresh w = true /\ nonfresh w' = true /\ claim_of w = Some h /\ claim_of w' = Some h /\ asleep w' = negb (asleep w))
    by (by destruct Hw as [[-> ->]|[-> ->]]).
  destruct Hfl as (Hn & Hn' & Hc & Hc' & Ha).
  assert (E : forall f, f w' = f w -> countZ f (<[i:=w']> (threads p)) = countZ f (threads p)).
  { intros f Hf. rewrite countZ_insert, Hi. cbn. rewrite Hf. lia. }
  assert (Ec : forall m, claims (2 ^ e) m w' = claims (2 ^ e) m w) by (intros; unfold claims; by rewrite Hc, Hc').
  assert (Hf : full s' = full s) by done.
  assert (Ho : forall m, weight full ((<[k:=s']> (sq p)) !! m) = occ m p) by (intros; by apply (weight_insert _ _ _ s)).
  split; unfold occ; cbn; try done.
  - by rewrite map_size_insert_Some by eauto.
  - intros m. destruct (decide (m = k)) as [->|Hm]; [|by rewrite lookup_insert_ne].
    rewrite lookup_insert_eq. rewrite <- sc_sq0, Hs. split; eauto.
  - intros m. rewrite Ho, E by done. apply sc_bal0.
  - rewrite (full_insert _ _ s), E by (try done; unfold claiming; by rewrite Hc, Hc'). done.
  - intros m. rewrite E; [done|]. unfold waits. by rewrite Hn, Hn', Ec.
  - intros m r Hr. rewrite countZ_insert, Hi. unfold sleeps at 2 3. cbn [weight]. rewrite Ec, Ha.
    destruct (decide (m = k)) as [->|Hm].
    + rewrite lookup_insert_eq in Hr. injection Hr as <-. cbn. rewrite Ha.
      assert (Hck : claims (2 ^ e) k w = true) by (unfold claims; rewrite Hc; apply Z.eqb_refl). rewrite Hck, !andb_true_r.
      assert (Hz : countZ (sleeps (2 ^ e) k) (threads p) = Z.b2z (asleep w)); [|rewrite Hz; destruct (asleep w); cbn; lia].
      pose proof (sc_deq0 k s Hs) as Hd. specialize (sc_one0 k).
      destruct (asleep w) eqn:Ew.
      * pose proof (count_one (sleeps (2 ^ e) k) _ i w Hi) as H1. unfold sleeps at 1 in H1. rewrite Ew, Hck in H1.
        specialize (H1 eq_refl). destruct (dequeuing s); cbn in *; lia.
      * rewrite <- (insert_delete_id (threads p) i _ Hi) in sc_one0.
        rewrite countZ_insert_new in sc_one0 by apply lookup_delete_eq. unfold waits at 2 in sc_one0. rewrite Hn, Hck in sc_one0.
        rewrite <- (insert_delete_id (threads p) i _ Hi). rewrite countZ_insert_new by apply lookup_delete_eq.
        unfold sleeps at 2. rewrite Ew. cbn in *.
        pose proof (countZ_le (sleeps (2 ^ e) k) (waits (2 ^ e) k) (delete i (threads p))) as H2.
        pose proof (countZ_nonneg (sleeps (2 ^ e) k) (delete i (threads p))).
        assert (forall w0, sleeps (2 ^ e) k w0 = true -> waits (2 ^ e) k w0 = true); [|specialize (H2 ltac:(done)); lia].
        unfold sleeps, waits. intros w0 [H3 H4]%andb_true_iff. rewrite H4. by destruct w0.
    + rewrite lookup_insert_ne in Hr by done. rewrite (sc_deq0 m r Hr).
      assert (Hck : claims (2 ^ e) m w = false) by (unfold claims; rewrite Hc; by apply Z.eqb_neq).
      rewrite Hck, !andb_false_r. cbn. lia.
  - intros j h'. destruct (decide (j = i)) as [->|Hj].
    + rewrite lookup_insert_eq. intros [= ->]. by destruct Hw as [[_ ?]|[_ ?]].
    + rewrite lookup_insert_ne by done. intros Hj' Hx. rewrite Ho in Hx. by eapply sc_block0.
Qed.

(** A worker takes what its slot holds. *)
Lemma sched_take e nc np p i h w w' s it :
  sched e nc np p -> threads p !! i = Some w -> w = WClaimed h \/ w = WSpin h -> claim_of w' = None ->
  sq p !! (h mod 2 ^ e) = Some s -> slot_task s = Some it ->
  sched e nc np (set_worker i w' (set_sq (<[h mod 2 ^ e := Slot None (dequeuing s)]> (sq p)) p)).
Proof.
  intros [] Hi Hw Hw' Hs Hit. set (k := h mod 2 ^ e) in *.
  assert (Hc : claim_of w = Some h /\ asleep w = false) by (by destruct Hw as [-> | ->]). destruct Hc as [Hc Ha].
  assert (Hn' : nonfresh w' = false /\ asleep w' = false) by (by destruct w'). destruct Hn' as [Hn' Ha'].
  assert (Hfs : full s = true) by (unfold full; by rewrite Hit).
  assert (Hck : forall m, claims (2 ^ e) m w = (k =? m)) by (intros; unfold claims; by rewrite Hc).
  assert (Hck' : forall m, claims (2 ^ e) m w' = false) by (intros; unfold claims; by rewrite Hw').
  split; unfold occ in *; cbn; try done.
  - by rewrite map_size_insert_Some by eauto.
  - intros m. destruct (decide (m = k)) as [->|Hm]; [|by rewrite lookup_insert_ne].
    rewrite lookup_insert_eq. rewrite <- sc_sq0, Hs. split; eauto.
  - intros m. rewrite (recount _ _ i w), Hck, Hck' by done. cbn. rewrite sc_bal0.
    destruct (Z.eqb_spec k m) as [<-|Hm].
    + rewrite lookup_insert_eq, Hs. cbn. rewrite Hfs. cbn. lia.
    + rewrite lookup_insert_ne by done. cbn. lia.
  - rewrite (recount _ _ i w), countZ_insert, Hs by done. unfold claiming at 2 3. rewrite Hc, Hw'. cbn. rewrite Hfs. cbn. lia.
  - intros m. rewrite (recount _ _ i w) by done. unfold waits at 3. rewrite Hn'. specialize (sc_one0 m). cbn.
    assert (0 <= Z.b2z (waits (2 ^ e) m w)) by (destruct (waits (2 ^ e) m w); cbn; lia). lia.
  - intros m r Hr. rewrite (recount _ _ i w) by done. unfold sleeps at 2 3. rewrite Ha, Ha'. cbn.
    destruct (decide (m = k)) as [->|Hm].
    + rewrite lookup_insert_eq in Hr. injection Hr as <-. cbn. rewrite (sc_deq0 k s Hs). lia.
    + rewrite lookup_insert_ne in Hr by done. rewrite (sc_deq0 m r Hr). lia.
  - intros j h'. destruct (decide (j = i)) as [->|Hj].
    + rewrite lookup_insert_eq. intros [= ->]. done.
    + rewrite lookup_insert_ne by done. intros Hj'. destruct (decide (h' mod 2 ^ e = k)) as [Hx|Hx].
      * rewrite Hx, lookup_insert_eq. done.
      * rewrite lookup_insert_ne by done. by apply (sc_block0 j).
Qed.

Lemma to_word_mod e z : 0 <= e <= 64 -> to_word z mod 2 ^ e = z mod 2 ^ e.
Proof.
  intros He. unfold to_word. symmetry. apply Znumtheory.Zmod_div_mod; [lia..|].
  exists (2 ^ (64 - e)). rewrite <- Z.pow_add_r by lia. f_equal. lia.
Qed.
Lemma to_word_add z y : to_word (to_word z + y) = to_word (z + y).
Proof. unfold to_word. by rewrite Zplus_mod_idemp_l. Qed.

(** A worker claims the next slot. *)
Lemma sched_claim e nc np p i :
  sched e nc np p -> threads p !! i = Some WIdle ->
  sched e (S nc) np (set_worker i (WClaimed (sqHead p)) (set_sqHead (to_word (sqHead p + Stride)) p)).
Proof.
  intros [] Hi.
  assert (Ek : forall k, claims (2 ^ e) k (WClaimed (sqHead p)) = falls_on (2 ^ e) k (Z.of_nat nc)).
  { intros k. unfold claims, falls_on. cbn. by rewrite sc_head0, to_word_mod. }
  split; unfold occ in *; cbn [sqCapacity sq sqHead sqTail sqNotify threads set_worker set_threads set_sqHead hits]; try done.
  - by rewrite map_size_insert_Some by eauto.
  - rewrite sc_head0, to_word_add. f_equal. lia.
  - intros k. rewrite (recount _ _ i WIdle), Ek by done. specialize (sc_bal0 k). change (claims _ k WIdle) with false. cbn. lia.
  - rewrite (recount _ _ i WIdle) by done. cbn. lia.
  - intros k. rewrite (recount _ _ i WIdle) by done. cbn. specialize (sc_one0 k). lia.
  - intros k s Hs. rewrite (recount _ _ i WIdle) by done. cbn. specialize (sc_deq0 k s Hs). lia.
  - intros j h. destruct (decide (j = i)) as [->|Hj]; [by rewrite lookup_insert_eq|].
    rewrite lookup_insert_ne by done. apply sc_block0.
Qed.

(** The slot the next push goes to. *)
Lemma tail_slot e nc np p : sched e nc np p -> slot_of (sqTail p) p = (Stride * Z.of_nat np) mod 2 ^ e.
Proof. intros []. unfold slot_of. by rewrite sc_cap0, sc_tail0, to_word_mod. Qed.

Lemma sched_slot e nc np p h : sched e nc np p -> exists s, sq p !! (h mod 2 ^ e) = Some s.
Proof. intros []. apply sc_sq0, Z.mod_pos_bound. lia. Qed.

Definition pushed (it : item) (k : Z) (s : slot) p : pool :=
  set_sqNotify (Some k) (set_sqTail (to_word (sqTail p + Stride)) (set_sq (<[k := Slot (Some it) (dequeuing s)]> (sq p)) p)).

Lemma sched_push e nc np p it k s :
  sched e nc np p -> k = slot_of (sqTail p) p -> sq p !! k = Some s -> slot_task s = None -> sqNotify p = None ->
  sched e nc (S np) (pushed it k s p).
Proof.
  intros Hsc Hk Hs Hn Hnote. rewrite (tail_slot e nc np p Hsc) in Hk. destruct Hsc.
  assert (Hfs : full s = false) by (unfold full; by rewrite Hn).
  split; unfold occ in *; cbn [sqCapacity sq sqHead sqTail sqNotify threads pushed set_sqNotify set_sqTail set_sq hits]; try done.
  - rewrite sc_tail0, to_word_add. f_equal. lia.
  - intros m. destruct (decide (m = k)) as [->|Hm]; [|by rewrite lookup_insert_ne].
    rewrite lookup_insert_eq. rewrite <- sc_sq0, Hs. split; eauto.
  - intros m. specialize (sc_bal0 m). unfold falls_on. rewrite <- Hk. destruct (Z.eqb_spec k m) as [<-|Hm].
    + rewrite lookup_insert_eq. rewrite Hs in sc_bal0. cbn in *. rewrite Hfs in sc_bal0. cbn in *. lia.
    + rewrite lookup_insert_ne by done. cbn. lia.
  - rewrite countZ_insert, Hs. cbn. rewrite Hfs. cbn. lia.
  - intros m r Hr. destruct (decide (m = k)) as [->|Hm]; [|rewrite lookup_insert_ne in Hr by done; by apply sc_deq0].
    rewrite lookup_insert_eq in Hr. injection Hr as <-. cbn. by apply sc_deq0.
  - intros j h Hj. destruct (decide (h mod 2 ^ e = k)) as [->|Hx]; [done|].
    rewrite lookup_insert_ne by done. intros Ho. specialize (sc_block0 j h Hj Ho). congruence.
  - intros m [= <-]. apply sc_sq0. eauto.
Qed.

(** Whether a thread sleeps on slot [k]. *)
Definition sleepers (k : Z) p := filter (fun iw => blocked_on k p iw.2 = true) (map_to_list (threads p)).
Lemma sleepers_elem k p i w : (i, w) ∈ sleepers k p <-> threads p !! i = Some w /\ blocked_on k p w = true.
Proof. unfold sleepers. rewrite list_elem_of_filter, elem_of_map_to_list. cbn. tauto. Qed.

(** With nobody asleep on the slot, looking at it changes nothing. *)
Lemma sched_unnotify e nc np p k :
  sched e nc np p -> sqNotify p = Some k ->
  (forall i h, threads p !! i = Some (WBlocked h) -> h mod 2 ^ e <> k) ->
  sched e nc np (set_sqNotify None p).
Proof.
  intros [] Hnote Hno. split; unfold occ in *; cbn; try done.
  intros i h Hi Ho. specialize (sc_block0 i h Hi Ho). rewrite Hnote in sc_block0. injection sc_block0 as E.
  by destruct (Hno i h Hi).
Qed.

Lemma sched_notify e nc np p k :
  sched e nc np p -> sqNotify p = Some k ->
  exists p', finish_push k p = Ok p' /\ sched e nc np p' /\ sqNotify p' = None /\
    (p' = set_sqNotify None p \/ exists i h, threads p !! i = Some (WBlocked h) /\ p' = set_sqNotify None (set_worker i (WDeq h) p)).
Proof.
  intros Hsc Hnote. destruct (sc_sq _ _ _ _ Hsc k) as [_ [s Hs]]; [by apply (sc_note _ _ _ _ Hsc)|].
  unfold finish_push. rewrite Hs. res_cbn. set (p0 := set_sqNotify None p).
  assert (Hb : forall h, blocked_on k p0 (WBlocked h) = (h mod 2 ^ e =? k)).
  { intros h. unfold blocked_on, slot_of. cbn. by rewrite (sc_cap _ _ _ _ Hsc). }
  assert (Hsleep : forall i h, threads p !! i = Some (WBlocked h) -> h mod 2 ^ e = k -> dequeuing s = true).
  { intros i h Hi Hh. pose proof (sc_deq _ _ _ _ Hsc k s Hs) as Hd.
    pose proof (count_one (sleeps (2 ^ e) k) _ i _ Hi) as H1. cbn in H1. unfold claims in H1. cbn in H1.
    rewrite Hh, Z.eqb_refl in H1. specialize (H1 eq_refl). destruct (dequeuing s); [done|]. cbn in Hd. lia. }
  unfold notify_one. fold (sleepers k p0). destruct (sleepers k p0) as [|[i w] l] eqn:El.
  - assert (Hno : forall i h, threads p !! i = Some (WBlocked h) -> h mod 2 ^ e <> k).
    { intros i h Hi Hh. assert (Hin : (i, WBlocked h) ∈ sleepers k p0).
      { apply sleepers_elem. split; [done|]. rewrite Hb. by apply Z.eqb_eq. }
      rewrite El in Hin. by apply elem_of_nil in Hin. }
    exists p0. split; [by destruct (dequeuing s)|]. split; [by apply (sched_unnotify e nc np p k)|]. split; [done|by left].
  - assert (Hin : (i, w) ∈ sleepers k p0) by (rewrite El; by left).
    apply sleepers_elem in Hin as [Hi Hw]. cbn in Hi. destruct w as [| | | |h| | | | | |]; try done.
    rewrite Hb in Hw. apply Z.eqb_eq in Hw. rewrite (Hsleep i h Hi Hw). eexists. split; [done|].
    split_and!; [|done|right; exists i, h; done].
    refine (sched_unnotify e nc np (set_worker i (WDeq h) p) k _ Hnote _).
    + apply (sched_phase e nc np p i (WBlocked h)); try done.
    + intros j h' Hj Hh'. cbn in Hj. destruct (decide (j = i)) as [->|Hne]; [by rewrite lookup_insert_eq in Hj|].
      rewrite lookup_insert_ne in Hj by done. pose proof (sc_one _ _ _ _ Hsc k).
      pose proof (count_two (waits (2 ^ e) k) _ i j _ _ ltac:(done) Hi Hj) as H2.
      unfold waits, claims in H2. cbn in H2. rewrite Hw, Hh', Z.eqb_refl in H2. specialize (H2 eq_refl eq_refl).
      unfold waits, claims in H. lia.
Qed.

(** * Ownership: where each task is *)

Inductive place := PSlot (k : Z) | PBack | PWork (i : positive) | PCq | PDrain.
#[export] Instance place_eq_dec : EqDecision place.
Proof. solve_decision. Defined.

Definition holds (w : wphase) : option loc := match w with WRun t | WLoad t | WCas t _ => Some t | _ => None end.
Definition has_run (w : wphase) : bool := match w with WLoad _ | WCas _ _ => true | _ => false end.

(** The tasks of a list linked by [next_]. *)
Fixpoint chain (nx : gmap loc (option loc)) (h : option loc) (l : list loc) : Prop :=
  match l with
  | [] => h = None
  | t :: l => h = Some t /\ exists n, nx !! t = Some n /\ chain nx n l
  end.

(** [t] is at [pl], given the backoff queue, the completed and the drained tasks. *)
Definition at_place (B C D : list loc) p (pl : place) t : Prop :=
  match pl with
  | PSlot k => slot_task <$> sq p !! k = Some (Some (ITask t))
  | PBack => t ∈ B
  | PWork i => exists w, threads p !! i = Some w /\ holds w = Some t
  | PCq => t ∈ C
  | PDrain => t ∈ D
  end.

Definition back_ptr p : option loc := match main p with MSubmit o => o | _ => backoffSqHead p end.
Definition drain_ptr p : option loc := match main p with MDrain o => o | _ => None end.
Definition times t (l : list loc) : nat := length (filter (fun u => u = t) l).
Arguments times : simpl never.
Definition was_run p (o : option place) : bool :=
  match o with
  | Some PCq | Some PDrain => true
  | Some (PWork i) => match threads p !! i with Some w => has_run w | None => false end
  | _ => false
  end.
Definition draining (m : mphase) : bool := match m with MCheck | MDrain _ => true | _ => false end.
Definition in_tick (m : mphase) : bool := match m with MCheck | MDrain _ | MBackoff | MSubmit _ => true | _ => false end.

Record own (O : gmap loc place) (B C D : list loc) p : Prop := {
  ow_at pl t : at_place B C D p pl t <-> O !! t = Some pl;
  ow_dom t : is_Some (O !! t) <-> is_Some (next_ p !! t);
  ow_nodup : NoDup B /\ NoDup C /\ NoDup D;
  ow_back : chain (next_ p) (back_ptr p) B;
  ow_tail : (forall o, main p = MSubmit o -> B <> []) -> backoffSqTail p = last B;
  ow_cq : chain (next_ p) (cqHead p) C;
  ow_drain : chain (next_ p) (drain_ptr p) D;
  ow_cas i t h : threads p !! i = Some (WCas t h) -> next_ p !! t = Some h;
  ow_submitted t : times t (submitted p) = (times t (resumed p) + Nat.b2n (bool_decide (is_Some (O !! t))))%nat;
  ow_ran t : times t (ran p) = (times t (resumed p) + Nat.b2n (was_run p (O !! t)))%nat;
  ow_notice : C <> [] -> draining (main p) = true \/ (0 < posted p)%nat \/ exists i, threads p !! i = Some WPost;
  ow_flight : B <> [] -> in_tick (main p) = true \/ exists t pl, O !! t = Some pl /\ pl <> PBack }.

Lemma times_snoc t l u : times t (l ++ [u]) = (times t l + Nat.b2n (bool_decide (u = t)))%nat.
Proof.
  unfold times. rewrite filter_app, length_app. f_equal. rewrite filter_cons, filter_nil.
  destruct (decide (u = t)); [by rewrite bool_decide_true|by rewrite bool_decide_false].
Qed.

Lemma chain_notin nx h l t v : chain nx h l -> t ∉ l -> chain (<[t := v]> nx) h l.
Proof.
  revert h. induction l as [|u l IH]; intros h; cbn; [done|]. intros (-> & n & Hn & Hl) Ht.
  split; [done|]. exists n. rewrite lookup_insert_ne by set_solver. split; [done|]. apply IH; [done|set_solver].
Qed.
Lemma chain_delete nx h l t : chain nx h l -> t ∉ l -> chain (delete t nx) h l.
Proof.
  revert h. induction l as [|u l IH]; intros h; cbn; [done|]. intros (-> & n & Hn & Hl) Ht.
  split; [done|]. exists n. rewrite lookup_delete_ne by set_solver. split; [done|]. apply IH; [done|set_solver].
Qed.
Lemma chain_live nx h l t : chain nx h l -> t ∈ l -> is_Some (nx !! t).
Proof.
  revert h. induction l as [|u l IH]; intros h; cbn; [by intros _ ?%elem_of_nil|]. intros (_ & n & Hn & Hl) [->|Ht]%elem_of_cons; eauto.
Qed.
Lemma chain_snoc nx h l u t :
  chain nx h l -> NoDup l -> last l = Some u -> t ∉ l -> nx !! t = Some None -> chain (<[u := Some t]> nx) h (l ++ [t]).
Proof.
  revert h. induction l as [|v l IH]; intros h; [done|]. intros (-> & n & Hn & Hl) [Hv Hnd]%NoDup_cons Hu Ht Hx. cbn.
  split; [done|]. destruct l as [|v' l].
  - cbn in Hu. injection Hu as ->. exists (Some t). rewrite lookup_insert_eq. split; [done|]. cbn. split; [done|].
    exists None. rewrite lookup_insert_ne by set_solver. done.
  - assert (Hne : u <> v). { intros ->. apply Hv. apply last_Some_elem_of. exact Hu. }
    exists n. rewrite lookup_insert_ne by done. split; [done|]. apply IH; try done. set_solver.
Qed.

(** Nothing that [own] is about changes. *)
Lemma own_ext O B C D p p' :
  own O B C D p ->
  (forall k t, slot_task <$> sq p' !! k = Some (Some (ITask t)) <-> slot_task <$> sq p !! k = Some (Some (ITask t))) ->
  backoffSqHead p' = backoffSqHead p -> backoffSqTail p' = backoffSqTail p -> cqHead p' = cqHead p ->
  next_ p' = next_ p -> threads p' = threads p -> main p' = main p -> posted p' = posted p ->
  submitted p' = submitted p -> ran p' = ran p -> resumed p' = resumed p -> own O B C D p'.
Proof.
  intros [] Hs Hbh Hbt Hcq Hnx Hth Hm Hpo Hsu Hra Hre.
  split; unfold back_ptr, drain_ptr, was_run in *; rewrite ?Hbh, ?Hbt, ?Hcq, ?Hnx, ?Hth, ?Hm, ?Hpo, ?Hsu, ?Hra, ?Hre; try done.
  intros pl t. rewrite <- ow_at0. destruct pl; cbn; [by rewrite Hs|done|by rewrite Hth|done..].
Qed.

(** Places of different tasks, and of the same. *)
Lemma own_work O B C D p i w t :
  own O B C D p -> threads p !! i = Some w -> holds w = Some t ->
  O !! t = Some (PWork i) /\ t ∉ B /\ t ∉ C /\ t ∉ D /\ is_Some (next_ p !! t).
Proof.
  intros Hown Hi Hw. assert (Ho : O !! t = Some (PWork i)) by (apply (ow_at _ _ _ _ _ Hown (PWork i)); by exists w).
  split; [done|]. split_and!.
  - intros H. pose proof (proj1 (ow_at _ _ _ _ _ Hown PBack t) H). congruence.
  - intros H. pose proof (proj1 (ow_at _ _ _ _ _ Hown PCq t) H). congruence.
  - intros H. pose proof (proj1 (ow_at _ _ _ _ _ Hown PDrain t) H). congruence.
  - apply (ow_dom _ _ _ _ _ Hown). by eexists.
Qed.

(** A worker moves on that holds no task. *)
Lemma own_phase O B C D p i w w' :
  own O B C D p -> threads p !! i = Some w -> holds w = None -> holds w' = None -> w <> WPost ->
  own O B C D (set_worker i w' p).
Proof.
  intros Hown Hi Hw Hw' Hne. destruct Hown. split; cbn; try done.
  - intros pl t. rewrite <- ow_at0. destruct pl as [k| |j| |]; cbn; try done.
    destruct (decide (j = i)) as [->|Hj]; [|by rewrite lookup_insert_ne].
    rewrite lookup_insert_eq, Hi. split; intros (x & [= <-] & Hx); congruence.
  - intros j t h. destruct (decide (j = i)) as [->|Hj]; [|rewrite lookup_insert_ne by done; apply ow_cas0].
    rewrite lookup_insert_eq. by intros [= ->].
  - intros t. rewrite ow_ran0. do 2 f_equal. unfold was_run. cbn. destruct (O !! t) as [[| |j| |]|] eqn:Ht; try done.
    destruct (decide (j = i)) as [->|Hj]; [|by rewrite lookup_insert_ne].
    apply ow_at0 in Ht as (x & Hx & Hx'). rewrite Hi in Hx. injection Hx as <-. congruence.
  - intros HC. destruct (ow_notice0 HC) as [?|[?|[j Hj]]]; [tauto..|]. right. right. exists j.
    rewrite lookup_insert_ne; [done|]. intros <-. congruence.
Qed.

(** A worker moves on with its task. *)
Lemma own_carry O B C D p i w w' t v :
  own O B C D p -> threads p !! i = Some w -> holds w = Some t -> holds w' = Some t ->
  (forall h, w' = WCas t h -> v = h) ->
  own O B C D (set_worker i w' (set_next (<[t := v]> (next_ p))
    (set_ran (if has_run w' && negb (has_run w) then ran p ++ [t] else ran p) p))) \/ (has_run w = true /\ has_run w' = false).
Proof.
  intros Hown Hi Hw Hw' Hv. destruct (own_work O B C D p i w t Hown Hi Hw) as (Ho & HB & HC & HD & Hlive).
  destruct (decide (has_run w = true /\ has_run w' = false)) as [?|Hr]; [by right|left]. destruct Hown.
  split; cbn; try done.
  - intros pl u. rewrite <- ow_at0. destruct pl as [k| |j| |]; cbn; try done.
    destruct (decide (j = i)) as [->|Hj]; [|by rewrite lookup_insert_ne].
    rewrite lookup_insert_eq, Hi. split; intros (x & [= <-] & Hx); eexists; (split; [done|]); congruence.
  - intros u. rewrite ow_dom0. destruct (decide (u = t)) as [->|Hu]; [|by rewrite lookup_insert_ne].
    rewrite lookup_insert_eq. split; eauto.
  - by apply chain_notin.
  - by apply chain_notin.
  - by apply chain_notin.
  - intros j u h. destruct (decide (j = i)) as [->|Hj].
    + rewrite lookup_insert_eq. intros [= ->]. cbn in Hw'. injection Hw' as ->. rewrite lookup_insert_eq. f_equal. by apply Hv.
    + rewrite lookup_insert_ne by done. intros Hj'. rewrite lookup_insert_ne; [by apply (ow_cas0 j)|].
      intros <-. assert (Hx : O !! t = Some (PWork j)) by (apply ow_at0; by eexists). congruence.
  - intros u. unfold was_run. cbn. destruct (decide (u = t)) as [->|Hu].
    + rewrite Ho, lookup_insert_eq. specialize (ow_ran0 t). unfold was_run in ow_ran0. rewrite Ho, Hi in ow_ran0.
      destruct (has_run w), (has_run w'); cbn; try (rewrite times_snoc, bool_decide_true by done); cbn in *; try lia; tauto.
    + assert (Et : times u (if has_run w' && negb (has_run w) then ran p ++ [t] else ran p) = times u (ran p)).
      { destruct (has_run w' && negb (has_run w)); [|done]. rewrite times_snoc, bool_decide_false by done. cbn. lia. }
      rewrite Et, ow_ran0. do 2 f_equal. unfold was_run. destruct (O !! u) as [[| |j| |]|] eqn:Hx; try done.
      destruct (decide (j = i)) as [->|Hj]; [|by rewrite lookup_insert_ne].
      apply ow_at0 in Hx as (x & Hx & Hx'). rewrite Hi in Hx. injection Hx as <-. congruence.
  - intros HC'. destruct (ow_notice0 HC') as [?|[?|[j Hj]]]; [tauto..|]. right. right. exists j.
    rewrite lookup_insert_ne; [done|]. intros <-. rewrite Hi in Hj. injection Hj as ->. done.
Qed.

(** The main thread moves on. *)
Lemma own_main O B C D p m :
  own O B C D p -> back_ptr (set_main m p) = back_ptr p -> drain_ptr (set_main m p) = drain_ptr p ->
  ((forall o, m = MSubmit o -> B <> []) -> (forall o, main p = MSubmit o -> B <> [])) ->
  (C <> [] -> draining (main p) = true -> draining m = true) ->
  (B <> [] -> in_tick (main p) = true -> in_tick m = true \/ exists t pl, O !! t = Some pl /\ pl <> PBack) ->
  own O B C D (set_main m p).
Proof.
  intros [] Hb Hd Ht Hc Hf. split; try done; rewrite ?Hb, ?Hd; try done.
  - intros H. apply ow_tail0. by apply Ht.
  - intros HC. destruct (ow_notice0 HC) as [?|?]; [left; auto|by right].
  - intros HB. destruct (ow_flight0 HB) as [?|?]; auto.
Qed.

(** Where nothing lives, nothing is. *)
Lemma own_empty O B C D p : own O B C D p -> next_ p = ∅ -> O = ∅ /\ B = [] /\ C = [] /\ D = [].
Proof.
  intros [] Hn. assert (Ho : forall t, O !! t = None).
  { intros t. destruct (O !! t) eqn:Ht; [|done]. assert (is_Some (next_ p !! t)) as [? H] by (apply ow_dom0; eauto).
    by rewrite Hn, lookup_empty in H. }
  split; [by apply map_eq; intros t; rewrite Ho, lookup_empty|].
  assert (Hl : forall l pl, (forall t, t ∈ l -> at_place B C D p pl t) -> l = []).
  { intros [|t l] pl Hl; [done|]. specialize (Hl t ltac:(by left)). apply ow_at0 in Hl. by rewrite Ho in Hl. }
  split_and!; [by apply (Hl B PBack)|by apply (Hl C PCq)|by apply (Hl D PDrain)].
Qed.

Lemma own_lists O B C D p t :
  own O B C D p -> (t ∈ B <-> O !! t = Some PBack) /\ (t ∈ C <-> O !! t = Some PCq) /\ (t ∈ D <-> O !! t = Some PDrain).
Proof. intros []. split_and!; [apply (ow_at0 PBack)|apply (ow_at0 PCq)|apply (ow_at0 PDrain)]. Qed.

(** A worker takes a task out of a slot. *)
Lemma own_take O B C D p i w k s t :
  own O B C D p -> threads p !! i = Some w -> holds w = None -> w <> WPost ->
  sq p !! k = Some s -> slot_task s = Some (ITask t) ->
  own (<[t := PWork i]> O) B C D
    (set_worker i (WRun t) (set_sq (<[k := Slot None (dequeuing s)]> (sq p)) p)).
Proof.
  intros Hown Hi Hw Hne Hs Hst. destruct (own_lists O B C D p t Hown) as (LB & LC & LD). destruct Hown.
  assert (Ho : O !! t = Some (PSlot k)) by (apply ow_at0; cbn; by rewrite Hs; cbn; rewrite Hst).
  split; cbn; try done.
  - intros pl u. destruct (decide (u = t)) as [->|Hu].
    + rewrite lookup_insert_eq. assert (Hx : forall pl', at_place B C D p pl' t -> pl' = PSlot k).
      { intros pl' H. apply ow_at0 in H. congruence. }
      destruct pl as [k'| |j| |]; cbn; try (rewrite ?LB, ?LC, ?LD, Ho; split; congruence).
      * split; [|done]. destruct (decide (k' = k)) as [->|Hk]; [by rewrite lookup_insert_eq|].
        rewrite lookup_insert_ne by done. intros H. specialize (Hx (PSlot k') H). congruence.
      * destruct (decide (j = i)) as [->|Hj]; [rewrite lookup_insert_eq; split; [done|by eexists]|].
        rewrite lookup_insert_ne by done. split; [intros H; by specialize (Hx (PWork j) H)|congruence].
    + rewrite lookup_insert_ne, <- ow_at0 by done. destruct pl as [k'| |j| |]; cbn; try done.
      * destruct (decide (k' = k)) as [->|Hk]; [|by rewrite lookup_insert_ne]. rewrite lookup_insert_eq, Hs. cbn.
        rewrite Hst. split; congruence.
      * destruct (decide (j = i)) as [->|Hj]; [|by rewrite lookup_insert_ne]. rewrite lookup_insert_eq, Hi.
        split; intros (x & [= <-] & Hx); cbn in Hx; congruence.
  - intros u. rewrite <- ow_dom0. destruct (decide (u = t)) as [->|Hu]; [|by rewrite lookup_insert_ne].
    rewrite lookup_insert_eq, Ho. split; eauto.
  - intros j u h. destruct (decide (j = i)) as [->|Hj]; [by rewrite lookup_insert_eq|].
    rewrite lookup_insert_ne by done. apply ow_cas0.
  - intros u. rewrite ow_submitted0. destruct (decide (u = t)) as [->|Hu]; [|by rewrite lookup_insert_ne].
    rewrite lookup_insert_eq, Ho. do 2 f_equal.
  - intros u. rewrite ow_ran0. do 2 f_equal. unfold was_run. cbn. destruct (decide (u = t)) as [->|Hu].
    + by rewrite Ho, !lookup_insert_eq.
    + rewrite (lookup_insert_ne O) by done. destruct (O !! u) as [[| |j| |]|] eqn:Hx; try done.
      destruct (decide (j = i)) as [->|Hj]; [|by rewrite lookup_insert_ne].
      apply ow_at0 in Hx as (x & Hx & Hx'). rewrite Hi in Hx. injection Hx as <-. congruence.
  - intros HC. destruct (ow_notice0 HC) as [?|[?|[j Hj]]]; [tauto..|]. right. right. exists j.
    rewrite lookup_insert_ne; [done|]. intros <-. congruence.
  - intros HB. destruct (ow_flight0 HB) as [?|?]; [tauto|right]. exists t, (PWork i). by rewrite lookup_insert_eq.
Qed.

(** A new task, in a slot or in the backoff queue. *)
Definition created t p : pool := set_submitted (submitted p ++ [t]) (set_next (<[t := None]> (next_ p)) p).

Lemma own_fresh O B C D p t :
  own O B C D p -> next_ p !! t = None -> O !! t = None /\ t ∉ B /\ t ∉ C /\ t ∉ D.
Proof.
  intros [] Ht. assert (Ho : O !! t = None).
  { destruct (O !! t) eqn:E; [|done]. assert (is_Some (next_ p !! t)) as [? H] by (apply ow_dom0; eauto). congruence. }
  split; [done|]. split_and!; intros H;
    [pose proof (proj1 (ow_at0 PBack t) H)|pose proof (proj1 (ow_at0 PCq t) H)|pose proof (proj1 (ow_at0 PDrain t) H)]; congruence.
Qed.

Lemma own_submit_sq O B C D p t k s :
  own O B C D p -> next_ p !! t = None -> sq p !! k = Some s -> slot_task s = None ->
  own (<[t := PSlot k]> O) B C D (pushed (ITask t) k s (created t p)).
Proof.
  intros Hown Ht Hs Hst. destruct (own_fresh O B C D p t Hown Ht) as (Ho & HB & HC & HD).
  destruct (own_lists O B C D p t Hown) as (LB & LC & LD). destruct Hown.
  split; cbn; try done; try (by apply chain_notin).
  - intros pl u. destruct (decide (u = t)) as [->|Hu].
    + rewrite lookup_insert_eq. assert (Hx : forall pl', ~ at_place B C D p pl' t) by (intros pl' H%ow_at0; congruence).
      destruct pl as [k'| |j| |]; cbn; try (rewrite ?LB, ?LC, ?LD, Ho; split; congruence).
      * destruct (decide (k' = k)) as [->|Hk]; [rewrite lookup_insert_eq; split; done|].
        rewrite lookup_insert_ne by done. split; [intros H; by destruct (Hx (PSlot k') H)|congruence].
      * split; [intros H; by destruct (Hx (PWork j) H)|done].
    + rewrite lookup_insert_ne, <- ow_at0 by done. destruct pl as [k'| |j| |]; cbn; try done.
      destruct (decide (k' = k)) as [->|Hk]; [|by rewrite lookup_insert_ne]. rewrite lookup_insert_eq, Hs. cbn.
      rewrite Hst. split; congruence.
  - intros u. destruct (decide (u = t)) as [->|Hu]; [rewrite !lookup_insert_eq; split; eauto|]. by rewrite !lookup_insert_ne.
  - intros j u h Hj. rewrite lookup_insert_ne; [by eapply ow_cas0|]. intros <-. by rewrite (ow_cas0 j t h Hj) in Ht.
  - intros u. rewrite times_snoc, ow_submitted0. destruct (decide (u = t)) as [->|Hu].
    + rewrite lookup_insert_eq, Ho. rewrite (bool_decide_true (t = t)) by done. cbn. lia.
    + rewrite lookup_insert_ne, (bool_decide_false (t = u)) by done. cbn. lia.
  - intros u. rewrite ow_ran0. destruct (decide (u = t)) as [->|Hu]; [|by rewrite lookup_insert_ne].
    by rewrite lookup_insert_eq, Ho.
  - intros HB'. right. exists t, (PSlot k). by rewrite lookup_insert_eq.
Qed.

Lemma own_submit_back O B C D p t :
  own O B C D p -> next_ p !! t = None -> (forall o, main p <> MSubmit o) ->
  (exists u pl, O !! u = Some pl /\ pl <> PBack) ->
  exists p', pushToBackoffSQ t (created t p) = Ok p' /\ own (<[t := PBack]> O) (B ++ [t]) C D p' /\
    sq p' = sq p /\ threads p' = threads p /\ sqHead p' = sqHead p /\ sqTail p' = sqTail p /\
    sqNotify p' = sqNotify p /\ sqCapacity p' = sqCapacity p /\ main p' = main p.
Proof.
  intros Hown Ht Hm (u0 & pl0 & Hu0 & Hpl0). destruct (own_fresh O B C D p t Hown Ht) as (Ho & HB & HC & HD).
  destruct (own_lists O B C D p t Hown) as (LB & LC & LD).
  pose proof (ow_tail _ _ _ _ _ Hown ltac:(intros o E; by destruct (Hm o))) as Htail.
  assert (Hb : forall q, main q = main p -> back_ptr q = backoffSqHead q).
  { intros q Hq. unfold back_ptr. rewrite Hq. destruct (main p) as [| | | |o| |] eqn:Em; try done. by destruct (Hm o). }
  pose proof (ow_back _ _ _ _ _ Hown) as Hback. rewrite (Hb p eq_refl) in Hback.
  assert (Hlast : forall u, last B = Some u -> is_Some (next_ p !! u) /\ u ∈ B).
  { intros u Hu. apply last_Some_elem_of in Hu. split; [|done]. by apply (chain_live _ _ _ _ Hback). }
  set (nx := <[t := None]> (next_ p)).
  assert (E : exists h nx', pushToBackoffSQ t (created t p) =
      Ok (set_backoffSqTail (Some t) (set_backoffSqHead h (set_next nx' (created t p)))) /\
      chain nx' h (B ++ [t]) /\ (forall l o, chain (next_ p) o l -> (forall u, u ∈ l -> u ∉ B) -> t ∉ l -> chain nx' o l) /\
      (forall u, u ∉ B -> u <> t -> nx' !! u = next_ p !! u) /\ (forall u, is_Some (nx' !! u) <-> u = t \/ is_Some (next_ p !! u))).
  { unfold pushToBackoffSQ. cbn [backoffSqTail set_next created set_submitted next_]. rewrite Htail.
    assert (Hnx : <[t := None]> (<[t := None]> (next_ p)) = nx) by apply insert_insert_eq.
    destruct (last B) as [u|] eqn:El.
    - destruct (Hlast u eq_refl) as [Hul Huin]. assert (Hut : u <> t) by (intros ->; done).
      cbn [next_ set_next set_submitted created]. rewrite Hnx.
      destruct Hul as [x Hx]. assert (Hxu : nx !! u = Some x) by (unfold nx; by rewrite lookup_insert_ne).
      rewrite Hxu. res_cbn. exists (backoffSqHead p), (<[u := Some t]> nx).
      split_and!; [by destruct p| | | |].
      + apply chain_snoc; try done; [by apply chain_notin|by apply (ow_nodup _ _ _ _ _ Hown)|by apply lookup_insert_eq].
      + intros l o Hl HBl Htl. apply chain_notin; [by apply chain_notin|]. intros Hul. by apply (HBl u).
      + intros v Hv Hvt. unfold nx. rewrite !lookup_insert_ne; [done|congruence|]. by intros ->.
      + intros v. unfold nx. destruct (decide (v = u)) as [->|Hvu].
        { rewrite lookup_insert_eq, Hx. split; [eauto|]. by eexists. }
        rewrite lookup_insert_ne by done. destruct (decide (v = t)) as [->|Hvt]; [rewrite lookup_insert_eq; split; [by left|by eexists]|].
        rewrite lookup_insert_ne by done. split; [by right|by intros [?|?]].
    - res_cbn. apply last_None in El. subst B. exists (Some t), nx. split_and!.
      + rewrite <- Hnx. by destruct p.
      + cbn. split; [done|]. exists None. split; [apply lookup_insert_eq|done].
      + intros l o Hl _ Htl. by apply chain_notin.
      + intros v _ Hv. by apply lookup_insert_ne.
      + intros v. unfold nx. destruct (decide (v = t)) as [->|Hvt]; [rewrite lookup_insert_eq; split; [by left|by eexists]|].
        rewrite lookup_insert_ne by done. split; [by right|by intros [?|?]]. }
  destruct E as (h & nx' & -> & Hch & Hother & Hsame & Hdom). eexists. split; [done|]. split; [|done].
  assert (Hdis : forall (l : list loc) pl, pl <> PBack -> (forall u, u ∈ l -> O !! u = Some pl) -> forall u, u ∈ l -> u ∉ B).
  { intros l pl Hpl Hl u Hu HuB. specialize (Hl u Hu). pose proof (proj1 (ow_at _ _ _ _ _ Hown PBack u) HuB). congruence. }
  destruct Hown. split; cbn; try done.
  - intros pl u. destruct (decide (u = t)) as [->|Hu].
    + rewrite lookup_insert_eq. assert (Hx : forall pl', ~ at_place B C D p pl' t) by (intros pl' H%ow_at0; congruence).
      destruct pl as [k'| |j| |]; cbn; try (rewrite ?LC, ?LD, Ho; split; congruence).
      * split; [intros H; by destruct (Hx (PSlot k') H)|done].
      * split; [done|]. intros _. set_solver.
      * split; [intros H; by destruct (Hx (PWork j) H)|done].
    + rewrite lookup_insert_ne, <- ow_at0 by done. destruct pl; cbn; try done. set_solver.
  - intros u. rewrite Hdom, <- ow_dom0. destruct (decide (u = t)) as [->|Hu]; [rewrite lookup_insert_eq; split; [by left|by eexists]|].
    rewrite lookup_insert_ne by done. split; [by right|by intros [?|?]].
  - destruct ow_nodup0 as (? & ? & ?). split_and!; try done. apply NoDup_app. split_and!; [done| |apply NoDup_singleton]. set_solver.
  - unfold back_ptr in *. cbn. destruct (main p) as [| | | |o| |] eqn:Em; try done. by destruct (Hm o).
  - intros _. by rewrite last_snoc.
  - apply Hother; [done| |done]. apply (Hdis C PCq); [done|]. intros u Hu. by apply (ow_at0 PCq).
  - apply Hother; [done| |done]. apply (Hdis D PDrain); [done|]. intros u Hu. by apply (ow_at0 PDrain).
  - intros j u x Hj. assert (Hou : O !! u = Some (PWork j)) by (apply ow_at0; by eexists).
    rewrite Hsame; [by eapply ow_cas0| |].
    + intros HuB. pose proof (proj1 (ow_at0 PBack u) HuB). congruence.
    + intros ->. congruence.
  - intros u. rewrite times_snoc, ow_submitted0. destruct (decide (u = t)) as [->|Hu].
    + rewrite lookup_insert_eq, Ho. rewrite (bool_decide_true (t = t)) by done. cbn. lia.
    + rewrite lookup_insert_ne, (bool_decide_false (t = u)) by done. cbn. lia.
  - intros u. rewrite ow_ran0. destruct (decide (u = t)) as [->|Hu]; [|by rewrite lookup_insert_ne].
    by rewrite lookup_insert_eq, Ho.
  - intros _. right. exists u0, pl0. rewrite lookup_insert_ne; [done|]. intros <-. congruence.
Qed.

(** A worker has run its task and puts it on the completion stack. *)
Lemma own_complete O B C D p i t :
  own O B C D p -> threads p !! i = Some (WCas t (cqHead p)) ->
  own (<[t := PCq]> O) B (t :: C) D
    (set_worker i (match cqHead p with None => WPost | Some _ => WIdle end) (set_cqHead (Some t) p)).
Proof.
  intros Hown Hi. destruct (own_work O B C D p i _ t Hown Hi eq_refl) as (Ho & HB & HC & HD & Hlive).
  destruct (own_lists O B C D p t Hown) as (LB & LC & LD). destruct Hown.
  set (w' := match cqHead p with None => WPost | Some _ => WIdle end).
  assert (Hw' : holds w' = None /\ has_run w' = false) by (unfold w'; by destruct (cqHead p)). destruct Hw' as [Hw' Hr'].
  split; cbn; try done.
  - intros pl u. destruct (decide (u = t)) as [->|Hu].
    + rewrite lookup_insert_eq. assert (Hx : forall pl', at_place B C D p pl' t -> pl' = PWork i).
      { intros pl' H. apply ow_at0 in H. congruence. }
      destruct pl as [k| |j| |]; cbn; try (rewrite ?LB, ?LD, Ho; split; congruence).
      * split; [intros H; by specialize (Hx (PSlot k) H)|done].
      * destruct (decide (j = i)) as [->|Hj].
        { rewrite lookup_insert_eq. split; [|done]. intros (x & [= <-] & Hx'). congruence. }
        rewrite lookup_insert_ne by done. split; [intros H; specialize (Hx (PWork j) H); congruence|done].
      * split; [done|]. intros _. by left.
    + rewrite lookup_insert_ne, <- ow_at0 by done. destruct pl as [k| |j| |]; cbn; try done; [|set_solver].
      destruct (decide (j = i)) as [->|Hj]; [|by rewrite lookup_insert_ne]. rewrite lookup_insert_eq, Hi.
      split; intros (x & [= <-] & Hx); [congruence|]. cbn in Hx. congruence.
  - intros u. rewrite <- ow_dom0. destruct (decide (u = t)) as [->|Hu]; [|by rewrite lookup_insert_ne].
    rewrite lookup_insert_eq, Ho. split; by eexists.
  - destruct ow_nodup0 as (? & ? & ?). split_and!; try done. by apply NoDup_cons.
  - split; [done|]. exists (cqHead p). split; [by apply (ow_cas0 i)|done].
  - intros j u h. destruct (decide (j = i)) as [->|Hj].
    + rewrite lookup_insert_eq. intros [= E]. by rewrite E in Hw'.
    + rewrite lookup_insert_ne by done. apply ow_cas0.
  - intros u. rewrite ow_submitted0. destruct (decide (u = t)) as [->|Hu]; [|by rewrite lookup_insert_ne].
    rewrite lookup_insert_eq, Ho. do 2 f_equal.
  - intros u. rewrite ow_ran0. do 2 f_equal. unfold was_run. cbn. destruct (decide (u = t)) as [->|Hu].
    + by rewrite Ho, lookup_insert_eq, Hi.
    + rewrite (lookup_insert_ne O) by done. destruct (O !! u) as [[| |j| |]|] eqn:Hx; try done.
      destruct (decide (j = i)) as [->|Hj]; [|by rewrite lookup_insert_ne].
      apply ow_at0 in Hx as (x & Hx & Hx'). rewrite Hi in Hx. injection Hx as <-. cbn in Hx'. congruence.
  - intros _. destruct C as [|c C].
    + cbn in ow_cq0. right. right. exists i. rewrite lookup_insert_eq. unfold w'. by rewrite ow_cq0.
    + destruct (ow_notice0 ltac:(done)) as [?|[?|[j Hj]]]; [tauto..|]. right. right. exists j.
      rewrite lookup_insert_ne; [done|]. intros <-. congruence.
  - intros HB'. right. exists t, PCq. by rewrite lookup_insert_eq.
Qed.

(** A worker posts [tick()]. *)
Lemma own_post O B C D p i :
  own O B C D p -> threads p !! i = Some WPost -> own O B C D (set_worker i WIdle (set_posted (S (posted p)) p)).
Proof.
  intros [] Hi. split; cbn; try done.
  - intros pl t. rewrite <- ow_at0. destruct pl as [k| |j| |]; cbn; try done.
    destruct (decide (j = i)) as [->|Hj]; [|by rewrite lookup_insert_ne].
    rewrite lookup_insert_eq, Hi. split; intros (x & [= <-] & Hx); done.
  - intros j t h. destruct (decide (j = i)) as [->|Hj]; [|rewrite lookup_insert_ne by done; apply ow_cas0].
    by rewrite lookup_insert_eq.
  - intros t. rewrite ow_ran0. do 2 f_equal. unfold was_run. cbn. destruct (O !! t) as [[| |j| |]|] eqn:Ht; try done.
    destruct (decide (j = i)) as [->|Hj]; [|by rewrite lookup_insert_ne].
    apply ow_at0 in Ht as (x & Hx & Hx'). rewrite Hi in Hx. by injection Hx as <-.
  - intros _. right. left. lia.
Qed.

(** [tick()] begins. *)
Lemma own_tick O B C D p n :
  own O B C D p -> main p = MIdle -> own O B C D (set_main MCheck (set_posted n p)).
Proof.
  intros [] Hm. split; unfold back_ptr, drain_ptr in *; rewrite ?Hm in *; cbn; try done.
  - intros _. by apply ow_tail0.
  - intros _. by left.
  - intros _. by left.
Qed.

(** ** Taking the completed tasks *)

Lemma reverse_ok nx l : forall fuel prev curr acc,
  (length l <= fuel)%nat -> chain nx curr l -> chain nx prev acc -> NoDup (l ++ acc) ->
  exists nx', reverse fuel prev curr nx = Ok (hd_error (rev l ++ acc), nx') /\
    chain nx' (hd_error (rev l ++ acc)) (rev l ++ acc) /\ (forall t, t ∉ l -> nx' !! t = nx !! t) /\
    (forall t, is_Some (nx' !! t) <-> is_Some (nx !! t)).
Proof.
  revert nx. induction l as [|t l IH]; intros nx fuel prev curr acc Hf Hc Ha Hnd; cbn in Hc.
  - subst curr. assert (Hp : prev = hd_error acc) by (destruct acc; [done|]; by destruct Ha). cbn.
    destruct fuel; cbn; rewrite <- Hp; by exists nx.
  - destruct Hc as (-> & n & Hn & Hc). destruct fuel as [|fuel]; [cbn in Hf; lia|]. cbn in Hf. cbn [reverse].
    rewrite Hn. res_cbn. cbn in Hnd. apply NoDup_cons in Hnd as [Ht Hnd].
    destruct (IH (<[t := prev]> nx) fuel (Some t) n (t :: acc)) as (nx' & E & Hch & Hsame & Hdom).
    + lia.
    + apply chain_notin; [done|]. set_solver.
    + cbn. split; [done|]. exists prev. rewrite lookup_insert_eq. split; [done|]. apply chain_notin; [done|set_solver].
    + apply NoDup_app in Hnd as (? & ? & ?). apply NoDup_app. split_and!; [done| |].
      * intros x Hx [->|Hx']%elem_of_cons; [set_solver|set_solver].
      * apply NoDup_cons. split; [set_solver|done].
    + cbn [rev]. rewrite <- (app_assoc (rev l) [t] acc). cbn [app]. exists nx'. split_and!; [exact E|exact Hch| |].
      * intros u Hu. rewrite Hsame by set_solver. rewrite lookup_insert_ne by set_solver. done.
      * intros u. rewrite Hdom. destruct (decide (u = t)) as [->|Hu]; [|by rewrite lookup_insert_ne].
        rewrite lookup_insert_eq, Hn. split; by eexists.
Qed.

Definition drained_place (pl : place) : place := match pl with PCq => PDrain | pl => pl end.

Lemma own_live_size O B C D p : own O B C D p -> (length C <= size (next_ p))%nat.
Proof.
  intros Hown. destruct (ow_nodup _ _ _ _ _ Hown) as (_ & Hnd & _).
  rewrite <- size_dom. rewrite <- (size_list_to_set (C:=gset loc)) by done. apply subseteq_size.
  intros t Ht. apply elem_of_list_to_set in Ht. apply elem_of_dom. apply (ow_dom _ _ _ _ _ Hown).
  apply (ow_at _ _ _ _ _ Hown PCq) in Ht. by eexists.
Qed.

Lemma own_drain_start O B C p h :
  own O B C [] p -> main p = MCheck -> cqHead p = Some h ->
  exists nx', reverse (size (next_ p)) None (Some h) (next_ p) = Ok (hd_error (rev C), nx') /\
    own (drained_place <$> O) B [] (rev C) (set_main (MDrain (hd_error (rev C))) (set_next nx' (set_cqHead None p))).
Proof.
  intros Hown Hm Hh. pose proof (own_live_size O B C [] p Hown) as Hsize.
  pose proof (ow_cq _ _ _ _ _ Hown) as Hc. rewrite Hh in Hc. pose proof (ow_nodup _ _ _ _ _ Hown) as (HndB & HndC & _).
  destruct (reverse_ok (next_ p) C (size (next_ p)) None (Some h) [] Hsize Hc eq_refl) as (nx' & E & Hch & Hsame & Hdom);
    [by rewrite app_nil_r|]. rewrite app_nil_r in E, Hch. exists nx'. split; [done|].
  assert (HBC : forall t, t ∈ B -> t ∉ C).
  { intros t HtB HtC. destruct (own_lists O B C [] p t Hown) as (LB & LC & _). apply LB in HtB. apply LC in HtC. congruence. }
  assert (Hsome : forall t, is_Some ((drained_place <$> O) !! t) <-> is_Some (O !! t)) by (intros; by rewrite lookup_fmap, fmap_is_Some).
  destruct Hown. split; unfold back_ptr, drain_ptr in *; cbn; rewrite Hm in *; try done.
  - intros pl t. rewrite lookup_fmap.
    assert (Hx : forall pl', at_place B C [] p pl' t <-> O !! t = Some pl') by (intros; apply ow_at0).
    assert (Hnd : O !! t <> Some PDrain) by (intros H; apply ow_at0 in H; by apply elem_of_nil in H).
    destruct pl as [k| |j| |]; cbn.
    + rewrite (Hx (PSlot k)). destruct (O !! t) as [[]|]; cbn; split; congruence.
    + rewrite (Hx PBack). destruct (O !! t) as [[]|]; cbn; split; congruence.
    + rewrite (Hx (PWork j)). destruct (O !! t) as [[]|]; cbn; split; congruence.
    + split; [by intros ?%elem_of_nil|]. destruct (O !! t) as [[]|]; cbn; congruence.
    + rewrite list_elem_of_In, <- in_rev, <- list_elem_of_In, (Hx PCq). destruct (O !! t) as [[]|]; cbn; split; congruence.
  - intros t. by rewrite Hsome, Hdom.
  - split_and!; [done|constructor|]. by apply NoDup_ListNoDup, List.NoDup_rev, NoDup_ListNoDup.
  - clear -ow_back0 Hsame HBC. revert ow_back0. generalize (backoffSqHead p). induction B as [|b B IH]; intros o; cbn; [done|].
    intros (-> & n & Hn & Hl). split; [done|]. exists n. rewrite Hsame by (apply HBC; by left). split; [done|].
    apply IH; [|done]. intros t Ht. apply HBC. by right.
  - intros _. by apply ow_tail0.
  - intros i t x Hi. assert (Ho : O !! t = Some (PWork i)) by (apply ow_at0; by eexists).
    rewrite Hsame; [by apply (ow_cas0 i)|]. intros HtC. apply (ow_at0 PCq) in HtC. congruence.
  - intros t. rewrite ow_submitted0. do 2 f_equal. apply bool_decide_ext. symmetry. apply Hsome.
  - intros t. rewrite ow_ran0. do 2 f_equal. unfold was_run. cbn. rewrite lookup_fmap. by destruct (O !! t) as [[]|].
  - intros _. by left.
Qed.

(** The parent of a completed task is resumed, and the task destroyed. *)
Lemma own_resume O B C D p t n :
  own O B C (t :: D) p -> main p = MDrain (Some t) -> next_ p !! t = Some n ->
  own (delete t O) B C D (set_main (MDrain n) (set_resumed (resumed p ++ [t]) (set_next (delete t (next_ p)) p))).
Proof.
  intros Hown Hm Hn. destruct (own_lists O B C (t :: D) p t Hown) as (LB & LC & LD).
  assert (Ho : O !! t = Some PDrain) by (apply LD; by left). rewrite Ho in *.
  destruct Hown. destruct ow_nodup0 as (HndB & HndC & [HtD HndD]%NoDup_cons).
  split; unfold back_ptr, drain_ptr in *; cbn; rewrite Hm in *; try done.
  - intros pl u. destruct (decide (u = t)) as [->|Hu].
    + rewrite lookup_delete_eq. split; [|done]. intros H. destruct (decide (pl = PDrain)) as [->|Hpl]; [done|].
      assert (Hx : at_place B C (t :: D) p pl t) by (by destruct pl). apply ow_at0 in Hx. congruence.
    + rewrite lookup_delete_ne, <- ow_at0 by done. destruct pl; cbn; try done. set_solver.
  - intros u. destruct (decide (u = t)) as [->|Hu]; [rewrite !lookup_delete_eq; split; by intros []|].
    by rewrite !lookup_delete_ne.
  - apply chain_delete; [done|]. by rewrite LB.
  - intros _. by apply ow_tail0.
  - apply chain_delete; [done|]. by rewrite LC.
  - apply chain_delete; [|done]. destruct ow_drain0 as (_ & n' & Hn' & Hch). congruence.
  - intros i u h Hi. assert (Hou : O !! u = Some (PWork i)) by (apply ow_at0; by eexists).
    rewrite lookup_delete_ne by congruence. by apply (ow_cas0 i).
  - intros u. rewrite times_snoc, ow_submitted0. destruct (decide (u = t)) as [->|Hu].
    + rewrite lookup_delete_eq, Ho. rewrite (bool_decide_true (t = t)) by done. cbn. lia.
    + rewrite lookup_delete_ne, (bool_decide_false (t = u)) by done. cbn. lia.
  - intros u. rewrite times_snoc, ow_ran0. unfold was_run. cbn. destruct (decide (u = t)) as [->|Hu].
    + rewrite lookup_delete_eq, Ho. rewrite (bool_decide_true (t = t)) by done. cbn. lia.
    + rewrite lookup_delete_ne, (bool_decide_false (t = u)) by done. cbn. lia.
  - intros _. by left.
Qed.

(** ** Submitting the backoff queue *)

Lemma own_resubmit O B C D p t n k s :
  own O (t :: B) C D p -> main p = MSubmit (Some t) -> next_ p !! t = Some n -> sq p !! k = Some s -> slot_task s = None ->
  own (<[t := PSlot k]> O) B C D (set_main (MSubmit n) (pushed (ITask t) k s p)).
Proof.
  intros Hown Hm Hn Hs Hst. destruct (own_lists O (t :: B) C D p t Hown) as (LB & LC & LD).
  assert (Ho : O !! t = Some PBack) by (apply LB; by left). rewrite Ho in *.
  destruct Hown. destruct ow_nodup0 as ([HtB HndB]%NoDup_cons & HndC & HndD).
  split; unfold back_ptr, drain_ptr in *; cbn; rewrite Hm in *; try done.
  - intros pl u. destruct (decide (u = t)) as [->|Hu].
    + rewrite lookup_insert_eq. assert (Hx : forall pl', at_place (t :: B) C D p pl' t -> pl' = PBack).
      { intros pl' H. apply ow_at0 in H. congruence. }
      destruct pl as [k'| |j| |]; cbn; try (rewrite ?LC, ?LD; split; congruence).
      * destruct (decide (k' = k)) as [->|Hk]; [rewrite lookup_insert_eq; split; done|].
        rewrite lookup_insert_ne by done. split; [intros H; by specialize (Hx (PSlot k') H)|congruence].
      * split; [intros H; by specialize (Hx (PWork j) H)|done].
    + rewrite lookup_insert_ne, <- ow_at0 by done. destruct pl as [k'| |j| |]; cbn; try done; [|set_solver].
      destruct (decide (k' = k)) as [->|Hk]; [|by rewrite lookup_insert_ne]. rewrite lookup_insert_eq, Hs. cbn.
      rewrite Hst. split; congruence.
  - intros u. rewrite <- ow_dom0. destruct (decide (u = t)) as [->|Hu]; [|by rewrite lookup_insert_ne].
    rewrite lookup_insert_eq, Ho. split; by eexists.
  - destruct ow_back0 as (_ & n' & Hn' & Hch). congruence.
  - intros H. rewrite ow_tail0 by done. destruct B as [|b B]; [by destruct (H n eq_refl)|done].
  - intros u. rewrite ow_submitted0. destruct (decide (u = t)) as [->|Hu]; [|by rewrite lookup_insert_ne].
    rewrite lookup_insert_eq, Ho. do 2 f_equal.
  - intros u. rewrite ow_ran0. do 2 f_equal. destruct (decide (u = t)) as [->|Hu]; [|by rewrite lookup_insert_ne].
    by rewrite Ho, lookup_insert_eq.
  - intros _. by left.
Qed.

Lemma own_submit_stop O B C D p t :
  own O (t :: B) C D p -> main p = MSubmit (Some t) -> (exists u pl, O !! u = Some pl /\ pl <> PBack) ->
  own O (t :: B) C D (set_main MIdle (set_backoffSqHead (Some t) p)).
Proof.
  intros [] Hm Hx. split; unfold back_ptr, drain_ptr in *; cbn; rewrite Hm in *; try done.
  - intros _. by apply ow_tail0.
  - intros _. by right.
Qed.
Lemma own_submit_done O B C D p :
  own O B C D p -> main p = MSubmit None ->
  B = [] /\ own O B C D (set_main MIdle (set_backoffSqTail None (set_backoffSqHead None p))).
Proof.
  intros [] Hm. unfold back_ptr in ow_back0. rewrite Hm in ow_back0.
  assert (HB : B = []) by (destruct B; [done|]; by destruct ow_back0). subst B. split; [done|].
  split; unfold back_ptr, drain_ptr in *; cbn; rewrite Hm in *; try done.
Qed.

(** * Destruction *)

Definition exiting (m : mphase) : bool := match m with MExit _ | MGone => true | _ => false end.
Definition gone (w : wphase) : bool := bool_decide (w = WExit).
Definition exits (s : slot) : bool := bool_decide (slot_task s = Some IExit).

(** Before the destructor there is no [ExitRequest]; in it there is no task,
    and the requests pushed since index [np0] are still in their slots or have
    been taken by threads that are gone. *)
Record fin (e : Z) (np : nat) p : Prop := {
  fn_open : exiting (main p) = false -> countZ gone (threads p) = 0 /\ countZ exits (sq p) = 0;
  fn_none : exiting (main p) = true -> next_ p = ∅;
  fn_count n : main p = MExit n -> exists np0,
    Z.of_nat np - Z.of_nat np0 = Z.of_nat (size (threads p)) - Z.of_nat n /\ (n <= size (threads p))%nat /\
    (forall k, occ k p <= hits (2 ^ e) k np - hits (2 ^ e) k np0) /\
    countZ gone (threads p) + countZ full (sq p) = Z.of_nat (size (threads p)) - Z.of_nat n }.

(** A step of a worker that is neither the last nor takes anything. *)
Lemma fin_worker e np p p' i w w' :
  fin e np p -> threads p !! i = Some w -> gone w = gone w' -> threads p' = <[i := w']> (threads p) ->
  (forall k, occ k p' = occ k p) -> countZ full (sq p') = countZ full (sq p) -> countZ exits (sq p') = countZ exits (sq p) ->
  main p' = main p -> (next_ p = ∅ -> next_ p' = ∅) -> fin e np p'.
Proof.
  intros [] Hi Hw Ht Ho Hf He Hm Hn.
  assert (Hg : countZ gone (threads p') = countZ gone (threads p)).
  { rewrite Ht, (recount _ _ i w) by done. rewrite Hw. lia. }
  assert (Hs : size (threads p') = size (threads p)) by (rewrite Ht; by rewrite map_size_insert_Some by eauto).
  split; rewrite ?Hm, ?Hg, ?He, ?Hs, ?Hf; auto.
  intros n Hx. destruct (fn_count0 n Hx) as (np0 & ? & ? & Hocc & ?). exists np0. split_and!; try done.
  intros k. rewrite Ho. apply Hocc.
Qed.

Lemma exits_insert (m : gmap Z slot) k s s' :
  m !! k = Some s -> slot_task s' = slot_task s -> countZ exits (<[k:=s']> m) = countZ exits m.
Proof. intros Hk Hs. rewrite countZ_insert, Hk. cbn. unfold exits. rewrite Hs. lia. Qed.

(** ** The invariant of a pool *)

Definition inv (n0 : nat) p : Prop :=
  exists e nc np O B C D, sched e nc np p /\ own O B C D p /\ fin e np p /\ size (threads p) = n0.

(** A slot that holds a request to exit. *)
Lemma slot_exit e np p k s it :
  fin e np p -> exiting (main p) = false -> sq p !! k = Some s -> slot_task s = Some it -> exists t, it = ITask t.
Proof.
  intros [] Hm Hs Hit. destruct it as [t|]; [by exists t|]. destruct (fn_open0 Hm) as [_ H].
  pose proof (countZ_weight_le exits (sq p) k) as Hw. rewrite Hs in Hw. cbn in Hw.
  assert (Hx : exits s = true) by (unfold exits; by rewrite Hit). rewrite Hx in Hw. cbn in Hw. lia.
Qed.
Lemma slot_no_task O B C D p k s t :
  own O B C D p -> next_ p = ∅ -> sq p !! k = Some s -> slot_task s <> Some (ITask t).
Proof.
  intros Hown Hn Hs Ht. destruct (own_empty O B C D p Hown Hn) as (HO & _).
  assert (Hx : O !! t = Some (PSlot k)) by (apply (ow_at _ _ _ _ _ Hown (PSlot k)); cbn; by rewrite Hs; cbn; rewrite Ht).
  by rewrite HO, lookup_empty in Hx.
Qed.

(** A worker looks into its slot. *)
Lemma take_ok e nc np O B C D p i h w :
  sched e nc np p -> own O B C D p -> fin e np p -> threads p !! i = Some w -> w = WClaimed h \/ w = WSpin h ->
  exists O' p', try_take i h p = Ok p' /\ sched e nc np p' /\ own O' B C D p' /\ fin e np p' /\
    size (threads p') = size (threads p).
Proof.
  intros Hs Ho Hf Hi Hw. destruct (sched_slot e nc np p h Hs) as [s Es].
  assert (Hsl : slot_of h p = h mod 2 ^ e) by (unfold slot_of; by rewrite (sc_cap _ _ _ _ Hs)).
  assert (Hwn : holds w = None /\ w <> WPost /\ gone w = false /\ claim_of w = Some h) by (by destruct Hw as [-> | ->]).
  destruct Hwn as (Hw1 & Hw2 & Hw3 & Hw4).
  unfold try_take. rewrite Hsl, Es. res_cbn. destruct (slot_task s) as [it|] eqn:Et.
  - assert (Hfs : full s = true) by (unfold full; by rewrite Et).
    set (p0 := set_sq (<[h mod 2 ^ e := Slot None (dequeuing s)]> (sq p)) p).
    assert (Hfull : countZ full (sq p0) = countZ full (sq p) - 1).
    { unfold p0. cbn. rewrite countZ_insert, Es. cbn. rewrite Hfs. cbn. lia. }
    assert (Hocc : forall k, occ k p0 <= occ k p).
    { intros k. unfold p0, occ. cbn. destruct (decide (k = h mod 2 ^ e)) as [->|Hk]; [|by rewrite lookup_insert_ne].
      rewrite lookup_insert_eq, Es. cbn. destruct (full s); cbn; lia. }
    destruct it as [t|].
    + exists (<[t := PWork i]> O), (set_worker i (WRun t) p0). split; [done|]. split_and!.
      * by apply (sched_take e nc np p i h w (WRun t) s (ITask t)).
      * by apply (own_take O B C D p i w (h mod 2 ^ e) s t).
      * assert (Hm : exiting (main p) = false).
        { destruct (exiting (main p)) eqn:Em; [|done].
          by destruct (slot_no_task O B C D p _ s t Ho (fn_none _ _ _ Hf Em) Es). }
        destruct Hf. destruct (fn_open0 Hm) as [Hg He]. split; cbn.
        -- intros _. rewrite (recount _ _ i w), Hw3, countZ_insert, Es by done. cbn [weight].
           assert (Hx : exits s = false) by (unfold exits; by rewrite Et). rewrite Hx.
           change (gone (WRun t)) with false. change (exits (Slot None (dequeuing s))) with false. cbn. lia.
        -- congruence.
        -- intros n Hx. by rewrite Hx in Hm.
      * cbn. by rewrite map_size_insert_Some by eauto.
    + exists O, (set_worker i WExit p0). split; [done|]. split_and!.
      * by apply (sched_take e nc np p i h w WExit s IExit).
      * apply (own_ext O B C D (set_worker i WExit p)); try done; [by apply (own_phase O B C D p i w)|].
        intros k t. cbn. destruct (decide (k = h mod 2 ^ e)) as [->|Hk]; [|by rewrite lookup_insert_ne].
        rewrite lookup_insert_eq, Es. cbn. rewrite Et. split; congruence.
      * assert (Hm : exiting (main p) = true).
        { destruct (exiting (main p)) eqn:Em; [done|]. by destruct (slot_exit e np p _ s IExit Hf Em Es Et). }
        destruct Hf. split; cbn.
        -- congruence.
        -- done.
        -- intros n Hx. destruct (fn_count0 n Hx) as (np0 & ? & ? & Ho' & Hc). exists np0.
           rewrite map_size_insert_Some by eauto. split_and!; try done.
           ++ intros k. specialize (Hocc k). specialize (Ho' k). unfold occ in *. cbn in *. lia.
           ++ rewrite (recount _ _ i w), Hw3 by done. change (gone WExit) with true. cbn in *. lia.
      * cbn. by rewrite map_size_insert_Some by eauto.
  - assert (Hocc : occ (h mod 2 ^ e) p = 0) by (unfold occ, weight, full; by rewrite Es, Et).
    exists O, (set_worker i (WSpin h) p). split; [done|]. split_and!.
    + destruct Hw as [-> | ->]; [by apply sched_spin|]. by apply (sched_phase e nc np p i (WSpin h)).
    + by apply (own_phase O B C D p i w).
    + by apply (fin_worker e np p _ i w (WSpin h)).
    + cbn. by rewrite map_size_insert_Some by eauto.
Qed.

(** A worker's phase alone changes. *)
Lemma phase_ok e nc np O B C D p i w w' :
  sched e nc np p -> own O B C D p -> fin e np p -> threads p !! i = Some w ->
  claim_of w' = claim_of w -> nonfresh w' = nonfresh w -> asleep w' = asleep w -> gone w' = gone w ->
  holds w = None -> holds w' = None -> w <> WPost -> (forall h, w' = WBlocked h -> occ (h mod 2 ^ e) p = 0) ->
  inv (size (threads p)) (set_worker i w' p).
Proof.
  intros Hs Ho Hf Hi Hc Hn Ha Hg Hh Hh' Hp Hb. exists e, nc, np, O, B, C, D. split_and!.
  - by apply (sched_phase e nc np p i w).
  - by apply (own_phase O B C D p i w).
  - by apply (fin_worker e np p _ i w w').
  - cbn. by rewrite map_size_insert_Some by eauto.
Qed.

(** A worker with a task moves on. *)
Lemma carry_ok e nc np O B C D p i w w' t v :
  sched e nc np p -> own O B C D p -> fin e np p -> threads p !! i = Some w ->
  holds w = Some t -> holds w' = Some t -> (has_run w = true -> has_run w' = true) ->
  (forall h, w' = WCas t h -> v = h) ->
  inv (size (threads p)) (set_worker i w' (set_next (<[t := v]> (next_ p))
    (set_ran (if has_run w' && negb (has_run w) then ran p ++ [t] else ran p) p))).
Proof.
  intros Hs Ho Hf Hi Hh Hh' Hr Hv.
  destruct (own_work O B C D p i w t Ho Hi Hh) as (_ & _ & _ & _ & [x Hx]).
  exists e, nc, np, O, B, C, D. split_and!.
  - apply (sched_same e nc np (set_worker i w' p)); try done.
    apply (sched_phase e nc np p i w); try done; by destruct w, w'.
  - destruct (own_carry O B C D p i w w' t v) as [?|[H1 H2]]; try done. rewrite Hr in H2; done.
  - apply (fin_worker e np p _ i w w'); try done; [by destruct w, w'|].
    intros Hn. by rewrite Hn, lookup_empty in Hx.
  - cbn. by rewrite map_size_insert_Some by eauto.
Qed.

Lemma set_next_id p : set_next (next_ p) p = p.
Proof. by destruct p. Qed.
Lemma set_ran_id p : set_ran (ran p) p = p.
Proof. by destruct p. Qed.

Lemma dequeuing_ok e nc np O B C D p i h w w' :
  sched e nc np p -> own O B C D p -> fin e np p -> threads p !! i = Some w ->
  (w = WSpin h /\ w' = WDeq h) \/ (w = WWake h /\ w' = WSpin h) ->
  exists p', set_dequeuing (slot_of h p) (asleep w') p = Ok p' /\ inv (size (threads p)) (set_worker i w' p').
Proof.
  intros Hs Ho Hf Hi Hw. destruct (sched_slot e nc np p h Hs) as [s Es]. unfold set_dequeuing.
  assert (Hsl : slot_of h p = h mod 2 ^ e) by (unfold slot_of; by rewrite (sc_cap _ _ _ _ Hs)).
  rewrite Hsl, Es. res_cbn. eexists. split; [done|].
  set (s' := Slot (slot_task s) (asleep w')).
  assert (Hwn : holds w = None /\ holds w' = None /\ w <> WPost /\ gone w = gone w') by (by destruct Hw as [[-> ->]|[-> ->]]).
  destruct Hwn as (? & ? & ? & ?).
  exists e, nc, np, O, B, C, D. split_and!.
  - by apply (sched_dequeuing e nc np p i h w w' s).
  - apply (own_ext O B C D (set_worker i w' p)); try done; [by apply (own_phase O B C D p i w)|].
    intros k t. cbn. destruct (decide (k = h mod 2 ^ e)) as [->|Hk]; [|by rewrite lookup_insert_ne].
    by rewrite lookup_insert_eq, Es.
  - apply (fin_worker e np p _ i w w'); try done; cbn.
    + intros k. unfold occ. cbn. by apply (weight_insert _ _ _ s).
    + by apply (full_insert _ _ s).
    + by apply (exits_insert _ _ s).
  - cbn. by rewrite map_size_insert_Some by eauto.
Qed.

Lemma worker_ok n0 p i :
  inv n0 p -> is_Some (threads p !! i) -> exists p', worker i p = Ok p' /\ inv n0 p'.
Proof.
  intros (e & nc & np & O & B & C & D & Hs & Ho & Hf & Hn) [w Hi]. subst n0.
  assert (Hsl : forall h, slot_of h p = h mod 2 ^ e) by (intros; unfold slot_of; by rewrite (sc_cap _ _ _ _ Hs)).
  assert (Hsame : inv (size (threads p)) p) by (by exists e, nc, np, O, B, C, D).
  unfold worker, pop_step, cq_step. rewrite Hi. res_cbn.
  destruct w as [|h|h|h|h|h|t|t|t h| |].
  - eexists. split; [done|]. exists e, (S nc), np, O, B, C, D. split_and!.
    + by apply sched_claim.
    + apply (own_ext O B C D (set_worker i (WClaimed (sqHead p)) p)); try done. by apply (own_phase O B C D p i WIdle).
    + by apply (fin_worker e np p _ i WIdle (WClaimed (sqHead p))).
    + cbn. by rewrite map_size_insert_Some by eauto.
  - destruct (take_ok e nc np O B C D p i h _ Hs Ho Hf Hi) as (O' & p' & E & ? & ? & ? & ?); [by left|].
    exists p'. split; [exact E|]. by exists e, nc, np, O', B, C, D.
  - destruct (take_ok e nc np O B C D p i h _ Hs Ho Hf Hi) as (O' & p' & E & ? & ? & ? & ?); [by right|].
    exists p'. split; [exact E|]. by exists e, nc, np, O', B, C, D.
  - destruct (sched_slot e nc np p h Hs) as [s Es]. rewrite Hsl, Es. res_cbn. eexists. split; [done|].
    destruct (slot_task s) as [it|] eqn:Et; apply (phase_ok e nc np O B C D p i (WDeq h)); try done.
    intros h' [= <-]. unfold occ, weight, full. by rewrite Es, Et.
  - by exists p.
  - destruct (dequeuing_ok e nc np O B C D p i h (WWake h) (WSpin h) Hs Ho Hf Hi) as (p' & E & H); [by right|].
    cbn in E. rewrite E. res_cbn. by exists (set_worker i (WSpin h) p').
  - destruct (own_work O B C D p i _ t Ho Hi eq_refl) as (_ & _ & _ & _ & [x Hx]).
    eexists. split; [done|]. pose proof (carry_ok e nc np O B C D p i (WRun t) (WLoad t) t x Hs Ho Hf Hi) as H.
    rewrite (insert_id (next_ p)) in H by done. by apply H.
  - destruct (own_work O B C D p i _ t Ho Hi eq_refl) as (_ & _ & _ & _ & [x Hx]). rewrite Hx. res_cbn.
    eexists. split; [done|]. pose proof (carry_ok e nc np O B C D p i (WLoad t) (WCas t (cqHead p)) t (cqHead p) Hs Ho Hf Hi) as H.
    cbn [has_run negb andb] in H. rewrite set_ran_id in H. apply H; try done. by intros h [= ->].
  - destruct (bool_decide_reflect (cqHead p = h)) as [<-|Hne].
    + eexists. split; [done|]. set (w' := match cqHead p with None => WPost | Some _ => WIdle end).
      assert (Hwn : claim_of w' = None /\ nonfresh w' = false /\ asleep w' = false /\ gone w' = false /\ forall h, w' <> WBlocked h)
        by (unfold w'; by destruct (cqHead p)). destruct Hwn as (? & ? & ? & ? & Hb).
      exists e, nc, np, (<[t := PCq]> O), B, (t :: C), D. split_and!.
      * apply (sched_same e nc np (set_worker i w' p)); try done.
        apply (sched_phase e nc np p i (WCas t (cqHead p))); try done. intros h Hx. by destruct (Hb h).
      * by apply own_complete.
      * by apply (fin_worker e np p _ i (WCas t (cqHead p)) w').
      * cbn. by rewrite map_size_insert_Some by eauto.
    + destruct (own_work O B C D p i _ t Ho Hi eq_refl) as (_ & _ & _ & _ & [x Hx]).
      eexists. split; [done|]. pose proof (carry_ok e nc np O B C D p i (WCas t h) (WLoad t) t x Hs Ho Hf Hi) as H.
      rewrite (insert_id (next_ p)) in H by done. cbn [has_run negb andb] in H. rewrite set_ran_id, set_next_id in H.
      by apply H.
  - eexists. split; [done|]. exists e, nc, np, O, B, C, D. split_and!.
    + apply (sched_same e nc np (set_worker i WIdle p)); try done. by apply (sched_phase e nc np p i WPost).
    + by apply own_post.
    + by apply (fin_worker e np p _ i WPost WIdle).
    + cbn. by rewrite map_size_insert_Some by eauto.
  - by exists p.
Qed.

Lemma fall_asleep_ok n0 p i :
  inv n0 p -> is_Some (threads p !! i) -> exists p', fall_asleep i p = Ok p' /\ inv n0 p'.
Proof.
  intros Hinv [w Hi]. pose proof Hinv as (e & nc & np & O & B & C & D & Hs & Ho & Hf & Hn). subst n0.
  unfold fall_asleep. rewrite Hi. res_cbn. destruct w; try (by exists p).
  destruct (dequeuing_ok e nc np O B C D p i head (WSpin head) (WDeq head) Hs Ho Hf Hi) as (p' & E & H); [by left|].
  cbn in E. rewrite E. res_cbn. by exists (set_worker i (WDeq head) p').
Qed.

Lemma spurious_ok n0 p i :
  inv n0 p -> is_Some (threads p !! i) -> exists p', spurious i p = Ok p' /\ inv n0 p'.
Proof.
  intros Hinv [w Hi]. pose proof Hinv as (e & nc & np & O & B & C & D & Hs & Ho & Hf & Hn). subst n0.
  unfold spurious. rewrite Hi. res_cbn. destruct w; try (by exists p).
  destruct (own_work O B C D p i _ t Ho Hi eq_refl) as (_ & _ & _ & _ & [x Hx]).
  eexists. split; [done|]. pose proof (carry_ok e nc np O B C D p i (WCas t head) (WLoad t) t x Hs Ho Hf Hi) as H.
  rewrite (insert_id (next_ p)) in H by done. cbn [has_run negb andb] in H. rewrite set_ran_id, set_next_id in H.
  by apply H.
Qed.

Lemma tp_notify_ok n0 p k :
  inv n0 p -> sqNotify p = Some k -> exists p', finish_push k p = Ok p' /\ inv n0 p' /\ sqNotify p' = None.
Proof.
  intros (e & nc & np & O & B & C & D & Hs & Ho & Hf & Hn) Hk.
  destruct (sched_notify e nc np p k Hs Hk) as (p' & -> & Hs' & Hk' & Hp'). exists p'. split_and!; [done| |done].
  assert (Hx : forall q, own O B C D q -> fin e np q -> size (threads q) = n0 ->
    own O B C D (set_sqNotify None q) /\ fin e np (set_sqNotify None q) /\ size (threads (set_sqNotify None q)) = n0).
  { intros q Hq1 Hq2 Hq3. split_and!; [by apply (own_ext O B C D q)| |done]. by destruct Hq2. }
  exists e, nc, np, O, B, C, D. split; [done|]. destruct Hp' as [->|(i & h & Hi & ->)]; [by apply Hx|].
  apply Hx; [by apply (own_phase O B C D p i (WBlocked h))|by apply (fin_worker e np p _ i (WBlocked h) (WDeq h))|].
  cbn. by rewrite map_size_insert_Some by eauto.
Qed.

(** ** The main thread *)

Lemma push_run e nc np it p :
  sched e nc np p -> exists k s, k = slot_of (sqTail p) p /\ sq p !! k = Some s /\
    pushToSQ it p = Ok (match slot_task s with None => (true, pushed it k s p) | Some _ => (false, p) end).
Proof.
  intros Hs. exists (slot_of (sqTail p) p). pose proof (tail_slot e nc np p Hs) as Ek.
  destruct (sched_slot e nc np p (Stride * Z.of_nat np) Hs) as [s Es]. rewrite <- Ek in Es. exists s.
  split_and!; [done|done|]. unfold pushToSQ. rewrite Es. res_cbn. by destruct (slot_task s).
Qed.

Lemma fin_push e np p t k s m :
  fin e np p -> exiting (main p) = false -> exiting m = false -> sq p !! k = Some s -> slot_task s = None ->
  fin e (S np) (set_main m (pushed (ITask t) k s p)).
Proof.
  intros [] Hm Hm' Hs Hst. destruct (fn_open0 Hm) as [Hg He]. split; cbn.
  - intros _. split; [done|]. rewrite countZ_insert, Hs. cbn [weight].
    assert (Hx : exits s = false) by (unfold exits; by rewrite Hst). rewrite Hx.
    change (exits (Slot (Some (ITask t)) (dequeuing s))) with false. cbn. lia.
  - congruence.
  - intros n Hx. by rewrite Hx in Hm'.
Qed.
(** While the pool is open the main thread may do as it likes. *)
Lemma fin_open e np p p' :
  fin e np p -> exiting (main p) = false -> exiting (main p') = false -> threads p' = threads p -> sq p' = sq p -> fin e np p'.
Proof.
  intros [] Hm Hm' Ht Hs. split; rewrite ?Hm', ?Ht, ?Hs; auto; [congruence|]. intros n Hx. by rewrite Hx in Hm'.
Qed.
Lemma set_main_id p : set_main (main p) p = p.
Proof. by destruct p. Qed.

Lemma submit_ok n0 p t :
  inv n0 p -> enabled (Submit t) p = true -> exists p', await_suspend t p = Ok p' /\ inv n0 p'.
Proof.
  intros (e & nc & np & O & B & C & D & Hs & Ho & Hf & Hn) [[Hl Hk%bool_decide_eq_true]%andb_true_iff Ht%bool_decide_eq_true]%andb_true_iff.
  unfold await_suspend. rewrite bool_decide_true by done. res_cbn. fold (created t p).
  assert (Hm : exiting (main p) = false) by (unfold in_loop in Hl; by destruct (main p)).
  assert (Hs0 : sched e nc np (created t p)) by (by apply (sched_same e nc np p)).
  destruct (push_run e nc np (ITask t) (created t p) Hs0) as (k & s & Ek & Es & E). rewrite E. res_cbn.
  destruct (slot_task s) as [it|] eqn:Et.
  - destruct (slot_exit e np p k s it Hf Hm Es Et) as [u ->].
    destruct (own_submit_back O B C D p t Ho Ht) as (p' & E' & Ho' & H1 & H2 & H3 & H4 & H5 & H6 & H7).
    { intros o Hx. unfold in_loop in Hl. by rewrite Hx in Hl. }
    { exists u, (PSlot k). split; [|done]. apply (ow_at _ _ _ _ _ Ho (PSlot k)). cbn in *. by rewrite Es; cbn; rewrite Et. }
    exists p'. split; [exact E'|]. exists e, nc, np, (<[t := PBack]> O), (B ++ [t]), C, D. split_and!.
    + by apply (sched_same e nc np p).
    + done.
    + by apply (fin_open e np p); [..|congruence| |].
    + congruence.
  - eexists. split; [done|]. exists e, nc, (S np), (<[t := PSlot k]> O), B, C, D. split_and!.
    + by apply sched_push.
    + by apply own_submit_sq.
    + pose proof (fin_push e np (created t p) t k s (main p)) as Hx. rewrite <- (set_main_id (pushed _ _ _ _)).
      apply Hx; try done. by apply (fin_open e np p).
    + done.
Qed.

Lemma tick_ok n0 p : inv n0 p -> main p = MIdle -> exists p', tick p = Ok p' /\ inv n0 p'.
Proof.
  intros (e & nc & np & O & B & C & D & Hs & Ho & Hf & Hn) Hm. unfold tick. destruct (posted p) as [|n] eqn:Ep.
  { exists p. split; [done|]. by exists e, nc, np, O, B, C, D. }
  eexists. split; [done|]. exists e, nc, np, O, B, C, D. split_and!.
  - by apply (sched_same e nc np p).
  - by apply own_tick.
  - apply (fin_open e np p); try done. by rewrite Hm.
  - done.
Qed.

Lemma countZ_none `{Countable K} {V} (f : V -> bool) (m : gmap K V) : map_Forall (fun _ v => f v = false) m -> countZ f m = 0.
Proof.
  induction m as [|k v m Hk IH] using map_ind; intros H1; [done|].
  apply map_Forall_insert in H1 as [Hv Hm]; [|done]. rewrite countZ_insert_new, IH, Hv by done. done.
Qed.

Lemma shutdown_ok n0 p :
  inv n0 p -> enabled Shutdown p = true -> exists p', shutdown p = Ok p' /\ inv n0 p'.
Proof.
  intros (e & nc & np & O & B & C & D & Hs & Ho & Hf & Hn) [[Hl Hk]%andb_true_iff Hnx%bool_decide_eq_true]%andb_true_iff.
  destruct (own_empty O B C D p Ho Hnx) as (-> & -> & -> & ->).
  assert (Hm : exiting (main p) = false) by (unfold in_loop in Hl; by destruct (main p)).
  assert (Hb : backoffSqHead p = None /\ drain_ptr p = None /\ back_ptr p = backoffSqHead p).
  { pose proof (ow_back _ _ _ _ _ Ho) as H1. pose proof (ow_drain _ _ _ _ _ Ho) as H2.
    unfold back_ptr, drain_ptr, in_loop in *. by destruct (main p). }
  destruct Hb as (Hb & Hd & Hb'). unfold shutdown. rewrite Hb. res_cbn. eexists. split; [done|].
  assert (Hempty : forall k s, sq p !! k = Some s -> full s = false).
  { intros k s Es. unfold full. destruct (slot_task s) as [it|] eqn:Et; [|done].
    destruct (slot_exit e np p k s it Hf Hm Es Et) as [t ->]. by destruct (slot_no_task ∅ [] [] [] p k s t Ho Hnx Es). }
  exists e, nc, np, ∅, [], [], []. split_and!.
  - by apply (sched_same e nc np p).
  - apply own_main; try done. intros _ o Hx. unfold in_loop in Hl. by rewrite Hx in Hl.
  - destruct Hf. destruct (fn_open0 Hm) as [Hg He]. split; cbn; try done. intros n [= <-]. exists np. split_and!; try lia.
    + intros k. rewrite Z.sub_diag. unfold occ. cbn. destruct (sq p !! k) as [s|] eqn:Es; cbn; [|lia].
      by rewrite (Hempty k s Es).
    + rewrite Hg, (countZ_none full (sq p)); [lia|]. intros k s Es. by apply (Hempty k).
  - done.
Qed.

Lemma exit_step_ok e nc np O B C D p n :
  sched e nc np p -> own O B C D p -> fin e np p -> main p = MExit (S n) -> sqNotify p = None ->
  exists p', main_step p = Ok p' /\ inv (size (threads p)) p'.
Proof.
  intros Hs Ho Hf Hm Hk. pose proof (fn_none _ _ _ Hf ltac:(by rewrite Hm)) as Hnx.
  destruct (push_run e nc np IExit p Hs) as (k & s & Ek & Es & E). unfold main_step, drain_step, backoff_step, exit_step. rewrite Hm, E. res_cbn.
  destruct (fn_count _ _ _ Hf (S n) Hm) as (np0 & Hnp & Hle & Hocc & Hc).
  assert (Hst : slot_task s = None).
  { pose proof (hits_window e k np0 (S np) ltac:(by apply (sc_exp _ _ _ _ Hs))) as Hw. cbn [hits] in Hw.
    rewrite (tail_slot e nc np p Hs) in Ek. unfold falls_on in Hw. rewrite <- Ek, Z.eqb_refl in Hw. cbn in Hw.
    pose proof (sc_size _ _ _ _ Hs). specialize (Hw ltac:(lia)). specialize (Hocc k). unfold occ in Hocc. rewrite Es in Hocc.
    cbn in Hocc. unfold full in Hocc. destruct (slot_task s); [|done]. cbn in Hocc. lia. }
  rewrite Hst. res_cbn. eexists. split; [done|]. destruct (own_empty O B C D p Ho Hnx) as (-> & -> & -> & ->).
  exists e, nc, (S np), ∅, [], [], []. split_and!.
  - apply (sched_same e nc (S np) (pushed IExit k s p)); try done. by apply sched_push.
  - apply own_main; cbn; try done.
    + apply (own_ext ∅ [] [] [] p); try done. intros j t. cbn.
      destruct (decide (j = k)) as [->|Hj]; [|by rewrite lookup_insert_ne]. rewrite lookup_insert_eq, Es. cbn.
      rewrite Hst. split; congruence.
    + unfold back_ptr. cbn. by rewrite Hm.
    + unfold drain_ptr. cbn. by rewrite Hm.
    + rewrite Hm. done.
  - split; cbn; try done. intros m [= <-]. exists np0. split_and!; try lia.
    + intros j. specialize (Hocc j). unfold occ in *. cbn. unfold falls_on. rewrite <- (tail_slot e nc np p Hs), <- Ek.
      destruct (Z.eqb_spec k j) as [<-|Hj].
      * rewrite lookup_insert_eq. rewrite Es in Hocc. cbn in *. unfold full in Hocc. rewrite Hst in Hocc. cbn in *. lia.
      * rewrite lookup_insert_ne by done. cbn. lia.
    + rewrite countZ_insert, Es. cbn. unfold full at 2. rewrite Hst. cbn. lia.
  - done.
Qed.

Lemma all_gone_count (m : gmap positive wphase) :
  map_Forall (fun _ w => w = WExit) m -> countZ gone m = Z.of_nat (size m).
Proof.
  rewrite <- countZ_size. induction m as [|k w m Hk IH] using map_ind; intros Hall; [done|].
  apply map_Forall_insert in Hall as [-> Hm]; [|done]. rewrite !countZ_insert_new, IH by done. done.
Qed.

Lemma join_ok e nc np O B C D p :
  sched e nc np p -> own O B C D p -> fin e np p -> main p = MExit 0 ->
  exists p', main_step p = Ok p' /\ inv (size (threads p)) p'.
Proof.
  intros Hs Ho Hf Hm. pose proof (fn_none _ _ _ Hf ltac:(by rewrite Hm)) as Hnx. unfold main_step, drain_step, backoff_step, exit_step. rewrite Hm.
  unfold all_gone. destruct (bool_decide_reflect (map_Forall (fun _ w => w = WExit) (threads p))) as [Hall|?];
    [|exists p; split; [done|]; by exists e, nc, np, O, B, C, D].
  destruct (fn_count _ _ _ Hf 0 Hm) as (np0 & Hnp & Hle & Hocc & Hc).
  assert (Hg : countZ gone (threads p) = Z.of_nat (size (threads p))).
  { by apply all_gone_count. }
  assert (Hcl : countZ claiming (threads p) = 0).
  { apply countZ_none. intros k w Hw. by rewrite (Hall k w Hw). }
  assert (Heq : nc = np).
  { pose proof (sc_tot _ _ _ _ Hs). lia. }
  rewrite (sc_head _ _ _ _ Hs), (sc_tail _ _ _ _ Hs), Heq, Z.eqb_refl. res_cbn.
  destruct (own_empty O B C D p Ho Hnx) as (-> & -> & -> & ->).
  pose proof (ow_cq _ _ _ _ _ Ho) as Hcq. cbn in Hcq. rewrite Hcq. res_cbn. eexists. split; [done|].
  exists e, nc, np, ∅, [], [], []. split_and!.
  - by apply (sched_same e nc np p).
  - apply own_main; try done; [unfold back_ptr; cbn; by rewrite Hm|unfold drain_ptr; cbn; by rewrite Hm|by rewrite Hm].
  - by split.
  - done.
Qed.

Lemma chain_none nx l : chain nx None l -> l = [].
Proof. destruct l; [done|]. by intros [? _]. Qed.
Lemma chain_cons nx t l : chain nx (Some t) l -> exists n l', l = t :: l' /\ nx !! t = Some n /\ chain nx n l'.
Proof. destruct l as [|u l]; [done|]. intros ([= ->] & n & Hn & Hl). by exists n, l. Qed.

(** A step of the main thread that only [own] has to be told about. *)
Lemma main_only e nc np p n0 O B C D p' :
  sched e nc np p -> fin e np p -> size (threads p) = n0 -> exiting (main p) = false -> exiting (main p') = false ->
  sqCapacity p' = sqCapacity p -> sq p' = sq p -> sqHead p' = sqHead p -> sqTail p' = sqTail p ->
  sqNotify p' = sqNotify p -> threads p' = threads p -> own O B C D p' -> inv n0 p'.
Proof.
  intros Hs Hf Hn Hm Hm' H1 H2 H3 H4 H5 H6 Ho. exists e, nc, np, O, B, C, D. split_and!; [|done| |congruence].
  - by apply (sched_same e nc np p).
  - by apply (fin_open e np p).
Qed.

Lemma submit_step_ok e nc np O B C D p t :
  sched e nc np p -> own O B C D p -> fin e np p -> main p = MSubmit (Some t) -> sqNotify p = None ->
  exists p', main_step p = Ok p' /\ inv (size (threads p)) p'.
Proof.
  intros Hs Ho Hf Hm Hk. pose proof (ow_back _ _ _ _ _ Ho) as Hb. unfold back_ptr in Hb. rewrite Hm in Hb.
  destruct (chain_cons _ _ _ Hb) as (n & B' & -> & Hn & Hb'). unfold main_step, drain_step, backoff_step, exit_step. rewrite Hm, Hn. res_cbn.
  destruct (push_run e nc np (ITask t) p Hs) as (k & s & Ek & Es & ->). res_cbn.
  assert (He : exiting (main p) = false) by (by rewrite Hm). destruct (slot_task s) as [it|] eqn:Et.
  - eexists. split; [done|]. apply (main_only e nc np p (size (threads p)) O (t :: B') C D); try done.
    apply own_submit_stop; try done. destruct (slot_exit e np p k s it Hf He Es Et) as [u ->].
    exists u, (PSlot k). split; [|done]. apply (ow_at _ _ _ _ _ Ho (PSlot k)). cbn. by rewrite Es; cbn; rewrite Et.
  - eexists. split; [done|]. exists e, nc, (S np), (<[t := PSlot k]> O), B', C, D. split_and!.
    + apply (sched_same e nc (S np) (pushed (ITask t) k s p)); try done. by apply sched_push.
    + by apply own_resubmit.
    + by apply fin_push.
    + done.
Qed.

Lemma main_ok n0 p :
  inv n0 p -> sqNotify p = None -> exists p', main_step p = Ok p' /\ inv n0 p'.
Proof.
  intros Hinv Hk. pose proof Hinv as (e & nc & np & O & B & C & D & Hs & Ho & Hf & Hn). subst n0.
  pose proof (ow_drain _ _ _ _ _ Ho) as Hd. pose proof (ow_cq _ _ _ _ _ Ho) as Hc.
  pose proof (ow_back _ _ _ _ _ Ho) as Hb. unfold drain_ptr, back_ptr in Hd, Hb.
  destruct (main p) as [| |[t|]| |[t|]|[|n]|] eqn:Hm.
  - exists p. unfold main_step, drain_step, backoff_step, exit_step. by rewrite Hm.
  - apply chain_none in Hd as ->. unfold main_step, drain_step, backoff_step, exit_step. rewrite Hm. destruct (cqHead p) as [h|] eqn:Eh.
    + destruct (own_drain_start O B C p h Ho Hm Eh) as (nx' & -> & Ho'). res_cbn. eexists. split; [done|].
      apply (main_only e nc np p (size (threads p)) (drained_place <$> O) B [] (rev C)); try done. by rewrite Hm.
    + apply chain_none in Hc as ->. eexists. split; [done|].
      apply (main_only e nc np p (size (threads p)) O B [] []); try done; [by rewrite Hm|].
      apply own_main; try done; [unfold back_ptr; cbn; by rewrite Hm|unfold drain_ptr; cbn; by rewrite Hm|by rewrite Hm|].
      intros _ _. by left.
  - destruct (chain_cons _ _ _ Hd) as (n & D' & -> & Hn & _). unfold main_step, drain_step, backoff_step, exit_step. rewrite Hm, Hn. res_cbn.
    eexists. split; [done|]. apply (main_only e nc np p (size (threads p)) (delete t O) B C D'); try done; [by rewrite Hm|].
    by apply own_resume.
  - apply chain_none in Hd as ->. unfold main_step, drain_step, backoff_step, exit_step. rewrite Hm. eexists. split; [done|].
    apply (main_only e nc np p (size (threads p)) O B C []); try done; [by rewrite Hm|].
    apply own_main; try done; [unfold back_ptr; cbn; by rewrite Hm|unfold drain_ptr; cbn; by rewrite Hm|by rewrite Hm|].
    intros _ _. by left.
  - apply chain_none in Hd as ->. unfold main_step, drain_step, backoff_step, exit_step. rewrite Hm. eexists. split; [done|].
    apply (main_only e nc np p (size (threads p)) O B C []); try done; [by rewrite Hm|by destruct (backoffSqHead p)|].
    apply own_main; try done.
    + unfold back_ptr. cbn. rewrite Hm. by destruct (backoffSqHead p).
    + unfold drain_ptr. cbn. rewrite Hm. by destruct (backoffSqHead p).
    + by rewrite Hm.
    + by rewrite Hm.
    + intros HB _. destruct (backoffSqHead p); [by left|]. by apply chain_none in Hb.
  - by apply (submit_step_ok e nc np O B C D p t).
  - destruct (own_submit_done O B C D p Ho Hm) as [-> Ho']. unfold main_step, drain_step, backoff_step, exit_step. rewrite Hm. eexists. split; [done|].
    apply (main_only e nc np p (size (threads p)) O [] C D); try done. by rewrite Hm.
  - by apply (join_ok e nc np O B C D).
  - by apply (exit_step_ok e nc np O B C D p n).
  - exists p. unfold main_step, drain_step, backoff_step, exit_step. by rewrite Hm.
Qed.

(** ** Every step *)

Lemma pool_step_ok n0 p e :
  inv n0 p -> enabled e p = true -> exists p', pool_step e p = Ok p' /\ inv n0 p'.
Proof.
  intros Hinv He. destruct e as [t| | | |i|i|i|]; cbn [pool_step enabled] in *.
  - by apply submit_ok.
  - apply andb_true_iff in He as [Hm%bool_decide_eq_true _]. by apply tick_ok.
  - apply bool_decide_eq_true in He. by apply main_ok.
  - destruct (sqNotify p) as [k|] eqn:Ek; [|by exists p].
    destruct (tp_notify_ok n0 p k Hinv Ek) as (p' & ? & ? & _). by exists p'.
  - apply bool_decide_eq_true in He. by apply worker_ok.
  - apply bool_decide_eq_true in He. by apply fall_asleep_ok.
  - apply bool_decide_eq_true in He. by apply spurious_ok.
  - by apply shutdown_ok.
Qed.

(** ** A new pool *)

Lemma capacity_pow n :
  (1 <= n)%nat -> Z.of_nat n <= 2 ^ 22 -> exists e, 0 <= e <= 64 /\ capacity_for (Z.of_nat n) = 2 ^ e /\ Z.of_nat n <= 2 ^ e.
Proof.
  intros Hn Hmax. unfold capacity_for, bit_ceil. set (l := Z.log2_up (Z.of_nat n)).
  assert (Hl : 0 <= l <= 22).
  { split; [apply Z.log2_up_nonneg|]. rewrite <- (Z.log2_up_pow2 22) by lia. by apply Z.log2_up_le_mono. }
  assert (Hlow : Z.of_nat n <= 2 ^ l).
  { destruct (Z.eq_dec (Z.of_nat n) 1) as [->|Hne]; [assert (2 ^ 0 <= 2 ^ l) by (apply Z.pow_le_mono_r; lia); lia|].
    apply Z.log2_up_spec. lia. }
  assert (E : 2 ^ l * 512 = 2 ^ (l + 9)) by (rewrite Z.pow_add_r by lia; reflexivity).
  exists (l + 9). rewrite E. split; [lia|]. split.
  - apply Z.mod_small. split; [lia|]. apply Z.pow_lt_mono_r; lia.
  - rewrite <- E. lia.
Qed.

Lemma new_threads_lookup n i w : new_threads n !! i = Some w -> w = WIdle.
Proof.
  unfold new_threads. intros H%elem_of_list_to_map_2. apply list_elem_of_fmap in H as (k & [= -> ->] & _). done.
Qed.
Lemma new_threads_size n : size (new_threads n) = n.
Proof.
  unfold new_threads. rewrite map_size_list_to_map; [by rewrite length_fmap, length_seq|].
  rewrite <- list_fmap_compose. apply NoDup_fmap_2; [|apply NoDup_seq]. intros x y; cbn. lia.
Qed.
Lemma new_slots_lookup cap k s : new_slots cap !! k = Some s -> s = Slot None false.
Proof. unfold new_slots. by intros [_ <-]%lookup_gset_to_gmap_Some. Qed.

Lemma new_slots_dom cap k : is_Some (new_slots cap !! k) <-> 0 <= k < cap.
Proof.
  unfold new_slots. rewrite <- elem_of_dom, dom_gset_to_gmap, elem_of_list_to_set, elem_of_seqZ. lia.
Qed.

Lemma new_pool_inv n p :
  Z.of_nat n <= 2 ^ 22 -> new_pool n = Some p -> inv n p /\ main p = MIdle /\ sqNotify p = None.
Proof.
  unfold new_pool. destruct (bool_decide_reflect (n = 0%nat)) as [|Hne]; [done|]. intros Hmax [= <-].
  split; [|done]. destruct (capacity_pow n) as (e & He & Ec & Hcap); [lia|done|].
  assert (Hocc : forall k, weight full (new_slots (2 ^ e) !! k) = 0).
  { intros k. destruct (new_slots (2 ^ e) !! k) as [s|] eqn:Es; [|done]. by rewrite (new_slots_lookup _ _ _ Es). }
  assert (Hz : forall f, f WIdle = false -> countZ f (new_threads n) = 0).
  { intros f Hf. apply countZ_none. intros i w Hw. by rewrite (new_threads_lookup n i w Hw). }
  assert (Hf : countZ full (new_slots (2 ^ e)) = 0).
  { apply countZ_none. intros k s Hs. by rewrite (new_slots_lookup _ _ _ Hs). }
  exists e, 0%nat, 0%nat, ∅, [], [], []. rewrite Ec. split_and!.
  - split; unfold occ; cbn; try done.
    + rewrite new_threads_size. done.
    + intros k. apply new_slots_dom.
    + intros k. by rewrite Hz, Hocc.
    + by rewrite Hz, Hf.
    + intros k. by rewrite Hz.
    + intros k s Hs. rewrite (new_slots_lookup _ _ _ Hs), Hz; done.
    + intros i h Hi. by apply new_threads_lookup in Hi.
  - split; cbn; try done.
    + intros pl t. rewrite lookup_empty. split; [|done]. destruct pl; cbn; try by intros ?%elem_of_nil.
      * destruct (new_slots (2 ^ e) !! k) as [s|] eqn:Es; [|done]. by rewrite (new_slots_lookup _ _ _ Es).
      * intros (w & Hw & Hh). by rewrite (new_threads_lookup n i w Hw) in Hh.
    + intros t. by rewrite !lookup_empty.
    + split_and!; apply NoDup_nil_2.
    + intros i t h Hi. by apply new_threads_lookup in Hi.
  - split; cbn; try done. intros _. split; [by apply Hz|]. apply countZ_none. intros k s Hs.
    by rewrite (new_slots_lookup _ _ _ Hs).
  - apply new_threads_size.
Qed.

Lemma tp_reach_inv n p0 p : Z.of_nat n <= 2 ^ 22 -> new_pool n = Some p0 -> reach p0 p -> inv n p.
Proof.
  intros Hn Hp0. induction 1 as [|p e p' _ IH He E]; [by apply new_pool_inv|].
  destruct (pool_step_ok n p e (IH) He) as (p'' & E' & ?). rewrite E in E'. by injection E' as ->.
Qed.

(** * Properties *)

Section Pool.
Context (n : nat) (p0 : pool) (Hmax : Z.of_nat n <= 2 ^ 22) (Hnew : new_pool n = Some p0).

(** C23. Whatever the workers and the main thread do, and in
    whatever order their steps interleave, no step fails: no task is used after
    its awaiter was resumed, no slot outside the array is touched, every list
    that is walked ends; and the destructor finds room for an [ExitRequest] for
    every thread, every request taken by the time the threads are gone, and
    nothing left on the completion stack. *)
Theorem pool_never_fails p e : reach p0 p -> enabled e p = true -> exists p', pool_step e p = Ok p'.
Proof.
  intros Hr He. destruct (pool_step_ok n p e (tp_reach_inv n p0 p Hmax Hnew Hr) He) as (p' & E & _). by exists p'.
Qed.

(** C21. Every task that was submitted is run at most
    once, and its awaiter resumed at most once, after it has been run; once the
    task is gone it has been run, and its awaiter resumed, exactly once.  (Counted
    per address, since an address may be used again.) *)
Theorem pool_runs_each_task_once p t :
  reach p0 p ->
  (times t (resumed p) <= times t (ran p) <= times t (submitted p))%nat /\
  (times t (submitted p) <= S (times t (resumed p)))%nat /\
  (next_ p !! t = None -> times t (resumed p) = times t (submitted p) /\ times t (ran p) = times t (submitted p)).
Proof.
  intros Hr. destruct (tp_reach_inv n p0 p Hmax Hnew Hr) as (e & nc & np & O & B & C & D & _ & Ho & _).
  pose proof (ow_submitted _ _ _ _ _ Ho t) as Hs. pose proof (ow_ran _ _ _ _ _ Ho t) as Hra.
  pose proof (ow_dom _ _ _ _ _ Ho t) as Hd. destruct (O !! t) as [pl|].
  - rewrite bool_decide_true in Hs by done. cbn in Hs. destruct (was_run p (Some pl)); cbn in Hra.
    all: split_and!; try lia; intros Hn; rewrite Hn in Hd; destruct Hd as [Hd _]; by destruct Hd as [? Hd].
  - rewrite bool_decide_false in Hs by (by intros [? ?]). cbn in Hs, Hra. split_and!; lia.
Qed.

Lemma pool_size p : reach p0 p -> size (threads p) = n /\ n <> 0%nat.
Proof.
  intros Hr. destruct (tp_reach_inv n p0 p Hmax Hnew Hr) as (e & nc & np & O & B & C & D & _ & _ & _ & Hs).
  split; [done|]. intros ->. unfold new_pool in Hnew. by rewrite bool_decide_true in Hnew.
Qed.

(** The threads that are not asleep for good. *)
Definition awake (w : wphase) : bool := match w with WBlocked _ | WExit => false | _ => true end.

Lemma slot_served p k s it :
  reach p0 p -> sqNotify p = None -> main p <> MGone -> sq p !! k = Some s -> slot_task s = Some it ->
  (forall i h, threads p !! i = Some (WBlocked h) -> slot_of h p <> k) /\
  exists i w, threads p !! i = Some w /\ awake w = true.
Proof.
  intros Hr Hk Hm Es Et. destruct (tp_reach_inv n p0 p Hmax Hnew Hr) as (e & nc & np & O & B & C & D & Hs & Ho & Hf & _).
  destruct (pool_size p Hr) as [Hsize Hn].
  assert (Hocc : occ k p = 1) by (unfold occ, weight, full; by rewrite Es, Et).
  assert (Hsl : forall h, slot_of h p = h mod 2 ^ e) by (intros; unfold slot_of; by rewrite (sc_cap _ _ _ _ Hs)).
  assert (Hno : forall i h, threads p !! i = Some (WBlocked h) -> slot_of h p <> k).
  { intros i h Hi E. rewrite Hsl in E. pose proof (sc_block _ _ _ _ Hs i h Hi) as Hx. rewrite E in Hx.
    specialize (Hx Hocc). congruence. }
  split; [done|].
  destruct (decide (map_Exists (fun _ w => awake w = true) (threads p))) as [(i & w & Hi & Hw)|Hall]; [by exists i, w|].
  assert (Hasl : forall i w, threads p !! i = Some w -> (exists h, w = WBlocked h) \/ w = WExit).
  { intros i w Hi. destruct w as [| | | |h| | | | | |]; try (destruct Hall; by eexists _, _); [left; by exists h|by right]. }
  exfalso. clear Hall.
  assert (Hlt : (nc < np)%nat).
  { pose proof (sc_bal _ _ _ _ Hs k) as Hb. rewrite Hocc, (countZ_none (claims (2 ^ e) k)) in Hb.
    - destruct (Nat.lt_ge_cases nc np) as [|Hge]; [done|]. pose proof (hits_mono (2 ^ e) k np nc Hge). lia.
    - intros i w Hi. destruct (Hasl i w Hi) as [[h ->]| ->]; [|done]. unfold claims. cbn. apply Z.eqb_neq.
      rewrite <- Hsl. by apply (Hno i). }
  assert (Hfull : 1 <= countZ full (sq p)).
  { pose proof (countZ_weight_le full (sq p) k). unfold occ in Hocc. lia. }
  destruct (decide (map_Exists (fun _ w => w <> WExit) (threads p))) as [(i & w & Hi & Hw)|Hnb].
  - destruct (Hasl i w Hi) as [[h ->]| ->]; [|done]. pose proof (sc_bal _ _ _ _ Hs (h mod 2 ^ e)) as Hb.
    assert (Hc : 1 <= countZ (claims (2 ^ e) (h mod 2 ^ e)) (threads p)).
    { apply (count_one _ _ i (WBlocked h) Hi). unfold claims. cbn. apply Z.eqb_refl. }
    destruct (occ_range (h mod 2 ^ e) p) as [H0|H1].
    + pose proof (hits_mono (2 ^ e) (h mod 2 ^ e) nc np ltac:(lia)). lia.
    + pose proof (sc_block _ _ _ _ Hs i h Hi H1). congruence.
  - assert (Hg : countZ gone (threads p) = Z.of_nat n).
    { rewrite <- Hsize. apply all_gone_count. intros i w Hi. destruct (decide (w = WExit)) as [|Hw]; [done|].
      destruct Hnb. by exists i, w. }
    destruct (exiting (main p)) eqn:Em; [|destruct (fn_open _ _ _ Hf Em); lia].
    destruct (main p) as [| | | | |m|] eqn:Emp; try done.
    destruct (fn_count _ _ _ Hf m Emp) as (np1 & _ & _ & _ & Hc). lia.
Qed.

(** C22. No worker sleeps on a slot that has a task, once the
    push has been seen through, and while any slot has one some worker is awake.
    While any task is left there is something to do: a worker is awake, a
    [tick()] has been posted or is running, or a push is to be seen through; in
    particular a task that was completed, or that waits for room, is never
    forgotten. *)
Theorem pool_no_lost_wakeup p :
  reach p0 p -> main p <> MGone ->
  (forall k s it, sqNotify p = None -> sq p !! k = Some s -> slot_task s = Some it ->
     (forall i h, threads p !! i = Some (WBlocked h) -> slot_of h p <> k) /\
     exists i w, threads p !! i = Some w /\ awake w = true) /\
  (cqHead p <> None -> draining (main p) = true \/ (0 < posted p)%nat \/ exists i, threads p !! i = Some WPost) /\
  (next_ p <> ∅ -> in_tick (main p) = true \/ (0 < posted p)%nat \/ sqNotify p <> None \/
     exists i w, threads p !! i = Some w /\ awake w = true).
Proof.
  intros Hr Hm. split; [by intros; apply (slot_served p k s it)|].
  destruct (tp_reach_inv n p0 p Hmax Hnew Hr) as (e & nc & np & O & B & C & D & Hs & Ho & Hf & _).
  assert (Hcq : C <> [] -> draining (main p) = true \/ (0 < posted p)%nat \/ exists i, threads p !! i = Some WPost)
    by apply (ow_notice _ _ _ _ _ Ho).
  split.
  { intros Hh. apply Hcq. intros ->. pose proof (ow_cq _ _ _ _ _ Ho) as H. cbn in H. congruence. }
  assert (Hdrain : draining (main p) = true -> in_tick (main p) = true) by (by destruct (main p)).
  assert (Hlive : forall t pl, O !! t = Some pl -> pl <> PBack -> in_tick (main p) = true \/ (0 < posted p)%nat \/
    sqNotify p <> None \/ exists i w, threads p !! i = Some w /\ awake w = true).
  { intros t pl Hpl Hb. pose proof (proj2 (ow_at _ _ _ _ _ Ho pl t) Hpl) as Hat. destruct pl as [k| |i| |]; cbn in Hat; [|done|..].
    - destruct (sqNotify p) eqn:Ek; [right; right; by left|]. right. right. right.
      destruct (sq p !! k) as [s|] eqn:Es; [|done]. cbn in Hat. injection Hat as Et. by apply (slot_served p k s (ITask t)).
    - destruct Hat as (w & Hi & Hh). right. right. right. exists i, w. split; [done|]. by destruct w.
    - destruct Hcq as [?|[?|[i Hi]]]; [by intros ->; apply elem_of_nil in Hat|by left; auto|by right; left|].
      right. right. right. by exists i, WPost.
    - left. pose proof (ow_drain _ _ _ _ _ Ho) as Hd. unfold drain_ptr in Hd.
      destruct (main p) eqn:Em; try done; apply chain_none in Hd; subst D; by apply elem_of_nil in Hat. }
  intros (t & x & Ht)%map_choose. destruct (proj2 (ow_dom _ _ _ _ _ Ho t)) as [pl Hpl]; [by eexists|].
  destruct (decide (pl = PBack)) as [->|Hb]; [|by apply (Hlive t pl)].
  destruct (ow_flight _ _ _ _ _ Ho) as [?|(u & pl & Hu & Hb)]; [|by left|by apply (Hlive u pl)].
  intros ->. apply (ow_at _ _ _ _ _ Ho PBack) in Hpl. by apply elem_of_nil in Hpl.
Qed.
End Pool.

(** A query of the cancellation token answers whether the
    cancellation was requested before it; and the awaiter goes without the
    task's result exactly if, after the request, the task queried the token or
    consumed the cancellation. *)
Theorem token_confirms os bs st :
  Token.once os -> Token.run os Token.None = (bs, st) ->
  Token.await_must_resume st = negb (Token.taken false os) /\
  forall k, os !! k = Some Token.Query \/ os !! k = Some Token.Peek ->
    bs !! k = Some (bool_decide (Token.Cancel ∈ take k os)).
Proof.
  set (req st := match st with Token.None => false | _ => true end).
  set (conf st := match st with Token.Confirmed => true | _ => false end).
  enough (H : forall os st0 bs st, (req st0 = true -> Token.Cancel ∉ os) -> Token.once os -> Token.run os st0 = (bs, st) ->
    Token.await_must_resume st = negb (conf st0 || Token.taken (req st0) os) /\
    forall k, os !! k = Some Token.Query \/ os !! k = Some Token.Peek ->
      bs !! k = Some (req st0 || bool_decide (Token.Cancel ∈ take k os))).
  { intros Ho E. destruct (H os Token.None bs st) as [H1 H2]; [done..|]. split; [done|]. intros k Hk. by rewrite (H2 k Hk). }
  clear os bs st. induction os as [|o os IH]; intros st0 bs st Hreq Ho E; cbn [Token.run Token.taken] in *.
  - injection E as <- <-. split; [by destruct st0|]. intros k [Hk|Hk]; by rewrite lookup_nil in Hk.
  - destruct (Token.exec o st0) as [b st1] eqn:Ex. destruct (Token.run os st1) as [bs1 st2] eqn:Er. injection E as <- <-.
    assert (Hreq' : req st1 = true -> Token.Cancel ∉ os).
    { intros Hr. destruct (decide (o = Token.Cancel)) as [->|Hne].
      - unfold Token.once in Ho. rewrite filter_cons_True in Ho by done. cbn in Ho. intros Hin.
        assert (Hx : Token.Cancel ∈ filter (fun o => o = Token.Cancel) os) by (by apply list_elem_of_filter).
        destruct (filter (fun o => o = Token.Cancel) os); [by apply elem_of_nil in Hx|cbn in Ho; lia].
      - intros Hin. apply Hreq; [|by right]. by destruct o, st0; injection Ex as <- <-. }
    assert (Ho' : Token.once os).
    { unfold Token.once in *. rewrite filter_cons in Ho. destruct (decide (o = Token.Cancel)); cbn in Ho; lia. }
    destruct (IH st1 bs1 st2 Hreq' Ho' Er) as [H1 H2]. split.
    + rewrite H1. clear -Ex Hreq. destruct o, st0; injection Ex as <- <-; cbn; try done. destruct (Hreq eq_refl). by left.
    + intros [|k] Hk; cbn in Hk.
      * cbn. rewrite (bool_decide_false (Token.Cancel ∈ [])) by set_solver. rewrite orb_false_r. f_equal.
        clear -Ex Hk. by destruct Hk as [[= ->]|[= ->]], st0; injection Ex as <- <-.
      * change ((b :: bs1) !! S k) with (bs1 !! k). rewrite (H2 k Hk). f_equal.
        change (take (S k) (o :: os)) with (o :: take k os). clear -Ex Hreq. destruct (decide (o = Token.Cancel)) as [->|Hne].
        -- rewrite (bool_decide_true (Token.Cancel ∈ Token.Cancel :: take k os)) by set_solver.
           injection Ex as <- <-. cbn. by rewrite orb_true_r.
        -- rewrite (bool_decide_ext (Token.Cancel ∈ o :: take k os) (Token.Cancel ∈ take k os)) by set_solver.
           f_equal. by destruct o, st0; injection Ex as <- <-.
Qed.

(** ** A pool of one thread that runs a task, sleeps, runs another, and goes *)

Definition small_pool : pool :=
  match new_pool 1 with Some p => p | None => Pool 0 ∅ 0 0 None None None None ∅ ∅ MIdle 0 [] [] [] end.
Fixpoint run_events (es : list event) p : res pool :=
  match es with [] => Ok p | e :: es => corral_assert (enabled e p);; p ← pool_step e p; run_events es p end.
Definition pool_after (es : list event) : pool := match run_events es small_pool with Ok p => p | Fault _ => small_pool end.

Definition work (k : nat) : list event := repeat (Work 1) k.
Definition first_task : list event := Submit 5 :: Notify :: work 6 ++ [Tick; Main; Main; Main; Main; Main].
Definition second_task : list event :=
  [Work 1; Work 1; GiveUp 1; Work 1; Submit 6] ++ [Notify] ++ work 7 ++ [Tick; Main; Main].
Definition ending : list event := [Shutdown; Main; Notify] ++ work 2 ++ [Main].

Lemma pool_run_reach es : forall p p', reach small_pool p -> run_events es p = Ok p' -> reach small_pool p'.
Proof.
  induction es as [|e es IH]; intros p p' Hp; cbn [run_events]; [by intros [= ->]|].
  destruct (enabled e p) eqn:He; res_cbn; [|done]. destruct (pool_step e p) as [p1|] eqn:E; res_cbn; [|done].
  apply IH. by apply (reach_next small_pool p e p1).
Qed.
Lemma pool_after_reach es : is_ok (run_events es small_pool) = true -> reach small_pool (pool_after es).
Proof.
  intros H. unfold pool_after. destruct (run_events es small_pool) as [p|] eqn:E; [|done].
  apply (pool_run_reach es small_pool p); [constructor|done].
Qed.
Lemma small_pool_new : new_pool 1 = Some small_pool.
Proof. reflexivity. Qed.

Lemma pool_never_fails_witness :
  enabled Shutdown (pool_after (first_task ++ second_task)) = true /\
  exists p', pool_step Shutdown (pool_after (first_task ++ second_task)) = Ok p'.
Proof.
  assert (H : enabled Shutdown (pool_after (first_task ++ second_task)) = true) by (vm_compute; reflexivity).
  split; [exact H|]. refine (pool_never_fails 1 small_pool _ small_pool_new _ _ _ H); [lia|].
  apply pool_after_reach. vm_compute. reflexivity.
Defined.

Lemma pool_runs_each_task_once_witness :
  ran (pool_after (first_task ++ second_task ++ ending)) = [5; 6]%positive /\
  main (pool_after (first_task ++ second_task ++ ending)) = MGone /\
  times 6 (resumed (pool_after (first_task ++ second_task ++ ending))) =
    times 6 (submitted (pool_after (first_task ++ second_task ++ ending))).
Proof.
  split; [vm_compute; reflexivity|]. split; [vm_compute; reflexivity|].
  refine (proj1 (proj2 (proj2 (pool_runs_each_task_once 1 small_pool _ small_pool_new _ 6 _)) _)); [lia| |].
  - apply pool_after_reach. vm_compute. reflexivity.
  - vm_compute. reflexivity.
Defined.

Lemma pool_no_lost_wakeup_witness :
  threads (pool_after (first_task ++ [Work 1; Work 1; GiveUp 1; Work 1]%positive)) !! 1%positive = Some (WBlocked 7) /\
  exists i w, threads (pool_after (first_task ++ [Work 1; Work 1; GiveUp 1; Work 1; Submit 6; Notify]%positive)) !! i = Some w /\
    awake w = true.
Proof.
  split; [vm_compute; reflexivity|].
  refine (proj2 (proj1 (pool_no_lost_wakeup 1 small_pool _ small_pool_new _ _ _) 7 (Slot (Some (ITask 6)) true) (ITask 6) _ _ _));
    [lia| |vm_compute; discriminate|vm_compute; reflexivity|vm_compute; reflexivity|reflexivity].
  apply pool_after_reach. vm_compute. reflexivity.
Defined.

Lemma token_confirms_witness :
  Token.run [Token.Query; Token.Cancel; Token.Peek; Token.Query] Token.None = ([false; false; true; true], Token.Confirmed) /\
  Token.await_must_resume Token.Confirmed = false.
Proof.
  split; [reflexivity|].
  refine (proj1 (token_confirms [Token.Query; Token.Cancel; Token.Peek; Token.Query] _ _ _ _)); [|reflexivity].
  unfold Token.once. vm_compute. lia.
Defined.
