(* ===== verification/Value.v ===== *)
(** [Value.h]: a variable that wakes tasks when it changes.

    [vstate] is a [Value<T>] with the awaiters that exist, the lists that calls
    of [modify()] in progress are walking (innermost first: each has moved
    [parked_] to a local variable) and the log of resumed coroutines.  Inside an
    executor a resumption is only scheduled; outside, the coroutine runs on the
    spot and may do anything to the value before [modify()] goes on: [react]
    says what.  [fuel] bounds the nesting of calls and the length of the walks. *)
From S2P Require Export Waker.

(** * The value and its awaiters *)

Section Value.
Context {T : Type}.

(** [UntilMatches], [UntilChanged] and [Comparison::Awaiter], with their predicates. *)
Inductive condition := UntilMatches (fn : T -> bool) | UntilChanged (fn : T -> T -> bool) | Comparison (fn : T -> bool).
Inductive yielded := YValue (v : T) | YChange (from to : T) | YVoid.

(** [AwaiterBase]: [handle_], and [result_] of the derived class. *)
Record awaiter := Awaiter { a_cond : condition; a_handle : handle; a_result : option yielded }.

Record vstate := VState {
  value_ : T; parked_ : list loc; walking : list (list loc); awaiters : gmap loc awaiter; woken : list loc }.
Implicit Types (s : vstate) (a : loc).

Definition set_value (v : T) s : vstate := VState v (parked_ s) (walking s) (awaiters s) (woken s).
Definition set_parked (l : list loc) s : vstate := VState (value_ s) l (walking s) (awaiters s) (woken s).
Definition set_walking (l : list (list loc)) s : vstate := VState (value_ s) (parked_ s) l (awaiters s) (woken s).
Definition set_awaiter a (w : awaiter) s : vstate := VState (value_ s) (parked_ s) (walking s) (<[a := w]> (awaiters s)) (woken s).
Definition wake (h : handle) s : vstate := VState (value_ s) (parked_ s) (walking s) (awaiters s) (woken s ++ handle_coro h).

(** [Value(value)], [get()] *)
Definition new_value (v : T) : vstate := VState v [] [] ∅ [].
Definition get s : T := value_ s.

(** ** Awaiters *)

(** [untilMatches(fn)] tests the value at once; [untilChanged(fn)] and
    [until(comparison)] do not. *)
Definition untilMatches a (fn : T -> bool) s : vstate :=
  set_awaiter a (Awaiter (UntilMatches fn) Noop (if fn (value_ s) then Some (YValue (value_ s)) else None)) s.
Definition untilChanged a (fn : T -> T -> bool) s : vstate := set_awaiter a (Awaiter (UntilChanged fn) Noop None) s.
Definition until a (fn : T -> bool) s : vstate := set_awaiter a (Awaiter (Comparison fn) Noop None) s.
(** [untilEquals(v)], [untilChanged()] and [untilChanged(from, to)] *)
Definition untilEquals `{!EqDecision T} a (v : T) s : vstate := untilMatches a (fun x => bool_decide (x = v)) s.
Definition untilAnyChange `{!EqDecision T} a s : vstate := untilChanged a (fun f t => bool_decide (f <> t)) s.
Definition untilChangedTo `{!EqDecision T} a (from to : T) s : vstate :=
  untilChanged a (fun f t => bool_decide (f = from) && bool_decide (t = to)) s.
(** [makeComparison(fn)] read as [bool], and its negation *)
Definition comparison (fn : T -> bool) s : bool := fn (value_ s).
Definition comparison_not (fn : T -> bool) : T -> bool := fun v => negb (fn v).

Definition await_ready a s : res bool :=
  w ← deref (awaiters s !! a);
  Ok match a_cond w with
     | UntilMatches _ => bool_decide (is_Some (a_result w))
     | UntilChanged _ => false
     | Comparison fn => fn (value_ s)
     end.
Definition await_suspend a (h : handle) s : res vstate :=
  w ← deref (awaiters s !! a);
  Ok (set_parked (parked_ s ++ [a]) (set_awaiter a (Awaiter (a_cond w) h (a_result w)) s)).
Definition await_cancel a s : bool * vstate :=
  (true, set_parked (without a (parked_ s)) (set_walking (without a <$> walking s) s)).
Definition await_resume a s : res yielded :=
  w ← deref (awaiters s !! a);
  match a_cond w with
  | Comparison _ => Ok YVoid
  | _ => deref (a_result w)
  end.

(** [co_await] of a new awaiter: whether the task goes on without suspending. *)
Definition construct a (c : condition) s : vstate :=
  match c with
  | UntilMatches fn => untilMatches a fn s
  | UntilChanged fn => untilChanged a fn s
  | Comparison fn => until a fn s
  end.
Definition co_await a (c : condition) (h : handle) s : res (bool * vstate) :=
  let s := construct a c s in
  r ← await_ready a s;
  if r : bool then Ok (true, s) else s ← await_suspend a h s; Ok (false, s).

(** [matches(from, to)]: the result it stores, if it does. *)
Definition matches (c : condition) (from to : T) : option yielded :=
  match c with
  | UntilMatches fn => if fn to then Some (YValue to) else None
  | UntilChanged fn => if fn from to then Some (YChange from to) else None
  | Comparison fn => if fn to then Some YVoid else None
  end.

(** ** Assignment *)

(** What a task may do when it is resumed on the spot. *)
Inductive action := AModify (fn : T -> T) | AAwait a (w : condition) (h : handle) | ACancel a.

Section React.
Context (react : loc -> list action).

(** [modify(fn)]; the walk over the awaiters that were parked, with
    [onChanged(from, to)] for each; and what a resumed task does. *)
Fixpoint modify (fuel : nat) (fn : T -> T) s : res (T * vstate) :=
  match fuel with
  | O => Fault OutOfFuel
  | S fuel =>
      let prev := value_ s in
      let value := fn prev in
      let s := set_value value s in
      s ← walk fuel prev value (set_walking (parked_ s :: walking s) (set_parked [] s));
      Ok (value, set_walking (tail (walking s)) s)
  end
with walk (fuel : nat) (from to : T) s : res vstate :=
  match fuel with
  | O => Fault OutOfFuel
  | S fuel =>
      match walking s with
      | [] => Fault BadAccess
      | [] :: _ => Ok s
      | (a :: l) :: ls =>
          let s := set_walking (l :: ls) s in
          w ← deref (awaiters s !! a);
          match matches (a_cond w) from to with
          | Some r =>
              let s := set_awaiter a (Awaiter (a_cond w) (a_handle w) (Some r)) s in
              s ← acts fuel (handle_coro (a_handle w) ≫= react) (wake (a_handle w) s);
              walk fuel from to s
          | None => walk fuel from to (set_parked (parked_ s ++ [a]) s)
          end
      end
  end
with acts (fuel : nat) (l : list action) s : res vstate :=
  match fuel with
  | O => Fault OutOfFuel
  | S fuel =>
      match l with
      | [] => Ok s
      | x :: l =>
          s ← match x with
              | AModify fn => '(_, s) ← modify fuel fn s; Ok s
              | AAwait a c h => if awaiters s !! a then Ok s else '(_, s) ← co_await a c h s; Ok s
              | ACancel a => Ok (await_cancel a s).2
              end;
          acts fuel l s
      end
  end.

(** [set(value)], [operator=]; the arithmetic operators: [op] stands for [++],
    [+=] and so on, the postfix forms give the old value. *)
Definition set (fuel : nat) (v : T) s : res vstate := '(_, s) ← modify fuel (fun _ => v) s; Ok s.
Definition assign_op (fuel : nat) (op : T -> T) s : res (T * vstate) := modify fuel op s.
Definition postfix_op (fuel : nat) (op : T -> T) s : res (T * vstate) :=
  let ret := value_ s in '(_, s) ← modify fuel op s; Ok (ret, s).
End React.
End Value.
Arguments condition T : clear implicits.
Arguments awaiter T : clear implicits.
Arguments vstate T : clear implicits.
Arguments yielded T : clear implicits.
Arguments action T : clear implicits.

(** * What the awaiters get *)

Section Laws.
Context {T : Type}.
Implicit Types (s : vstate T) (a : loc).

(** A result that satisfies the condition it was awaited with. *)
Definition satisfies (c : condition T) (r : yielded T) : Prop :=
  match c, r with
  | UntilMatches fn, YValue v => fn v = true
  | UntilChanged fn, YChange f t => fn f t = true
  | Comparison _, YVoid => True
  | _, _ => False
  end.

(** Every awaiter that waits is in one list, once, and has no result yet. *)
Record value_ok s : Prop := {
  vo_nodup : NoDup (parked_ s ++ concat (walking s));
  vo_parked a : a ∈ parked_ s ++ concat (walking s) -> exists w, awaiters s !! a = Some w /\ a_result w = None;
  vo_result a w r : awaiters s !! a = Some w -> a_result w = Some r -> satisfies (a_cond w) r }.

Lemma matches_satisfies (c : condition T) f t r : matches c f t = Some r -> satisfies c r.
Proof. destruct c; cbn; by case_match; intros [= <-]. Qed.

(** The walks in progress only lose awaiters. *)
Definition shrunk (ls ls' : list (list loc)) : Prop := Forall2 (fun l l' => l' `sublist_of` l) ls ls'.
Lemma shrunk_refl ls : shrunk ls ls.
Proof. induction ls as [|l ls IH]; constructor; [reflexivity|done]. Qed.
Lemma shrunk_trans l1 l2 l3 : shrunk l1 l2 -> shrunk l2 l3 -> shrunk l1 l3.
Proof.
  intros H. revert l3. induction H as [|x y l1 l2 Hxy H IH]; intros l3 H3; inversion H3; subst; constructor; [|by apply IH].
  by etrans.
Qed.
Lemma shrunk_without a ls : shrunk ls (without a <$> ls).
Proof. induction ls as [|l ls IH]; constructor; [apply without_sublist|done]. Qed.

Lemma concat_without a (ls : list (list loc)) : concat (without a <$> ls) = without a (concat ls).
Proof. induction ls as [|l ls IH]; [done|]. cbn. by rewrite IH, without_app. Qed.

Lemma value_ok_cancel a s : value_ok s -> value_ok (await_cancel a s).2.
Proof.
  intros []. split; cbn; rewrite ?concat_without, <- ?without_app.
  - by apply NoDup_without.
  - intros b [Hb _]%elem_without. by apply vo_parked0.
  - done.
Qed.

Lemma value_ok_set_result a w r s :
  value_ok s -> a ∉ parked_ s ++ concat (walking s) -> satisfies (a_cond w) r ->
  value_ok (set_awaiter a (Awaiter (a_cond w) (a_handle w) (Some r)) s).
Proof.
  intros [] Ha Hr. split; cbn; [done|..].
  - intros b Hb. rewrite lookup_insert_ne by (intros ->; done). by apply vo_parked0.
  - intros b w' r'. destruct (decide (b = a)) as [->|Hb]; [|rewrite lookup_insert_ne by done; apply vo_result0].
    rewrite lookup_insert_eq. intros [= <-] [= <-]. done.
Qed.

Lemma value_ok_await a c h s :
  value_ok s -> awaiters s !! a = None -> exists b s', co_await a c h s = Ok (b, s') /\ value_ok s' /\
    walking s' = walking s /\ value_ s' = value_ s.
Proof.
  intros Hok Ha. assert (Hn : a ∉ parked_ s ++ concat (walking s)).
  { intros Hin. destruct (vo_parked s Hok a Hin) as (w & Hw & _). congruence. }
  assert (Hpark : forall w, a_result w = None -> value_ok (set_parked (parked_ s ++ [a]) (set_awaiter a w s))).
  { intros w Hw. destruct Hok. split; cbn.
    - rewrite <- app_assoc. cbn. apply NoDup_app in vo_nodup0 as (? & Hd & ?). apply NoDup_app. split_and!; [done| |].
      + intros b Hb [->|Hc]%elem_of_cons; [set_solver|]. by apply (Hd b).
      + apply NoDup_cons. split; [set_solver|done].
    - intros b Hb. destruct (decide (b = a)) as [->|Hne]; [exists w; by rewrite lookup_insert_eq|].
      rewrite lookup_insert_ne by done. apply vo_parked0. set_solver.
    - intros b w' r. destruct (decide (b = a)) as [->|Hb]; [|rewrite lookup_insert_ne by done; apply vo_result0].
      rewrite lookup_insert_eq. intros [= <-]. congruence. }
  unfold co_await, await_ready, await_suspend.
  assert (Hready : forall w, (forall r, a_result w = Some r -> satisfies (a_cond w) r) -> value_ok (set_awaiter a w s)).
  { intros w Hw. destruct Hok. split; cbn; [done|..].
    - intros b Hb. rewrite lookup_insert_ne by (intros ->; done). by apply vo_parked0.
    - intros b w' r. destruct (decide (b = a)) as [->|Hb]; [|rewrite lookup_insert_ne by done; apply vo_result0].
      rewrite lookup_insert_eq. intros [= <-]. apply Hw. }
  assert (Hset : forall w w' l, set_parked l (set_awaiter a w (set_awaiter a w' s)) = set_parked l (set_awaiter a w s)).
  { intros w w' l. unfold set_awaiter, set_parked. cbn. by rewrite insert_insert_eq. }
  destruct c as [fn|fn|fn]; cbn [construct]; unfold untilMatches, untilChanged, until.
  - cbn [awaiters set_awaiter]. rewrite lookup_insert_eq. res_cbn. cbn [a_cond a_result].
    destruct (fn (value_ s)) eqn:Ef.
    + rewrite bool_decide_true by done. eexists _, _. split; [done|]. split_and!; [|done..].
      apply Hready. by intros r [= <-].
    + rewrite bool_decide_false by (by intros [? ?]). eexists _, _. split; [done|]. rewrite Hset. split_and!; [|done..]. by apply Hpark.
  - cbn [awaiters set_awaiter]. rewrite lookup_insert_eq. res_cbn. cbn [a_cond a_result].
    eexists _, _. split; [done|]. rewrite Hset. split_and!; [|done..]. by apply Hpark.
  - cbn [awaiters set_awaiter]. rewrite lookup_insert_eq. res_cbn. cbn [a_cond a_result].
    destruct (fn (value_ s)) eqn:Ef; cbn [value_ set_awaiter]; rewrite Ef.
    + eexists _, _. split; [done|]. split_and!; [|done..]. by apply Hready.
    + eexists _, _. split; [done|]. rewrite Hset. split_and!; [|done..]. by apply Hpark.
Qed.

Definition fine {A} (P : A -> Prop) (m : res A) : Prop := match m with Ok x => P x | Fault f => f = OutOfFuel end.
Lemma fine_bind {A B} (P : A -> Prop) (Q : B -> Prop) (m : res A) (k : A -> res B) :
  fine P m -> (forall x, P x -> fine Q (k x)) -> fine Q (m ≫= k).
Proof. destruct m as [x|f]; cbn; [by intros H1 H2; apply H2|done]. Qed.

(** Popping the next awaiter of the innermost walk. *)
Lemma value_ok_pop a l ls s :
  value_ok s -> walking s = (a :: l) :: ls ->
  value_ok (set_walking (l :: ls) s) /\ a ∉ parked_ s ++ concat (l :: ls) /\
  exists w, awaiters s !! a = Some w /\ a_result w = None.
Proof.
  intros [] Hw. rewrite Hw in *. cbn in *.
  assert (Hperm : parked_ s ++ a :: l ++ concat ls ≡ₚ a :: parked_ s ++ l ++ concat ls) by (symmetry; apply Permutation_middle).
  rewrite Hperm in vo_nodup0. apply NoDup_cons in vo_nodup0 as [Ha Hnd]. split_and!; [|done|].
  - split; cbn; [done| |done]. intros b Hb. apply vo_parked0. rewrite Hperm. by right.
  - apply vo_parked0. rewrite Hperm. by left.
Qed.

Lemma value_ok_park a w s :
  value_ok s -> a ∉ parked_ s ++ concat (walking s) -> awaiters s !! a = Some w -> a_result w = None ->
  value_ok (set_parked (parked_ s ++ [a]) s).
Proof.
  intros [] Ha Hw Hr. assert (Hperm : (parked_ s ++ [a]) ++ concat (walking s) ≡ₚ a :: parked_ s ++ concat (walking s)).
  { rewrite <- app_assoc. cbn. symmetry. apply Permutation_middle. }
  split; cbn; rewrite ?Hperm; [by apply NoDup_cons| |done].
  intros b Hb. rewrite Hperm in Hb. apply elem_of_cons in Hb as [->|Hb]; [by exists w|by apply vo_parked0].
Qed.

Section Any.
Context (react : loc -> list (action T)).

(** However resumed tasks interfere, nothing goes wrong (but for recursion
    without end), and whoever has a result has one that satisfies its condition. *)
Lemma walks_ok fuel :
  (forall fn s, value_ok s ->
     fine (fun vs => vs.1 = fn (value_ s) /\ value_ok vs.2 /\ shrunk (walking s) (walking vs.2)) (modify react fuel fn s)) /\
  (forall f t l ls s, value_ok s -> walking s = l :: ls ->
     fine (fun s' => value_ok s' /\ exists ls', walking s' = [] :: ls' /\ shrunk ls ls') (walk react fuel f t s)) /\
  (forall xs s, value_ok s -> fine (fun s' => value_ok s' /\ shrunk (walking s) (walking s')) (acts react fuel xs s)).
Proof.
  induction fuel as [|fuel (IHm & IHw & IHa)]; [done|]. split_and!.
  - intros fn s Hs. cbn [modify]. set (s0 := set_walking _ _).
    assert (Hs0 : value_ok s0) by (destruct Hs; by split).
    eapply fine_bind; [by apply (IHw (value_ s) (fn (value_ s)) (parked_ s) (walking s))|].
    intros s' (Hok & ls' & Hw & Hsh). cbn. rewrite Hw. split_and!; [done| |done].
    destruct Hok. rewrite Hw in *. by split.
  - intros f t l ls s Hs Hw. cbn [walk]. rewrite Hw. destruct l as [|a l].
    { split; [done|]. exists ls. split; [done|apply shrunk_refl]. }
    destruct (value_ok_pop a l ls s Hs Hw) as (Hs1 & Ha & w & Hwa & Hr). set (s1 := set_walking (l :: ls) s) in *.
    change (awaiters s1) with (awaiters s). rewrite Hwa. res_cbn. destruct (matches (a_cond w) f t) as [r|] eqn:Em.
    + set (s2 := set_awaiter a (Awaiter (a_cond w) (a_handle w) (Some r)) s1).
      assert (Hs2 : value_ok (wake (a_handle w) s2)).
      { destruct (value_ok_set_result a w r s1 Hs1 Ha (matches_satisfies _ _ _ _ Em)). by split. }
      eapply fine_bind; [by apply IHa|]. intros s3 [Hs3 Hsh]. inversion Hsh as [|x l' y ls' _ Hls E1 E2]; subst.
      specialize (IHw f t l' ls' s3 Hs3 (eq_sym E2)). destruct (walk react fuel f t s3) as [s4|]; [|done].
      destruct IHw as (Hs4 & ls4 & E4 & Hsh4). split; [done|]. exists ls4. split; [done|].
      by apply (shrunk_trans _ ls').
    + apply (IHw f t l ls); [|done]. by apply (value_ok_park a w).
  - intros xs s Hs. cbn [acts]. destruct xs as [|x xs]; [split; [done|apply shrunk_refl]|].
    assert (Hnext : forall s1, value_ok s1 -> shrunk (walking s) (walking s1) ->
      fine (fun s' => value_ok s' /\ shrunk (walking s) (walking s')) (acts react fuel xs s1)).
    { intros s1 H1 Hsh. specialize (IHa xs s1 H1). destruct (acts react fuel xs s1) as [s2|]; [|done].
      destruct IHa as [? ?]. split; [done|]. by eapply shrunk_trans. }
    destruct x as [fn|a c h|a].
    + eapply (fine_bind (fun s1 => value_ok s1 /\ shrunk (walking s) (walking s1))); [|intros s1 [H1 Hsh]; by apply (Hnext s1)].
      eapply fine_bind; [by apply (IHm fn s)|]. intros [v s1] (_ & H1 & Hsh). by split.
    + destruct (awaiters s !! a) eqn:Ea; [res_cbn; apply Hnext; [done|apply shrunk_refl]|].
      destruct (value_ok_await a c h s Hs Ea) as (b & s1 & -> & H1 & Hw1 & _). res_cbn. apply Hnext; [done|].
      rewrite Hw1. apply shrunk_refl.
    + res_cbn. apply Hnext; [by apply value_ok_cancel|apply shrunk_without].
Qed.
End Any.

(** ** Inside an executor *)

(** Resuming a task only schedules it. *)
Definition deferred : loc -> list (action T) := fun _ => [].

Definition tested (f t : T) (m : gmap loc (awaiter T)) a : option (yielded T) :=
  w ← m !! a; matches (a_cond w) f t.
Definition give (f t : T) a (m : gmap loc (awaiter T)) : gmap loc (awaiter T) :=
  match m !! a with
  | Some w => match matches (a_cond w) f t with
              | Some r => <[a := Awaiter (a_cond w) (a_handle w) (Some r)]> m
              | None => m
              end
  | None => m
  end.
Definition handle_at (m : gmap loc (awaiter T)) a : list loc :=
  match m !! a with Some w => handle_coro (a_handle w) | None => [] end.
Definition hits (f t : T) (m : gmap loc (awaiter T)) (l : list loc) : list loc :=
  filter (fun a => is_Some (tested f t m a)) l.
Definition misses (f t : T) (m : gmap loc (awaiter T)) (l : list loc) : list loc :=
  filter (fun a => ~ is_Some (tested f t m a)) l.

Lemma give_other f t a b m : a <> b -> give f t a m !! b = m !! b.
Proof.
  intros Hab. unfold give. destruct (m !! a) as [w|]; [|done]. destruct (matches (a_cond w) f t); [|done].
  by rewrite lookup_insert_ne.
Qed.
Lemma give_cond f t a b m w : give f t a m !! b = Some w -> exists w0, m !! b = Some w0 /\ a_cond w = a_cond w0 /\ a_handle w = a_handle w0.
Proof.
  intros Hb. destruct (decide (a = b)) as [<-|Hab]; [|rewrite give_other in Hb by done; by exists w].
  unfold give in Hb. destruct (m !! a) as [w0|] eqn:Ea; [|congruence]. exists w0. split; [done|].
  destruct (matches (a_cond w0) f t); [rewrite lookup_insert_eq in Hb; by injection Hb as <-|].
  rewrite Ea in Hb. by injection Hb as <-.
Qed.

Lemma filter_same {A} (P Q : A -> Prop) `{!forall x, Decision (P x)} `{!forall x, Decision (Q x)} (l : list A) :
  (forall x, x ∈ l -> P x <-> Q x) -> filter P l = filter Q l.
Proof.
  induction l as [|x l IH]; intros Hx; [done|]. rewrite !filter_cons. specialize (IH ltac:(intros; apply Hx; by right)).
  specialize (Hx x ltac:(by left)). rewrite IH. by repeat case_decide; try tauto.
Qed.

(** Telling one awaiter does not change what the others see. *)
Lemma give_rest f t a m l :
  a ∉ l -> misses f t (give f t a m) l = misses f t m l /\ hits f t (give f t a m) l = hits f t m l /\
  (hits f t m l ≫= handle_at (give f t a m)) = (hits f t m l ≫= handle_at m).
Proof.
  intros Ha. assert (Hl : forall b, b ∈ l -> give f t a m !! b = m !! b) by (intros b Hb; apply give_other; by intros <-).
  assert (Ht : forall b, b ∈ l -> tested f t (give f t a m) b = tested f t m b) by (intros b Hb; unfold tested; by rewrite Hl).
  split_and!; [apply filter_same; intros b Hb; by rewrite Ht..|].
  assert (Hsub : forall b, b ∈ hits f t m l -> b ∈ l) by (by intros b [_ Hb]%list_elem_of_filter).
  revert Hsub. generalize (hits f t m l). induction l0 as [|b l0 IH0]; intros Hsub; [done|]. cbn.
  rewrite IH0 by (intros c Hc; apply Hsub; by right). f_equal. unfold handle_at. by rewrite Hl by (apply Hsub; by left).
Qed.

Lemma walk_deferred f t l : forall fuel s ls,
  (length l < fuel)%nat -> walking s = l :: ls -> NoDup l -> (forall a, a ∈ l -> is_Some (awaiters s !! a)) ->
  walk deferred fuel f t s =
    Ok (VState (value_ s) (parked_ s ++ misses f t (awaiters s) l) ([] :: ls)
          (foldl (fun m a => give f t a m) (awaiters s) l) (woken s ++ (hits f t (awaiters s) l ≫= handle_at (awaiters s)))).
Proof.
  induction l as [|a l IH]; intros fuel s ls Hf Hw Hnd Hin; (destruct fuel as [|fuel]; [cbn in Hf; lia|]); cbn [walk]; rewrite Hw.
  - unfold misses, hits. cbn. rewrite !app_nil_r. f_equal. destruct s; cbn in *. by rewrite Hw.
  - apply NoDup_cons in Hnd as [Ha Hnd]. destruct (Hin a ltac:(by left)) as [w Hwa]. cbn [length] in Hf.
    change (awaiters (set_walking (l :: ls) s)) with (awaiters s). rewrite Hwa. res_cbn.
    destruct (give_rest f t a (awaiters s) l Ha) as (Hm & Hh & Hhh).
    assert (Ht : tested f t (awaiters s) a = matches (a_cond w) f t) by (unfold tested; by rewrite Hwa).
    assert (Hg : give f t a (awaiters s) = match matches (a_cond w) f t with
        Some r => <[a := Awaiter (a_cond w) (a_handle w) (Some r)]> (awaiters s) | None => awaiters s end)
      by (unfold give; by rewrite Hwa).
    assert (Hin' : forall b, b ∈ l -> is_Some (give f t a (awaiters s) !! b)).
    { intros b Hb. rewrite give_other by (by intros <-). apply Hin. by right. }
    unfold misses, hits in *. rewrite !filter_cons, Ht. cbn [foldl].
    destruct (matches (a_cond w) f t) as [r|] eqn:Em.
    + rewrite (decide_False (P := ~ is_Some (Some r))) by (intros H; apply H; by eexists).
      rewrite (decide_True (P := is_Some (Some r))) by (by eexists).
      assert (Ea : forall st, acts deferred fuel (handle_coro (a_handle w) ≫= deferred) st = if fuel then Fault OutOfFuel else Ok st).
      { intros st. by destruct fuel, (a_handle w). }
      rewrite Ea. destruct fuel as [|fuel]; [lia|]. res_cbn.
      replace (wake (a_handle w) (set_awaiter a (Awaiter (a_cond w) (a_handle w) (Some r)) (set_walking (l :: ls) s)))
        with (VState (value_ s) (parked_ s) (l :: ls) (give f t a (awaiters s)) (woken s ++ handle_coro (a_handle w)))
        by (rewrite Hg; reflexivity).
      rewrite (IH (S fuel) _ ls); [|cbn; lia|done|done|done].
      cbn [value_ parked_ awaiters woken]. rewrite Hm, Hh, Hhh. do 2 f_equal.
      cbn. rewrite <- app_assoc. f_equal. unfold handle_at at 2. by rewrite Hwa.
    + rewrite (decide_True (P := ~ is_Some None)) by (by intros [? ?]).
      rewrite (decide_False (P := is_Some None)) by (by intros [? ?]).
      rewrite (IH fuel _ ls); [|lia|done|done|]; cbn [value_ parked_ awaiters woken set_parked set_walking].
      * rewrite Hg. rewrite <- app_assoc. done.
      * intros b Hb. apply Hin. by right.
Qed.

Lemma modify_deferred fn s fuel :
  value_ok s -> (S (length (parked_ s)) < fuel)%nat ->
  modify deferred fuel fn s =
    Ok (fn (value_ s), VState (fn (value_ s)) (misses (value_ s) (fn (value_ s)) (awaiters s) (parked_ s)) (walking s)
      (foldl (fun m a => give (value_ s) (fn (value_ s)) a m) (awaiters s) (parked_ s))
      (woken s ++ (hits (value_ s) (fn (value_ s)) (awaiters s) (parked_ s) ≫= handle_at (awaiters s)))).
Proof.
  intros [] Hf. destruct fuel as [|fuel]; [lia|]. cbn [modify].
  rewrite (walk_deferred _ _ (parked_ s) fuel _ (walking s)); [done|lia|done| |].
  - by apply NoDup_app in vo_nodup0 as (? & _).
  - intros a Ha. destruct (vo_parked0 a) as (w & Hw & _); [set_solver|]. cbn. by rewrite Hw.
Qed.

Lemma give_self f t a m :
  give f t a m !! a = (w ← m !! a; Some match matches (a_cond w) f t with Some r => Awaiter (a_cond w) (a_handle w) (Some r) | None => w end).
Proof.
  unfold give. destruct (m !! a) as [w|] eqn:Ea; cbn; [|done].
  destruct (matches (a_cond w) f t); [by rewrite lookup_insert_eq|done].
Qed.
Lemma fold_give f t l : forall m a,
  NoDup l -> foldl (fun m a => give f t a m) m l !! a = if decide (a ∈ l) then give f t a m !! a else m !! a.
Proof.
  induction l as [|b l IH]; intros m a Hnd; cbn [foldl]; [done|]. apply NoDup_cons in Hnd as [Hb Hnd]. rewrite IH by done.
  destruct (decide (a = b)) as [->|Hab].
  - rewrite (decide_False (P := b ∈ l)), (decide_True (P := b ∈ b :: l)) by (done || by left). done.
  - assert (Hg : give f t b m !! a = m !! a) by (by apply give_other).
    destruct (decide (a ∈ l)) as [Hl|Hl].
    + rewrite (decide_True (P := a ∈ b :: l)) by (by right). by rewrite !give_self, Hg.
    + rewrite (decide_False (P := a ∈ b :: l)) by set_solver. done.
Qed.

(** * Properties *)

(** C24. Inside an executor, where resuming a task schedules
    it, a change of the value wakes exactly the awaiters whose condition holds
    for it, in the order in which they parked, each with a result; the others
    stay parked, in order; nobody stays parked whose condition holds. *)
Theorem value_wakes_matching fn s fuel :
  value_ok s -> (S (length (parked_ s)) < fuel)%nat ->
  let f := value_ s in let t := fn f in
  exists s', modify deferred fuel fn s = Ok (t, s') /\ value_ok s' /\ value_ s' = t /\ walking s' = walking s /\
    parked_ s' = misses f t (awaiters s) (parked_ s) /\
    woken s' = woken s ++ (hits f t (awaiters s) (parked_ s) ≫= handle_at (awaiters s)) /\
    (forall a r, a ∈ parked_ s -> tested f t (awaiters s) a = Some r -> exists w, awaiters s' !! a = Some w /\ a_result w = Some r) /\
    (forall a, a ∈ parked_ s' -> awaiters s' !! a = awaiters s !! a /\ tested f t (awaiters s') a = None).
Proof.
  intros Hs Hf f t. pose proof (modify_deferred fn s fuel Hs Hf) as E. fold f t in E.
  set (s' := VState t _ _ _ _) in E. exists s'. split; [exact E|].
  assert (Hnd : NoDup (parked_ s)) by (destruct Hs; by apply NoDup_app in vo_nodup0 as (? & _)).
  assert (Hl : forall a, a ∈ parked_ s -> awaiters s' !! a = give f t a (awaiters s) !! a).
  { intros a Ha. unfold s'. cbn [awaiters]. rewrite fold_give by done. by rewrite decide_True. }
  split; [|split_and!; try done].
  - destruct (walks_ok deferred fuel) as (Hm & _). specialize (Hm fn s Hs). fold f in Hm. rewrite E in Hm. apply Hm.
  - intros a r Ha Hr. rewrite Hl by done. unfold tested in Hr. unfold give. destruct (awaiters s !! a) as [w|] eqn:Ea; [|done].
    cbn in Hr. rewrite Hr, lookup_insert_eq. by eexists.
  - intros a [Hn Ha]%list_elem_of_filter. assert (Hg : awaiters s' !! a = awaiters s !! a).
    { rewrite Hl by done. unfold give. unfold tested in Hn. destruct (awaiters s !! a) as [w|] eqn:Ea; [|done]. cbn in Hn.
      destruct (matches (a_cond w) f t); [destruct Hn; by eexists|done]. }
    split; [done|]. unfold tested in *. rewrite Hg. by apply eq_None_not_Some.
Qed.

(** Whatever the tasks do that are woken by a change, on the
    spot, and whatever they do in turn: a call of [modify()] faults only
    when the recursion has no end; it yields the value it stored; and every
    awaiter that has a result has one that satisfies the condition it waited for,
    even if the value has changed since. *)
Theorem value_yields_match react fuel fn s :
  value_ok s ->
  match modify react fuel fn s with
  | Ok (v, s') => v = fn (value_ s) /\ value_ok s' /\
      forall a w r, awaiters s' !! a = Some w -> a_result w = Some r -> satisfies (a_cond w) r
  | Fault f => f = OutOfFuel
  end.
Proof.
  intros Hs. destruct (walks_ok react fuel) as (Hm & _). specialize (Hm fn s Hs).
  destruct (modify react fuel fn s) as [[v s']|]; [|done]. destruct Hm as (? & Hok & _). split_and!; [done..|].
  apply (vo_result s' Hok).
Qed.
End Laws.

(** ** Three tasks that wait for a number *)

Local Open Scope Z_scope.
Definition three_waiters : vstate Z :=
  VState 0 [1; 2; 3]%positive []
    (<[1 := Awaiter (UntilMatches (fun v => v =? 5)%Z) (Coro 11) None]>
      (<[2 := Awaiter (UntilChanged (fun f t => f <? t)%Z) (Coro 12) None]>
        (<[3 := Awaiter (Comparison (fun v => 7 <? v)%Z) (Coro 13) None]> ∅)))%positive [].
Lemma three_waiters_ok : value_ok three_waiters.
Proof.
  split; cbn; [by apply (bool_decide_unpack _); vm_compute| |].
  - intros a Ha. rewrite !elem_of_cons in Ha. destruct Ha as [->|[->|[->|Ha]]]; [by eexists..|by apply elem_of_nil in Ha].
  - intros a w r Hw Hr. apply elem_of_map_to_list in Hw. revert Hw. vm_compute (map_to_list _).
    rewrite !elem_of_cons, elem_of_nil. by intros [[= -> ->]|[[= -> ->]|[[= -> ->]|[]]]].
Qed.

Lemma value_wakes_matching_witness :
  exists s', modify deferred 10 (fun _ => 5) three_waiters = Ok (5, s') /\ value_ok s' /\ value_ s' = 5 /\
    walking s' = [] /\ parked_ s' = [3%positive] /\ woken s' = [11; 12]%positive /\
    (forall a r, a ∈ parked_ three_waiters -> tested 0 5 (awaiters three_waiters) a = Some r ->
       exists w, awaiters s' !! a = Some w /\ a_result w = Some r) /\
    (forall a, a ∈ parked_ s' -> awaiters s' !! a = awaiters three_waiters !! a /\ tested 0 5 (awaiters s') a = None).
Proof. exact (value_wakes_matching (fun _ => 5) three_waiters 10 three_waiters_ok ltac:(cbn; lia)). Defined.

(** The first task that is woken sets the value again, on the spot. *)
Definition meddler : loc -> list (action Z) := fun c => if bool_decide (c = 12%positive) then [AModify (fun _ => 9)] else [].
Lemma value_yields_match_witness :
  (exists s', modify meddler 20 (fun _ => 5) three_waiters = Ok (5, s') /\ value_ s' = 9) /\
  match modify meddler 20 (fun _ => 5) three_waiters with
  | Ok (v, s') => v = 5 /\ value_ok s' /\
      forall a w r, awaiters s' !! a = Some w -> a_result w = Some r -> satisfies (a_cond w) r
  | Fault f => f = OutOfFuel
  end.
Proof.
  split; [eexists; split; vm_compute; reflexivity|].
  exact (value_yields_match meddler 20 (fun _ => 5) three_waiters three_waiters_ok).
Defined.

(** The change that task makes is not shown to those the outer call has yet to
    look at: the third one waits for a value above 7, the value is 9, and it
    stays parked. *)
Example missed_change :
  (fun vs => (value_ vs.2, parked_ vs.2, woken vs.2)) <$> modify meddler 20 (fun _ => 5) three_waiters =
    Ok (9, [3%positive], [11; 12]%positive).
Proof. vm_compute. reflexivity. Qed.

(** [untilMatches()] looks at the value when it is called, not when it is
    awaited: a value that came in between is not seen. *)
Example stale_test :
  ('(_, s) ← modify deferred 10 (fun _ => 5) (untilMatches 1 (fun v => v =? 5) (new_value 0));
   r ← await_ready 1 s;
   s ← await_suspend 1 (Coro 11) s;
   Ok (r, value_ s, parked_ s)) = Ok (false, 5, [1%positive]).
Proof. vm_compute. reflexivity. Qed.
