(* ===== verification/Shared.v ===== *)
(** [Shared.h]: one asynchronous operation with several parents.

    [shared] is a [Shared<T>::State]: the sanitized awaiter of the operation
    (the state machine of Awaiter.v, so that a misuse of the operation is a
    fault), the waiting parents, the list local to [invoke()] while it wakes
    them, and every awaiter ever made.  [answers] are the operation's answers
    during a step.  The steps are what tasks do with the awaiters
    (detail/Promise.h): a whole [co_await], a cancellation, a resumption; the
    operation's own completion; and the next turn of the loop in [invoke()], so
    that whatever a woken parent does on the spot happens between two turns. *)
From S2P Require Export Awaiter.
Import Checker(checker, call(..)).


Section Shared.
(** [V]: [ReturnType], with its only value when it is [void]; [E]: exceptions;
    [self]: the frame of the state; [always]: [CancelAlwaysSucceeds]. *)
Context {V E : Type} (void_value : option V) (self : loc) (always : bool).

Inductive result := Incomplete | CancelPending | Value (v : V) | Exception (e : E) | Cancelling | Cancelled.
Definition index (r : result) : nat :=
  match r with Incomplete => 0 | CancelPending => 1 | Value _ => 2 | Exception _ => 3 | Cancelling => 4 | Cancelled => 5 end.

(** What [co_await] yields: a value, [std::nullopt], an exception. *)
Inductive got := GValue (v : V) | GNothing | GError (e : E).
Inductive ending := Got (g : got) | Dropped.

(** [AwaiterBase], the type it returns, whether its task was cancelled before or
    while it waited, and how its [co_await] ended. *)
Record parent := Parent {
  state_ : bool; parent_ : handle; optional : bool; cancelled : bool; ended : option ending }.

Record shared := Sh {
  awaiter_ : checker; parents_ : list loc; result_ : result; caller_ : handle;
  waking : list loc; items : gmap loc parent; woken : list loc }.
Implicit Types (s : shared) (a : loc).

(** The operation's answers; what [await_resume()] yields. *)
Record answers := Answers {
  i_ready : bool; i_early : bool; i_suspend : suspension; i_cancel : cancellation; i_must : bool;
  i_thrown : E; i_outcome : V + E }.
Implicit Types (ans : answers).

Definition set_awaiter (c : checker) s : shared := Sh c (parents_ s) (result_ s) (caller_ s) (waking s) (items s) (woken s).
Definition set_parents (l : list loc) s : shared := Sh (awaiter_ s) l (result_ s) (caller_ s) (waking s) (items s) (woken s).
Definition set_result (r : result) s : shared := Sh (awaiter_ s) (parents_ s) r (caller_ s) (waking s) (items s) (woken s).
Definition linkTo (h : handle) s : shared := Sh (awaiter_ s) (parents_ s) (result_ s) h (waking s) (items s) (woken s).
Definition set_waking (l : list loc) s : shared := Sh (awaiter_ s) (parents_ s) (result_ s) (caller_ s) l (items s) (woken s).
Definition set_item a (p : parent) s : shared :=
  Sh (awaiter_ s) (parents_ s) (result_ s) (caller_ s) (waking s) (<[a := p]> (items s)) (woken s).
Definition wake (h : handle) s : shared :=
  Sh (awaiter_ s) (parents_ s) (result_ s) (caller_ s) (waking s) (items s) (woken s ++ handle_coro h).
Definition unlink a s : shared := set_parents (without a (parents_ s)) (set_waking (without a (waking s)) s).

Definition detached (p : parent) : parent := Parent false (parent_ p) (optional p) (cancelled p) (ended p).
Definition with_handle (h : handle) (p : parent) : parent := Parent (state_ p) h (optional p) (cancelled p) (ended p).
Definition cancelling (p : parent) : parent := Parent (state_ p) (parent_ p) (optional p) true (ended p).
Definition ends (e : ending) (p : parent) : parent := Parent (state_ p) (parent_ p) (optional p) (cancelled p) (Some e).
Definition update a (f : parent -> parent) s : res shared := p ← deref (items s !! a); Ok (set_item a (f p) s).

Definition inner (k : call) s : res shared := c ← Checker.step k (awaiter_ s); Ok (set_awaiter c s).

(** * [Shared::State] *)

(** [State(args...)], [closed()] *)
Definition new_shared : shared := Sh Checker.initial [] Incomplete Noop [] ∅ [].
Definition state_closed s : bool := 4 <=? index (result_ s).
Definition no_parents s : bool := match parents_ s with [] => true | _ => false end.
Definition incomplete s : bool := index (result_ s) =? 0.

Definition setExecutor s : res shared := if no_parents s then inner CSetExecutor s else Ok s.

Definition ready ans s : res (bool * shared) :=
  if negb (incomplete s) then Ok (true, s)
  else if no_parents s then s ← inner (CReady (i_ready ans)) s; Ok (i_ready ans, s)
  else Ok (false, s).

Definition earlyCancel a ans s : res (bool * shared) :=
  if no_parents s && incomplete s then
    s ← inner (CEarlyCancel (i_early ans)) s;
    if i_early ans then s ← update a detached (set_result Cancelled s); Ok (true, s)
    else Ok (false, set_result CancelPending s)
  else s ← update a detached s; Ok (true, s).

(** [wakeUp()], and a turn of the loop in [invoke()] *)
Definition wakeUp a s : res shared :=
  let s := unlink a s in
  p ← deref (items s !! a);
  Ok (wake (parent_ p) (set_item a (with_handle Noop p) s)).
Definition wake_next s : res shared := match waking s with [] => Ok s | a :: _ => wakeUp a s end.

Definition invoke ans s : res shared :=
  s ← (if index (result_ s) =? 4 then
         s ← inner (CMustResume (i_must ans)) s; Ok (set_result (if i_must ans then Incomplete else Cancelled) s)
       else Ok s);
  wake_next (set_waking (parents_ s ++ waking s) (set_parents [] s)).
Definition trampoline ans s : res shared := s ← inner CResumed s; invoke ans s.

Definition suspend a ans s : res shared :=
  let isFirst := no_parents s in
  let s := set_parents (parents_ s ++ [a]) s in
  if isFirst then
    p ← deref (items s !! a);
    let s := linkTo (parent_ p) s in
    let s := if index (result_ s) =? 1 then set_result Cancelling s else s in
    s ← inner (CSuspend (Coro self)) s;
    match i_suspend ans with
    | Later => Ok s
    | AtOnce => trampoline ans s
    | Throws => s ← inner CThrew s; invoke ans (set_result (Exception (i_thrown ans)) s)
    end
  else Ok s.

Definition resultAs (opt : bool) ans s : res (got * shared) :=
  s ← (if index (result_ s) <=? 1 then
         s ← inner CResume s;
         Ok (set_result (match i_outcome ans with inl v => Value v | inr e => Exception e end) s)
       else Ok s);
  match result_ s with
  | Value v => Ok (GValue v, s)
  | Exception e => Ok (GError e, s)
  | _ => if opt then Ok (GNothing, s) else Fault AssertFailed
  end.

Definition one_parent s : bool := match parents_ s with [_] => true | _ => false end.
Definition cancel a ans s : res (bool * shared) :=
  if one_parent s then
    corral_assert (bool_decide (parents_ s = [a]));;
    s ← inner (CCancel (Coro self)) (set_result Cancelling s);
    match i_cancel ans with
    | Confirmed =>
        s ← inner (CCancelled true) s;
        s ← update a detached (unlink a (set_result Cancelled s)); Ok (true, s)
    | Refused => s ← inner (CCancelled false) s; Ok (false, s)
    | RefusedResumed => s ← trampoline ans s; s ← inner (CCancelled false) s; Ok (false, s)
    end
  else
    s ← update a detached (unlink a s);
    match parents_ s with
    | [] => Ok (true, s)
    | b :: _ => p ← deref (items s !! b); Ok (true, linkTo (parent_ p) s)
    end.

Definition mustResume ans s : res (bool * shared) :=
  '(ret, s) ← (if index (result_ s) =? 1 then s ← inner (CMustResume (i_must ans)) s; Ok (i_must ans, s)
               else Ok (negb (index (result_ s) =? 5), s));
  if always then corral_assert (negb ret);; Ok (false, s) else Ok (ret, s).

(** * [Shared::AwaiterBase] and [Shared::Awaiter] *)

(** [operator co_await()], [asOptional()]: on a [Shared] that may be empty. *)
Definition construct a (attached opt cxl : bool) s : shared := set_item a (Parent attached Noop opt cxl None) s.
Definition closed (attached : bool) s : bool := if attached then state_closed s else true.

Definition await_set_executor a s : res shared :=
  p ← deref (items s !! a); if state_ p then setExecutor s else Ok s.
Definition await_ready a ans s : res (bool * shared) :=
  p ← deref (items s !! a); if state_ p then ready ans s else Ok (true, s).
Definition await_early_cancel a ans s : res (bool * shared) :=
  p ← deref (items s !! a); if state_ p then earlyCancel a ans s else Ok (true, s).
Definition await_suspend a (h : handle) ans s : res shared :=
  s ← update a (with_handle h) s;
  p ← deref (items s !! a);
  if state_ p then suspend a ans s else Fault BadAccess.
Definition await_resume a ans s : res (got * shared) :=
  p ← deref (items s !! a);
  if state_ p then resultAs (optional p) ans s
  else match void_value with
       | Some u => if optional p then Fault AssertFailed else Ok (GValue u, s)
       | None => Fault AssertFailed
       end.
Definition await_cancel a ans s : res (bool * shared) :=
  p ← deref (items s !! a); if state_ p then cancel a ans s else Ok (true, s).
Definition await_must_resume a ans s : res (bool * shared) :=
  p ← deref (items s !! a); if state_ p then mustResume ans s else Ok (false, s).

(** * What tasks do with it *)

(** Taking the result, after [await_must_resume()] if the task was cancelled. *)
Definition take_result a ans s : res shared := '(g, s) ← await_resume a ans s; update a (ends (Got g)) s.
Definition resume_cancelled a ans s : res shared :=
  '(m, s) ← await_must_resume a ans s;
  if m : bool then take_result a ans s else update a (ends Dropped) s.

(** [hookAwaitSuspend()], [AwaitProxy]: the handle is that of [a]'s task. *)
Definition co_await a (attached opt cxl : bool) ans s : res shared :=
  let s := construct a attached opt cxl s in
  if cxl then
    '(b, s) ← await_early_cancel a ans s;
    if b : bool then update a (ends Dropped) s
    else
      '(r, s) ← await_ready a ans s;
      if r : bool then resume_cancelled a ans s
      else s ← await_set_executor a s; await_suspend a (Coro a) ans s
  else
    '(r, s) ← await_ready a ans s;
    if r : bool then take_result a ans s
    else s ← await_set_executor a s; await_suspend a (Coro a) ans s.

(** [BasePromise::cancel()] of a task that waits, and its resumption. *)
Definition cancel_task a ans s : res shared :=
  s ← update a cancelling s;
  '(b, s) ← await_cancel a ans s;
  if b : bool then update a (ends Dropped) s else Ok s.
Definition resume_task a ans s : res shared :=
  p ← deref (items s !! a);
  if cancelled p then resume_cancelled a ans s else take_result a ans s.

(** The rest of the loop in [invoke()], when nobody interferes. *)
Fixpoint wake_rest (n : nat) s : res shared :=
  match n with O => Ok s | S n => s ← wake_next s; wake_rest n s end.

Inductive event :=
| EAwait a (attached opt cxl : bool) | ECancel a | EResume a | EWake | EDone.
Definition step (e : event) ans s : res shared :=
  match e with
  | EAwait a att opt cxl => co_await a att opt cxl ans s
  | ECancel a => cancel_task a ans s
  | EResume a => resume_task a ans s
  | EWake => wake_next s
  | EDone => trampoline ans s
  end.
End Shared.
Arguments result : clear implicits.
Arguments shared : clear implicits.
Arguments answers : clear implicits.
Arguments parent : clear implicits.

(** * What a shared operation promises *)

Section Laws.
Context {V E : Type} (void_value : option V) (self : loc) (always : bool).
Implicit Types (s : shared V E) (a : loc) (ans : answers V E).
Local Abbreviation step := (step void_value self always).

(** Whether the operation was resumed, and nobody has taken its result yet. *)
Definition unclaimed s : bool := Checker.in_state Checker.Ready (awaiter_ s).

(** The steps considered: tasks use an awaiter as tasks do, the operation
    answers and resumes as an awaiter may (one whose type says that its cancellation
    always succeeds never has to be resumed after one).  Not considered: a new parent
    between the operation's completion and the retrieval of its result
    ([late_arrival]), a first parent whose early cancellation is refused
    ([early_refused]), a parent that insists on the value of a cancelled
    operation ([after_cancellation]), and one that awaits a [Shared] without an
    operation, unless the result is [void] or the parent is cancelled already. *)
Definition allowed (e : event) ans s : bool :=
  implb always (negb (i_must ans)) &&
  match e with
  | EAwait a att opt cxl =>
      bool_decide (items s !! a = None) &&
      (if att then
         negb (unclaimed s) &&
         (if cxl then i_early ans || negb (no_parents s && incomplete s) else opt || negb (state_closed s))
       else cxl || bool_decide (is_Some void_value) && negb opt)
  | ECancel a =>
      bool_decide (a ∈ parents_ s ++ waking s) && match items s !! a with Some p => negb (cancelled p) | None => false end
  | EResume a =>
      bool_decide (a ∈ woken s) && match items s !! a with Some p => negb (bool_decide (is_Some (ended p))) | None => false end
  | EWake => true
  | EDone => Checker.in_state Checker.Running (awaiter_ s) || Checker.in_state Checker.Cancelling (awaiter_ s)
  end.
Inductive reachable : shared V E -> Prop :=
| reach_init : reachable new_shared
| reach_step e ans s s' : reachable s -> allowed e ans s = true -> step e ans s = Ok s' -> reachable s'.

(** ** The invariant *)

Definition fate_of (p : parent V E) : bool * bool * option (ending (V:=V) (E:=E)) := (state_ p, cancelled p, ended p).
Definition fate s a : option (bool * bool * option (ending (V:=V) (E:=E))) := fate_of <$> items s !! a.

Definition yields (r : result V E) (g : got (V:=V) (E:=E)) : Prop :=
  match g with GValue v => r = Value v | GError e => r = Exception e | GNothing => True end.
Definition abandoned s : Prop := exists a b e, fate s a = Some (b, true, e).

(** Where each awaiter is, and what those who have a result got. *)
Record book s : Prop := {
  bk_nodup : NoDup (parents_ s ++ waking s ++ woken s);
  bk_wait a : a ∈ parents_ s ++ waking s ->
    exists p, items s !! a = Some p /\ state_ p = true /\ parent_ p = Coro a /\ ended p = None;
  bk_woken a : a ∈ woken s -> exists c e, fate s a = Some (true, c, e);
  bk_live a b c : fate s a = Some (b, c, None) -> a ∈ parents_ s ++ waking s ++ woken s;
  bk_got a c g : fate s a = Some (true, c, Some (Got g)) -> yields (result_ s) g;
  bk_closed : state_closed s = true \/ (exists a b c, fate s a = Some (b, c, Some (Got GNothing))) -> abandoned s }.

(** How the operation's state, the result and the parents hang together. *)
Definition phase s : Prop :=
  match Checker.state_ (awaiter_ s) with
  | Checker.Initial => result_ s = Incomplete /\ parents_ s = [] /\ waking s = [] /\ woken s = []
  | Checker.Running =>
      result_ s = Incomplete /\ waking s = [] /\ woken s = [] /\ Checker.realHandle_ (awaiter_ s) = Coro self /\
      (exists a l, parents_ s = a :: l /\ caller_ s = Coro a) /\
      (forall a, a ∈ parents_ s -> fate s a = Some (true, false, None))
  | Checker.Cancelling =>
      result_ s = Cancelling /\ waking s = [] /\ woken s = [] /\
      exists a, parents_ s = [a] /\ caller_ s = Coro a /\ fate s a = Some (true, true, None)
  | Checker.Ready =>
      result_ s = Incomplete /\ parents_ s = [] /\ (exists a c, a ∈ woken s /\ fate s a = Some (true, c, None)) /\
      (always = true -> forall a b c, fate s a = Some (b, c, None) -> c = false)
  | Checker.Cancelled =>
      result_ s = Cancelled /\ parents_ s = [] /\ (forall a b c, fate s a = Some (b, c, None) -> c = true)
  | Checker.Done =>
      parents_ s = [] /\ ((exists v, result_ s = Value v) \/ (exists e, result_ s = Exception e)) /\
      (always = true -> forall a b c, fate s a = Some (b, c, None) -> c = false)
  | _ => False
  end.
Definition sh_ok s : Prop := book s /\ phase s.

(** ** The book *)

Lemma fate_set_item a p s b : fate (set_item a p s) b = if decide (b = a) then Some (fate_of p) else fate s b.
Proof.
  unfold fate. cbn. destruct (decide (b = a)) as [->|H]; [by rewrite lookup_insert_eq|by rewrite lookup_insert_ne].
Qed.
Lemma fate_same a p q s : items s !! a = Some q -> fate_of p = fate_of q -> forall b, fate (set_item a p s) b = fate s b.
Proof. intros Hq He b. rewrite fate_set_item. case_decide as H; [|done]. subst b. unfold fate. rewrite Hq. cbn. by rewrite He. Qed.

Lemma abandoned_ext s s' : (forall b, fate s' b = fate s b) -> abandoned s -> abandoned s'.
Proof. intros He (a & b & e & H). exists a, b, e. by rewrite He. Qed.

Lemma book_set_awaiter c s : book s -> book (set_awaiter c s).
Proof. by intros []. Qed.
Lemma book_linkTo h s : book s -> book (linkTo h s).
Proof. by intros []. Qed.

(** A result arrives, or the operation is cancelled. *)
Lemma book_set_result r s :
  book s -> index (result_ s) <> 2 -> index (result_ s) <> 3 -> (4 <= index r -> abandoned s) -> book (set_result r s).
Proof.
  intros [] H2 H3 Hr. split; [done|done|done|done| |].
  - intros a c g Hg. specialize (bk_got0 a c g Hg). destruct g; cbn in *; [by rewrite bk_got0 in H2|done|by rewrite bk_got0 in H3].
  - intros [Hc|Hc]; [|by apply bk_closed0; right]. apply Hr. unfold state_closed in Hc. cbn in Hc. by apply Nat.leb_le.
Qed.

(** An awaiter's [co_await] ends. *)
Lemma book_end a p s e :
  book s -> a ∉ parents_ s ++ waking s -> (a ∈ woken s -> state_ p = true) -> ended p = Some e ->
  (forall g, e = Got g -> state_ p = true -> yields (result_ s) g) ->
  (e = Got GNothing -> abandoned s) ->
  (forall q, items s !! a = Some q -> cancelled q = cancelled p) -> book (set_item a p s).
Proof.
  intros [] Ha Hw He Hy Hn Hc.
  assert (Hab : abandoned s -> abandoned (set_item a p s)).
  { intros (b & x & y & Hb). destruct (decide (b = a)) as [->|Hne].
    - unfold fate in Hb. destruct (items s !! a) as [q|] eqn:Hq; [|done]. cbn in Hb. injection Hb as _ Hb _.
      exists a, (state_ p), (ended p). rewrite fate_set_item, decide_True by done. unfold fate_of. by rewrite <- (Hc q eq_refl), Hb.
    - exists b, x, y. rewrite fate_set_item, decide_False by done. done. }
  split; [done|..].
  - intros b Hb. cbn. rewrite lookup_insert_ne by (intros ->; done). by apply bk_wait0.
  - intros b Hb. rewrite fate_set_item. case_decide as H; [subst b|by apply bk_woken0].
    unfold fate_of. rewrite Hw by done. by eexists _, _.
  - intros b x c. rewrite fate_set_item. case_decide; [|apply bk_live0]. unfold fate_of. rewrite He. congruence.
  - intros b c g. rewrite fate_set_item. case_decide; [|apply bk_got0]. unfold fate_of. rewrite He.
    intros [= Hs _ Hg]. by apply Hy.
  - intros [Hcl|(b & x & c & Hb)]; [by apply Hab, bk_closed0; left|]. rewrite fate_set_item in Hb. case_decide.
    + unfold fate_of in Hb. rewrite He in Hb. injection Hb as _ _ Hb. by apply Hab, Hn.
    + apply Hab, bk_closed0. right. by exists b, x, c.
Qed.

(** A new parent waits. *)
Lemma book_park a p s :
  book s -> items s !! a = None -> state_ p = true -> parent_ p = Coro a -> ended p = None ->
  book (set_parents (parents_ s ++ [a]) (set_item a p s)).
Proof.
  intros [] Ha Hs Hp He.
  assert (Hnew : a ∉ parents_ s ++ waking s ++ woken s).
  { rewrite app_assoc. intros [Hin|Hin]%elem_of_app.
    - destruct (bk_wait0 a Hin) as (q & Hq & _). congruence.
    - destruct (bk_woken0 a Hin) as (c & e & Hf). unfold fate in Hf. by rewrite Ha in Hf. }
  assert (Hperm : (parents_ s ++ [a]) ++ waking s ++ woken s ≡ₚ a :: parents_ s ++ waking s ++ woken s)
    by (rewrite <- app_assoc; symmetry; apply Permutation_middle).
  assert (Hf : forall b, fate (set_item a p s) b = if decide (b = a) then Some (true, cancelled p, None) else fate s b).
  { intros b. rewrite fate_set_item. unfold fate_of. by rewrite Hs, He. }
  split.
  - cbn. rewrite Hperm. by apply NoDup_cons.
  - cbn. intros b Hb. destruct (decide (b = a)) as [->|Hne]; [exists p; by rewrite lookup_insert_eq|].
    rewrite lookup_insert_ne by done. apply bk_wait0. set_solver.
  - intros b Hb. change (b ∈ woken s) in Hb. change (fate (set_parents _ ?x) b) with (fate x b). rewrite Hf.
    case_decide; [by eexists _, _|by apply bk_woken0].
  - intros b x c. change (fate (set_parents _ ?y) b) with (fate y b). rewrite Hf. cbn. case_decide; [set_solver|].
    intros Hb. specialize (bk_live0 b x c Hb). set_solver.
  - intros b c g. change (fate (set_parents _ ?y) b) with (fate y b). rewrite Hf. case_decide; [congruence|apply bk_got0].
  - intros Hc. assert (Habn : abandoned s).
    { apply bk_closed0. destruct Hc as [Hc|(b & x & c & Hc)]; [by left|right].
      change (fate (set_parents _ ?y) b) with (fate y b) in Hc. rewrite Hf in Hc. case_decide; [congruence|by exists b, x, c]. }
    destruct Habn as (b & x & y & Hb). exists b, x, y. change (fate (set_parents _ ?z) b) with (fate z b). rewrite Hf.
    case_decide as H; [subst b; unfold fate in Hb; by rewrite Ha in Hb|done].
Qed.

(** [invoke()] takes the parents over. *)
Lemma book_take s : book s -> book (set_waking (parents_ s ++ waking s) (set_parents [] s)).
Proof.
  intros []. split; cbn; [by rewrite <- app_assoc|done|done| |done|done].
  intros a b c Ha. rewrite <- app_assoc. by apply (bk_live0 a b c).
Qed.

Lemma wake_next_ok s :
  book s -> exists s', wake_next s = Ok s' /\ book s' /\ awaiter_ s' = awaiter_ s /\ parents_ s' = parents_ s /\
    result_ s' = result_ s /\ caller_ s' = caller_ s /\ (forall b, fate s' b = fate s b) /\
    waking s' = tail (waking s) /\ woken s' = woken s ++ take 1 (waking s).
Proof.
  intros Hb. unfold wake_next. destruct (waking s) as [|a l] eqn:Hw.
  { exists s. rewrite Hw, app_nil_r. done. }
  pose proof Hb as []. rewrite Hw in *.
  destruct (bk_wait0 a) as (p & Hp & Hs & Hh & He); [set_solver|].
  assert (Hperm : parents_ s ++ (a :: l) ++ woken s ≡ₚ a :: parents_ s ++ l ++ woken s) by (symmetry; apply Permutation_middle).
  rewrite Hperm in bk_nodup0. apply NoDup_cons in bk_nodup0 as [Ha Hnd].
  assert (Hpar : without a (parents_ s) = parents_ s) by (apply without_id; set_solver).
  assert (Hl : without a (waking s) = l) by (rewrite Hw, without_cons; apply without_id; set_solver).
  unfold wakeUp, unlink. rewrite Hpar, Hl. cbn [items set_parents set_waking]. rewrite Hp. res_cbn. rewrite Hh.
  assert (Hf : forall b, fate (set_item a (with_handle Noop p) s) b = fate s b) by (by apply (fate_same a _ p)).
  eexists. split; [done|]. split; [|split_and!; try done; exact Hf].
  assert (Hperm2 : parents_ s ++ l ++ woken s ++ [a] ≡ₚ a :: parents_ s ++ l ++ woken s).
  { rewrite !app_assoc. symmetry. apply Permutation_cons_append. }
  split; cbn.
  - rewrite Hperm2. by apply NoDup_cons.
  - intros b Hbin. rewrite lookup_insert_ne by set_solver. apply bk_wait0. set_solver.
  - intros b Hbin. setoid_rewrite Hf. apply elem_of_app in Hbin as [Hbin| ->%list_elem_of_singleton]; [by apply bk_woken0|].
    exists (cancelled p), None. unfold fate. rewrite Hp. cbn. unfold fate_of. by rewrite Hs, He.
  - intros b x c. setoid_rewrite Hf. intros Hx. specialize (bk_live0 b x c Hx). rewrite Hperm in bk_live0. by rewrite Hperm2.
  - intros b c g. setoid_rewrite Hf. apply bk_got0.
  - intros Hc. eapply abandoned_ext; [exact Hf|]. apply bk_closed0. destruct Hc as [Hc|(b & x & c & Hc)]; [by left|right].
    exists b, x, c. rewrite <- Hf. exact Hc.
Qed.

(** A parent that waits is told to cancel; it leaves. *)
Lemma book_cancelling a p s : book s -> items s !! a = Some p -> book (set_item a (cancelling p) s).
Proof.
  intros [] Hp.
  assert (Hf : forall b, fate (set_item a (cancelling p) s) b = if decide (b = a) then Some (state_ p, true, ended p) else fate s b)
    by (intros b; by rewrite fate_set_item).
  assert (Ha : fate s a = Some (state_ p, cancelled p, ended p)) by (unfold fate; by rewrite Hp).
  split; [done|..].
  - intros b Hb. destruct (bk_wait0 b Hb) as (q & Hq & ? & ? & ?). cbn. destruct (decide (b = a)) as [->|Hne].
    + assert (p = q) as <- by congruence. exists (cancelling p). by rewrite lookup_insert_eq.
    + exists q. by rewrite lookup_insert_ne.
  - intros b Hb. rewrite Hf. case_decide as H; [|by apply bk_woken0]. subst b.
    destruct (bk_woken0 a Hb) as (c & e & He). rewrite Ha in He. injection He as -> _ _. by eexists _, _.
  - intros b x c. rewrite Hf. case_decide as H; [|apply bk_live0]. subst b. intros [= _ _ He]. apply (bk_live0 a (state_ p) (cancelled p)).
    by rewrite Ha, He.
  - intros b c g. rewrite Hf. case_decide as H; [|apply bk_got0]. subst b. intros [= Hs _ He]. apply (bk_got0 a (cancelled p)).
    by rewrite Ha, Hs, He.
  - intros _. exists a, (state_ p), (ended p). by rewrite Hf, decide_True.
Qed.
Lemma book_leave a q s :
  book s -> a ∈ parents_ s ++ waking s -> state_ q = false -> ended q = Some Dropped -> cancelled q = true ->
  book (unlink a (set_item a q s)).
Proof.
  intros [] Ha Hs He Hc.
  assert (Hw : a ∉ woken s).
  { intros Hin. rewrite app_assoc in bk_nodup0. apply NoDup_app in bk_nodup0 as (_ & Hd & _). by apply (Hd a). }
  assert (Hf : forall b, fate (unlink a (set_item a q s)) b = if decide (b = a) then Some (false, true, Some Dropped) else fate s b).
  { intros b. change (fate (unlink a ?x) b) with (fate x b). rewrite fate_set_item. unfold fate_of. by rewrite Hs, He, Hc. }
  assert (Hrw : without a (parents_ s) ++ without a (waking s) ++ woken s = without a (parents_ s ++ waking s ++ woken s)).
  { rewrite !without_app. by rewrite (without_id a (woken s)). }
  split.
  - cbn. rewrite Hrw. by apply NoDup_without.
  - cbn. intros b Hb. rewrite <- without_app, elem_without in Hb. destruct Hb as [Hb Hne].
    rewrite lookup_insert_ne by done. by apply bk_wait0.
  - intros b Hb. cbn in Hb. rewrite Hf. case_decide; [congruence|by apply bk_woken0].
  - intros b x c. rewrite Hf. case_decide; [congruence|]. intros Hb. cbn. rewrite Hrw, elem_without. split; [|done].
    by apply (bk_live0 b x c).
  - intros b c g. rewrite Hf. case_decide; [congruence|apply bk_got0].
  - intros _. exists a, false, (Some Dropped). by rewrite Hf, decide_True.
Qed.

Lemma update_ok a f p s : items s !! a = Some p -> update a f s = Ok (set_item a (f p) s).
Proof. unfold update. by intros ->. Qed.
Lemma set_item_twice a p q s : set_item a p (set_item a q s) = set_item a p s.
Proof. unfold set_item. cbn. by rewrite insert_insert_eq. Qed.

(** ** Completion *)

Lemma shared_invoke_ok ans s :
  (always = true -> i_must ans = false) -> book s ->
  (exists a l, parents_ s = a :: l /\ forall b, b ∈ parents_ s -> exists c, fate s b = Some (true, c, None)) ->
  waking s = [] -> woken s = [] ->
  match Checker.state_ (awaiter_ s) with
  | Checker.Ready => result_ s = Incomplete /\ forall b, b ∈ parents_ s -> fate s b = Some (true, false, None)
  | Checker.ReadyAfterCancel => result_ s = Cancelling /\ exists a, parents_ s = [a] /\ fate s a = Some (true, true, None)
  | Checker.Done => (exists e, result_ s = Exception e) /\ forall b, b ∈ parents_ s -> fate s b = Some (true, false, None)
  | _ => False
  end -> exists s', invoke ans s = Ok s' /\ sh_ok s' /\ Checker.state_ (awaiter_ s') <> Checker.Running /\
    (forall b, fate s' b = fate s b).
Proof.
  intros Hal Hb (a & l & Hpar & Hlive) Hw Hwk Hph.
  assert (Hfin : forall s1, (forall b, fate s1 b = fate s b) -> parents_ s1 = parents_ s -> waking s1 = [] -> woken s1 = [] ->
    book s1 -> (forall s2, awaiter_ s2 = awaiter_ s1 -> parents_ s2 = [] -> result_ s2 = result_ s1 ->
      (forall b, fate s2 b = fate s b) -> woken s2 = [a] -> (forall b x c, fate s b = Some (x, c, None) -> b ∈ parents_ s) -> phase s2) ->
    Checker.state_ (awaiter_ s1) <> Checker.Running ->
    exists s', wake_next (set_waking (parents_ s1 ++ waking s1) (set_parents [] s1)) = Ok s' /\ sh_ok s' /\
      Checker.state_ (awaiter_ s') <> Checker.Running /\ (forall b, fate s' b = fate s b)).
  { intros s1 Hf Hp1 Hw1 Hk1 Hb1 Hphase Hst.
    destruct (wake_next_ok _ (book_take s1 Hb1)) as (s2 & Ew & Hb2 & Haw & Hp2 & Hr2 & _ & Hf2 & _ & Hk2).
    cbn in Haw, Hp2, Hr2, Hk2. rewrite Hp1, Hw1, Hk1, Hpar in Hk2. cbn in Hk2.
    exists s2. split; [done|].
    assert (Hf3 : forall b, fate s2 b = fate s b) by (intros b; rewrite Hf2; apply Hf).
    split_and!; [split; [done|]|by rewrite Haw|done].
    apply Hphase; try done. intros b x c Hx. rewrite <- Hf in Hx. apply (bk_live s1 Hb1) in Hx.
    rewrite Hp1, Hw1, Hk1, !app_nil_r in Hx. done. }
  unfold invoke. destruct (awaiter_ s) as [h ex st] eqn:Haw. cbn in Hph.
  destruct st; try done.
  - destruct Hph as [Hr (a' & Hpa & Hfa)]. rewrite Hr. cbn [index Nat.eqb]. unfold inner, Checker.step, Checker.mustResumeReturned, Checker.in_state.
    rewrite Haw. cbn [Checker.state_]. rewrite bool_decide_true by done. cbn [orb]. assert (a' = a) as -> by congruence.
    assert (Hne : index (result_ s) <> 2 /\ index (result_ s) <> 3) by (rewrite Hr; cbn; lia).
    destruct (i_must ans) eqn:Em; res_cbn.
    + apply Hfin; try done; [apply book_set_result; [by apply book_set_awaiter|apply Hne..|cbn; lia]|].
      intros s2 A2 P2 R2 F2 K2 L2. unfold phase. rewrite A2. cbn. rewrite R2, P2. split_and!; try done.
      * exists a, true. rewrite K2, F2. split; [apply list_elem_of_singleton; done|done].
      * intros Ha. by specialize (Hal Ha).
    + apply Hfin; try done.
      * apply book_set_result; [by apply book_set_awaiter|apply Hne..|]. intros _. by exists a, true, None.
      * intros s2 A2 P2 R2 F2 K2 L2. unfold phase. rewrite A2. cbn. rewrite R2, P2. split_and!; try done.
        intros b x c. rewrite F2. intros Hx. specialize (L2 b x c Hx). rewrite Hpa in L2. apply list_elem_of_singleton in L2 as ->. congruence.
  - destruct Hph as [Hr Hun]. rewrite Hr. cbn [index Nat.eqb]. res_cbn. apply Hfin; try done; [|by rewrite Haw].
    intros s2 A2 P2 R2 F2 K2 L2. unfold phase. rewrite A2, Haw. cbn. rewrite R2, P2. split_and!; try done.
    + exists a, false. rewrite K2, F2. split; [apply list_elem_of_singleton; done|]. apply Hun. rewrite Hpar. by left.
    + intros _ b x c. rewrite F2. intros Hx. specialize (Hun b (L2 b x c Hx)). congruence.
  - destruct Hph as [[e Hr] Hun]. rewrite Hr. cbn [index Nat.eqb]. res_cbn. apply Hfin; try done; [|by rewrite Haw].
    intros s2 A2 P2 R2 F2 K2 L2. unfold phase. rewrite A2, Haw. cbn. rewrite R2, P2. split_and!; try done; [right; by exists e|].
    intros _ b x c. rewrite F2. intros Hx. specialize (Hun b (L2 b x c Hx)). congruence.
Qed.

Lemma phase_busy s :
  phase s -> parents_ s <> [] -> Checker.state_ (awaiter_ s) = Checker.Running \/ Checker.state_ (awaiter_ s) = Checker.Cancelling.
Proof. unfold phase. destruct (Checker.state_ (awaiter_ s)); intros Hph Hp; destruct_and?; (tauto || congruence). Qed.

Lemma trampoline_ok ans s :
  (always = true -> i_must ans = false) -> sh_ok s ->
  Checker.state_ (awaiter_ s) = Checker.Running \/ Checker.state_ (awaiter_ s) = Checker.Cancelling ->
  exists s', trampoline ans s = Ok s' /\ sh_ok s' /\ Checker.state_ (awaiter_ s') <> Checker.Running /\
    (forall b, fate s' b = fate s b).
Proof.
  intros Hal [Hb Hph] Hst. unfold trampoline, inner, Checker.step, Checker.resumed. unfold phase in Hph.
  destruct Hst as [Hst|Hst]; rewrite Hst in *; res_cbn.
  - destruct Hph as (Hr & Hw & Hk & _ & (a & l & Hp & _) & Hall).
    apply (shared_invoke_ok ans (set_awaiter (Checker.set Checker.Ready (awaiter_ s)) s)); cbn; try done; [by apply book_set_awaiter|].
    exists a, l. split; [done|]. intros b Hin. exists false. by apply Hall.
  - destruct Hph as (Hr & Hw & Hk & a & Hp & _ & Ha).
    apply (shared_invoke_ok ans (set_awaiter (Checker.set Checker.ReadyAfterCancel (awaiter_ s)) s)); cbn; try done; [by apply book_set_awaiter| |split; [done|by exists a]].
    exists a, []. split; [done|]. intros b Hin. rewrite Hp in Hin. apply list_elem_of_singleton in Hin as ->. by exists true.
Qed.

(** ** Cancellation *)

(** Only the last parent's cancellation reaches the operation. *)
Lemma cancel_task_one ans a p s :
  (always = true -> i_must ans = false) -> sh_ok s -> items s !! a = Some p -> cancelled p = false ->
  parents_ s = [a] ->
  exists s', cancel_task self a ans s = Ok s' /\ sh_ok s' /\ Checker.state_ (awaiter_ s) = Checker.Running /\
    Checker.state_ (awaiter_ s') <> Checker.Running /\
    (forall b, b <> a -> fate s' b = fate s b).
Proof.
  intros Hal [Hb Hph] Hp Hc Hpar.
  destruct (bk_wait s Hb a) as (p' & Hp' & Hs & Hh & He); [rewrite Hpar; by left|]. assert (p' = p) as -> by congruence.
  assert (Hf : fate s a = Some (true, false, None)) by (unfold fate; rewrite Hp; cbn; unfold fate_of; congruence).
  pose proof (phase_busy s Hph) as Hbusy. rewrite Hpar in Hbusy. specialize (Hbusy ltac:(done)).
  unfold phase in Hph. destruct (awaiter_ s) as [h ex st] eqn:Haw. cbn in Hph, Hbusy.
  destruct Hbusy as [-> | ->].
  2:{ exfalso. destruct Hph as (_ & _ & _ & b & Hb' & _ & Hfb). assert (b = a) as -> by congruence. congruence. }
  destruct Hph as (Hr & Hw & Hk & Hhd & (a' & l & Hpl & Hcl) & Hall). cbn in Hhd. subst h.
  assert (a' = a) as -> by congruence.
  set (s3 := set_awaiter (Checker.Checker (Coro self) ex Checker.Cancelling) (set_result Cancelling (set_item a (cancelling p) s))).
  assert (Hf3 : forall b, fate s3 b = if decide (b = a) then Some (true, true, None) else fate s b).
  { intros b. change (fate s3 b) with (fate (set_item a (cancelling p) s) b). rewrite fate_set_item. unfold fate_of. cbn. by rewrite Hs, He. }
  assert (Hok3 : sh_ok s3).
  { split.
    - apply book_set_awaiter, book_set_result; [by apply book_cancelling|cbn; by rewrite Hr..|].
      intros _. exists a, true, None. change (fate s3 a = Some (true, true, None)). by rewrite Hf3, decide_True.
    - unfold phase, s3. cbn. split_and!; try done. exists a. split_and!; [done|done|].
      change (fate s3 a = Some (true, true, None)). by rewrite Hf3, decide_True. }
  assert (Hin : inner (CCancel (Coro self)) (set_result Cancelling (set_item a (cancelling p) s)) = Ok s3).
  { unfold inner, Checker.step, Checker.aboutToCancel, Checker.in_state. cbn [awaiter_ set_result set_item]. rewrite Haw.
    cbn [Checker.state_ Checker.realHandle_]. by rewrite !bool_decide_true by done. }
  unfold cancel_task. rewrite (update_ok a cancelling p) by done. res_cbn. unfold await_cancel. cbn [items set_item].
  rewrite lookup_insert_eq. res_cbn. cbn [state_ cancelling]. rewrite Hs. unfold cancel, one_parent. cbn [parents_ set_item].
  rewrite Hpar. rewrite bool_decide_true by done. res_cbn. rewrite Hin. res_cbn.
  assert (Hfb : forall s', (forall b, fate s' b = fate s3 b) -> forall b, b <> a -> fate s' b = fate s b).
  { intros s' Hs' b Hne. by rewrite Hs', Hf3, decide_False. }
  destruct (i_cancel ans).
  - unfold inner, Checker.step, Checker.cancelReturned, Checker.in_state. cbn [awaiter_ s3 set_awaiter Checker.state_]. rewrite bool_decide_true by done. res_cbn.
    rewrite (update_ok a detached (cancelling p)) by (cbn; by rewrite lookup_insert_eq). res_cbn.
    rewrite (update_ok a (ends Dropped) (detached (cancelling p))) by (cbn; by rewrite lookup_insert_eq).
    set (q := ends Dropped (detached (cancelling p))).
    exists (set_awaiter (Checker.Checker (Coro self) ex Checker.Cancelled) (set_result Cancelled (unlink a (set_item a q s)))).
    split; [unfold set_item, set_awaiter, set_result, unlink, s3; cbn; by rewrite !insert_insert_eq|].
    assert (Hbq : book (unlink a (set_item a q s))) by (apply book_leave; try done; rewrite Hpar; by left).
    assert (Hfq : forall b, fate (unlink a (set_item a q s)) b = if decide (b = a) then Some (false, true, Some Dropped) else fate s b).
    { intros b. change (fate (unlink a ?x) b) with (fate x b). by rewrite fate_set_item. }
    split_and!; [split|done|done|].
    + apply book_set_awaiter, book_set_result; [done|cbn; by rewrite Hr..|]. intros _. exists a, false, (Some Dropped). by rewrite Hfq, decide_True.
    + unfold phase. cbn. rewrite Hpar, without_cons. split_and!; [done|by rewrite without_id by set_solver|].
      intros b x c Hx. change (fate (unlink a (set_item a q s)) b = Some (x, c, None)) in Hx.
      assert (Hpb := bk_live _ Hbq b x c Hx). cbn in Hpb. rewrite Hpar, Hw, Hk, app_nil_r, without_cons in Hpb.
      rewrite !without_id in Hpb by set_solver. set_solver.
    + intros b Hne. change (fate (unlink a (set_item a q s)) b = fate s b). by rewrite Hfq, decide_False.
  - exists s3. split; [done|]. split_and!; [done..|]. by apply Hfb.
  - destruct (trampoline_ok ans s3 Hal Hok3) as (s4 & -> & Hok4 & Hst4 & Hf4); [by right|]. res_cbn.
    exists s4. split; [by destruct s4|]. split_and!; [done..|]. by apply Hfb.
Qed.

Lemma cancel_task_many ans a p s :
  sh_ok s -> a ∈ parents_ s ++ waking s -> items s !! a = Some p -> parents_ s <> [a] ->
  exists s', cancel_task self a ans s = Ok s' /\ sh_ok s' /\ awaiter_ s' = awaiter_ s /\ result_ s' = result_ s /\
    fate s' a = Some (false, true, Some Dropped) /\ (forall b, b <> a -> fate s' b = fate s b) /\
    parents_ s' = without a (parents_ s) /\ waking s' = without a (waking s) /\ woken s' = woken s.
Proof.
  intros [Hb Hph] Hin Hp Hpar.
  destruct (bk_wait s Hb a Hin) as (p' & Hp' & Hs & Hh & He). assert (p' = p) as -> by congruence.
  assert (Hone : one_parent s = false).
  { unfold one_parent. destruct (parents_ s) as [|b [|c l]] eqn:Hl; try done. exfalso.
    pose proof (phase_busy s Hph) as Hbusy. rewrite Hl in Hbusy. specialize (Hbusy ltac:(done)).
    unfold phase in Hph. rewrite Hl in Hph. destruct Hbusy as [Hst|Hst]; rewrite Hst in Hph.
    - destruct Hph as (_ & Hw & _). rewrite Hw in Hin. apply list_elem_of_singleton in Hin. congruence.
    - destruct Hph as (_ & Hw & _). rewrite Hw in Hin. apply list_elem_of_singleton in Hin. congruence. }
  set (q := ends Dropped (detached (cancelling p))).
  set (s2 := unlink a (set_item a q s)).
  assert (Hb2 : book s2) by (by apply book_leave).
  assert (Hf2 : forall b, fate s2 b = if decide (b = a) then Some (false, true, Some Dropped) else fate s b).
  { intros b. change (fate s2 b) with (fate (set_item a q s) b). by rewrite fate_set_item. }
  assert (Hfa : fate s a = Some (true, cancelled p, None)) by (unfold fate; rewrite Hp; cbn; unfold fate_of; by rewrite Hs, He).
  assert (Hex : exists h, cancel_task self a ans s = Ok (linkTo h s2) /\
    (forall b l, parents_ s2 = b :: l -> h = Coro b)).
  { unfold cancel_task. rewrite (update_ok a cancelling p) by done. res_cbn. unfold await_cancel. cbn [items set_item].
    rewrite lookup_insert_eq. res_cbn. cbn [state_ cancelling]. rewrite Hs. unfold cancel.
    change (one_parent (set_item a _ s)) with (one_parent s). rewrite Hone.
    rewrite (update_ok a detached (cancelling p)) by (cbn; by rewrite lookup_insert_eq). res_cbn.
    change (parents_ (set_item a ?x (unlink a ?y))) with (without a (parents_ y)). cbn [parents_ set_item].
    assert (Heq : forall s0, s0 = set_item a (detached (cancelling p)) (unlink a (set_item a (cancelling p) s)) ->
      forall h, update a (ends Dropped) (linkTo h s0) = Ok (linkTo h s2)).
    { intros s0 -> h. rewrite (update_ok a (ends Dropped) (detached (cancelling p))) by (cbn; by rewrite lookup_insert_eq).
      unfold s2, q, set_item, unlink, linkTo. cbn. by rewrite !insert_insert_eq. }
    assert (Hpa2 : parents_ s2 = without a (parents_ s)) by done. rewrite Hpa2.
    destruct (without a (parents_ s)) as [|b l] eqn:Hl.
    - exists (caller_ s). split; [|done]. res_cbn. cbn. by apply (Heq _ eq_refl (caller_ s)).
    - assert (Hbin : b ∈ without a (parents_ s)) by (rewrite Hl; by left). apply elem_without in Hbin as [Hbin Hne].
      destruct (bk_wait s Hb b) as (pb & Hpb & _ & Hhb & _); [set_solver|].
      cbn [items set_item unlink set_parents set_waking]. rewrite !lookup_insert_ne by done. rewrite Hpb. res_cbn. rewrite Hhb.
      exists (Coro b). split; [by apply Heq|]. intros ? ? [= -> _]. done. }
  destruct Hex as (h & Hstep & Hh2). exists (linkTo h s2). split; [done|].
  split; [split; [by apply book_linkTo|]|split_and!; try done].
  - unfold phase in *. cbn [awaiter_ linkTo s2 unlink set_parents set_waking set_item result_ parents_ waking woken caller_ Checker.state_].
    assert (Hfl : forall b, fate (linkTo h s2) b = fate s2 b) by done.
    destruct (Checker.state_ (awaiter_ s)) eqn:Hst; try done.
    + destruct Hph as (_ & Hpn & Hwn & _). rewrite Hpn, Hwn in Hin. by apply not_elem_of_nil in Hin.
    + destruct Hph as (Hr & Hw & Hk & Hhd & (a' & l & Hpl & _) & Hall). split_and!; try done.
      * by rewrite Hw.
      * assert (Hpa2 : parents_ s2 = without a (parents_ s)) by done.
        destruct (without a (parents_ s)) as [|b m] eqn:Hm; [|exists b, m; split; [done|by apply (Hh2 b m)]].
        exfalso. pose proof (bk_nodup s Hb) as Hnd. rewrite Hw, Hk, !app_nil_r in Hnd.
        rewrite Hw, app_nil_r in Hin. destruct (parents_ s) as [|x [|y k]]; [done| |].
        -- apply list_elem_of_singleton in Hin. congruence.
        -- destruct (decide (x = a)) as [->|Hx].
           ++ assert (Hy : y ∈ without a (a :: y :: k)); [|rewrite Hm in Hy; by apply not_elem_of_nil in Hy].
              apply elem_without. split; [set_solver|]. intros ->. apply NoDup_cons in Hnd as [Hnd _]. set_solver.
           ++ assert (Hy : x ∈ without a (x :: y :: k)); [|rewrite Hm in Hy; by apply not_elem_of_nil in Hy].
              apply elem_without. split; [set_solver|done].
      * intros b Hbin. apply elem_without in Hbin as [Hbin Hne]. rewrite Hfl, Hf2, decide_False by done. by apply Hall.
    + destruct Hph as (_ & Hw & _ & b & Hpb & _). rewrite Hpb, Hw in Hin. apply list_elem_of_singleton in Hin. congruence.
    + destruct Hph as (Hr & Hpn & (b & c & Hbk & Hfb) & Hac). rewrite Hpn in *. split_and!; try done.
      * exists b, c. rewrite Hfl, Hf2, decide_False; [done|]. intros ->.
        pose proof (bk_nodup s Hb) as Hnd. rewrite Hpn in Hnd. cbn [app] in Hnd, Hin. apply NoDup_app in Hnd as (_ & Hd & _). by apply (Hd a).
      * intros Ha b' x y. rewrite Hfl, Hf2. case_decide; [congruence|by apply Hac].
    + destruct Hph as (Hr & Hpn & Hac). rewrite Hpn in *. split_and!; try done.
      intros b' x y. rewrite Hfl, Hf2. case_decide; [congruence|by apply Hac].
    + destruct Hph as (Hpn & Hr & Hac). rewrite Hpn in *. split_and!; try done.
      intros Ha b' x y. rewrite Hfl, Hf2. case_decide; [congruence|by apply Hac].
  - change (fate s2 a = Some (false, true, Some Dropped)). by rewrite Hf2, decide_True.
  - intros b Hne. change (fate s2 b = fate s b). by rewrite Hf2, decide_False.
Qed.

(** ** Resumption *)

Lemma phase_ended a q e s :
  phase s -> ended q = Some e ->
  items s !! a = None \/ Checker.state_ (awaiter_ s) = Checker.Cancelled \/ Checker.state_ (awaiter_ s) = Checker.Done ->
  phase (set_item a q s).
Proof.
  intros Hph He Hc.
  assert (Hf : forall b x c, fate (set_item a q s) b = Some (x, c, None) -> fate s b = Some (x, c, None)).
  { intros b x c. rewrite fate_set_item. case_decide; [|done]. unfold fate_of. rewrite He. congruence. }
  assert (Hg : forall b z, items s !! a = None -> fate s b = Some z -> fate (set_item a q s) b = Some z).
  { intros b z Ha Hb. rewrite fate_set_item, decide_False; [done|]. intros ->. unfold fate in Hb. by rewrite Ha in Hb. }
  unfold phase in *. cbn [awaiter_ set_item result_ parents_ waking woken caller_].
  destruct (Checker.state_ (awaiter_ s)); try done; destruct Hc as [Hc|[Hc|Hc]]; try discriminate Hc.
  - destruct Hph as (? & ? & ? & ? & ? & Hall). split_and!; try done. intros b Hb. apply Hg; [done|by apply Hall].
  - destruct Hph as (? & ? & ? & b & ? & ? & Hb). split_and!; try done. exists b. split_and!; try done. by apply Hg.
  - destruct Hph as (? & ? & (b & c & ? & Hb) & Hal). split_and!; try done; [exists b, c; split; [done|by apply Hg]|].
    intros Ha b' x y Hx. by eapply Hal, Hf.
  - destruct Hph as (? & ? & Hal). split_and!; try done. intros b' x y Hx. by eapply Hal, Hf.
  - destruct Hph as (? & ? & Hal). split_and!; try done. intros b' x y Hx. by eapply Hal, Hf.
  - destruct Hph as (? & ? & Hal). split_and!; try done. intros Ha b' x y Hx. by eapply Hal, Hf.
  - destruct Hph as (? & ? & Hal). split_and!; try done. intros Ha b' x y Hx. by eapply Hal, Hf.
Qed.

(** What the result offers to whoever asks now. *)
Definition offers (opt : bool) (r : result V E) : option (got (V:=V) (E:=E)) :=
  match r with
  | Value v => Some (GValue v)
  | Exception e => Some (GError e)
  | Cancelling | Cancelled => if opt then Some GNothing else None
  | _ => None
  end.
Lemma offers_yields opt r g : offers opt r = Some g -> yields r g.
Proof. destruct r, opt; by intros [= <-]. Qed.

Lemma resultAs_settled opt ans s g : offers opt (result_ s) = Some g -> resultAs opt ans s = Ok (g, s).
Proof. unfold resultAs. destruct s as [c pa [] ca wk it wo], opt; cbn; congruence. Qed.
Definition settle (o : V + E) : result V E := match o with inl v => Value v | inr e => Exception e end.
Definition settled (o : V + E) : got := match o with inl v => GValue v | inr e => GError e end.
Lemma resultAs_first opt ans s :
  result_ s = Incomplete -> Checker.in_state Checker.ReadyImmediately (awaiter_ s) || Checker.in_state Checker.Ready (awaiter_ s) = true ->
  resultAs opt ans s =
    Ok (settled (i_outcome ans), set_result (settle (i_outcome ans)) (set_awaiter (Checker.set Checker.Done (awaiter_ s)) s)).
Proof.
  unfold resultAs. intros -> Hst. cbn [index Nat.leb]. unfold inner, Checker.step, Checker.aboutToResume. rewrite Hst. res_cbn.
  cbn [result_ set_result]. by destruct (i_outcome ans).
Qed.

(** The first to take the result settles it for everybody. *)
Lemma book_settle o a p s :
  book s -> result_ s = Incomplete -> a ∉ parents_ s ++ waking s -> (a ∈ woken s -> state_ p = true) ->
  ended p = Some (Got (settled o)) -> (forall q, items s !! a = Some q -> cancelled q = cancelled p) ->
  book (set_item a p (set_result (settle o) s)).
Proof.
  intros Hb Hr Ha Hw He Hc. apply (book_end a p (set_result (settle o) s) (Got (settled o))); try done.
  - apply book_set_result; [done|by rewrite Hr..|]. destruct o; cbn; lia.
  - intros g [= <-] _. by destruct o.
  - by destruct o.
Qed.

Lemma resume_task_ok ans a p s :
  (always = true -> i_must ans = false) -> sh_ok s -> a ∈ woken s -> items s !! a = Some p -> ended p = None ->
  exists s', resume_task void_value always a ans s = Ok s' /\ sh_ok s'.
Proof.
  intros Hal [Hb Hph] Ha Hp He.
  assert (Hn : a ∉ parents_ s ++ waking s).
  { intros Hin. pose proof (bk_nodup s Hb) as Hnd. rewrite app_assoc in Hnd. apply NoDup_app in Hnd as (_ & Hd & _). by apply (Hd a). }
  assert (Hs : state_ p = true).
  { destruct (bk_woken s Hb a Ha) as (c & e & Hf). unfold fate in Hf. rewrite Hp in Hf. cbn in Hf. unfold fate_of in Hf. congruence. }
  assert (Hf : fate s a = Some (true, cancelled p, None)) by (unfold fate; rewrite Hp; cbn; unfold fate_of; by rewrite Hs, He).
  assert (Hend : forall e s0, items s0 !! a = Some p -> update a (ends e) s0 = Ok (set_item a (ends e p) s0)) by (intros; by apply update_ok).
  unfold resume_task. rewrite Hp. res_cbn. unfold resume_cancelled, take_result, await_must_resume, await_resume, mustResume.
  rewrite Hp. res_cbn. rewrite Hs.
  unfold phase in Hph. destruct (Checker.state_ (awaiter_ s)) eqn:Hst; try done;
    try (destruct Hph as (_ & _ & Hk & _); rewrite Hk in Ha; by apply not_elem_of_nil in Ha).
  - destruct Hph as (_ & _ & _ & Hk); rewrite Hk in Ha; by apply not_elem_of_nil in Ha.
  - (* the first result *)
    destruct Hph as (Hr & Hpar & _ & Hac).
    assert (Hfin : exists s', ('(g, s0) ← resultAs (optional p) ans s; update a (ends (Got g)) s0) = Ok s' /\ sh_ok s').
    { rewrite resultAs_first; [|done|unfold Checker.in_state; rewrite Hst; by rewrite bool_decide_false, bool_decide_true]. res_cbn.
      rewrite Hend by done. eexists. split; [done|]. split.
      - apply book_settle; try done. + by apply book_set_awaiter. + intros q Hq. cbn in Hq. by assert (q = p) as -> by congruence.
      - unfold phase. cbn. split_and!; [done|destruct (i_outcome ans); [left|right]; by eexists|].
        intros Ht b x c. unfold fate. cbn. destruct (decide (b = a)) as [->|Hne]; [by rewrite lookup_insert_eq|].
        rewrite lookup_insert_ne by done. apply Hac. done. }
    destruct (cancelled p) eqn:Hc; [|exact Hfin]. rewrite Hr. cbn [index Nat.eqb negb]. res_cbn.
    destruct always eqn:Hav; [|cbn; rewrite Hp; res_cbn; rewrite Hs; exact Hfin].
    exfalso. by specialize (Hac eq_refl a true true Hf).
  - (* cancelled *)
    destruct Hph as (Hr & Hpar & Hac). rewrite (Hac a true (cancelled p) Hf), Hr. cbn [index Nat.eqb negb]. res_cbn.
    assert (Hfin : exists s', update a (ends Dropped) s = Ok s' /\ sh_ok s').
    { rewrite Hend by done. eexists. split; [done|]. split.
      - apply (book_end _ _ _ Dropped); try done. intros q Hq. by assert (q = p) as -> by congruence.
      - apply (phase_ended _ _ Dropped); [unfold phase; by rewrite Hst|done|by right; left]. }
    destruct always; res_cbn; exact Hfin.
  - (* a result is there *)
    destruct Hph as (Hpar & Hr & Hac).
    assert (Ho : exists g, offers (optional p) (result_ s) = Some g /\ g <> GNothing) by (destruct Hr as [[v ->]|[e ->]]; eexists; by split).
    destruct Ho as (g & Ho & Hg).
    assert (Hfin : exists s', ('(g, s0) ← resultAs (optional p) ans s; update a (ends (Got g)) s0) = Ok s' /\ sh_ok s').
    { rewrite (resultAs_settled _ _ _ g) by done. res_cbn. rewrite Hend by done. eexists. split; [done|]. split.
      - apply (book_end _ _ _ (Got g)); try done.
        + intros g' [= <-] _. by apply (offers_yields (optional p)).
        + congruence.
        + intros q Hq. by assert (q = p) as -> by congruence.
      - apply (phase_ended _ _ (Got g)); [unfold phase; by rewrite Hst|done|by right; right]. }
    destruct (cancelled p) eqn:Hc; [|exact Hfin].
    assert (Hi : (index (result_ s) =? 1) = false /\ (index (result_ s) =? 5) = false) by (destruct Hr as [[v ->]|[e ->]]; done).
    destruct Hi as [-> ->]. res_cbn.
    destruct always eqn:Hav; [|cbn; rewrite Hp; res_cbn; rewrite Hs; exact Hfin].
    exfalso. by specialize (Hac eq_refl a true true Hf).
Qed.

(** ** A new parent *)

Lemma fresh_waits a s : book s -> items s !! a = None -> a ∉ parents_ s ++ waking s /\ a ∉ woken s.
Proof.
  intros Hb Ha. split; intros Hin.
  - destruct (bk_wait s Hb a Hin) as (p & Hp & _). congruence.
  - destruct (bk_woken s Hb a Hin) as (c & e & Hf). unfold fate in Hf. by rewrite Ha in Hf.
Qed.

(** One that does not have to wait. *)
Lemma arrive_ended a p e s :
  sh_ok s -> items s !! a = None -> ended p = Some e ->
  (forall g, e = Got g -> state_ p = true -> yields (result_ s) g) -> (e = Got GNothing -> abandoned s) ->
  sh_ok (set_item a p s).
Proof.
  intros [Hb Hph] Ha He Hy Hn. destruct (fresh_waits a s Hb Ha). split.
  - apply (book_end a p s e); try done. intros q Hq. congruence.
  - apply (phase_ended _ _ e); [done..|by left].
Qed.

(** The first one, whose operation starts now. *)
Lemma arrive_first ans a p s :
  (always = true -> i_must ans = false) -> book s -> items s !! a = None ->
  Checker.state_ (awaiter_ s) = Checker.NotReady -> Checker.hasExecutor_ (awaiter_ s) = true ->
  result_ s = Incomplete -> parents_ s = [] -> waking s = [] -> woken s = [] ->
  state_ p = true -> cancelled p = false -> ended p = None ->
  exists s', await_suspend self a (Coro a) ans (set_item a p s) = Ok s' /\ sh_ok s'.
Proof.
  intros Hal Hb Ha Hst Hex Hr Hp Hw Hk Hs Hc He. unfold await_suspend.
  rewrite (update_ok a _ p) by (cbn; by rewrite lookup_insert_eq). res_cbn. rewrite set_item_twice.
  set (q := with_handle (Coro a) p). cbn [items set_item]. rewrite lookup_insert_eq. res_cbn. cbn [state_ q with_handle]. rewrite Hs.
  unfold suspend, no_parents. cbn [parents_ set_item]. rewrite Hp. cbn [app items set_parents set_item]. rewrite lookup_insert_eq. res_cbn.
  cbn [result_ linkTo set_parents set_item]. rewrite Hr. cbn [index Nat.eqb].
  set (s1 := set_parents (parents_ s ++ [a]) (set_item a q s)).
  assert (Hb1 : book s1) by (by apply book_park).
  assert (Hf1 : forall b, b ∈ parents_ s1 -> fate s1 b = Some (true, false, None)).
  { intros b. unfold s1. cbn [parents_ set_parents]. rewrite Hp. intros ->%list_elem_of_singleton.
    change (fate (set_item a q s) a = Some (true, false, None)). rewrite fate_set_item, decide_True by done.
    unfold fate_of, q. cbn. by rewrite Hs, Hc, He. }
  set (s2 := set_awaiter (Checker.Checker (Coro self) true Checker.Running) (linkTo (Coro a) s1)).
  assert (Hin : inner (CSuspend (Coro self)) (linkTo (parent_ q) (set_parents [a] (set_item a q s))) = Ok s2).
  { unfold inner, Checker.step, Checker.aboutToSuspend. cbn [awaiter_ linkTo set_parents set_item]. rewrite Hex, Hst. res_cbn.
    unfold s2, s1. by rewrite Hp. }
  rewrite Hin. res_cbn.
  assert (Hok : sh_ok s2).
  { split; [by apply book_set_awaiter, book_linkTo|]. unfold phase, s2. cbn. split_and!; try done.
    exists a, []. by rewrite Hp. }
  assert (Hp2 : parents_ s2 = [a]) by (unfold s2, s1; cbn; by rewrite Hp).
  destruct (i_suspend ans).
  - exists s2. by split.
  - destruct (trampoline_ok ans s2 Hal Hok) as (s3 & E3 & Hok3 & _); [by left|]. by exists s3.
  - unfold inner, Checker.step, Checker.suspendThrew, Checker.in_state. cbn [awaiter_ s2 set_awaiter Checker.state_].
    rewrite bool_decide_true by done. cbn [orb]. res_cbn.
    destruct (shared_invoke_ok ans (set_result (Exception (i_thrown ans)) (set_awaiter (Checker.set Checker.Done (awaiter_ s2)) s2)) Hal)
      as (s3 & E3 & Hok3 & _); [|exists a, []| | | |by exists s3]; try done.
    + apply book_set_result; [by apply book_set_awaiter, Hok|cbn; by rewrite Hr..|cbn; lia].
    + split; [done|]. intros b Hbin. exists false. by apply Hf1.
    + cbn. split; [by eexists|]. intros b Hbin. by apply Hf1.
Qed.

Lemma co_await_ok ans a att opt cxl s :
  sh_ok s -> allowed (EAwait a att opt cxl) ans s = true ->
  exists s', co_await void_value self always a att opt cxl ans s = Ok s' /\ sh_ok s'.
Proof.
  intros Hok. unfold allowed. intros [Hal [Ha Hg]%andb_prop]%andb_prop. apply bool_decide_eq_true in Ha.
  assert (Hal' : always = true -> i_must ans = false) by (intros E1; rewrite E1 in Hal; cbn in Hal; by destruct (i_must ans)).
  unfold co_await, construct. set (p := Parent att Noop opt cxl None). set (s0 := set_item a p s).
  assert (Hi0 : items s0 !! a = Some p) by (cbn; by rewrite lookup_insert_eq).
  unfold await_early_cancel, await_ready, take_result. rewrite Hi0. res_cbn. change (state_ p) with att.
  assert (Hdrop : forall f, sh_ok (set_item a (ends Dropped (f p)) s)) by (intros f; by apply (arrive_ended _ _ Dropped)).
  destruct att.
  2:{ (* on an empty Shared *)
    destruct cxl; res_cbn.
    - rewrite (update_ok a _ p) by done. unfold s0. rewrite set_item_twice. eexists. split; [done|apply (Hdrop (fun x => x))].
    - cbn [orb] in Hg. apply andb_prop in Hg as [[u Hu]%bool_decide_eq_true Hopt]. apply negb_true_iff in Hopt.
      unfold await_resume. rewrite Hi0. res_cbn. cbn [state_ p optional]. rewrite Hu, Hopt. res_cbn.
      rewrite (update_ok a _ p) by done. unfold s0. rewrite set_item_twice. eexists. split; [done|].
      by apply (arrive_ended _ _ (Got (GValue u))). }
  apply andb_prop in Hg as [Hun Hg]. apply negb_true_iff in Hun.
  pose proof Hok as [Hb Hph]. destruct (fresh_waits a s Hb Ha) as [Hn1 Hn2].
  assert (Hfirst : no_parents s && incomplete s = true -> Checker.state_ (awaiter_ s) = Checker.Initial /\
    result_ s = Incomplete /\ parents_ s = [] /\ waking s = [] /\ woken s = []).
  { unfold no_parents, incomplete. intros [Hnp Hinc]%andb_prop. assert (Hp : parents_ s = []) by (by destruct (parents_ s)).
    assert (Hr : result_ s = Incomplete) by (destruct (result_ s); done). unfold phase in Hph.
    unfold unclaimed, Checker.in_state in Hun. apply bool_decide_eq_false in Hun. rewrite Hr, Hp in Hph.
    destruct (Checker.state_ (awaiter_ s)); try done.
    - destruct Hph as (_ & _ & ? & ?). done.
    - by destruct Hph as (_ & _ & _ & _ & (x & l & Hx & _) & _).
    - by destruct Hph as [Hx _].
    - by destruct Hph as [Hx _].
    - by destruct Hph as (_ & [[v Hx]|[e Hx]] & _). }
  destruct cxl.
  - unfold earlyCancel. change (no_parents s0) with (no_parents s). change (incomplete s0) with (incomplete s).
    destruct (no_parents s && incomplete s) eqn:Hfi.
    + destruct (Hfirst eq_refl) as (Hst & Hr & Hp & Hw & Hk). rewrite orb_false_r in Hg. rewrite Hg.
      unfold inner, Checker.step, Checker.earlyCancelReturned. cbn [awaiter_ s0 set_item]. rewrite Hst. res_cbn.
      rewrite (update_ok a detached p) by (cbn; by rewrite lookup_insert_eq). res_cbn.
      rewrite (update_ok a (ends Dropped) (detached p)) by (cbn; by rewrite lookup_insert_eq).
      set (q := ends Dropped (detached p)).
      exists (set_result Cancelled (set_awaiter (Checker.set Checker.Cancelled (awaiter_ s)) (set_item a q s))).
      split; [unfold s0, set_item, set_awaiter, set_result; cbn; by rewrite !insert_insert_eq|].
      assert (Hbq : book (set_item a q s)) by apply (Hdrop detached).
      split.
      * apply book_set_result; [by apply book_set_awaiter|cbn; by rewrite Hr..|]. intros _. exists a, false, (Some Dropped).
        change (fate (set_item a q s) a = Some (false, true, Some Dropped)). by rewrite fate_set_item, decide_True.
      * unfold phase. cbn. split_and!; try done. intros b x c Hx.
        assert (Hbl : b ∈ parents_ s ++ waking s ++ woken s) by exact (bk_live _ Hbq b x c Hx).
        rewrite Hp, Hw, Hk in Hbl. by apply not_elem_of_nil in Hbl.
    + rewrite (update_ok a detached p) by done. res_cbn.
      rewrite (update_ok a (ends Dropped) (detached p)) by (cbn; by rewrite lookup_insert_eq).
      unfold s0. rewrite !set_item_twice. eexists. split; [done|apply (Hdrop detached)].
  - unfold ready. change (no_parents s0) with (no_parents s). change (incomplete s0) with (incomplete s).
    destruct (incomplete s) eqn:Hinc; cbn [negb].
    + destruct (no_parents s) eqn:Hnp; cbn [negb].
      * destruct (Hfirst eq_refl) as (Hst & Hr & Hp & Hw & Hk).
        unfold inner at 1, Checker.step at 1, Checker.readyReturned. cbn [awaiter_ s0 set_item]. rewrite Hst. res_cbn.
        destruct (i_ready ans); cbn [negb].
        -- unfold await_resume. cbn [items set_awaiter s0 set_item]. rewrite lookup_insert_eq. res_cbn. cbn [state_ p].
           rewrite resultAs_first by done. res_cbn.
           rewrite (update_ok a _ p) by (cbn; by rewrite lookup_insert_eq).
           set (q := ends (Got (settled (i_outcome ans))) p).
           exists (set_awaiter (Checker.set Checker.Done (awaiter_ s)) (set_item a q (set_result (settle (i_outcome ans)) s))).
           split; [unfold s0, set_item, set_awaiter, set_result; cbn; by rewrite !insert_insert_eq|].
           split; [by apply book_set_awaiter, book_settle; try done; intros ? ?; congruence|].
           unfold phase. cbn. split_and!; [done|destruct (i_outcome ans); [left|right]; by eexists|].
           intros _ b x c. unfold fate. cbn. destruct (decide (b = a)) as [->|Hne]; [by rewrite lookup_insert_eq|].
           rewrite lookup_insert_ne by done. intros Hx. apply (bk_live s Hb) in Hx.
           rewrite Hp, Hw, Hk in Hx. by apply not_elem_of_nil in Hx.
        -- unfold await_set_executor. cbn [items set_awaiter s0 set_item]. rewrite lookup_insert_eq. res_cbn. cbn [state_ p].
           unfold setExecutor. change (no_parents (set_awaiter ?x s0)) with (no_parents s). rewrite Hnp.
           unfold inner, Checker.step, Checker.aboutToSetExecutor, Checker.in_state. cbn [awaiter_ set_awaiter Checker.state_ Checker.set].
           rewrite bool_decide_true by done. cbn [orb]. res_cbn.
           apply (arrive_first ans a p (set_awaiter (Checker.Checker (Checker.realHandle_ (awaiter_ s)) true Checker.NotReady) s)); try done.
           by apply book_set_awaiter.
      * (* joins the others *)
        assert (Hst : Checker.state_ (awaiter_ s) = Checker.Running /\ result_ s = Incomplete).
        { assert (Hr : result_ s = Incomplete) by (unfold incomplete in Hinc; by destruct (result_ s)).
          destruct (phase_busy s Hph) as [Hst|Hst]; [unfold no_parents in Hnp; by destruct (parents_ s)|done|].
          unfold phase in Hph. rewrite Hst, Hr in Hph. by destruct Hph as [? _]. }
        destruct Hst as [Hst Hr]. res_cbn. unfold await_set_executor. rewrite Hi0. res_cbn. cbn [state_ p]. unfold setExecutor.
        change (no_parents s0) with (no_parents s). rewrite Hnp. res_cbn. unfold await_suspend.
        rewrite (update_ok a _ p) by done. res_cbn. unfold s0. rewrite set_item_twice. cbn [items set_item]. rewrite lookup_insert_eq.
        res_cbn. cbn [state_ p with_handle]. unfold suspend. change (no_parents (set_item a ?x s)) with (no_parents s). rewrite Hnp.
        eexists. split; [done|]. set (q := with_handle (Coro a) p).
        assert (Hbq : book (set_parents (parents_ s ++ [a]) (set_item a q s))) by (by apply book_park).
        split; [done|]. unfold phase in *. cbn [awaiter_ set_parents set_item]. rewrite Hst in *.
        destruct Hph as (_ & Hw & Hk & Hhd & (b & l & Hp & Hcl) & Hall). split_and!; try done.
        -- exists b, (l ++ [a]). cbn. by rewrite Hp.
        -- intros c Hc. change (fate (set_item a q s) c = Some (true, false, None)). rewrite fate_set_item. case_decide; [done|].
           apply Hall. cbn in Hc. set_solver.
    + (* the result is there *)
      cbn [orb] in Hg.
      assert (Ho : exists g, offers opt (result_ s) = Some g /\ (g = GNothing -> state_closed s = true)).
      { unfold state_closed in *. unfold incomplete in Hinc. destruct (result_ s) eqn:Hr; try done.
        - exfalso. unfold phase in Hph. rewrite Hr in Hph. destruct (Checker.state_ (awaiter_ s)); try done;
            try (by destruct Hph as [Hx _]). by destruct Hph as (_ & [[v Hx]|[e Hx]] & _).
        - by eexists.
        - by eexists.
        - cbn in Hg. rewrite orb_false_r in Hg. rewrite Hg. by eexists.
        - cbn in Hg. rewrite orb_false_r in Hg. rewrite Hg. by eexists. }
      destruct Ho as (g & Ho & Hgn). res_cbn. unfold await_resume. rewrite Hi0. res_cbn. cbn [state_ optional p].
      rewrite (resultAs_settled _ _ _ g) by done. res_cbn. rewrite (update_ok a _ p) by done. unfold s0. rewrite set_item_twice.
      eexists. split; [done|]. apply (arrive_ended _ _ (Got g)); try done.
      * intros g' [= <-] _. by apply (offers_yields opt).
      * intros [= Hgg]. apply (bk_closed s Hb). left. by apply Hgn.
Qed.

(** ** Every step *)

Lemma step_ok e ans s : sh_ok s -> allowed e ans s = true -> exists s', step e ans s = Ok s' /\ sh_ok s'.
Proof.
  intros Hok Hall. pose proof Hok as [Hb Hph].
  assert (Hal : always = true -> i_must ans = false).
  { intros Ha. unfold allowed in Hall. apply andb_prop in Hall as [Hi _]. rewrite Ha in Hi. cbn in Hi. by destruct (i_must ans). }
  destruct e as [a att opt cxl|a|a| |]; cbn [Shared.step].
  - by apply co_await_ok.
  - apply andb_prop in Hall as [_ [Ha%bool_decide_eq_true Hc]%andb_prop]. destruct (items s !! a) as [p|] eqn:Hp; [|done].
    apply negb_true_iff in Hc. destruct (decide (parents_ s = [a])) as [Hpar|Hpar].
    + destruct (cancel_task_one ans a p s) as (s' & E1 & Hok' & _); try done. by exists s'.
    + destruct (cancel_task_many ans a p s) as (s' & E1 & Hok' & _); try done. by exists s'.
  - apply andb_prop in Hall as [_ [Ha%bool_decide_eq_true He]%andb_prop]. destruct (items s !! a) as [p|] eqn:Hp; [|done].
    apply negb_true_iff, bool_decide_eq_false, eq_None_not_Some in He. by apply (resume_task_ok ans a p s).
  - destruct (wake_next_ok s Hb) as (s' & E1 & Hb' & Haw & Hpa & Hr & Hca & Hf & Hw & Hk). exists s'. split; [done|]. split; [done|].
    unfold phase in *. rewrite Haw, Hpa, Hr, Hca, Hw, Hk. destruct (Checker.state_ (awaiter_ s)); try done.
    + destruct Hph as (? & ? & -> & ->). done.
    + destruct Hph as (? & -> & -> & ? & ? & Hun). split_and!; try done. intros b Hbin. rewrite Hf. by apply Hun.
    + destruct Hph as (? & -> & -> & b & ? & ? & Hfb). split_and!; try done. exists b. by rewrite Hf.
    + destruct Hph as (? & ? & (b & c & Hbin & Hfb) & Hac). split_and!; try done.
      * exists b, c. rewrite Hf. split; [|done]. apply elem_of_app. by left.
      * intros Ha b' x y. rewrite Hf. by apply Hac.
    + destruct Hph as (? & ? & Hac). split_and!; try done. intros b' x y. rewrite Hf. by apply Hac.
    + destruct Hph as (? & ? & Hac). split_and!; try done. intros Ha b' x y. rewrite Hf. by apply Hac.
  - apply andb_prop in Hall as [_ Hst]. unfold Checker.in_state in Hst. apply orb_prop in Hst.
    destruct (trampoline_ok ans s Hal Hok) as (s' & E1 & Hok' & _).
    + by destruct Hst as [?%bool_decide_eq_true|?%bool_decide_eq_true]; [left|right].
    + by exists s'.
Qed.

Lemma new_shared_ok : sh_ok new_shared.
Proof.
  split; [|done]. split; cbn; try (intros; set_solver); constructor.
Qed.
Lemma reachable_ok s : reachable s -> sh_ok s.
Proof.
  induction 1 as [|e ans s s' Hr IH Hall Hstep]; [apply new_shared_ok|].
  destruct (step_ok e ans s IH Hall) as (s2 & E2 & Hok). congruence.
Qed.

Lemma wake_rest_ok s :
  book s -> exists s', wake_rest (length (waking s)) s = Ok s' /\ waking s' = [] /\ woken s' = woken s ++ waking s.
Proof.
  remember (waking s) as l eqn:Hl. revert s Hl. induction l as [|a l IH]; intros s Hl Hb; cbn [length wake_rest].
  - exists s. by rewrite app_nil_r.
  - destruct (wake_next_ok s Hb) as (s1 & -> & Hb1 & _ & _ & _ & _ & _ & Hw & Hk). res_cbn. rewrite <- Hl in Hw, Hk. cbn in Hw, Hk.
    destruct (IH s1 (eq_sym Hw) Hb1) as (s2 & E2 & Hw2 & Hk2). exists s2. split_and!; try done. by rewrite Hk2, Hk, <- app_assoc.
Qed.

(** ** The properties *)

(** C25.  As long as parents and operation keep to the awaiter protocol, in any order, and
    none of the following happens, no step fails: the operation sees its methods called as
    the awaiter protocol demands (it is started once, for the first parent, and
    its result is taken once), and no assertion of [Shared] fails.  When every
    [co_await] has ended, the operation may be destroyed.  Excluded ([allowed]) are:
    the first parent is cancelled early and the operation refuses that, which fails an
    assertion ([early_refused]); a parent arrives when the operation has completed
    and nobody has taken its result yet, which starts the completed operation again
    ([late_arrival]); a parent that wants a value, not an optional one, arrives after
    the cancellation, which fails an assertion where the documentation promises an
    exception ([after_cancellation]); a [Shared] without an operation is awaited for
    a value; and an operation whose cancellation always succeeds, by its type, has to be
    resumed after one. *)
Theorem shared_never_fails s :
  reachable s ->
  (forall e ans, allowed e ans s = true -> exists s', step e ans s = Ok s') /\
  ((forall a p, items s !! a = Some p -> ended p <> None) -> exists c, Checker.reset (awaiter_ s) = Ok c).
Proof.
  intros Hr. pose proof (reachable_ok s Hr) as Hok. split.
  - intros e ans Hall. destruct (step_ok e ans s Hok Hall) as (s' & E1 & _). by exists s'.
  - intros Hall. destruct Hok as [Hb Hph].
    assert (Hno : forall a x c, fate s a <> Some (x, c, None)).
    { intros a x c Hf. unfold fate in Hf. destruct (items s !! a) as [p|] eqn:Hp; [|done]. apply (Hall a p Hp).
      cbn in Hf. unfold fate_of in Hf. congruence. }
    unfold Checker.reset, Checker.in_state. unfold phase in Hph. destruct (Checker.state_ (awaiter_ s)); try done; try by eexists.
    + destruct Hph as (_ & _ & _ & _ & (a & l & Hp & _) & Hf). exfalso. apply (Hno a true false), Hf. rewrite Hp. by left.
    + destruct Hph as (_ & _ & _ & a & _ & _ & Hf). exfalso. by apply (Hno a true true).
    + destruct Hph as (_ & _ & (a & c & _ & Hf) & _). exfalso. by apply (Hno a true c).
Qed.

(** C26.  Everybody who gets a value or an
    exception gets the same, the one stored when the first parent took it; an
    empty optional is given only if some parent was cancelled.  Nobody is in
    two places or woken twice; once the operation has completed, nobody is
    left waiting for it but those whom [invoke()] is about to wake, and its
    loop wakes exactly these, in the order in which they came. *)
Theorem shared_same_result s :
  reachable s ->
  (forall a p g, items s !! a = Some p -> state_ p = true -> ended p = Some (Got g) ->
     match g with
     | GValue v => result_ s = Value v
     | GError e => result_ s = Exception e
     | GNothing => exists b q, items s !! b = Some q /\ cancelled q = true
     end) /\
  NoDup (parents_ s ++ waking s ++ woken s) /\
  (forall a p, items s !! a = Some p -> ended p = None -> a ∈ parents_ s ++ waking s ++ woken s) /\
  (parents_ s <> [] -> Checker.in_state Checker.Running (awaiter_ s) || Checker.in_state Checker.Cancelling (awaiter_ s) = true) /\
  (exists s', wake_rest (length (waking s)) s = Ok s' /\ woken s' = woken s ++ waking s).
Proof.
  intros Hr. pose proof (reachable_ok s Hr) as [Hb Hph]. split_and!.
  - intros a p g Hp Hs He. assert (Hf : fate s a = Some (true, cancelled p, Some (Got g))).
    { unfold fate. rewrite Hp. cbn. unfold fate_of. by rewrite Hs, He. }
    pose proof (bk_got s Hb a _ g Hf) as Hy. destruct g; [done| |done].
    destruct (bk_closed s Hb) as (b & x & y & Hab); [right; by exists a, true, (cancelled p)|].
    unfold fate in Hab. destruct (items s !! b) as [q|] eqn:Hq; [|done]. exists b, q. split; [done|].
    cbn in Hab. unfold fate_of in Hab. congruence.
  - apply bk_nodup, Hb.
  - intros a p Hp He. apply (bk_live s Hb a (state_ p) (cancelled p)). unfold fate. rewrite Hp. cbn. unfold fate_of. by rewrite He.
  - intros Hp. destruct (phase_busy s Hph Hp) as [Hst|Hst]; unfold Checker.in_state; rewrite Hst.
    + by rewrite bool_decide_true.
    + by rewrite (bool_decide_true (Checker.Cancelling = Checker.Cancelling)), orb_true_r.
  - destruct (wake_rest_ok s Hb) as (s' & E1 & _ & E2). by exists s'.
Qed.

(** The cancellation of a parent while
    others wait always succeeds and touches neither the operation nor the
    others; that of the only parent is passed on to the operation.  Hence an
    operation that is being cancelled, or was, has no parent that still wants
    its result. *)
Theorem shared_cancels_last s :
  reachable s ->
  (forall a ans, allowed (ECancel a) ans s = true ->
     exists s', step (ECancel a) ans s = Ok s' /\
       if decide (parents_ s = [a]) then
         Checker.state_ (awaiter_ s) = Checker.Running /\ Checker.state_ (awaiter_ s') <> Checker.Running
       else awaiter_ s' = awaiter_ s /\ result_ s' = result_ s /\ parents_ s' = without a (parents_ s) /\
         waking s' = without a (waking s) /\ woken s' = woken s /\ (ended <$> items s' !! a) = Some (Some Dropped)) /\
  (Checker.in_state Checker.Cancelling (awaiter_ s) || Checker.in_state Checker.Cancelled (awaiter_ s) = true ->
   forall a p, items s !! a = Some p -> ended p = None -> cancelled p = true).
Proof.
  intros Hr. pose proof (reachable_ok s Hr) as Hok. pose proof Hok as [Hb Hph]. split.
  - intros a ans Hall. apply andb_prop in Hall as [Hal [Ha%bool_decide_eq_true Hc]%andb_prop].
    assert (Hal' : always = true -> i_must ans = false) by (intros E1; rewrite E1 in Hal; cbn in Hal; by destruct (i_must ans)).
    destruct (items s !! a) as [p|] eqn:Hp; [|done]. apply negb_true_iff in Hc. cbn [Shared.step]. case_decide as Hpar.
    + destruct (cancel_task_one ans a p s) as (s' & E1 & _ & Hst & Hst' & _); try done. by exists s'.
    + destruct (cancel_task_many ans a p s) as (s' & E1 & _ & Haw & Hre & Hf & _ & Hpa & Hw & Hk); try done.
      exists s'. split_and!; try done. unfold fate in Hf. destruct (items s' !! a) as [q|]; [|done]. cbn in *.
      unfold fate_of in Hf. congruence.
  - intros Hst a p Hp He. assert (Hf : fate s a = Some (state_ p, cancelled p, None)).
    { unfold fate. rewrite Hp. cbn. unfold fate_of. by rewrite He. }
    unfold Checker.in_state in Hst. apply orb_prop in Hst. unfold phase in Hph.
    destruct Hst as [Hst%bool_decide_eq_true|Hst%bool_decide_eq_true]; rewrite Hst in Hph.
    + destruct Hph as (_ & Hw & Hk & b & Hpar & _ & Hfb). pose proof (bk_live s Hb _ _ _ Hf) as Hin.
      rewrite Hpar, Hw, Hk in Hin. apply list_elem_of_singleton in Hin as ->. congruence.
    + destruct Hph as (_ & _ & Hac). by apply (Hac a (state_ p)).
Qed.
End Laws.

(** * Runs *)

Section Play.
Context {V E : Type} (void_value : option V) (self : loc) (always : bool).

(** A sequence of steps, each of which must be allowed. *)
Fixpoint play (l : list (event * answers V E)) (s : shared V E) : option (shared V E) :=
  match l with
  | [] => Some s
  | (e, ans) :: l =>
      if allowed void_value always e ans s
      then match step void_value self always e ans s with Ok s => play l s | Fault _ => None end
      else None
  end.
Lemma play_reachable l s s' :
  reachable void_value self always s -> play l s = Some s' -> reachable void_value self always s'.
Proof.
  revert s. induction l as [|[e ans] l IH]; intros s Hr; cbn [play]; [by intros [= <-]|].
  destruct (allowed void_value always e ans s) eqn:Ha; [|done].
  destruct (step void_value self always e ans s) as [s1|] eqn:Es; [|done].
  apply IH. by apply (reach_step _ _ _ e ans s).
Qed.
End Play.

(** Two parents; the first is cancelled, the second gets the value. *)
Definition ask : answers nat unit := Answers false false Later Refused false () (inl 5).
Definition two_parents : list (event * answers nat unit) :=
  [(EAwait 1 true false false, ask); (EAwait 2 true false false, ask); (ECancel 1, ask); (EDone, ask); (EResume 2, ask)].
Definition after_two : shared nat unit :=
  match play None 7 false two_parents new_shared with Some s => s | None => new_shared end.
Lemma after_two_reachable : reachable None 7 false after_two.
Proof. apply (play_reachable _ _ _ two_parents new_shared); [apply reach_init|vm_compute; reflexivity]. Qed.

Lemma shared_never_fails_witness :
  (exists s', step None 7 false (EAwait 3 true false false) ask after_two = Ok s') /\
  exists c, Checker.reset (awaiter_ after_two) = Ok c.
Proof.
  destruct (shared_never_fails None 7 false after_two after_two_reachable) as [H1 H2]. split; [apply H1; vm_compute; reflexivity|].
  apply H2. assert (Hc : bool_decide (map_Forall (fun _ p => is_Some (ended p)) (items after_two)) = true) by (vm_compute; reflexivity).
  apply bool_decide_eq_true in Hc. intros a p Hp He. destruct (Hc a p Hp) as [x Hx]. congruence.
Defined.
Lemma shared_same_result_witness : result_ after_two = Value 5.
Proof.
  destruct (shared_same_result None 7 false after_two after_two_reachable) as [H1 _].
  refine (H1 2%positive (Parent true Noop false false (Some (Got (GValue 5)))) (GValue 5) _ _ _); vm_compute; reflexivity.
Defined.

(** The first parent is cancelled while the second waits; the second's
    cancellation goes to the operation. *)
Definition both_wait : shared nat unit :=
  match play None 7 false (take 2 two_parents) new_shared with Some s => s | None => new_shared end.
Lemma both_wait_reachable : reachable None 7 false both_wait.
Proof. apply (play_reachable _ _ _ (take 2 two_parents) new_shared); [apply reach_init|vm_compute; reflexivity]. Qed.
Lemma shared_cancels_last_witness : exists s', step None 7 false (ECancel 1) ask both_wait = Ok s' /\ awaiter_ s' = awaiter_ both_wait.
Proof.
  destruct (shared_cancels_last None 7 false both_wait both_wait_reachable) as [H1 _].
  destruct (H1 1%positive ask ltac:(vm_compute; reflexivity)) as (s' & E1 & H2). exists s'. split; [exact E1|].
  rewrite decide_False in H2 by (vm_compute; discriminate). by destruct H2.
Defined.

(** * Where it goes wrong *)

(** The early cancellation of the first parent is refused: [ready()] takes the
    pending cancellation for a result, and the operation, never started, is
    asked whether it must be resumed. *)
Example early_refused void_value self always opt ans :
  i_early ans = false -> co_await (V:=nat) (E:=unit) void_value self always 1 true opt true ans new_shared = Fault AssertFailed.
Proof. destruct ans as [rd ea su ca [] th out]; cbn; intros ->; destruct always; vm_compute; reflexivity. Qed.

(** A new parent comes after the operation has completed and before its first
    parent has taken the result: the completed operation is asked again. *)
Example late_arrival :
  match play None 7 false [(EAwait 1 true false false, ask); (EDone, ask)] new_shared with
  | Some s => step None 7 false (EAwait 2 true false false) ask s = Fault Unreachable
  | None => False
  end.
Proof. reflexivity. Qed.

(** A parent that comes after everybody else was cancelled. *)
Example after_cancellation opt :
  match play None 7 false [(EAwait 1 true false false, ask); (ECancel 1, Answers false false Later Confirmed false () (inl 5))] new_shared with
  | Some s => is_ok (step None 7 false (EAwait 2 true opt false) ask s) = opt
  | None => False
  end.
Proof. by destruct opt. Qed.
