(* ===== verification/Sequence.v ===== *)
(** [detail/Sequence.h]: one awaitable after another.

    [seq] is a [Sequence] whose two awaiters are seen through the state machine
    of Awaiter.v: [first] and the one in [SecondStage] are the checkers of the
    sanitized awaiters it holds, [outer] is the checker of whoever awaits the
    sequence, so that a misuse on either side is a fault.  The function that makes
    the second awaitable is the environment's: [answers] say what the awaiters
    answer during a step, whether the function throws, and whether the parent
    cancels the sequence while the function runs. *)
From S2P Require Export Awaiter.
Import Checker(checker, call(..)).

Section Sequence.
(** [V], [W]: what the awaitables yield; [E]: exceptions; [self]: the frame. *)
Context {V W E : Type} (self : loc).

(** [Stage], with the member of the union that is alive. *)
Inductive stage := NoStage | FirstStage | SecondStage (xfer : V) (awaiter : checker) | ExceptionStage (e : E).

(** [flags_ & Cancelling]; the last two fields are what the first awaitable
    yielded and what the function threw, for the theorems. *)
Record seq := Seq {
  stage_ : stage; flags_ : bool; parent_ : handle; first : checker; outer : checker;
  yielded : option (V + E); thrown : option E }.
Implicit Types (s : seq).

Record answers := Answers {
  f_beh : behaviour; f_out : V + E; t_exn : option E; t_cancels : bool; s_beh : behaviour; s_out : W + E }.
Implicit Types (ans : answers).

Definition set_stage (x : stage) s : seq := Seq x (flags_ s) (parent_ s) (first s) (outer s) (yielded s) (thrown s).
Definition set_flags (b : bool) s : seq := Seq (stage_ s) b (parent_ s) (first s) (outer s) (yielded s) (thrown s).
Definition set_parent (h : handle) s : seq := Seq (stage_ s) (flags_ s) h (first s) (outer s) (yielded s) (thrown s).
Definition set_first (c : checker) s : seq := Seq (stage_ s) (flags_ s) (parent_ s) c (outer s) (yielded s) (thrown s).
Definition set_outer (c : checker) s : seq := Seq (stage_ s) (flags_ s) (parent_ s) (first s) c (yielded s) (thrown s).
Definition log_first (o : V + E) s : seq := Seq (stage_ s) (flags_ s) (parent_ s) (first s) (outer s) (Some o) (thrown s).
Definition log_thrown (e : E) s : seq := Seq (stage_ s) (flags_ s) (parent_ s) (first s) (outer s) (yielded s) (Some e).

(** Calls of the first awaiter, of the second, and by the parent. *)
Definition on_first (k : call) s : res seq := c ← Checker.step k (first s); Ok (set_first c s).
Definition on_second (k : call) s : res seq :=
  match stage_ s with
  | SecondStage v c => c ← Checker.step k c; Ok (set_stage (SecondStage v c) s)
  | _ => Fault BadAccess
  end.
Definition on_outer (k : call) s : res seq := c ← Checker.step k (outer s); Ok (set_outer c s).
Definition asked_by_parent (st : Checker.state) s : bool := Checker.in_state st (outer s).

(** [parent_.resume()] *)
Definition resume_parent s : res seq := on_outer CResumed s.

(** * [SequenceBase] *)

Definition new_seq : seq := Seq NoStage false Noop Checker.initial Checker.initial None None.
Definition inFirstStage s : bool := match stage_ s with FirstStage => true | _ => false end.
Definition inSecondStage s : bool := match stage_ s with SecondStage _ _ => true | _ => false end.

(** [switchTo<NewStage>()]: the second stage is destroyed, its checker reset. *)
Definition switchTo (x : stage) s : res seq :=
  match stage_ s with
  | SecondStage _ c => _ ← Checker.reset c; Ok (set_stage x s)
  | _ => Ok (set_stage x s)
  end.

Definition await_set_executor ans s : res seq :=
  s ← on_first CSetExecutor s;
  if inSecondStage s then
    s ← on_second (CReady (b_ready (s_beh ans))) s;
    if b_ready (s_beh ans) then Ok s else on_second CSetExecutor s
  else
    corral_assert (match stage_ s with NoStage => true | _ => false end);;
    switchTo FirstStage s.

(** [~SequenceBase()] *)
Definition destroy s : res seq :=
  s ← switchTo NoStage s; c ← Checker.reset (first s); Ok (set_first c s).

(** * [Sequence] *)

(** [await_cancel(h)] between the stages: what the parent can get through while
    [thenFn] runs ([await_cancel_between] below). *)
Definition cancel_meanwhile s : res seq :=
  s ← on_outer (CCancel (parent_ s)) s; on_outer (CCancelled false) (set_flags true s).

(** [SecondStageData(c, xf)]: [None] when [thenFn] has thrown. *)
Definition make_second (v : V) ans s : res (option E * seq) :=
  let s := set_stage NoStage s in
  s ← (if t_cancels ans && asked_by_parent Checker.Running s then cancel_meanwhile s else Ok s);
  match t_exn ans with
  | Some e => Ok (Some e, log_thrown e s)
  | None => Ok (None, set_stage (SecondStage v Checker.initial) s)
  end.

(** From the early cancellation of the second awaiter on. *)
Definition start_second ans s : res seq :=
  '(skipped, s) ← (if flags_ s then
                     s ← on_second (CEarlyCancel (b_early (s_beh ans))) s; Ok (b_early (s_beh ans), s)
                   else Ok (false, s));
  if skipped : bool then s ← switchTo NoStage s; resume_parent s
  else
    s ← on_second (CReady (b_ready (s_beh ans))) s;
    if b_ready (s_beh ans) then resume_parent s
    else
      s ← on_second CSetExecutor s;
      s ← on_second (CSuspend (parent_ s)) s;
      match b_suspend (s_beh ans) with
      | Later => Ok s
      | AtOnce => s ← on_second CResumed s; resume_parent s
      | Throws => Fault Terminated
      end.

Definition kickOffSecond ans s : res seq :=
  '(must, s) ← (if flags_ s then
                  s ← on_first (CMustResume (b_must (f_beh ans))) s; Ok (b_must (f_beh ans), s)
                else Ok (true, s));
  if negb must then resume_parent s
  else
    corral_assert (inFirstStage s);;
    s ← on_first CResume s;
    let s := log_first (f_out ans) s in
    match f_out ans with
    | inr e => s ← switchTo (ExceptionStage e) s; resume_parent s
    | inl v =>
        '(threw, s) ← make_second v ans s;
        match threw with
        | Some e => s ← switchTo (ExceptionStage e) s; resume_parent s
        | None => start_second ans s
        end
    end.

Definition await_ready : bool := false.
Definition await_early_cancel ans s : res (bool * seq) :=
  s ← on_first (CEarlyCancel (b_early (f_beh ans))) (set_flags true s); Ok (b_early (f_beh ans), s).

(** Whether [await_suspend(h)] has thrown. *)
Definition await_suspend (h : handle) ans s : res (bool * seq) :=
  s ← on_first (CReady (b_ready (f_beh ans))) (set_parent h s);
  if b_ready (f_beh ans) then s ← kickOffSecond ans s; Ok (false, s)
  else
    s ← on_first (CSuspend (Coro self)) s;
    match b_suspend (f_beh ans) with
    | Later => Ok (false, s)
    | AtOnce => s ← on_first CResumed s; s ← kickOffSecond ans s; Ok (false, s)
    | Throws => s ← on_first CThrew s; Ok (true, s)
    end.

(** The cancellation of an awaiter that may answer, or resume its handle. *)
Definition cancel_with (on : call -> seq -> res seq) (c : cancellation) (h : handle) (k : seq -> res seq) s : res (bool * seq) :=
  s ← on (CCancel h) s;
  match c with
  | Confirmed => s ← on (CCancelled true) s; Ok (true, s)
  | Refused => s ← on (CCancelled false) s; Ok (false, s)
  | RefusedResumed => s ← on CResumed s; s ← k s; Ok (false, s)
  end.
Definition await_cancel (h : handle) ans s : res (bool * seq) :=
  let s := set_flags true s in
  match stage_ s with
  | FirstStage => cancel_with on_first (b_cancel (f_beh ans)) (Coro self) (kickOffSecond ans) s
  | SecondStage _ _ => cancel_with on_second (b_cancel (s_beh ans)) h resume_parent s
  | _ => Ok (false, s)
  end.

Definition await_must_resume ans s : res (bool * seq) :=
  match stage_ s with
  | ExceptionStage _ => Ok (true, s)
  | SecondStage _ _ =>
      s ← on_second (CMustResume (b_must (s_beh ans))) s;
      if b_must (s_beh ans) then Ok (true, s) else s ← switchTo NoStage s; Ok (false, s)
  | _ => Ok (false, s)
  end.

Definition await_resume ans s : res ((W + E) * seq) :=
  match stage_ s with
  | ExceptionStage e => s ← switchTo NoStage s; Ok (inr e, s)
  | SecondStage _ _ => s ← on_second CResume s; s ← switchTo NoStage s; Ok (s_out ans, s)
  | _ => Fault AssertFailed
  end.

(** * The sequence in use *)

Inductive event :=
| EReady | EEarlyCancel | ESetExecutor | ESuspend (h : handle) | ECancel | EFirst | ESecond | EMustResume | EResume.

Definition step (e : event) ans s : res seq :=
  match e with
  | EReady => on_outer (CReady await_ready) s
  | EEarlyCancel => '(b, s) ← await_early_cancel ans s; on_outer (CEarlyCancel b) s
  | ESetExecutor => s ← on_outer CSetExecutor s; await_set_executor ans s
  | ESuspend h =>
      s ← on_outer (CSuspend h) s;
      '(threw, s) ← await_suspend h ans s;
      if threw : bool then on_outer CThrew s else Ok s
  | ECancel =>
      s ← on_outer (CCancel (parent_ s)) s;
      '(b, s) ← await_cancel (parent_ s) ans s; on_outer (CCancelled b) s
  | EFirst => s ← on_first CResumed s; kickOffSecond ans s
  | ESecond => s ← on_second CResumed s; resume_parent s
  | EMustResume => '(b, s) ← await_must_resume ans s; on_outer (CMustResume b) s
  | EResume => s ← on_outer CResume s; '(_, s) ← await_resume ans s; Ok s
  end.

(** What the parent and the two awaiters may do, by the protocol; the executor
    is set once. *)
Definition enabled (e : event) s : bool :=
  match e with
  | EReady => Checker.may Checker.QReady (outer s)
  | EEarlyCancel => Checker.may Checker.QEarlyCancel (outer s)
  | ESetExecutor => Checker.may Checker.QSetExecutor (outer s)
  | ESuspend _ => Checker.may Checker.QSuspend (outer s)
  | ECancel => Checker.may Checker.QCancel (outer s)
  | EFirst => Checker.running (first s)
  | ESecond => match stage_ s with SecondStage _ c => Checker.running c | _ => false end
  | EMustResume => Checker.may Checker.QMustResume (outer s)
  | EResume => Checker.may Checker.QResume (outer s)
  end.
Inductive reach : seq -> Prop :=
| reach_new : reach new_seq
| reach_step e ans s s' : reach s -> enabled e s = true -> step e ans s = Ok s' -> reach s'.

(** * Invariant *)

Definition busy (a : bool) : Checker.state := if a then Checker.Cancelling else Checker.Running.
Definition first_stage (e : bool) : stage := if e then FirstStage else NoStage.

(** The result, or its absence, when the parent has been resumed: whether it
    was cancelled, its checker's state, the stage, the state of the first awaiter,
    and what happened. *)
Inductive settled : bool -> Checker.state -> stage -> Checker.state -> option (V + E) -> option E -> Prop :=
| st_first_threw a e : settled a (if a then Checker.ReadyAfterCancel else Checker.Ready) (ExceptionStage e) Checker.Done (Some (inr e)) None
| st_then_threw a v e : settled a (if a then Checker.ReadyAfterCancel else Checker.Ready) (ExceptionStage e) Checker.Done (Some (inl v)) (Some e)
| st_first_threw_must e : settled true Checker.Ready (ExceptionStage e) Checker.Done (Some (inr e)) None
| st_then_threw_must v e : settled true Checker.Ready (ExceptionStage e) Checker.Done (Some (inl v)) (Some e)
| st_second v c : Checker.state_ c = Checker.ReadyImmediately \/ Checker.state_ c = Checker.Ready ->
    settled false Checker.Ready (SecondStage v c) Checker.Done (Some (inl v)) None
| st_second_cancelling v c : Checker.state_ c = Checker.ReadyAfterCancel ->
    settled true Checker.ReadyAfterCancel (SecondStage v c) Checker.Done (Some (inl v)) None
| st_second_must v c : Checker.state_ c = Checker.Ready ->
    settled true Checker.Ready (SecondStage v c) Checker.Done (Some (inl v)) None
| st_first_cancelled : settled true Checker.ReadyAfterCancel FirstStage Checker.Cancelled None None
| st_second_skipped v : settled true Checker.ReadyAfterCancel NoStage Checker.Done (Some (inl v)) None.

(** What is left when the parent is done with the sequence. *)
Inductive over : bool -> Checker.state -> stage -> Checker.state -> option (V + E) -> option E -> Prop :=
| ov_done a y t : over a Checker.Done NoStage Checker.Done y t
| ov_threw a : over a Checker.Done FirstStage Checker.Done None None
| ov_first : over true Checker.Cancelled FirstStage Checker.Cancelled None None
| ov_none y : over true Checker.Cancelled NoStage Checker.Done y None
| ov_second v c : Checker.state_ c = Checker.Cancelled ->
    over true Checker.Cancelled (SecondStage v c) Checker.Done (Some (inl v)) None.

Inductive phase : seq -> Prop :=
| ph_new e st : st = Checker.Initial \/ st = Checker.NotReady ->
    phase (Seq (first_stage e) false Noop (Checker.Checker Noop e Checker.Initial) (Checker.Checker Noop e st) None None)
| ph_asked e st : st = Checker.InitialCxlPend \/ st = Checker.CancelPending ->
    phase (Seq (first_stage e) true Noop (Checker.Checker Noop e Checker.InitialCxlPend) (Checker.Checker Noop e st) None None)
| ph_skipped e :
    phase (Seq (first_stage e) true Noop (Checker.Checker Noop e Checker.Cancelled) (Checker.Checker Noop e Checker.Cancelled) None None)
| ph_first a h :
    phase (Seq FirstStage a h (Checker.Checker (Coro self) true (busy a)) (Checker.Checker h true (busy a)) None None)
| ph_second a h v fh :
    phase (Seq (SecondStage v (Checker.Checker h true (busy a))) a h (Checker.Checker fh true Checker.Done)
      (Checker.Checker h true (busy a)) (Some (inl v)) None)
| ph_settled a st x h fh fst y t : settled a st x fst y t ->
    phase (Seq x a h (Checker.Checker fh true fst) (Checker.Checker h true st) y t)
| ph_over a st x h fh fst y t : over a st x fst y t ->
    phase (Seq x a h (Checker.Checker fh true fst) (Checker.Checker h true st) y t).

(** Runs a step on a state whose checkers' states are known. *)
Local Ltac compute_step :=
  match goal with
  | |- exists s', ?m = Ok s' /\ phase s' =>
      let r := eval lazy in m in
      match r with Ok ?x => exists x; split; [lazy; reflexivity|] end
  end.
Local Ltac in_phase :=
  first [ by apply (ph_new false); auto | by apply (ph_new true); auto
        | by apply (ph_asked false); auto | by apply (ph_asked true); auto
        | by apply (ph_skipped false) | by apply (ph_skipped true)
        | by apply (ph_first false) | by apply (ph_first true)
        | by apply (ph_second false) | by apply (ph_second true)
        | by apply ph_settled; constructor; cbn; auto
        | by apply ph_over; constructor; cbn; auto ].

Lemma start_second_ok ans a h fh v :
  b_suspend (s_beh ans) <> Throws ->
  exists s', start_second ans (Seq (SecondStage v Checker.initial) a h (Checker.Checker fh true Checker.Done)
      (Checker.Checker h true (busy a)) (Some (inl v)) None) = Ok s' /\ phase s'.
Proof.
  intros Hs. destruct ans as [fb fo te tc sb so]. destruct sb as [rd sk ea su ca mu er]. cbn in Hs.
  unfold start_second, on_second, on_outer, resume_parent, switchTo.
  destruct a, ea, rd, su; try done; compute_step; in_phase.
Qed.

Lemma cancel_meanwhile_run x f h fc y t :
  cancel_meanwhile (Seq x f h fc (Checker.Checker h true Checker.Running) y t) =
    Ok (Seq x true h fc (Checker.Checker h true Checker.Cancelling) y t).
Proof. unfold cancel_meanwhile, on_outer, Checker.step, Checker.aboutToCancel. cbn. by rewrite bool_decide_true. Qed.

(** [await_cancel(h)] while the function runs is that. *)
Lemma await_cancel_between h ans f fc y t :
  ('(b, s) ← (s ← on_outer (CCancel h) (Seq NoStage f h fc (Checker.Checker h true Checker.Running) y t);
              await_cancel h ans s); on_outer (CCancelled b) s) =
    cancel_meanwhile (Seq NoStage f h fc (Checker.Checker h true Checker.Running) y t).
Proof. unfold cancel_meanwhile, on_outer, Checker.step, Checker.aboutToCancel. cbn. by rewrite bool_decide_true. Qed.

(** The first awaiter is done: the second stage, or the parent. *)
Lemma kickOffSecond_ok ans a h fh ri :
  b_suspend (s_beh ans) <> Throws -> ri = Checker.ReadyImmediately \/ ri = Checker.Ready ->
  exists s', kickOffSecond ans (Seq FirstStage a h (Checker.Checker fh true (if a then Checker.ReadyAfterCancel else ri))
      (Checker.Checker h true (busy a)) None None) = Ok s' /\ phase s'.
Proof.
  intros Hs Hri. unfold kickOffSecond, make_second. destruct ans as [fb fo te tc sb so]. cbn [f_beh f_out t_exn t_cancels s_beh] in *.
  destruct (a && negb (b_must fb)) eqn:Hm.
  { apply andb_prop in Hm as [-> Hm]. destruct (b_must fb); [done|]. compute_step. in_phase. }
  set (s1 := Seq FirstStage a h (Checker.Checker fh true Checker.Done) (Checker.Checker h true (busy a)) (Some fo) None).
  assert (E1 : forall k, ('(must, s) ← (if flags_ (Seq FirstStage a h (Checker.Checker fh true (if a then Checker.ReadyAfterCancel else ri))
      (Checker.Checker h true (busy a)) None None) then
                  s ← on_first (CMustResume (b_must fb)) (Seq FirstStage a h (Checker.Checker fh true (if a then Checker.ReadyAfterCancel else ri))
      (Checker.Checker h true (busy a)) None None); Ok (b_must fb, s)
                else Ok (true, Seq FirstStage a h (Checker.Checker fh true (if a then Checker.ReadyAfterCancel else ri))
      (Checker.Checker h true (busy a)) None None));
    if negb must then resume_parent s else corral_assert (inFirstStage s);; s ← on_first CResume s; k s) =
    (k (Seq FirstStage a h (Checker.Checker fh true Checker.Done) (Checker.Checker h true (busy a)) None None) : res (seq))).
  { intros k. destruct a; cbn; [destruct (b_must fb); [done|done]|destruct Hri as [-> | ->]; done]. }
  rewrite E1. cbn [log_first]. destruct fo as [v|e].
  2:{ destruct a; compute_step; in_phase. }
  unfold asked_by_parent. destruct (tc && Checker.in_state Checker.Running (Checker.Checker h true (busy a))) eqn:Htc.
  - apply andb_prop in Htc as [-> Ht]. destruct a; [done|].
    cbv [log_first set_stage stage_ flags_ parent_ first outer yielded thrown busy] in *. rewrite Ht. cbn [andb].
    rewrite cancel_meanwhile_run. res_cbn.
    destruct te as [e|]; [compute_step; in_phase|]. by apply (start_second_ok _ true).
  - cbv [log_first set_stage stage_ flags_ parent_ first outer yielded thrown] in *. rewrite Htc. destruct te as [e|]; [destruct a; compute_step; in_phase|]. by apply (start_second_ok _ a).
Qed.

(** Computes the state [kickOffSecond()] is called in. *)
Local Ltac norm_kick :=
  repeat match goal with
  | H : context [kickOffSecond ?ans ?x] |- _ => let y := eval lazy in x in progress change x with y in H
  | |- context [kickOffSecond ?ans ?x] => let y := eval lazy in x in progress change x with y
  end.

Lemma seq_suspend_ok ans (a : bool) h :
  b_suspend (s_beh ans) <> Throws ->
  exists s', step (ESuspend h) ans (Seq FirstStage a Noop (Checker.Checker Noop true (if a then Checker.InitialCxlPend else Checker.Initial))
    (Checker.Checker Noop true (if a then Checker.CancelPending else Checker.NotReady)) None None) = Ok s' /\ phase s'.
Proof.
  intros Hs. unfold step, await_suspend. cbn -[kickOffSecond]. destruct (b_ready (f_beh ans)) eqn:Hr.
  - destruct (kickOffSecond_ok ans a h Noop Checker.ReadyImmediately Hs) as (s' & E1 & Hp); [by left|].
    exists s'. split; [|done]. destruct a; cbn -[kickOffSecond] in *; norm_kick; by rewrite E1.
  - destruct (b_suspend (f_beh ans)).
    + exists (Seq FirstStage a h (Checker.Checker (Coro self) true (busy a)) (Checker.Checker h true (busy a)) None None).
      split; [by destruct a|by apply ph_first].
    + destruct (kickOffSecond_ok ans a h (Coro self) Checker.Ready Hs) as (s' & E1 & Hp); [by right|].
      exists s'. split; [|done]. destruct a; cbn -[kickOffSecond] in *; norm_kick; by rewrite E1.
    + exists (Seq FirstStage a h (Checker.Checker (Coro self) true Checker.Done) (Checker.Checker h true Checker.Done) None None).
      split; [by destruct a|]. apply ph_over. constructor.
Qed.

Lemma on_outer_cancel h x f fc y t :
  on_outer (CCancel h) (Seq x f h fc (Checker.Checker h true Checker.Running) y t) =
    Ok (Seq x f h fc (Checker.Checker h true Checker.Cancelling) y t).
Proof. unfold on_outer, Checker.step, Checker.aboutToCancel. cbn. by rewrite bool_decide_true. Qed.

Lemma cancel_first_ok ans h :
  b_suspend (s_beh ans) <> Throws ->
  exists s', step ECancel ans (Seq FirstStage false h (Checker.Checker (Coro self) true Checker.Running)
    (Checker.Checker h true Checker.Running) None None) = Ok s' /\ phase s'.
Proof.
  intros Hs. cbn [step parent_]. rewrite on_outer_cancel. res_cbn. unfold await_cancel, cancel_with. cbn [stage_ set_flags parent_].
  assert (Hin : on_first (CCancel (Coro self)) (set_flags true (Seq FirstStage false h (Checker.Checker (Coro self) true Checker.Running)
    (Checker.Checker h true Checker.Cancelling) None None)) = Ok (Seq FirstStage true h (Checker.Checker (Coro self) true Checker.Cancelling)
    (Checker.Checker h true Checker.Cancelling) None None)).
  { unfold on_first, Checker.step, Checker.aboutToCancel. cbn. by rewrite bool_decide_true. }
  rewrite Hin. res_cbn. destruct (b_cancel (f_beh ans)).
  - compute_step. in_phase.
  - compute_step. in_phase.
  - destruct (kickOffSecond_ok ans true h (Coro self) Checker.Ready Hs) as (s' & E1 & Hp); [by right|].
    exists s'. split; [|done]. cbn -[kickOffSecond] in *. norm_kick. rewrite E1. res_cbn. by destruct s'.
Qed.
Lemma cancel_second_ok ans h v fh :
  exists s', step ECancel ans (Seq (SecondStage v (Checker.Checker h true Checker.Running)) false h (Checker.Checker fh true Checker.Done)
    (Checker.Checker h true Checker.Running) (Some (inl v)) None) = Ok s' /\ phase s'.
Proof.
  cbn [step parent_]. rewrite on_outer_cancel. res_cbn. unfold await_cancel, cancel_with. cbn [stage_ set_flags parent_].
  assert (Hin : on_second (CCancel h) (set_flags true (Seq (SecondStage v (Checker.Checker h true Checker.Running)) false h
    (Checker.Checker fh true Checker.Done) (Checker.Checker h true Checker.Cancelling) (Some (inl v)) None)) =
    Ok (Seq (SecondStage v (Checker.Checker h true Checker.Cancelling)) true h (Checker.Checker fh true Checker.Done)
      (Checker.Checker h true Checker.Cancelling) (Some (inl v)) None)).
  { unfold on_second, Checker.step, Checker.aboutToCancel. cbn. by rewrite bool_decide_true. }
  rewrite Hin. res_cbn. destruct (b_cancel (s_beh ans)); compute_step; in_phase.
Qed.

Lemma first_resumes_ok ans a h :
  b_suspend (s_beh ans) <> Throws ->
  exists s', step EFirst ans (Seq FirstStage a h (Checker.Checker (Coro self) true (busy a)) (Checker.Checker h true (busy a)) None None) = Ok s' /\ phase s'.
Proof.
  intros Hs. destruct (kickOffSecond_ok ans a h (Coro self) Checker.Ready Hs) as (s' & E1 & Hp); [by right|].
  exists s'. split; [|done]. destruct a; cbn -[kickOffSecond] in *; norm_kick; by rewrite E1.
Qed.

Lemma calm_phase_step e ans s :
  b_suspend (s_beh ans) <> Throws -> phase s -> enabled e s = true -> exists s', step e ans s = Ok s' /\ phase s'.
Proof.
  intros Hs Hp He.
  destruct Hp as [ex st Hst|ex st Hst|ex|a h|a h v fh|a st x h fh fst y t Hx|a st x h fh fst y t Hx].
  - destruct e, Hst as [-> | ->], ex; try discriminate He;
      first [by apply (seq_suspend_ok ans false)|idtac]; try (destruct (b_early (f_beh ans)) eqn:Hb);
      unfold step, await_early_cancel; rewrite ?Hb; compute_step; in_phase.
  - destruct e, Hst as [-> | ->], ex; try discriminate He;
      first [by apply (seq_suspend_ok ans true)|idtac]; compute_step; in_phase.
  - destruct e, ex; discriminate He.
  - destruct e; try (destruct a; discriminate He).
    + destruct a; [discriminate He|]. by apply cancel_first_ok.
    + by apply first_resumes_ok.
  - destruct e; try (destruct a; discriminate He).
    + destruct a; [discriminate He|]. by apply cancel_second_ok.
    + destruct a; compute_step; in_phase.
  - destruct ans as [fb fo te tc [rd sk ea su ca mu er] so].
    destruct Hx as [a ?|a ? ?|?|? ?|v c Hc|v c Hc|v c Hc| |v]; try destruct a; try (destruct c; cbn in Hc);
      try destruct Hc as [-> | ->]; subst; destruct e; try discriminate He.
    all: try destruct mu; compute_step; in_phase.
  - destruct Hx as [a ? ?|a| |?|v c Hc]; try destruct a; try (destruct c; cbn in Hc; subst); destruct e; discriminate He.
Qed.

(** If the second awaiter's [await_suspend()] throws, the program ends, or it was not called
    and all is as if it would not throw. *)
Definition calm (b : behaviour) : behaviour :=
  Beh (b_ready b) (b_skippable b) (b_early b) (match b_suspend b with Throws => Later | x => x end) (b_cancel b) (b_must b) (b_error b).
Definition calm_answers ans : answers :=
  Answers (f_beh ans) (f_out ans) (t_exn ans) (t_cancels ans) (calm (s_beh ans)) (s_out ans).
Definition ends_or {A} (r r' : res A) : Prop := r = r' \/ r = Fault Terminated.
Lemma ends_or_bind {A B} (m m' : res A) (f f' : A -> res B) :
  ends_or m m' -> (forall x, ends_or (f x) (f' x)) -> ends_or (x ← m; f x) (x ← m'; f' x).
Proof. intros [->| ->] Hf; [|by right]. destruct m' as [x|]; [apply Hf|by left]. Qed.
Lemma ends_or_same {A} (r : res A) : ends_or r r.
Proof. by left. Qed.
Local Ltac same_or_ends known :=
  repeat first
    [ apply known
    | apply ends_or_same
    | apply ends_or_bind; [|intros ?]
    | match goal with
      | |- ends_or (match ?x with _ => _ end) (match ?x with _ => _ end) => destruct x
      | |- ends_or ((fun _ => _) _) _ => cbv beta
      end ].
Lemma start_second_calm ans s : ends_or (start_second ans s) (start_second (calm_answers ans) s).
Proof.
  destruct ans as [fb fo te tc [rd sk ea su ca mu er] so]. unfold start_second, calm_answers, calm. cbn [s_beh b_ready b_early b_suspend].
  destruct su; [apply ends_or_same..|]. same_or_ends @ends_or_same. by right.
Qed.
Lemma kickOffSecond_calm ans s : ends_or (kickOffSecond ans s) (kickOffSecond (calm_answers ans) s).
Proof.
  unfold kickOffSecond, make_second. cbn [calm_answers f_beh f_out t_cancels t_exn].
  same_or_ends start_second_calm.
Qed.
Lemma step_calm e ans s : ends_or (step e ans s) (step e (calm_answers ans) s).
Proof.
  destruct e; cbn [step]; unfold await_suspend, await_cancel, cancel_with; cbn [calm_answers f_beh s_beh calm b_cancel];
    same_or_ends kickOffSecond_calm.
Qed.
Lemma seq_phase_step e ans s :
  phase s -> enabled e s = true ->
  (exists s', step e ans s = Ok s' /\ phase s') \/ step e ans s = Fault Terminated /\ b_suspend (s_beh ans) = Throws.
Proof.
  intros Hp He. destruct (decide (b_suspend (s_beh ans) = Throws)) as [Hs|Hs]; [|by left; apply calm_phase_step].
  destruct (step_calm e ans s) as [E1|E1]; rewrite E1; [left|by right].
  apply calm_phase_step; [|done..]. cbn. by rewrite Hs.
Qed.

Lemma seq_reach_phase s : reach s -> phase s.
Proof.
  induction 1 as [|e ans s s' Hr IH He Hs]; [apply (ph_new false); by left|].
  destruct (seq_phase_step e ans s IH He) as [(s2 & E2 & Hp)|[E2 _]]; congruence.
Qed.

(** * Properties *)

Definition second_running s : bool := match stage_ s with SecondStage _ c => Checker.running c | _ => false end.

(** C27.  A sequence is an awaiter made of two:
    as long as its parent and the two awaiters keep to the protocol, it keeps to
    it towards all three, and no assertion of its own fails, cancellations in any
    stage included - unless the second awaiter's [await_suspend()] throws, which the
    protocol lets it do: that ends the program ([second_throws]), and is the only way to fail.
    While the parent is suspended exactly one of the two is
    suspended too, so somebody will resume the parent.  When the parent may destroy
    its awaiter, destroying the sequence destroys no awaiter in use. *)
Theorem sequence_is_awaiter s :
  reach s ->
  (forall e ans, enabled e s = true ->
     (exists s', step e ans s = Ok s') \/ step e ans s = Fault Terminated /\ b_suspend (s_beh ans) = Throws) /\
  Nat.b2n (Checker.running (outer s)) = Nat.b2n (Checker.running (first s)) + Nat.b2n (second_running s) /\
  (forall c, Checker.reset (outer s) = Ok c -> exists s', destroy s = Ok s').
Proof.
  intros Hp%seq_reach_phase. split_and!.
  - intros e ans He. destruct (seq_phase_step e ans s Hp He) as [(s' & E1 & _)|?]; [left; by exists s'|by right].
  - destruct Hp as [ex st [-> | ->]|ex st [-> | ->]|ex|a h|a h v fh|a st x h fh fst y t Hx|a st x h fh fst y t Hx];
      try destruct ex; try (by destruct a); try done.
    + destruct Hx as [a ?|a ? ?|?|? ?|v c [Hc|Hc]|v c Hc|v c Hc| |v]; try destruct a; try (destruct c; cbn in Hc; subst); done.
    + destruct Hx as [a ? ?|a| |?|v c Hc]; try (destruct c; cbn in Hc; subst); done.
  - intros c Hc. destruct Hp as [ex st [-> | ->]|ex st [-> | ->]|ex|a h|a h v fh|a st x h fh fst y t Hx|a st x h fh fst y t Hx];
      try destruct ex; try discriminate Hc; try (eexists; lazy; reflexivity); try (destruct a; discriminate Hc).
    + destruct Hx; try destruct a; discriminate Hc.
    + destruct Hx as [a ? ?|a| |?|v c' Hc']; try (destruct c'; cbn in Hc'; subst); eexists; lazy; reflexivity.
Qed.

(** The parent gets the exception of the first
    awaitable, else that of the function, else what the second awaitable yields,
    and the second is made from the value of the first, once that is done.  The
    sequence ends as cancelled only if it was asked to, and then
    the first awaitable was cancelled (and the second never made) or was done. *)
Theorem sequence_result s ans :
  reach s ->
  (asked_by_parent Checker.Ready s = true ->
     exists s', (s ← on_outer CResume s; await_resume ans s) =
       Ok (match yielded s, thrown s with
           | Some (inr e), _ | _, Some e => inr e
           | _, None => s_out ans
           end, s')) /\
  (forall v c, stage_ s = SecondStage v c -> yielded s = Some (inl v) /\ thrown s = None /\ Checker.state_ (first s) = Checker.Done) /\
  (asked_by_parent Checker.Cancelled s = true -> flags_ s = true /\
     (Checker.state_ (first s) = Checker.Cancelled /\ inSecondStage s = false \/ Checker.state_ (first s) = Checker.Done)).
Proof.
  intros Hp%seq_reach_phase.
  destruct Hp as [ex st [-> | ->]|ex st [-> | ->]|ex|a h|a h v fh|a st x h fh fst y t Hx|a st x h fh fst y t Hx];
    try (split_and!; [discriminate|by destruct ex|discriminate]).
  - split_and!; [discriminate|by destruct ex|]. intros _. split; [done|left]. by destruct ex.
  - by split_and!; [destruct a; discriminate| |destruct a; discriminate].
  - split_and!; [destruct a; discriminate| |destruct a; discriminate]. intros v' c [= -> _]. done.
  - destruct Hx as [a e|a v e|e|v e|v c [Hc|Hc]|v c Hc|v c Hc| |v]; try destruct a; try (destruct c; cbn in Hc; subst);
      (split_and!; [try discriminate; intros _; eexists; lazy; reflexivity|intros ? ? Hst; cbn in *; by simplify_eq|discriminate]).
  - destruct Hx as [a ? ?|a| |?|v c Hc];
      (split_and!; [discriminate|intros ? ? Hst; cbn in *; by simplify_eq|try discriminate; intros _; split; auto]).
Qed.
End Sequence.
Arguments seq : clear implicits.
Arguments answers : clear implicits.

(** * Runs *)

Section Play.
Context {V W E : Type} (self : loc).
Fixpoint play (l : list (event * answers V W E)) (s : seq V E) : option (seq V E) :=
  match l with
  | [] => Some s
  | (e, ans) :: l =>
      if enabled e s then match step self e ans s with Ok s => play l s | Fault _ => None end else None
  end.
Lemma play_sequence_reach l s s' : reach self (W:=W) s -> play l s = Some s' -> reach self (W:=W) s'.
Proof.
  revert s. induction l as [|[e ans] l IH]; intros s Hr; cbn [play]; [by intros [= <-]|].
  destruct (enabled e s) eqn:He; [|done]. destruct (step self e ans s) as [s1|] eqn:Es; [|done].
  apply IH. by apply (reach_step self e ans s).
Qed.
End Play.

(** Both awaitables suspend; the first yields 1, the second 2. *)
Definition later : behaviour := Beh false false false Later Refused true false.
Definition plain : answers nat nat unit := Answers later (inl 1) None false later (inl 2).
Definition both_suspend : list (event * answers nat nat unit) :=
  [(EReady, plain); (ESetExecutor, plain); (ESuspend (Coro 1), plain); (EFirst, plain); (ESecond, plain)].
Definition after_both : seq nat unit := default new_seq (play 7 both_suspend new_seq).
Lemma after_both_reach : reach 7 (W:=nat) after_both.
Proof. apply (play_sequence_reach 7 both_suspend new_seq); [apply reach_new|vm_compute; reflexivity]. Qed.

Lemma sequence_is_awaiter_witness : exists s', step 7 EResume plain after_both = Ok s'.
Proof.
  destruct (sequence_is_awaiter (W:=nat) 7 after_both after_both_reach) as [H _].
  destruct (H EResume plain) as [E|[_ E]]; [vm_compute; reflexivity|exact E|discriminate E].
Defined.
Lemma sequence_result_witness :
  exists s', (s ← on_outer CResume after_both; await_resume plain s) = Ok (inl 2, s').
Proof. destruct (sequence_result (W:=nat) 7 after_both plain after_both_reach) as [H _]. apply H. vm_compute. reflexivity. Defined.

(** A cancellation that reaches the first awaitable on time. *)
Example cancelled_in_first :
  option_map (fun s => (Checker.state_ (outer s), yielded s))
    (play 7 (take 3 both_suspend ++ [(ECancel, plain); (EFirst, Answers (Beh false false false Later Refused false false) (inl 1) None false later (inl 2));
      (EMustResume, plain)]) new_seq) = Some (Checker.Cancelled, None).
Proof. vm_compute. reflexivity. Qed.

(** An exception from the second awaiter's [await_suspend()] does not reach the
    parent: [kickOffSecond()] is [noexcept]. *)
Example second_throws :
  option_map (fun s => step 7 EFirst (Answers later (inl 1) None false (Beh false false false Throws Refused true false) (inl 2)) s)
    (play 7 (take 3 both_suspend) (new_seq (E:=unit))) = Some (Fault Terminated).
Proof. vm_compute. reflexivity. Qed.
