(* ===== verification/TryBlock.v ===== *)
(** [detail/exception.h]: [try_(...).catch_(...).finally(...)], an asynchronous
    try-catch-finally.

    [tryblock] is a [TryBlock] and its parent's state checker ([outer]).  What its
    blocks do is the environment's: when a block is invoked it throws at once, is
    done at once, or runs as a task ([start]); a task that runs ends with a value
    or an exception, or as cancelled if it was told to cancel (that it does not
    otherwise is [task_cancel_request_sticks] of Task.v). *)
From S2P Require Export Awaiter.
Import Checker(checker, call(..)).

(** A catch-block: of a type of exceptions, or [catch (...)]. *)
Inductive catcher (E : Type) := Typed (matches : E -> bool) | Ellipsis.
Arguments Typed {E} matches.
Arguments Ellipsis {E}.

Inductive stage := TRY | CATCH | FINALLY.
Inductive block := BTry | BCatch (i : nat) | BFinally.
#[export] Instance stage_eq_dec : EqDecision stage.
Proof. solve_decision. Defined.
#[export] Instance block_eq_dec : EqDecision block.
Proof. solve_decision. Defined.

Section TryBlock.
(** [Void] stands for a missing finally-block. *)
Context {E : Type} (catches : list (catcher E)) (has_finally : bool).

Inductive outcome := OValue | OThrow (e : E) | OCancelled.
Inductive started := AtOnce | Throws (e : E) | Runs.

(** [asked]: whether the task that runs was told to cancel; [ended]: the blocks
    that have ended, and how. *)
Record tryblock := TB {
  stage_ : stage; earlyCancel_ : bool; completed_ : bool; exception_ : option E; exceptionHandled_ : bool;
  task_ : option block; parent_ : handle; outer : checker; asked : bool; ended : list (block * outcome) }.
Implicit Types (s : tryblock).

Definition set_stage (x : stage) s : tryblock :=
  TB x (earlyCancel_ s) (completed_ s) (exception_ s) (exceptionHandled_ s) (task_ s) (parent_ s) (outer s) (asked s) (ended s).
Definition set_early (b : bool) s : tryblock :=
  TB (stage_ s) b (completed_ s) (exception_ s) (exceptionHandled_ s) (task_ s) (parent_ s) (outer s) (asked s) (ended s).
Definition set_completed (b : bool) s : tryblock :=
  TB (stage_ s) (earlyCancel_ s) b (exception_ s) (exceptionHandled_ s) (task_ s) (parent_ s) (outer s) (asked s) (ended s).
Definition set_exception (e : option E) s : tryblock :=
  TB (stage_ s) (earlyCancel_ s) (completed_ s) e (exceptionHandled_ s) (task_ s) (parent_ s) (outer s) (asked s) (ended s).
Definition set_handled (b : bool) s : tryblock :=
  TB (stage_ s) (earlyCancel_ s) (completed_ s) (exception_ s) b (task_ s) (parent_ s) (outer s) (asked s) (ended s).
Definition set_task (t : option block) s : tryblock :=
  TB (stage_ s) (earlyCancel_ s) (completed_ s) (exception_ s) (exceptionHandled_ s) t (parent_ s) (outer s) false (ended s).
Definition set_parent (h : handle) s : tryblock :=
  TB (stage_ s) (earlyCancel_ s) (completed_ s) (exception_ s) (exceptionHandled_ s) (task_ s) h (outer s) (asked s) (ended s).
Definition set_outer (c : checker) s : tryblock :=
  TB (stage_ s) (earlyCancel_ s) (completed_ s) (exception_ s) (exceptionHandled_ s) (task_ s) (parent_ s) c (asked s) (ended s).
Definition set_asked (b : bool) s : tryblock :=
  TB (stage_ s) (earlyCancel_ s) (completed_ s) (exception_ s) (exceptionHandled_ s) (task_ s) (parent_ s) (outer s) b (ended s).
Definition log_end (b : block) (o : outcome) s : tryblock :=
  TB (stage_ s) (earlyCancel_ s) (completed_ s) (exception_ s) (exceptionHandled_ s) (task_ s) (parent_ s) (outer s) (asked s) (ended s ++ [(b, o)]).

Definition on_outer (k : call) s : res tryblock := c ← Checker.step k (outer s); Ok (set_outer c s).
(** [resume()] of the handle that a function of the block returned: a task that
    was just started, or the parent. *)
Definition resume (h : handle) s : res tryblock := match h with Noop => Ok s | Coro _ => on_outer CResumed s end.

Definition new_tryblock : tryblock := TB TRY false false None false None Noop Checker.initial false [].
(** [~TryBlock()] *)
Definition destroy s : res unit := corral_assert (bool_decide (task_ s = None)).

(** * Results of the blocks *)

(** [storeValue()], [storeException()] *)
Definition storeValue s : tryblock :=
  match stage_ s with FINALLY => s | _ => set_exception None (set_completed true s) end.
Definition storeException (e : E) s : res tryblock :=
  if bool_decide (stage_ s = FINALLY) && bool_decide (is_Some (exception_ s)) then Fault Terminated
  else Ok (set_handled false (set_exception (Some e) s)).

Section Run.
Context (start : block -> started).

(** [dispatchException<I>()], given [invoke()] and [continuation(nullptr)] *)
Fixpoint dispatchException (invoke : block -> tryblock -> res (handle * tryblock)) (continuation : tryblock -> res (handle * tryblock))
    (cs : list (catcher E)) (i : nat) s : res (handle * tryblock) :=
  match cs with
  | [] => continuation s
  | Ellipsis :: _ => invoke (BCatch i) s
  | Typed matches :: cs =>
      e ← deref (exception_ s);
      if matches e then invoke (BCatch i) (set_handled true s) else dispatchException invoke continuation cs (S i) s
  end.

(** [invoke(lambda)] and [continuation(p)], with the handle they return.  They
    call each other at most once for every block. *)
Fixpoint invoke (fuel : nat) (b : block) s : res (handle * tryblock) :=
  match fuel with
  | O => Fault OutOfFuel
  | S fuel =>
      if bool_decide (b = BFinally) && negb has_finally then continuation fuel None (storeValue s)
      else
        match start b with
        | AtOnce => continuation fuel None (storeValue (log_end b OValue s))
        | Throws e => s ← storeException e (log_end b (OThrow e) s); continuation fuel None s
        | Runs => Ok (Noop, set_task (Some b) s)
        end
  end
with continuation (fuel : nat) (p : option block) s : res (handle * tryblock) :=
  match fuel with
  | O => Fault OutOfFuel
  | S fuel =>
      corral_assert (bool_decide (p = task_ s));;
      let s := set_task None s in
      match stage_ s with
      | TRY =>
          if exception_ s
          then dispatchException (invoke fuel) (continuation fuel None) catches 0 (set_stage CATCH s)
          else invoke fuel BFinally (set_stage FINALLY s)
      | CATCH => invoke fuel BFinally (set_stage FINALLY s)
      | FINALLY => Ok (parent_ s, set_parent Noop s)
      end
  end.
Definition depth : nat := 6.

(** The task that runs ends: its promise stores the result, if any, and resumes
    what [continuation()] returns. *)
Definition task_ends (o : outcome) s : res tryblock :=
  b ← deref (task_ s);
  s ← (let s := log_end b o s in
       match o with OValue => Ok (storeValue s) | OThrow e => storeException e s | OCancelled => Ok s end);
  '(h, s) ← continuation depth (Some b) s; resume h s.

(** * [TryBlock] as an awaiter *)

Definition await_ready : bool := false.
Definition await_early_cancel s : bool * tryblock := (false, set_early true s).
Definition cancellable s : bool := negb (bool_decide (stage_ s = FINALLY)) && bool_decide (is_Some (task_ s)).
Definition await_suspend (h : handle) s : res tryblock :=
  '(ret, s) ← invoke depth BTry (set_parent h s);
  let s := if cancellable s && earlyCancel_ s then set_asked true s else s in
  resume ret s.
(** [sync]: how the task ends, if it ends while it is told to cancel. *)
Definition await_cancel (sync : option outcome) s : res (bool * tryblock) :=
  if cancellable s then
    s ← (match sync with Some o => task_ends o (set_asked true s) | None => Ok (set_asked true s) end);
    Ok (false, s)
  else Ok (false, s).
Definition uncaught s : bool := bool_decide (is_Some (exception_ s)) && negb (exceptionHandled_ s).
Definition await_must_resume s : bool := completed_ s || uncaught s.
(** The exception it rethrows, if any. *)
Definition await_resume s : option E := if uncaught s then exception_ s else None.

(** * The block in use *)

Inductive event :=
| EReady | EEarlyCancel | ESetExecutor | ESuspend (c : loc) | ECancel (sync : option outcome) | EEnds (o : outcome)
| EMustResume | EResume.
Definition step (e : event) s : res tryblock :=
  match e with
  | EReady => on_outer (CReady await_ready) s
  | EEarlyCancel => let '(b, s) := await_early_cancel s in on_outer (CEarlyCancel b) s
  | ESetExecutor => on_outer CSetExecutor s
  | ESuspend c => s ← on_outer (CSuspend (Coro c)) s; await_suspend (Coro c) s
  | ECancel sync =>
      s ← on_outer (CCancel (parent_ s)) s;
      '(b, s) ← await_cancel sync s; on_outer (CCancelled b) s
  | EEnds o => task_ends o s
  | EMustResume => on_outer (CMustResume (await_must_resume s)) s
  | EResume => on_outer CResume s
  end.
End Run.

Definition enabled (e : event) s : bool :=
  match e with
  | EReady => Checker.may Checker.QReady (outer s)
  | EEarlyCancel => Checker.may Checker.QEarlyCancel (outer s)
  | ESetExecutor => Checker.may Checker.QSetExecutor (outer s)
  | ESuspend _ => Checker.may Checker.QSuspend (outer s)
  | ECancel sync => Checker.may Checker.QCancel (outer s)
  | EEnds o => bool_decide (is_Some (task_ s)) && (asked s || match o with OCancelled => false | _ => true end)
  | EMustResume => Checker.may Checker.QMustResume (outer s)
  | EResume => Checker.may Checker.QResume (outer s)
  end.
Inductive reach : tryblock -> Prop :=
| reach_new : reach new_tryblock
| reach_step start e s s' : reach s -> enabled e s = true -> step start e s = Ok s' -> reach s'.

(** * The reference: a sequential try-catch-finally *)

Fixpoint find_from (cs : list (catcher E)) (i : nat) (e : E) : option (nat * bool) :=
  match cs with
  | [] => None
  | Ellipsis :: _ => Some (i, false)
  | Typed matches :: cs => if matches e then Some (i, true) else find_from cs (S i) e
  end.
(** The first handler that fits, and whether it names a type. *)
Definition handler (e : E) : option (nat * bool) := find_from catches 0 e.

Inductive verdict := Completes | Raises (e : E) | IsCancelled.

(** What try- and catch-block amount to: an exception is not raised again once a handler
    has taken it, also if the handler is cancelled.  The finally-block only matters if it
    throws. *)
Definition body_verdict (t c : outcome) : verdict :=
  match t with
  | OValue => Completes
  | OCancelled => IsCancelled
  | OThrow e =>
      match handler e with
      | None => Raises e
      | Some _ => match c with OValue => Completes | OThrow e' => Raises e' | OCancelled => IsCancelled end
      end
  end.
Definition final_verdict (t c f : outcome) : verdict :=
  match f with OThrow e => if has_finally then Raises e else body_verdict t c | _ => body_verdict t c end.

(** The exception of a try-block whose catch-all block was cancelled, unless the
    finally-block has thrown another. *)
Definition leaked (t c f : outcome) : option E :=
  match t, c with
  | OThrow e, OCancelled =>
      match handler e, f with
      | Some (_, false), OThrow _ => if has_finally then None else Some e
      | Some (_, false), _ => Some e
      | _, _ => None
      end
  | _, _ => None
  end.

(** The blocks that run, in order. *)
Definition catch_block (t c : outcome) : list (block * outcome) :=
  match t with
  | OThrow e => match handler e with Some (i, _) => [(BCatch i, c)] | None => [] end
  | _ => []
  end.
Definition body_blocks (t c : outcome) : list (block * outcome) := (BTry, t) :: catch_block t c.
Definition all_blocks (t c f : outcome) : list (block * outcome) :=
  body_blocks t c ++ (if has_finally then [(BFinally, f)] else []).
End TryBlock.
Arguments outcome : clear implicits.
Arguments started : clear implicits.
Arguments tryblock : clear implicits.
Arguments event : clear implicits.
Arguments verdict : clear implicits.

(** * The block implements the reference *)

Section Laws.
Context {E : Type} (catches : list (catcher E)) (has_finally : bool).
Implicit Types (s : tryblock E) (t c f : outcome E) (start : block -> started E).
Local Abbreviation invoke := (invoke catches has_finally).
Local Abbreviation continuation := (continuation catches has_finally).
Local Abbreviation step := (step catches has_finally).
Local Abbreviation handler := (handler catches).
Local Abbreviation body_verdict := (body_verdict catches).
Local Abbreviation final_verdict := (final_verdict catches has_finally).
Local Abbreviation leaked := (leaked catches has_finally).
Local Abbreviation body_blocks := (body_blocks catches).
Local Abbreviation all_blocks := (all_blocks catches has_finally).

(** What the parent is told. *)
Definition told_body t c : verdict E :=
  match t, c with
  | OThrow e, OCancelled => match handler e with Some (_, false) => Raises e | _ => body_verdict t c end
  | _, _ => body_verdict t c
  end.
Definition told t c f : verdict E :=
  match f with OThrow e => if has_finally then Raises e else told_body t c | _ => told_body t c end.
(** It is what the reference says, but for a catch-all block that is cancelled. *)
Lemma told_reference t c f :
  told t c f = match leaked t c f with Some e => Raises e | None => final_verdict t c f end.
Proof.
  unfold told, told_body, TryBlock.final_verdict, TryBlock.leaked.
  destruct t as [|e|], c as [|e'|], f as [|e''|], has_finally; try done;
    destruct (handler e) as [[i []]|] eqn:Hh; try done; cbn; by rewrite Hh.
Qed.
Lemma leaked_cancelled t c f e : leaked t c f = Some e -> final_verdict t c f = IsCancelled.
Proof.
  unfold TryBlock.leaked, TryBlock.final_verdict.
  destruct t as [|e0|], c as [|e'|], f as [|e''|], has_finally; try done;
    destruct (handler e0) as [[i []]|] eqn:Hh; try done; intros _; cbn; by rewrite Hh.
Qed.

(** [completed_], [exception_] and [exceptionHandled_] after the body, and at the end. *)
Definition body_flags t c : bool * option E * bool :=
  match t with
  | OValue => (true, None, false)
  | OCancelled => (false, None, false)
  | OThrow e =>
      match handler e with
      | None => (false, Some e, false)
      | Some (_, typed) =>
          match c with
          | OValue => (true, None, typed)
          | OThrow e' => (false, Some e', false)
          | OCancelled => (false, Some e, typed)
          end
      end
  end.
Definition final_flags t c f : bool * option E * bool :=
  match f with
  | OThrow e => if has_finally then ((body_flags t c).1.1, Some e, false) else body_flags t c
  | _ => body_flags t c
  end.

Definition busy (a : bool) : Checker.state := if a then Checker.Cancelling else Checker.Running.

(** Where a block stands: before it is suspended; in one of its stages, with the
    parent cancelled ([a]) or not; at the end. *)
Inductive phase : tryblock E -> Prop :=
| ph_before (ex early : bool) st :
    (if early then st = Checker.InitialCxlPend \/ st = Checker.CancelPending else st = Checker.Initial \/ st = Checker.NotReady) ->
    phase (TB TRY early false None false None Noop (Checker.Checker Noop ex st) false [])
| ph_try (early a k : bool) p : (early || k = true -> a = true) ->
    phase (TB TRY early false None false (Some BTry) (Coro p) (Checker.Checker (Coro p) true (busy a)) k [])
| ph_catch (early a k : bool) p e i typed : handler e = Some (i, typed) -> (early || k = true -> a = true) ->
    phase (TB CATCH early false (Some e) typed (Some (BCatch i)) (Coro p) (Checker.Checker (Coro p) true (busy a)) k [(BTry, OThrow e)])
| ph_finally (early a : bool) p t c cm x h : has_finally = true -> body_flags t c = (cm, x, h) -> (told_body t c = IsCancelled -> a = true) ->
    phase (TB FINALLY early cm x h (Some BFinally) (Coro p) (Checker.Checker (Coro p) true (busy a)) false (body_blocks t c))
| ph_end (early a : bool) p t c f cm x h st : final_flags t c f = (cm, x, h) -> f <> OCancelled ->
    (told t c f = IsCancelled -> a = true) ->
    match st with
    | Checker.ReadyAfterCancel => a = true
    | Checker.Ready => a = true -> told t c f <> IsCancelled
    | Checker.Done | Checker.Cancelled => True
    | _ => False
    end ->
    phase (TB FINALLY early cm x h None Noop (Checker.Checker (Coro p) true st) false (all_blocks t c f)).

(** What [invoke()] and [continuation()] may come to: a task that runs, the parent
    to be resumed, or [std::terminate()] because the finally-block threw. *)
Definition lands start (a : bool) (p : loc) (r : res (handle * tryblock E)) : Prop :=
  match r with
  | Ok (h, s) =>
      h = Noop /\ phase s \/
      h = Coro p /\ exists early t c f cm x hd,
        s = TB FINALLY early cm x hd None Noop (Checker.Checker (Coro p) true (busy a)) false (all_blocks t c f) /\
        final_flags t c f = (cm, x, hd) /\ f <> OCancelled /\ (told t c f = IsCancelled -> a = true)
  | Fault f => f = Terminated /\ has_finally = true /\ exists e, start BFinally = Throws e
  end.

Lemma final_flags_none t c : has_finally = false -> final_flags t c OValue = body_flags t c.
Proof. done. Qed.

Lemma invoke_finally_ok start n early a p t c cm x hd :
  body_flags t c = (cm, x, hd) -> (told_body t c = IsCancelled -> a = true) ->
  lands start a p (invoke start (S (S n)) BFinally
    (TB FINALLY early cm x hd None (Coro p) (Checker.Checker (Coro p) true (busy a)) false (body_blocks t c))).
Proof.
  intros Hf Hv. cbn [TryBlock.invoke]. rewrite bool_decide_true by done. destruct has_finally eqn:Hfin; cbn [negb andb].
  - destruct (start BFinally) as [|e|] eqn:Hs; cbn [TryBlock.continuation].
    + right. split; [done|]. exists early, t, c, OValue, cm, x, hd. split_and!; try done. unfold TryBlock.all_blocks. by rewrite Hfin.
    + unfold storeException. cbn. destruct x as [e0|]; cbn.
      * split_and!; try done. by exists e.
      * right. split; [done|]. exists early, t, c, (OThrow e), cm, (Some e), false.
        unfold TryBlock.all_blocks, final_flags, told. rewrite Hfin, Hf. by split_and!.
    + left. split; [done|]. by apply ph_finally.
  - cbn. right. split; [done|]. exists early, t, c, OValue, cm, x, hd. split_and!; try done.
    unfold TryBlock.all_blocks. by rewrite Hfin, app_nil_r.
Qed.

(** One call of [continuation()]. *)
Lemma continuation_eq start n q s :
  continuation start (S n) q s =
    (corral_assert (bool_decide (q = task_ s));;
     let s := set_task None s in
     match stage_ s with
     | TRY =>
         if exception_ s
         then dispatchException (invoke start n) (continuation start n None) catches 0 (set_stage CATCH s)
         else invoke start n BFinally (set_stage FINALLY s)
     | CATCH => invoke start n BFinally (set_stage FINALLY s)
     | FINALLY => Ok (parent_ s, set_parent Noop s)
     end).
Proof. done. Qed.

Lemma invoke_eq start n b s :
  invoke start (S n) b s =
    (if bool_decide (b = BFinally) && negb has_finally then continuation start n None (storeValue s)
     else
       match start b with
       | AtOnce => continuation start n None (storeValue (log_end b OValue s))
       | Throws e => s ← storeException e (log_end b (OThrow e) s); continuation start n None s
       | Runs => Ok (Noop, set_task (Some b) s)
       end).
Proof. done. Qed.
(** Computes the state [continuation()] is called in. *)
Local Ltac norm_state :=
  match goal with
  | |- context [continuation _ _ _ ?x] =>
      let y := eval cbv [storeValue log_end set_exception set_completed set_handled set_task set_stage stage_ earlyCancel_ completed_
        exception_ exceptionHandled_ task_ parent_ outer asked ended app] in x in
      progress change x with y
  end.

Lemma after_catch_ok start n early a k p q t c cm x hd :
  body_flags t c = (cm, x, hd) -> (told_body t c = IsCancelled -> a = true) ->
  lands start a p (continuation start (S (S (S n))) q
    (TB CATCH early cm x hd q (Coro p) (Checker.Checker (Coro p) true (busy a)) k (body_blocks t c))).
Proof.
  intros Hf Hv. rewrite continuation_eq. cbn [task_]. rewrite bool_decide_true by done. res_cbn. cbn [stage_ set_task].
  by apply invoke_finally_ok.
Qed.

(** The handlers are tried in order. *)
Lemma dispatch_find inv cont cs i s e :
  exception_ s = Some e ->
  dispatchException inv cont cs i s =
    match find_from cs i e with
    | Some (j, typed) => inv (BCatch j) (if typed then set_handled true s else s)
    | None => cont s
    end.
Proof.
  intros He. revert i. induction cs as [|[m|] cs IH]; intros i; [done| |done].
  cbn [dispatchException find_from]. rewrite He. res_cbn. destruct (m e); [done|apply IH].
Qed.

Lemma after_try_threw_ok start n early a k p q e :
  (early = true -> a = true) ->
  lands start a p (continuation start (S (S (S (S (S n))))) q
    (TB TRY early false (Some e) false q (Coro p) (Checker.Checker (Coro p) true (busy a)) k [(BTry, OThrow e)])).
Proof.
  intros Hea. rewrite continuation_eq. cbn [task_]. rewrite bool_decide_true by done. res_cbn. cbn [stage_ set_task exception_].
  rewrite (dispatch_find _ _ _ _ _ e) by done. fold (handler e).
  assert (Hbb : forall c, body_blocks (OThrow e) c =
    (BTry, OThrow e) :: match handler e with Some (i, _) => [(BCatch i, c)] | None => [] end) by done.
  destruct (handler e) as [[j typed]|] eqn:Hh.
  - rewrite invoke_eq, bool_decide_false by done. cbn [andb].
    set (s1 := if typed then _ else _).
    assert (Hs1 : s1 = TB CATCH early false (Some e) typed None (Coro p) (Checker.Checker (Coro p) true (busy a)) false [(BTry, OThrow e)])
      by (by destruct typed). rewrite Hs1. clear s1 Hs1.
    destruct (start (BCatch j)) as [|e'|].
    + assert (Hb : body_flags (OThrow e) OValue = (true, None, typed)) by (cbn; by rewrite Hh).
      norm_state. rewrite <- (Hbb OValue). apply (after_catch_ok start n early a false p None (OThrow e) OValue); [done|]. cbn. by rewrite Hh.
    + assert (Hb : body_flags (OThrow e) (OThrow e') = (false, Some e', false)) by (cbn; by rewrite Hh).
      unfold storeException. cbn [stage_ log_end]. rewrite bool_decide_false by done. cbn [andb]. res_cbn.
      norm_state. rewrite <- (Hbb (OThrow e')). apply (after_catch_ok start n early a false p None (OThrow e) (OThrow e')); [done|]. cbn. by rewrite Hh.
    + left. split; [done|]. apply ph_catch; [done|]. by rewrite orb_false_r.
  - norm_state. rewrite <- (Hbb OValue).
    apply (after_catch_ok start (S n) early a false p None (OThrow e) OValue); cbn; by rewrite Hh.
Qed.

Lemma after_try_ok start n early a k p q t (cm : bool) :
  t <> OCancelled \/ a = true -> (forall e, t <> OThrow e) -> cm = match t with OValue => true | _ => false end ->
  lands start a p (continuation start (S (S (S n))) q
    (TB TRY early cm None false q (Coro p) (Checker.Checker (Coro p) true (busy a)) k [(BTry, t)])).
Proof.
  intros Hc Ht ->. rewrite continuation_eq. cbn [task_]. rewrite bool_decide_true by done. res_cbn. cbn [stage_ set_task exception_].
  assert (Hb : [(BTry, t)] = body_blocks t OValue) by (destruct t; try done; by destruct (Ht e)). rewrite Hb.
  apply invoke_finally_ok; destruct t; try done; try (by destruct (Ht e)). intros _. by destruct Hc.
Qed.

Lemma invoke_try_ok start n early p :
  lands start early p (invoke start (S (S (S (S (S (S n)))))) BTry
    (TB TRY early false None false None (Coro p) (Checker.Checker (Coro p) true (busy early)) false [])).
Proof.
  rewrite invoke_eq, bool_decide_false by done. cbn [andb]. destruct (start BTry) as [|e|].
  - by apply (after_try_ok start (S (S n)) early early false p None OValue true); [left|..].
  - by apply (after_try_threw_ok start n early early false p None e).
  - left. split; [done|]. apply ph_try. by rewrite orb_false_r.
Qed.

(** A step either succeeds or ends the program, because the finally-block throws
    at once, or while an exception is pending. *)
Definition settles start (pending : bool) (r : res (tryblock E)) : Prop :=
  match r with
  | Ok s => phase s
  | Fault f => f = Terminated /\ has_finally = true /\ ((exists e, start BFinally = Throws e) \/ pending = true)
  end.

Lemma lands_resume start a p pend r : lands start a p r -> settles start pend ('(h, s) ← r; resume h s).
Proof.
  destruct r as [[h s]|f]; cbn.
  - intros [[-> Hp]|[-> (early & t & c & f & cm & x & hd & -> & Hf & Hn & Hv)]]; [done|].
    unfold resume, on_outer, Checker.step, Checker.resumed. destruct a; cbn; [by apply (ph_end early true p t c f)|by apply (ph_end early false p t c f)].
  - intros (-> & ? & ?). split_and!; auto.
Qed.

Lemma body_blocks_threw e c i typed : handler e = Some (i, typed) -> body_blocks (OThrow e) c = [(BTry, OThrow e); (BCatch i, c)].
Proof. intros Hh. unfold TryBlock.body_blocks, catch_block. unfold TryBlock.handler in *. by rewrite Hh. Qed.

Lemma try_ends_ok start early a k p o pend :
  (early = true -> a = true) -> (o = OCancelled -> a = true) ->
  settles start pend (task_ends catches has_finally start o
    (TB TRY early false None false (Some BTry) (Coro p) (Checker.Checker (Coro p) true (busy a)) k [])).
Proof.
  intros Hea Ho. unfold task_ends. cbn [task_ deref]. res_cbn. destruct o as [|e|]; res_cbn; apply (lands_resume _ a p).
  - norm_state. apply (after_try_ok start 3 early a k p (Some BTry) OValue true); [by left|done|done].
  - norm_state. by apply (after_try_threw_ok start 1 early a k p (Some BTry) e).
  - norm_state. apply (after_try_ok start 3 early a k p (Some BTry) OCancelled false); [right; by apply Ho|done|done].
Qed.

Lemma catch_ends_ok start early a k p e i typed o pend :
  handler e = Some (i, typed) -> (o = OCancelled -> a = true) ->
  settles start pend (task_ends catches has_finally start o
    (TB CATCH early false (Some e) typed (Some (BCatch i)) (Coro p) (Checker.Checker (Coro p) true (busy a)) k [(BTry, OThrow e)])).
Proof.
  intros Hh Ho. unfold task_ends. cbn [task_ deref]. res_cbn.
  assert (Hb : forall cm x hd, body_flags (OThrow e) o = (cm, x, hd) -> (told_body (OThrow e) o = IsCancelled -> a = true) ->
    settles start pend ('(h, s) ← continuation start depth (Some (BCatch i))
      (TB CATCH early cm x hd (Some (BCatch i)) (Coro p) (Checker.Checker (Coro p) true (busy a)) k [(BTry, OThrow e); (BCatch i, o)]); resume h s)).
  { intros cm x hd Hf Hv. apply (lands_resume _ a p). rewrite <- (body_blocks_threw e o i typed Hh).
    apply (after_catch_ok start 3 early a k p (Some (BCatch i)) (OThrow e) o); done. }
  destruct o as [|e'|]; cbn [body_flags told_body TryBlock.body_verdict] in Hb; rewrite !Hh in Hb.
  - res_cbn. norm_state. by apply Hb.
  - unfold storeException. cbn [stage_ log_end]. rewrite bool_decide_false by done. cbn [andb]. res_cbn. norm_state. by apply Hb.
  - res_cbn. norm_state. apply Hb; [done|]. intros _. by apply Ho.
Qed.

Lemma finally_ends_ok start early a p t c cm x hd o pend :
  has_finally = true -> body_flags t c = (cm, x, hd) -> (told_body t c = IsCancelled -> a = true) -> o <> OCancelled ->
  (forall e, o = OThrow e -> is_Some x -> pend = true) ->
  settles start pend (task_ends catches has_finally start o
    (TB FINALLY early cm x hd (Some BFinally) (Coro p) (Checker.Checker (Coro p) true (busy a)) false (body_blocks t c))).
Proof.
  intros Hfin Hf Hv Ho Hp. unfold task_ends. cbn [task_ deref]. res_cbn.
  assert (Hall : forall f, body_blocks t c ++ [(BFinally, f)] = all_blocks t c f) by (intros f; unfold TryBlock.all_blocks; by rewrite Hfin).
  destruct o as [|e|]; [| |done].
  - res_cbn. norm_state. rewrite Hall. apply (lands_resume _ a p). right. split; [done|]. by exists early, t, c, OValue, cm, x, hd.
  - unfold storeException. cbn [stage_ log_end exception_]. destruct x as [e0|].
    + rewrite !bool_decide_true by done. cbn. split_and!; [done..|]. right. by apply (Hp e).
    + rewrite bool_decide_true by done. rewrite bool_decide_false by (by intros [? ?]). cbn [andb]. res_cbn. norm_state. rewrite Hall.
      apply (lands_resume _ a p). right. split; [done|]. exists early, t, c, (OThrow e), cm, (Some e), false.
      unfold final_flags, told. rewrite Hfin, Hf. by split_and!.
Qed.

(** ** Every step *)

Definition blow_up (e : event E) s : bool :=
  bool_decide (stage_ s = FINALLY) && bool_decide (is_Some (exception_ s)) && match e with EEnds (OThrow _) => true | _ => false end.

Lemma final_answers early cm x hd tk p o k l t c f :
  final_flags t c f = (cm, x, hd) ->
  await_must_resume (TB FINALLY early cm x hd tk p o k l) = match told t c f with IsCancelled => false | _ => true end /\
  await_resume (TB FINALLY early cm x hd tk p o k l) = match told t c f with Raises e => Some e | _ => None end.
Proof.
  unfold await_must_resume, await_resume, uncaught. cbn [completed_ exception_ exceptionHandled_].
  assert (Hbody : forall cm x hd, body_flags t c = (cm, x, hd) ->
    cm || bool_decide (is_Some x) && negb hd = match told_body t c with IsCancelled => false | _ => true end /\
    (if bool_decide (is_Some x) && negb hd then x else None) = match told_body t c with Raises e => Some e | _ => None end).
  { clear. intros cm x hd. unfold body_flags, told_body, TryBlock.body_verdict. destruct t as [|e|]; [by intros [= <- <- <-]| |by intros [= <- <- <-]].
    destruct (handler e) as [[j ty]|]; [|by destruct c; intros [= <- <- <-]].
    destruct c; [|by intros [= <- <- <-]|]; by destruct ty; intros [= <- <- <-]. }
  unfold final_flags, told. destruct f as [|e|]; try apply Hbody.
  destruct has_finally; [|apply Hbody]. intros [= <- <- <-]. cbn. by rewrite orb_true_r.
Qed.

(** The parent asks for cancellation. *)
Lemma on_outer_cancel_ok st el cm x hd tk p k l :
  on_outer (CCancel (Coro p)) (TB st el cm x hd tk (Coro p) (Checker.Checker (Coro p) true (busy false)) k l) =
    Ok (TB (E:=E) st el cm x hd tk (Coro p) (Checker.Checker (Coro p) true (busy true)) k l).
Proof. unfold on_outer, Checker.step, Checker.aboutToCancel. cbn. by rewrite bool_decide_true. Qed.

Lemma cancelled_settles start pend r :
  settles start pend r ->
  settles start pend ('(b, s) ← (s ← r; Ok (false, s)); on_outer (CCancelled b) s).
Proof. destruct r as [s|f]; cbn; [|done]. unfold on_outer. cbn. by destruct s. Qed.

Lemma block_cancel_ok start sync s :
  phase s -> enabled (ECancel sync) s = true -> settles start false (step start (ECancel sync) s).
Proof.
  intros Hp He. destruct Hp as [ex early st Hst|early a k p Hk|early a k p e i ty Hh Hk|early a p t c cm x hd Hfin Hf Hv|early a p t c f cm x hd st Hf Hn Hv Hst].
  - by destruct early, Hst as [-> | ->].
  - destruct a; [discriminate|]. cbn [TryBlock.step parent_]. rewrite on_outer_cancel_ok. res_cbn. unfold await_cancel, cancellable. cbn [stage_ task_].
    rewrite bool_decide_false, bool_decide_true by (done || by eexists). cbn [negb andb]. apply cancelled_settles.
    destruct sync as [o|]; [by apply try_ends_ok|by apply (ph_try early true true)].
  - destruct a; [discriminate|]. cbn [TryBlock.step parent_]. rewrite on_outer_cancel_ok. res_cbn. unfold await_cancel, cancellable. cbn [stage_ task_].
    rewrite bool_decide_false, bool_decide_true by (done || by eexists). cbn [negb andb]. apply cancelled_settles.
    destruct sync as [o|]; [by apply catch_ends_ok|by apply (ph_catch early true true p e i ty)].
  - destruct a; [discriminate|]. cbn [TryBlock.step parent_]. rewrite on_outer_cancel_ok. res_cbn. unfold await_cancel, cancellable. cbn [stage_ task_].
    rewrite bool_decide_true by done. cbn. by apply (ph_finally early true p t c).
  - destruct st; try done.
Qed.

Lemma set_asked_ok s : phase s -> cancellable s && earlyCancel_ s = true -> phase (set_asked true s).
Proof.
  intros Hp [Hc He]%andb_prop. destruct Hp as [ex early st Hst|early a k p Hk|early a k p e' i ty Hh Hk|early a p t c cm x hd Hfin Hf Hv|early a p t c f cm x hd st Hf Hn Hv Hst];
    try discriminate Hc.
  - apply (ph_try early a true). intros _. apply Hk. cbn in He. by rewrite He.
  - apply (ph_catch early a true p e' i ty); [done|]. intros _. apply Hk. cbn in He. by rewrite He.
Qed.
Lemma suspend_block_ok start early l pend :
  settles start pend (step start (ESuspend l) (TB TRY early false None false None Noop
    (Checker.Checker Noop true (if early then Checker.CancelPending else Checker.NotReady)) false [])).
Proof.
  assert (E1 : step start (ESuspend l) (TB TRY early false None false None Noop
      (Checker.Checker Noop true (if early then Checker.CancelPending else Checker.NotReady)) false []) =
    ('(ret, s) ← invoke start depth BTry (TB TRY early false None false None (Coro l) (Checker.Checker (Coro l) true (busy early)) false []);
     let s := if cancellable s && earlyCancel_ s then set_asked true s else s in resume ret s)) by (by destruct early).
  rewrite E1. pose proof (invoke_try_ok start 0 early l) as Hl. change (S (S (S (S (S (S 0)))))) with depth in Hl.
  destruct (invoke start depth BTry _) as [[h s]|f]; [|by apply (lands_resume start early l pend (Fault f))].
  res_cbn. apply (lands_resume start early l pend (Ok (h, if cancellable s && earlyCancel_ s then set_asked true s else s))).
  destruct Hl as [[-> Hp]|[-> (ea & t & c & f & cm & x & hd & -> & Hx)]]; [|by right; split; [done|]; exists ea, t, c, f, cm, x, hd].
  left. split; [done|]. destruct (cancellable s && earlyCancel_ s) eqn:Hc; [by apply set_asked_ok|done].
Qed.

Lemma block_step_ok start e s :
  phase s -> enabled e s = true -> settles start (blow_up e s) (step start e s).
Proof.
  intros Hp He. 
  assert (Hne : (exists sync, e = ECancel sync) \/ ~ exists sync, e = ECancel sync).
  { destruct e; try (right; intros [? ?]; discriminate). left. by eexists. }
  destruct Hne as [[sync ->]|Hne].
  { assert (Hb : blow_up (ECancel sync) s = false) by (unfold blow_up; by rewrite andb_false_r). rewrite Hb. by apply block_cancel_ok. }
  destruct Hp as [ex early st Hst|early a k p Hk|early a k p e' i ty Hh Hk|early a p t c cm x hd Hfin Hf Hv|early a p t c f cm x hd st Hf Hn Hv Hst].
  - destruct e as [| | |l|sync|o| |]; try (exfalso; by apply Hne; exists sync);
      destruct early, Hst as [-> | ->], ex; try discriminate He; try (by apply (ph_before _ true); auto); try (by apply (ph_before _ false); auto).
    + by apply (suspend_block_ok start true l).
    + by apply (suspend_block_ok start false l).
  - destruct e as [| | |l|sync|o| |]; try (destruct a; discriminate He); [exfalso; by apply Hne; exists sync|].
    cbn in He. apply try_ends_ok; [intros ->; by apply Hk|]. intros ->. destruct k; [|done]. apply Hk, orb_true_r.
  - destruct e as [| | |l|sync|o| |]; try (destruct a; discriminate He); [exfalso; by apply Hne; exists sync|].
    cbn in He. apply catch_ends_ok; [done|]. intros ->. destruct k; [|done]. apply Hk, orb_true_r.
  - destruct e as [| | |l|sync|o| |]; try (destruct a; discriminate He); [exfalso; by apply Hne; exists sync|].
    cbn in He. apply finally_ends_ok; try done; [by intros ->|]. intros e -> Hx. unfold blow_up. cbn. by destruct Hx as [? ->].
  - destruct e as [| | |l|sync|o| |]; destruct st; try discriminate He; try done; try (exfalso; by apply Hne; exists sync).
    + cbn [TryBlock.step].
      rewrite (proj1 (final_answers early cm x hd None Noop (Checker.Checker (Coro p) true Checker.ReadyAfterCancel) false (all_blocks t c f) t c f Hf)).
      destruct (told t c f) eqn:Hfv; cbn; apply (ph_end early a p t c f); try done; by rewrite ?Hfv.
    + by apply (ph_end early a p t c f).
Qed.

Lemma block_reach_phase s : reach catches has_finally s -> phase s.
Proof.
  induction 1 as [|start e s s' Hr IH He Hs]; [by apply (ph_before false false); left|].
  pose proof (block_step_ok start e s IH He) as Hst. by rewrite Hs in Hst.
Qed.

(** * Properties *)

(** Whatever its blocks do, a try-block
    that is used as the awaiter protocol says keeps to the protocol itself, in every
    stage and however it is cancelled.  It ends the program only in one case, as
    C++ does when two exceptions meet: the finally-block throws at once, or while
    an exception is kept.  No task is left when the parent may destroy it, and while
    the parent is suspended a task runs that will resume it. *)
Theorem try_block_is_awaiter start e s :
  reach catches has_finally s ->
  (enabled e s = true ->
     (exists s', step start e s = Ok s') \/
     step start e s = Fault Terminated /\ has_finally = true /\ ((exists e', start BFinally = Throws e') \/ blow_up e s = true)) /\
  (forall k, Checker.reset (outer s) = Ok k -> destroy s = Ok ()) /\
  Checker.running (outer s) = bool_decide (is_Some (task_ s)).
Proof.
  intros Hp%block_reach_phase. split_and!.
  - intros He. pose proof (block_step_ok start e s Hp He) as Hs. destruct (step start e s) as [s'|f]; [left; by exists s'|right].
    destruct Hs as (-> & ? & ?). done.
  - intros k Hc. unfold destroy. destruct Hp; try (by destruct a); done.
  - destruct Hp as [ex early st Hst|early a k p Hk|early a k p e' i ty Hh Hk|early a p t c cm x hd Hfin Hf Hv|early a p t c f cm x hd st Hf Hn Hv Hst];
      try (by destruct a).
    + by destruct early, Hst as [-> | ->].
    + by destruct st.
Qed.

(** C34.  When the parent is resumed (it is not if the finally-block throws while an
    exception is kept, which ends the program), the blocks
    that have run are those of a sequential try-catch-finally, in order, each once:
    the try-block, the first catch-block that fits the exception it threw, if it
    threw one, and the finally-block, which is never cancelled.  The parent gets
    what the reference says: the exception that is left, or a normal
    completion, or nothing because a block was cancelled, which only happens if the
    parent was.  There is one exception: if the block that was cancelled is a catch-all
    block (and the finally-block does not throw), the reference says that nothing is left,
    but the parent must resume and gets the exception that the block had caught
    ([cancelled_catch_all]). *)
Theorem try_block_refines s :
  reach catches has_finally s -> Checker.may Checker.QMustResume (outer s) || Checker.may Checker.QResume (outer s) = true ->
  exists t c f, ended s = all_blocks t c f /\ f <> OCancelled /\
    match leaked t c f with
    | None =>
        await_must_resume s = match final_verdict t c f with IsCancelled => false | _ => true end /\
        await_resume s = match final_verdict t c f with Raises e => Some e | _ => None end /\
        (final_verdict t c f = IsCancelled -> Checker.may Checker.QMustResume (outer s) = true)
    | Some e => final_verdict t c f = IsCancelled /\ await_must_resume s = true /\ await_resume s = Some e
    end.
Proof.
  intros Hp%block_reach_phase Hq.
  destruct Hp as [ex early st Hst|early a k p Hk|early a k p e' i ty Hh Hk|early a p t c cm x hd Hfin Hf Hv|early a p t c f cm x hd st Hf Hn Hv Hst];
    try (destruct a; discriminate Hq).
  - by destruct early, Hst as [-> | ->].
  - exists t, c, f. split_and!; [done..|].
    match goal with |- match _ with None => await_must_resume ?s = _ /\ _ | _ => _ end => set (s0 := s) end.
    assert (HF : await_must_resume s0 = match told t c f with IsCancelled => false | _ => true end /\
                 await_resume s0 = match told t c f with Raises e => Some e | _ => None end)
      by (by apply final_answers).
    assert (HM : told t c f = IsCancelled -> Checker.may Checker.QMustResume (outer s0) = true).
    { intros Hc. destruct st; try done. by destruct (Hst (Hv Hc)). }
    pose proof (told_reference t c f) as HT. destruct (leaked t c f) as [e|] eqn:HL; rewrite HT in HF, HM.
    + split; [by apply (leaked_cancelled t c f e)|done].
    + by destruct HF.
Qed.
End Laws.

(** * Runs *)

Section Play.
Context {E : Type} (catches : list (catcher E)) (has_finally : bool).
Fixpoint play (l : list ((block -> started E) * event E)) (s : tryblock E) : option (tryblock E) :=
  match l with
  | [] => Some s
  | (start, e) :: l =>
      if enabled e s then match step catches has_finally start e s with Ok s => play l s | Fault _ => None end else None
  end.
Lemma play_block_reach l s s' : reach catches has_finally s -> play l s = Some s' -> reach catches has_finally s'.
Proof.
  revert s. induction l as [|[start e] l IH]; intros s Hr; cbn [play]; [by intros [= <-]|].
  destruct (enabled e s) eqn:He; [|done]. destruct (step catches has_finally start e s) as [s1|] eqn:Es; [|done].
  apply IH. by apply (reach_step catches has_finally start e s).
Qed.
End Play.

(** An exception 5 is caught by the second handler; all blocks run as tasks. *)
Definition small_or_five : list (catcher nat) := [Typed (fun e => e <? 3); Typed (fun e => e =? 5); Ellipsis].
Definition tasks : block -> started nat := fun _ => Runs.
Definition caught : list ((block -> started nat) * event nat) :=
  (fun e => (tasks, e)) <$> [EReady; ESetExecutor; ESuspend 1; EEnds (OThrow 5); EEnds OValue; EEnds OValue].
Definition after_caught : tryblock nat := default new_tryblock (play small_or_five true caught new_tryblock).
Lemma after_caught_reach : reach small_or_five true after_caught.
Proof. apply (play_block_reach small_or_five true caught new_tryblock); [apply reach_new|vm_compute; reflexivity]. Qed.

Lemma try_block_is_awaiter_witness : Checker.running (outer after_caught) = false.
Proof. destruct (try_block_is_awaiter small_or_five true tasks EResume after_caught after_caught_reach) as (_ & _ & H). exact H. Defined.
Lemma try_block_refines_witness :
  exists t c f, ended after_caught = all_blocks small_or_five true t c f /\ f <> OCancelled.
Proof.
  destruct (try_block_refines small_or_five true after_caught after_caught_reach) as (t & c & f & H1 & H2 & _);
    [vm_compute; reflexivity|]. by exists t, c, f.
Defined.
Example caught_by_second : ended after_caught = [(BTry, OThrow 5); (BCatch 1, OValue); (BFinally, OValue)].
Proof. vm_compute. reflexivity. Qed.

(** A catch-all block that is cancelled leaves the exception to the parent, against the
    reference; a block for a type does not. *)
Definition cancelled_handler (c : catcher nat) : option (bool * option nat) :=
  option_map (fun s => (await_must_resume s, await_resume s))
    (play [c] false ((fun e => (tasks, e)) <$> [EReady; ESetExecutor; ESuspend 1; EEnds (OThrow 5); ECancel (Some OCancelled)]) new_tryblock).
Example cancelled_catch_all : cancelled_handler Ellipsis = Some (true, Some 5).
Proof. vm_compute. reflexivity. Qed.
Example cancelled_catch_typed : cancelled_handler (Typed (fun _ => true)) = Some (false, None).
Proof. vm_compute. reflexivity. Qed.

(** If a catch-block was cancelled, the exception it handled is still kept: a
    finally-block that throws then ends the program. *)
Example finally_throws_after_cancel :
  option_map (step [Typed (fun _ => true)] true tasks (EEnds (OThrow 6)))
    (play [Typed (fun _ => true)] true ((fun e => (tasks, e)) <$> [EReady; ESetExecutor; ESuspend 1; EEnds (OThrow 5); ECancel (Some OCancelled)]) new_tryblock)
  = Some (Fault Terminated).
Proof. vm_compute. reflexivity. Qed.
