(* ===== verification/Explore.v ===== *)
(** Invariants by exploration.

    A component that is a finite state machine once the values it carries are
    forgotten has few states: [explore] finds all that its steps lead to,
    and a property of every state is checked by running it on each of them.
    [member_sound] is what makes membership in the explored list a proof. *)
From S2P Require Export Prelude.
From stdpp Require Export pmap.

(** * Simulation *)

(** The same fault, or results that correspond. *)
Definition related {A B} (R : A -> B -> Prop) (m : res A) (n : res B) : Prop :=
  match m, n with
  | Ok a, Ok b => R a b
  | Fault f, Fault g => f = g
  | _, _ => False
  end.
Lemma related_bind {A B C D} (R : A -> B -> Prop) (Q : C -> D -> Prop) m n k j :
  related R m n -> (forall a b, R a b -> related Q (k a) (j b)) -> related Q (m ≫= k) (n ≫= j).
Proof. destruct m, n; cbn; naive_solver. Qed.
Lemma related_refl {A} (m : res A) : related eq m m.
Proof. by destruct m. Qed.
Lemma related_ok {A B} (R : A -> B -> Prop) m n b : related R m n -> n = Ok b -> exists a, m = Ok a /\ R a b.
Proof. intros H ->. destruct m; cbn in H; [eauto|done]. Qed.

(** * Exploration *)

Section Explore.
(** [key] need not be injective: states with one key share a bucket.  [eqb] is
    run often; that it decides equality is used in one direction only. *)
Context {S : Type} (key : S -> positive) (eqb : S -> S -> bool) (eqb_sound : forall x y, eqb x y = true -> x = y).
Implicit Types (s : S) (l : list S) (m : Pmap (list S)).

Definition bucket m s : list S := default [] (m !! key s).
Definition member m s : bool := existsb (fun x => eqb x s) (bucket m s).
Definition add s m : Pmap (list S) := <[key s := s :: bucket m s]> m.

(** Breadth-first: [found] are the states seen so far, [m] their table. *)
Fixpoint collect (new : list S) m (found fresh : list S) : Pmap (list S) * list S * list S :=
  match new with
  | [] => (m, found, fresh)
  | s :: new => if member m s then collect new m found fresh else collect new (add s m) (s :: found) (s :: fresh)
  end.
Fixpoint explore (next : S -> list S) (fuel : nat) m (found todo : list S) : list S :=
  match fuel, todo with
  | O, _ | _, [] => found
  | Datatypes.S fuel, _ =>
      let '(m, found, fresh) := collect (todo ≫= next) m found [] in explore next fuel m found fresh
  end.
Definition states_from (next : S -> list S) (fuel : nat) (s : S) : list S := explore next fuel (add s ∅) [s] [s].

Definition table l : Pmap (list S) := foldr add ∅ l.

Lemma bucket_table l s x : x ∈ bucket (table l) s -> x ∈ l.
Proof.
  induction l as [|y l IH]; unfold bucket; cbn; [by rewrite lookup_empty; cbn; inversion 1|].
  unfold add. destruct (decide (key y = key s)) as [E|E].
  - rewrite E, lookup_insert_eq. cbn. unfold bucket at 1. rewrite E. rewrite !elem_of_cons. intros [-> |Hx]; [by left|]. right. by apply IH.
  - rewrite lookup_insert_ne by done. intros Hx. right. by apply IH.
Qed.
Lemma member_sound l s : member (table l) s = true -> s ∈ l.
Proof.
  unfold member. rewrite existsb_exists. intros (x & Hx & ->%eqb_sound).
  apply (bucket_table l s). by apply list_elem_of_In.
Qed.
Lemma forallb_sound (p : S -> bool) l s : forallb p l = true -> s ∈ l -> p s = true.
Proof. rewrite forallb_forall. intros H ?. apply H. by apply list_elem_of_In. Qed.
End Explore.
