(* ===== verification/With.v ===== *)
(** [detail/With.h]: a second operation in the scope of a first.

    [with_] is a [With]: like a sequence (Sequence.v) it has two stages, but the
    second starts when the first says that it has started ([markStarted()]),
    both run side by side, and when either is done the other is cancelled; a
    cancellation from outside reaches the second stage first.  [first] and the
    checker in [SecondStage] are those of the sanitized awaiters it holds, [outer]
    is that of whoever awaits it (Awaiter.v).  [answers] say what the awaiters
    answer during a step, and what happens in calls out of it. *)
From S2P Require Export Awaiter Explore.
Import Checker(checker, call(..)).

Section With.
(** [V]: what the first stage starts with; [W]: what the whole yields, a value of
    the second stage or an error of the first; [E]: exceptions. *)
Context {V W E : Type}.

(** * Data *)

(** [Stage], with the member of the union that is alive. *)
Inductive stage := NoStage | FirstStage | SecondStage (xfer : V) (awaiter : checker) | ExceptionStage (e : E).

(** [FirstStage] and [SecondStage] as indices, and the flags of each. *)
Inductive which := First | Second.
Definition other (x : which) : which := match x with First => Second | Second => First end.
Record flags := Flags { StageStarted : bool; StageCancelling : bool; StageDone : bool; StageMustNotResume : bool }.

(** Calls that have not returned: the function that makes the second stage, with
    what [markStarted()] will still need; the first stage's [await_suspend()],
    with whether the scope's [await_suspend()] will begin the second stage after it. *)
Record calls := Calls { in_then : option (V * bool); in_suspend : option bool }.

(** [built]: whether [first_] is constructed; [result_] is there if
    [HasSecondResult] is set; [fired]: the [TaskStarted] made by the constructor
    has been called, and has forgotten the scope.  For the theorems: [yielded], what
    the second's [await_resume()] gave; [thrown], an exception from elsewhere;
    [interrupted], whether the parent cancelled while the second was being made. *)
Record with_ := With {
  stage_ : stage; flags1 : flags; flags2 : flags; Cancelling : bool; result_ : option W;
  parent_ : handle; built : bool; first : checker; outer : checker; fired : bool; stack : calls;
  yielded : option (W + E); thrown : option E; interrupted : bool }.
Implicit Types (s : with_) (x : which).

(** What an awaiter answers during a step; in one step it is cancelled at
    most once, by [await_cancel()] or [await_early_cancel()]. *)
Record conduct := Conduct { c_ready : bool; c_suspend : suspension; c_cancel : cancellation; c_must : bool }.
Definition c_early (c : conduct) : bool := bool_decide (c_cancel c = Confirmed).

(** [f_starts]: the first stage calls [started()] while it is being cancelled.
    [f_out]: what its [await_resume()] gives, an error or an exception, if it does
    not complete without one.  [e_exn]: what an [await_suspend()] that throws does. *)
Record answers := Answers {
  f_does : conduct; f_starts : bool; f_out : option (W + E); e_exn : E; s_does : conduct; s_out : W + E }.
Implicit Types (ans : answers).

Definition set_stage (a : stage) s : with_ :=
  With a (flags1 s) (flags2 s) (Cancelling s) (result_ s) (parent_ s) (built s) (first s) (outer s) (fired s) (stack s) (yielded s) (thrown s) (interrupted s).
Definition set_cancelling s : with_ :=
  With (stage_ s) (flags1 s) (flags2 s) true (result_ s) (parent_ s) (built s) (first s) (outer s) (fired s) (stack s) (yielded s) (thrown s) (interrupted s).
Definition set_result (w : W) s : with_ :=
  With (stage_ s) (flags1 s) (flags2 s) (Cancelling s) (Some w) (parent_ s) (built s) (first s) (outer s) (fired s) (stack s) (yielded s) (thrown s) (interrupted s).
Definition set_parent (h : handle) s : with_ :=
  With (stage_ s) (flags1 s) (flags2 s) (Cancelling s) (result_ s) h (built s) (first s) (outer s) (fired s) (stack s) (yielded s) (thrown s) (interrupted s).
Definition set_built s : with_ :=
  With (stage_ s) (flags1 s) (flags2 s) (Cancelling s) (result_ s) (parent_ s) true (first s) (outer s) (fired s) (stack s) (yielded s) (thrown s) (interrupted s).
Definition set_first (c : checker) s : with_ :=
  With (stage_ s) (flags1 s) (flags2 s) (Cancelling s) (result_ s) (parent_ s) (built s) c (outer s) (fired s) (stack s) (yielded s) (thrown s) (interrupted s).
Definition set_outer (c : checker) s : with_ :=
  With (stage_ s) (flags1 s) (flags2 s) (Cancelling s) (result_ s) (parent_ s) (built s) (first s) c (fired s) (stack s) (yielded s) (thrown s) (interrupted s).
Definition set_fired s : with_ :=
  With (stage_ s) (flags1 s) (flags2 s) (Cancelling s) (result_ s) (parent_ s) (built s) (first s) (outer s) true (stack s) (yielded s) (thrown s) (interrupted s).
Definition set_then (o : option (V * bool)) s : with_ :=
  With (stage_ s) (flags1 s) (flags2 s) (Cancelling s) (result_ s) (parent_ s) (built s) (first s) (outer s) (fired s) (Calls o (in_suspend (stack s))) (yielded s) (thrown s) (interrupted s).
Definition set_suspend (o : option bool) s : with_ :=
  With (stage_ s) (flags1 s) (flags2 s) (Cancelling s) (result_ s) (parent_ s) (built s) (first s) (outer s) (fired s) (Calls (in_then (stack s)) o) (yielded s) (thrown s) (interrupted s).
Definition log_yielded (o : W + E) s : with_ :=
  With (stage_ s) (flags1 s) (flags2 s) (Cancelling s) (result_ s) (parent_ s) (built s) (first s) (outer s) (fired s) (stack s) (Some o) (thrown s) (interrupted s).
Definition log_thrown (e : E) s : with_ :=
  With (stage_ s) (flags1 s) (flags2 s) (Cancelling s) (result_ s) (parent_ s) (built s) (first s) (outer s) (fired s) (stack s) (yielded s) (Some e) (interrupted s).
Definition log_interrupted s : with_ :=
  With (stage_ s) (flags1 s) (flags2 s) (Cancelling s) (result_ s) (parent_ s) (built s) (first s) (outer s) (fired s) (stack s) (yielded s) (thrown s) true.
Definition set_flags1 (f : flags) s : with_ :=
  With (stage_ s) f (flags2 s) (Cancelling s) (result_ s) (parent_ s) (built s) (first s) (outer s) (fired s) (stack s) (yielded s) (thrown s) (interrupted s).
Definition set_flags2 (f : flags) s : with_ :=
  With (stage_ s) (flags1 s) f (Cancelling s) (result_ s) (parent_ s) (built s) (first s) (outer s) (fired s) (stack s) (yielded s) (thrown s) (interrupted s).

(** ** Flags *)

Definition stage_flags x s : flags := match x with First => flags1 s | Second => flags2 s end.
Definition set_flags x (f : flags) s : with_ := match x with First => set_flags1 f s | Second => set_flags2 f s end.
Definition isStageStarted x s : bool := StageStarted (stage_flags x s).
Definition isStageCancelling x s : bool := StageCancelling (stage_flags x s).
Definition isStageDone x s : bool := StageDone (stage_flags x s).
Definition mustStageResume x s : bool := negb (StageMustNotResume (stage_flags x s)).
Definition isStageRunning x s : bool := isStageStarted x s && negb (isStageDone x s).
Definition markStageStarted x s : with_ :=
  let f := stage_flags x s in set_flags x (Flags true (StageCancelling f) (StageDone f) (StageMustNotResume f)) s.
Definition markStageCancelling x s : with_ :=
  let f := stage_flags x s in set_flags x (Flags (StageStarted f) true (StageDone f) (StageMustNotResume f)) s.
Definition markStageDone x s : with_ :=
  let f := stage_flags x s in set_flags x (Flags (StageStarted f) (StageCancelling f) true (StageMustNotResume f)) s.
Definition markStageMustNotResume x s : with_ :=
  let f := stage_flags x s in set_flags x (Flags (StageStarted f) (StageCancelling f) (StageDone f) true) s.

Definition inFirstStage s : bool := match stage_ s with FirstStage => true | _ => false end.
Definition inSecondStage s : bool := match stage_ s with SecondStage _ _ => true | _ => false end.
Definition inException s : bool := match stage_ s with ExceptionStage _ => true | _ => false end.
(** [exists(With&)] *)
Definition exists_ x s : bool := match x with First => true | Second => inSecondStage s end.

(** ** Calls *)

(** [WithBase] and [SequenceBase] are two proxy frames of one object. *)
Definition frame x : handle := match x with First => Coro 1%positive | Second => Coro 2%positive end.
Definition does x ans : conduct := match x with First => f_does ans | Second => s_does ans end.

Definition on_stage x (k : call) s : res with_ :=
  match x with
  | First => if built s then c ← Checker.step k (first s); Ok (set_first c s) else Fault BadAccess
  | Second =>
      match stage_ s with
      | SecondStage v c => c ← Checker.step k c; Ok (set_stage (SecondStage v c) s)
      | _ => Fault BadAccess
      end
  end.
Definition on_outer (k : call) s : res with_ := c ← Checker.step k (outer s); Ok (set_outer c s).
Definition asked_by_parent (st : Checker.state) s : bool := Checker.in_state st (outer s).

(** [parent_.resume()]; [parent_] is [noopHandle()] before [await_suspend()]. *)
Definition resume_parent s : res with_ :=
  match parent_ s with Noop => Ok s | Coro _ => on_outer CResumed s end.

(** * [SequenceBase] *)

Definition switchTo (a : stage) s : res with_ :=
  match stage_ s with
  | SecondStage _ c => _ ← Checker.reset c; Ok (set_stage a s)
  | _ => Ok (set_stage a s)
  end.

Definition await_set_executor ans s : res with_ :=
  s ← on_stage First CSetExecutor s;
  if inSecondStage s then
    s ← on_stage Second (CReady (c_ready (s_does ans))) s;
    if c_ready (s_does ans) then Ok s else on_stage Second CSetExecutor s
  else
    corral_assert (match stage_ s with NoStage => true | _ => false end);;
    switchTo FirstStage s.

(** [~With()], [~SequenceBase()] *)
Definition destroy s : res with_ :=
  s ← switchTo NoStage s; c ← Checker.reset (first s); Ok (set_first c s).

(** * The two stages *)

(** [started()] while the first stage is being cancelled: what
    [markStarted()] does then ([started_meanwhile_eq] below). *)
Definition started_meanwhile x ans s : res with_ :=
  match x with
  | First =>
      if f_starts ans && negb (fired s) then
        corral_assert (negb (isStageDone First s));; Ok (markStageDone Second (set_fired s))
      else Ok s
  | Second => Ok s
  end.

(** [fire] is the frame's resume function, for an awaiter that resumes
    it in [await_cancel()]. *)
Definition cancelStage (fire : with_ -> res with_) x ans s : res (bool * with_) :=
  if isStageCancelling x s then Ok (false, s)
  else if negb (exists_ x s) then Ok (true, s)
  else if isStageDone x s then Ok (true, s)
  else
    '(cancelled, s) ←
      (if isStageStarted x s then
         s ← on_stage x (CCancel (frame x)) (markStageCancelling x s);
         s ← started_meanwhile x ans s;
         match c_cancel (does x ans) with
         | Confirmed => s ← on_stage x (CCancelled true) s; Ok (true, s)
         | Refused => s ← on_stage x (CCancelled false) s; Ok (false, s)
         | RefusedResumed => s ← on_stage x CResumed s; s ← fire s; Ok (false, s)
         end
       else
         s ← started_meanwhile x ans (markStageCancelling x s);
         s ← on_stage x (CEarlyCancel (c_early (does x ans))) s; Ok (c_early (does x ans), s));
    if cancelled : bool then Ok (true, markStageDone x (markStageMustNotResume x s)) else Ok (false, s).

(** The second stage's result, stashed away in [onStageDone()]. *)
Definition take_result ans s : res with_ :=
  s ← on_stage Second CResume s;
  let s := log_yielded (s_out ans) s in
  match s_out ans with
  | inl w => Ok (set_result w s)
  | inr e => switchTo (ExceptionStage e) s
  end.

(** [onStageDone()], and the resumption of the handle it returns. *)
Fixpoint onStageDone (fuel : nat) x ans s : res with_ :=
  match fuel with
  | O => Fault OutOfFuel
  | S fuel =>
      let s := markStageDone x s in
      s ← (if mustStageResume x s && isStageCancelling x s then
             s ← on_stage x (CMustResume (c_must (does x ans))) s;
             Ok (if c_must (does x ans) then s else markStageMustNotResume x s)
           else Ok s);
      s ← match x with
          | First => Ok s
          | Second =>
              s ← (if inSecondStage s && mustStageResume Second s then take_result ans s else Ok s);
              if inSecondStage s then switchTo NoStage s else Ok s
          end;
      '(all_done, s) ← (if isStageDone (other x) s then Ok (true, s)
                        else cancelStage (onStageDone fuel (other x) ans) (other x) ans s);
      if all_done : bool then resume_parent s else Ok s
  end.
(** A stage that is done cancels the other, whose [onStageDone()] finds it
    done: two levels. *)
Definition depth : nat := 2.
Definition cancelStage_ x ans s : res (bool * with_) := cancelStage (onStageDone depth x ans) x ans s.
Definition onStageDone_ x ans s : res with_ := onStageDone depth x ans s.

(** [beginStage()] up to the call of [await_suspend()]: whether there is one. *)
Definition beginStage_enter x ans s : res (bool * with_) :=
  if isStageDone x s then Ok (false, s)
  else
    '(skipped, s) ←
      (if Cancelling s && negb (isStageCancelling x s) then
         s ← on_stage x (CEarlyCancel (c_early (does x ans))) (markStageCancelling x s);
         Ok (c_early (does x ans), s)
       else Ok (false, s));
    if skipped : bool then s ← onStageDone_ x ans (markStageMustNotResume x s); Ok (false, s)
    else
      s ← on_stage x (CReady (c_ready (does x ans))) s;
      if c_ready (does x ans) then s ← onStageDone_ x ans s; Ok (false, s)
      else s ← on_stage x (CSuspend (frame x)) (markStageStarted x s); Ok (true, s).

(** From the return of [await_suspend()], and the resumption of the handle that
    [beginStage()] returns. *)
Definition beginStage_return x ans s : res with_ :=
  match c_suspend (does x ans) with
  | Later => Ok s
  | AtOnce => s ← on_stage x CResumed s; onStageDone_ x ans s
  | Throws =>
      s ← on_stage x CThrew s;
      s ← switchTo (ExceptionStage (e_exn ans)) (log_thrown (e_exn ans) s); onStageDone_ x ans s
  end.

(** The second stage knows nothing of the scope: nothing happens in between. *)
Definition beginSecond ans s : res with_ :=
  '(called, s) ← beginStage_enter Second ans s;
  if called : bool then beginStage_return Second ans s else Ok s.

Definition doCancel ans s : res (bool * with_) :=
  let s := set_cancelling s in
  if isStageRunning Second s then
    '(b, s) ← cancelStage_ Second ans s;
    if b : bool then cancelStage_ First ans s else Ok (false, s)
  else
    '(b, s) ← cancelStage_ First ans s;
    Ok (b && negb (isStageRunning Second s), s).

(** [markStarted()], up to the call of [thenFn] in [SecondStageData(c, xf)]. *)
Definition markStarted (v : V) s : res with_ :=
  corral_assert (negb (isStageDone First s));;
  if isStageCancelling First s then Ok (markStageDone Second s)
  else
    let executor := inFirstStage s in
    s ← switchTo NoStage s;
    Ok (set_then (Some (v, executor)) s).

(** From the return of [thenFn]; [threw]: what it has thrown. *)
Definition markStarted_return (threw : option E) ans s : res with_ :=
  '(v, executor) ← deref (in_then (stack s));
  let s := set_then None s in
  match threw with
  | Some e =>
      s ← switchTo (ExceptionStage e) (log_thrown e s);
      '(b, s) ← cancelStage_ First ans s;
      if b : bool then resume_parent s else Ok s
  | None =>
      let s := set_stage (SecondStage v Checker.initial) s in
      '(b, s) ← (if Cancelling s then cancelStage_ Second ans s else Ok (false, s));
      if b : bool then onStageDone_ Second ans s
      else if executor : bool then s ← on_stage Second CSetExecutor s; beginSecond ans s
      else Ok s
  end.

(** [TaskStarted::operator()] *)
Definition started (v : V) s : res with_ := if fired s then Ok s else markStarted v (set_fired s).

(** * [With] *)

Definition no_flags : flags := Flags false false false false.
(** The scope when [firstFn] is called, in the constructor. *)
Definition new_with : with_ :=
  With NoStage no_flags no_flags false None Noop false Checker.initial Checker.initial false (Calls None None) None None false.

Definition await_ready s : bool := isStageDone First s && isStageDone Second s.
Definition await_suspend (h : handle) ans s : res with_ :=
  let s := set_parent h s in
  let both := inSecondStage s in
  '(called, s) ← beginStage_enter First ans s;
  if called : bool then Ok (set_suspend (Some both) s)
  else if both : bool then beginSecond ans s else Ok s.
(** From the return of the first stage's [await_suspend()]. *)
Definition await_suspend_return ans s : res with_ :=
  both ← deref (in_suspend (stack s));
  s ← beginStage_return First ans (set_suspend None s);
  if both : bool then beginSecond ans s else Ok s.
Definition await_cancel ans s : res (bool * with_) := doCancel ans s.
Definition await_early_cancel ans s : res (bool * with_) := doCancel ans s.
Definition await_must_resume s : res bool :=
  corral_assert (negb (inSecondStage s));;
  Ok (inException s || mustStageResume First s || match result_ s with Some _ => true | None => false end).
Definition await_resume ans s : res ((W + E) * with_) :=
  match stage_ s with
  | ExceptionStage e => Ok (inr e, s)
  | _ =>
      if mustStageResume First s then
        s ← on_stage First CResume s;
        match f_out ans with Some o => Ok (o, s) | None => Fault AssertFailed end
      else w ← deref (result_ s); Ok (inl w, s)
  end.

(** * The scope in use *)

(** [EBuilt]: [firstFn] has returned.  [EMade], [ESuspended]: the calls on the
    stack return. *)
Inductive event :=
| EBuilt | EReady | EEarlyCancel | ESetExecutor | ESuspend (c : loc) | ESuspended | ECancel
| EStarted (v : V) | EMade (threw : option E) | EFirst | ESecond | EMustResume | EResume.

Definition being_made s : bool := match in_then (stack s) with Some _ => true | None => false end.
Definition suspending s : bool := match in_suspend (stack s) with Some _ => true | None => false end.
Definition begins_second s : bool := match in_suspend (stack s) with Some b => b | None => false end.

Definition step (e : event) ans s : res with_ :=
  match e with
  | EBuilt => Ok (set_built s)
  | EReady => on_outer (CReady (await_ready s)) s
  | EEarlyCancel => '(b, s) ← await_early_cancel ans s; on_outer (CEarlyCancel b) s
  | ESetExecutor => s ← on_outer CSetExecutor s; await_set_executor ans s
  | ESuspend c => s ← on_outer (CSuspend (Coro c)) s; await_suspend (Coro c) ans s
  | ESuspended => await_suspend_return ans s
  | ECancel =>
      s ← on_outer (CCancel (Checker.realHandle_ (outer s))) (if being_made s then log_interrupted s else s);
      '(b, s) ← await_cancel ans s; on_outer (CCancelled b) s
  | EStarted v => started v s
  | EMade threw => markStarted_return threw ans s
  | EFirst => s ← on_stage First CResumed s; onStageDone_ First ans s
  | ESecond => s ← on_stage Second CResumed s; onStageDone_ Second ans s
  | EMustResume => b ← await_must_resume s; on_outer (CMustResume b) s
  | EResume => s ← on_outer CResume s; '(_, s) ← await_resume ans s; Ok s
  end.
(** ** What may happen *)

Definition second_is (f : checker -> bool) s : bool :=
  match stage_ s with SecondStage _ c => f c | _ => false end.
Definition throws (c : conduct) : bool := bool_decide (c_suspend c = Throws).

Definition stays_ready ans s : bool :=
  implb (second_is (fun c => Checker.in_state Checker.ReadyImmediately c || Checker.in_state Checker.ReadyAfterCancel c) s)
    (c_ready (s_does ans)).

(** What the protocol allows the parent and the awaiters. *)
Definition may_happen (e : event) s : bool :=
  match e with
  | EBuilt => negb (built s) && negb (being_made s)
  | EReady => built s && Checker.may Checker.QReady (outer s)
  | EEarlyCancel => built s && Checker.may Checker.QEarlyCancel (outer s)
  | ESetExecutor => built s && Checker.may Checker.QSetExecutor (outer s)
  | ESuspend _ => built s && Checker.may Checker.QSuspend (outer s)
  | ESuspended => suspending s && negb (being_made s)
  | ECancel => Checker.may Checker.QCancel (outer s)
  | EStarted _ => negb (fired s) && (negb (built s) || Checker.running (first s))
  | EMade _ => being_made s
  | EFirst => Checker.running (first s)
  | ESecond => second_is Checker.running s
  | EMustResume => Checker.may Checker.QMustResume (outer s)
  | EResume => Checker.may Checker.QResume (outer s)
  end.

(** What the scope relies on besides; the last section shows what happens
    otherwise.
    - The parent runs when [await_suspend()] has returned.  It does not cancel a
      scope early whose second stage is there.
    - A stage that throws from [await_suspend()] has not been cancelled before, and
      the first has not called [started()].  The function
      that makes the second does not throw in the scope's constructor.
    - While that function runs, the first stage neither completes nor confirms
      a cancellation.  When the parent cancels, the second stage confirms
      only if the first does; it does not cancel between the two when
      [await_suspend()] begins both.
    - The first stage completes with an error, and the second, once ready, stays
      ready. *)
Definition relies_on (e : event) ans s : bool :=
  match e with
  | EEarlyCancel => negb (inSecondStage s)
  | ESuspend _ => stays_ready ans s && negb (throws (s_does ans))
  | ESuspended =>
      stays_ready ans s && negb (throws (s_does ans)) &&
      match c_suspend (f_does ans) with
      | Later => true
      | AtOnce => Checker.running (first s)
      | Throws => Checker.in_state Checker.Running (first s) && negb (fired s)
      end
  | ECancel =>
      negb (begins_second s) &&
      implb (being_made s) (bool_decide (c_cancel (f_does ans) = Refused)) &&
      implb (isStageRunning Second s && bool_decide (c_cancel (s_does ans) = Confirmed))
        (bool_decide (c_cancel (f_does ans) = Confirmed))
  | EMade None => implb (throws (s_does ans)) (negb (Cancelling s))
  | EMade (Some _) => built s
  | EFirst => negb (being_made s)
  | EMustResume => negb (suspending s)
  | EResume =>
      negb (suspending s) &&
      match f_out ans with Some _ => true | None => inException s || negb (mustStageResume First s) end
  | _ => true
  end.
Definition enabled (e : event) ans s : bool := may_happen e s && relies_on e ans s.

Inductive reach : with_ -> Prop :=
| reach_new : reach new_with
| reach_step e ans s s' : reach s -> enabled e ans s = true -> step e ans s = Ok s' -> reach s'.
End With.
Arguments stage : clear implicits.
Arguments with_ : clear implicits.
Arguments answers : clear implicits.
Arguments event : clear implicits.
Arguments calls : clear implicits.

(** ** Calls within calls *)

(** [started()] during the first stage's cancellation is [started()]. *)
Lemma started_meanwhile_eq {V W E} (v : V) (ans : answers W E) (s : with_ V W E) :
  isStageCancelling First s = true -> f_starts ans = true -> started v s = started_meanwhile First ans s.
Proof.
  intros Hc Hf. unfold started, started_meanwhile, markStarted. rewrite Hf. destruct (fired s); cbn [negb andb]; [done|].
  change (isStageCancelling First (set_fired s)) with (isStageCancelling First s). by rewrite Hc.
Qed.

(** * Exploration *)

(** The scope with its values forgotten, and the parent's frame renamed. *)
Notation skeleton := (with_ unit unit unit).
Section Erase.
Context {V W E : Type}.
Implicit Types (s : with_ V W E) (ans : answers W E) (e : event V E) (x : which).

Definition parent_loc : loc := 3%positive.
Definition erase_handle (h : handle) : handle := match h with Noop => Noop | Coro _ => Coro parent_loc end.
Definition erase_outer (c : checker) : checker :=
  Checker.Checker (erase_handle (Checker.realHandle_ c)) (Checker.hasExecutor_ c) (Checker.state_ c).
Definition erase_option {A} (o : option A) : option unit := match o with Some _ => Some () | None => None end.
Definition erase_sum {A B} (o : A + B) : unit + unit := match o with inl _ => inl () | inr _ => inr () end.
Definition erase_stage (a : stage V E) : stage unit unit :=
  match a with
  | NoStage => NoStage | FirstStage => FirstStage
  | SecondStage _ c => SecondStage () c
  | ExceptionStage _ => ExceptionStage ()
  end.
Definition erase_calls (c : calls V) : calls unit :=
  Calls (match in_then c with Some (_, b) => Some ((), b) | None => None end) (in_suspend c).
Definition erase s : skeleton :=
  With (erase_stage (stage_ s)) (flags1 s) (flags2 s) (Cancelling s) (erase_option (result_ s)) (erase_handle (parent_ s))
    (built s) (first s) (erase_outer (outer s)) (fired s) (erase_calls (stack s))
    (match yielded s with Some o => Some (erase_sum o) | None => None end) (erase_option (thrown s)) (interrupted s).
Definition erase_answers ans : answers unit unit :=
  Answers (f_does ans) (f_starts ans) (match f_out ans with Some o => Some (erase_sum o) | None => None end) ()
    (s_does ans) (erase_sum (s_out ans)).
Definition erase_event e : event unit unit :=
  match e with
  | EBuilt => EBuilt | EReady => EReady | EEarlyCancel => EEarlyCancel | ESetExecutor => ESetExecutor
  | ESuspend _ => ESuspend parent_loc | ESuspended => ESuspended | ECancel => ECancel
  | EStarted _ => EStarted () | EMade threw => EMade (erase_option threw)
  | EFirst => EFirst | ESecond => ESecond | EMustResume => EMustResume | EResume => EResume
  end.

Definition erases s (t : skeleton) : Prop := t = erase s.
Definition erases_pair {A} (p : A * with_ V W E) (q : A * skeleton) : Prop := q.1 = p.1 /\ q.2 = erase p.2.

(** ** Every operation commutes with it *)

Lemma erase_pred (P : flags -> bool) x s : P (stage_flags x (erase s)) = P (stage_flags x s).
Proof. by destruct x. Qed.
Lemma erase_flags x f s : set_flags x f (erase s) = erase (set_flags x f s).
Proof. by destruct x. Qed.
Lemma stage_flags_erase x s : stage_flags x (erase s) = stage_flags x s.
Proof. by destruct x. Qed.
Lemma inSecondStage_erase s : inSecondStage (erase s) = inSecondStage s.
Proof. by destruct s as [[]]. Qed.
Lemma inFirstStage_erase s : inFirstStage (erase s) = inFirstStage s.
Proof. by destruct s as [[]]. Qed.
Lemma inException_erase s : inException (erase s) = inException s.
Proof. by destruct s as [[]]. Qed.
Lemma exists_erase x s : exists_ x (erase s) = exists_ x s.
Proof. destruct x; [done|apply inSecondStage_erase]. Qed.
Lemma does_erase x ans : does x (erase_answers ans) = does x ans.
Proof. by destruct x. Qed.
Lemma second_is_erase f s : second_is f (erase s) = second_is f s.
Proof. by destruct s as [[]]. Qed.

(** Brings the forgetting outside. *)
Local Ltac erase_out :=
  unfold isStageRunning, isStageStarted, isStageCancelling, isStageDone, mustStageResume,
    markStageStarted, markStageCancelling, markStageDone, markStageMustNotResume;
  repeat (rewrite ?stage_flags_erase, ?erase_flags, ?inSecondStage_erase, ?inFirstStage_erase, ?inException_erase,
    ?exists_erase, ?does_erase).

Lemma on_stage_erase x k s : related erases (on_stage x k s) (on_stage x k (erase s)).
Proof.
  destruct x, s as [st f1 f2 c r p b ch o fi sk y t i]; unfold on_stage; cbn.
  - destruct b; [|done]. by destruct (Checker.step k ch).
  - destruct st as [| |v c'|]; try done. cbn. by destruct (Checker.step k c').
Qed.
Lemma on_outer_erase k s :
  (forall h, k <> CSuspend h) -> (forall h, k <> CCancel h) -> related erases (on_outer k s) (on_outer k (erase s)).
Proof.
  intros H1 H2. destruct s as [st f1 f2 c r p b ch [h ex sc] fi sk y t i]. unfold on_outer. cbn.
  destruct k as [v|v| |h'| |h'|v|v| |]; try (by destruct (H1 h')); try (by destruct (H2 h')); try destruct v;
    destruct sc, ex; done.
Qed.
Lemma on_outer_suspend_erase c s :
  related erases (on_outer (CSuspend (Coro c)) s) (on_outer (CSuspend (Coro parent_loc)) (erase s)).
Proof. by destruct s as [st f1 f2 ca r p b ch [h [] []] fi sk y t i]. Qed.
Lemma on_outer_cancel_erase s :
  related erases (on_outer (CCancel (Checker.realHandle_ (outer s))) s)
    (on_outer (CCancel (Checker.realHandle_ (outer (erase s)))) (erase s)).
Proof.
  destruct s as [st f1 f2 ca r p b ch [h ex sc] fi sk y t i]. unfold on_outer, Checker.step, Checker.aboutToCancel. cbn.
  rewrite !bool_decide_true by done. by destruct sc.
Qed.
Lemma resume_parent_erase s : related erases (resume_parent s) (resume_parent (erase s)).
Proof.
  unfold resume_parent. change (parent_ (erase s)) with (erase_handle (parent_ s)).
  destruct (parent_ s); [done|]. by apply on_outer_erase.
Qed.
Lemma switchTo_erase a a' s : a' = erase_stage a -> related erases (switchTo a s) (switchTo a' (erase s)).
Proof. intros ->. destruct s as [[| |v c|]]; try done. unfold switchTo. cbn. by destruct (Checker.reset c). Qed.
Lemma deref_erase {A B} (f : A -> B) o : related (fun a b => b = f a) (deref o) (deref (f <$> o)).
Proof. by destruct o. Qed.
Lemma ok_erase s : related erases (Ok s) (Ok (erase s)).
Proof. done. Qed.
Lemma ok_pair_erase {A} (a : A) s : related erases_pair (Ok (a, s)) (Ok (a, erase s)).
Proof. done. Qed.
#[local] Hint Resolve on_stage_erase resume_parent_erase switchTo_erase ok_erase ok_pair_erase on_outer_cancel_erase
  on_outer_suspend_erase related_refl : erase.
#[local] Hint Extern 1 (related _ (on_outer _ _) _) => apply on_outer_erase; discriminate : erase.

(** One call after another, by the lemmas of the calls. *)
Local Ltac relate_step :=
  erase_out;
  match goal with
  | |- related erases_pair (Ok _) (Ok _) => done
  | |- related erases (Ok _) (Ok _) => reflexivity
  | |- related _ (Fault _) (Fault _) => reflexivity
  | |- related _ (Ok (if ?b then _ else _)) _ => destruct b
  | |- related _ (corral_assert _ ≫= _) _ => eapply (related_bind eq); [apply related_refl|intros ? ? <-]
  | |- related _ (@mbind _ _ (with_ _ _ _) _ _ _) _ =>
      eapply (related_bind erases); [|let H := fresh in intros ? ? H; red in H; subst]
  | |- related _ (@mbind _ _ (_ * with_ _ _ _)%type _ _ _) _ =>
      eapply (related_bind erases_pair); [|intros [? ?] [? ?] [E1 E2]; cbn in E1, E2; subst]
  | |- related _ (if ?b then _ else _) (if ?b then _ else _) => destruct b
  | |- related _ (match ?x with _ => _ end) (match ?x with _ => _ end) => destruct x
  end.
Local Ltac relate := repeat (solve [eauto with erase] || relate_step).

Lemma started_meanwhile_erase x ans s :
  related erases (started_meanwhile x ans s) (started_meanwhile x (erase_answers ans) (erase s)).
Proof. unfold started_meanwhile. cbn [f_starts erase_answers fired erase]. relate. Qed.
#[local] Hint Resolve started_meanwhile_erase : erase.
Lemma cancelStage_erase f f' x ans s :
  (forall s, related erases (f s) (f' (erase s))) ->
  related erases_pair (cancelStage f x ans s) (cancelStage f' x (erase_answers ans) (erase s)).
Proof. intros Hf. unfold cancelStage. relate. Qed.
Lemma take_result_erase ans s : related erases (take_result ans s) (take_result (erase_answers ans) (erase s)).
Proof.
  unfold take_result. relate_step; [relate|]. cbn [s_out erase_answers]. destruct (s_out ans); cbn [erase_sum]; relate.
Qed.
#[local] Hint Resolve cancelStage_erase take_result_erase : erase.
Lemma onStageDone_erase n x ans s :
  related erases (onStageDone n x ans s) (onStageDone n x (erase_answers ans) (erase s)).
Proof.
  revert x s. induction n as [|n IH]; intros x s; [done|]. cbn [onStageDone]. relate.
Qed.
#[local] Hint Extern 1 (related _ (onStageDone_ _ _ _) _) => apply onStageDone_erase : erase.
#[local] Hint Resolve onStageDone_erase : erase.
Lemma cancelStage__erase x ans s :
  related erases_pair (cancelStage_ x ans s) (cancelStage_ x (erase_answers ans) (erase s)).
Proof. apply cancelStage_erase. intros. apply onStageDone_erase. Qed.
Lemma beginStage_enter_erase x ans s :
  related erases_pair (beginStage_enter x ans s) (beginStage_enter x (erase_answers ans) (erase s)).
Proof. unfold beginStage_enter. change (Cancelling (erase s)) with (Cancelling s). relate. Qed.
Lemma beginStage_return_erase x ans s :
  related erases (beginStage_return x ans s) (beginStage_return x (erase_answers ans) (erase s)).
Proof. unfold beginStage_return. relate. Qed.
#[local] Hint Resolve cancelStage__erase beginStage_enter_erase beginStage_return_erase : erase.
Lemma beginSecond_erase ans s : related erases (beginSecond ans s) (beginSecond (erase_answers ans) (erase s)).
Proof. unfold beginSecond. relate. Qed.
Lemma doCancel_erase ans s : related erases_pair (doCancel ans s) (doCancel (erase_answers ans) (erase s)).
Proof. unfold doCancel. change (set_cancelling (erase s)) with (erase (set_cancelling s)). relate. Qed.
#[local] Hint Resolve beginSecond_erase doCancel_erase : erase.
Lemma markStarted_erase v s : related erases (markStarted v s) (markStarted () (erase s)).
Proof. unfold markStarted. relate. Qed.
Lemma markStarted_return_erase threw ans s :
  related erases (markStarted_return threw ans s) (markStarted_return (erase_option threw) (erase_answers ans) (erase s)).
Proof.
  unfold markStarted_return.
  change (in_then (stack (erase s))) with (match in_then (stack s) with Some (_, b) => Some ((), b) | None => None end).
  destruct (in_then (stack s)) as [[v ex]|]; [|done]. cbn [deref mbind res_bind].
  change (set_then None (erase s)) with (erase (set_then None s)). generalize (set_then None s). clear s. intros s.
  destruct threw as [x|]; cbn [erase_option].
  - change (log_thrown () (erase s)) with (erase (log_thrown x s)). relate.
  - change (set_stage (SecondStage () Checker.initial) (erase s)) with (erase (set_stage (SecondStage v Checker.initial) s)).
    change (Cancelling (erase ?a)) with (Cancelling a). relate.
Qed.
Lemma await_set_executor_erase ans s :
  related erases (await_set_executor ans s) (await_set_executor (erase_answers ans) (erase s)).
Proof.
  unfold await_set_executor. change (s_does (erase_answers ans)) with (s_does ans). relate.
  replace (match stage_ (erase a) with NoStage => true | _ => false end)
    with (match stage_ a with NoStage => true | _ => false end) by (by destruct a as [[]]). relate.
Qed.
#[local] Hint Resolve markStarted_erase markStarted_return_erase await_set_executor_erase : erase.
Lemma started_erase v s : related erases (started v s) (started () (erase s)).
Proof. unfold started. change (fired (erase s)) with (fired s). change (set_fired (erase s)) with (erase (set_fired s)). relate. Qed.
Lemma await_suspend_erase c ans s :
  related erases (await_suspend (Coro c) ans s) (await_suspend (Coro parent_loc) (erase_answers ans) (erase s)).
Proof.
  unfold await_suspend. change (set_parent (Coro parent_loc) (erase s)) with (erase (set_parent (Coro c) s)).
  rewrite inSecondStage_erase. relate.
Qed.
Lemma await_suspend_return_erase ans s :
  related erases (await_suspend_return ans s) (await_suspend_return (erase_answers ans) (erase s)).
Proof.
  unfold await_suspend_return. change (in_suspend (stack (erase s))) with (in_suspend (stack s)).
  destruct (in_suspend (stack s)) as [b|]; [|done]. cbn [deref mbind res_bind].
  change (set_suspend None (erase s)) with (erase (set_suspend None s)). relate.
Qed.
#[local] Hint Resolve started_erase await_suspend_erase await_suspend_return_erase : erase.
Lemma await_ready_erase s : await_ready (erase s) = await_ready s.
Proof. done. Qed.
Lemma await_must_resume_erase s : related eq (await_must_resume s) (await_must_resume (erase s)).
Proof.
  unfold await_must_resume. erase_out. destruct (inSecondStage s); [done|]. cbn. by destruct (result_ s).
Qed.
Lemma await_resume_erase ans s :
  related (fun p q => q.2 = erase p.2) (await_resume ans s) (await_resume (erase_answers ans) (erase s)).
Proof.
  unfold await_resume, mustStageResume. rewrite stage_flags_erase.
  assert (Hk : forall k : res ((W + E) * with_ V W E), True) by done.
  destruct (stage_ s) eqn:Hs; cbn [stage_ erase erase_stage]; rewrite ?Hs; [| | |done];
    cbn [erase_stage]; (destruct (negb _);
    [eapply (related_bind erases); [apply on_stage_erase|intros ? ? ->; cbn [f_out erase_answers]; by destruct (f_out ans)]
    |cbn [result_ erase]; by destruct (result_ s)]).
Qed.

Lemma being_made_erase s : being_made (erase s) = being_made s.
Proof. unfold being_made. cbn. by destruct (in_then (stack s)) as [[]|]. Qed.
Lemma step_erase e ans s : related erases (step e ans s) (step (erase_event e) (erase_answers ans) (erase s)).
Proof.
  destruct e; cbn [step erase_event]; rewrite ?await_ready_erase; unfold await_cancel, await_early_cancel; relate.
  - rewrite being_made_erase. destruct (being_made s); [|apply on_outer_cancel_erase].
    apply (on_outer_cancel_erase (log_interrupted s)).
  - eapply related_bind; [apply await_must_resume_erase|]. intros b ? <-. relate.
  - eapply related_bind; [apply await_resume_erase|]. intros [o a1] [o' ?] E1. cbn in *. by subst.
Qed.
Lemma may_happen_erase e s : may_happen (erase_event e) (erase s) = may_happen e s.
Proof. destruct e; unfold may_happen, erase_event; by rewrite ?being_made_erase, ?second_is_erase. Qed.
Lemma relies_on_erase e ans s : relies_on (erase_event e) (erase_answers ans) (erase s) = relies_on e ans s.
Proof.
  destruct e as [| | | |c| | |v|[x|]| | | |]; unfold relies_on, erase_event, erase_option, stays_ready; erase_out;
    rewrite ?being_made_erase, ?second_is_erase; try done.
  cbn [f_out erase_answers]. destruct (f_out ans); [done|]. by erase_out.
Qed.
Lemma destroy_erase s : related erases (destroy s) (destroy (erase s)).
Proof.
  unfold destroy. eapply (related_bind erases); [by apply switchTo_erase|]. intros a b Hb. red in Hb. subst b.
  change (first (erase a)) with (first a). by destruct (Checker.reset (first a)).
Qed.
End Erase.

(** ** The states *)

Definition state_code (st : Checker.state) : N :=
  match st with
  | Checker.Initial => 0 | Checker.NotReady => 1 | Checker.InitialCxlPend => 2 | Checker.CancelPending => 3
  | Checker.ReadyImmediately => 4 | Checker.Running => 5 | Checker.Cancelling => 6 | Checker.ReadyAfterCancel => 7
  | Checker.Ready => 8 | Checker.Cancelled => 9 | Checker.Done => 10
  end.
Definition handle_eqb (h h' : handle) : bool :=
  match h, h' with Noop, Noop => true | Coro c, Coro c' => Pos.eqb c c' | _, _ => false end.
Definition checker_eqb (c c' : checker) : bool :=
  N.eqb (state_code (Checker.state_ c)) (state_code (Checker.state_ c')) &&
  Bool.eqb (Checker.hasExecutor_ c) (Checker.hasExecutor_ c') && handle_eqb (Checker.realHandle_ c) (Checker.realHandle_ c').
Definition flags_eqb (f g : flags) : bool :=
  Bool.eqb (StageStarted f) (StageStarted g) && Bool.eqb (StageCancelling f) (StageCancelling g) &&
  Bool.eqb (StageDone f) (StageDone g) && Bool.eqb (StageMustNotResume f) (StageMustNotResume g).
Definition stage_eqb (a b : stage unit unit) : bool :=
  match a, b with
  | NoStage, NoStage | FirstStage, FirstStage | ExceptionStage _, ExceptionStage _ => true
  | SecondStage _ c, SecondStage _ c' => checker_eqb c c'
  | _, _ => false
  end.
Definition option_eqb {A} (f : A -> A -> bool) (a b : option A) : bool :=
  match a, b with Some x, Some y => f x y | None, None => true | _, _ => false end.
Definition calls_eqb (c d : calls unit) : bool :=
  option_eqb (fun p q => Bool.eqb p.2 q.2) (in_then c) (in_then d) && option_eqb Bool.eqb (in_suspend c) (in_suspend d).
Definition sum_eqb (a b : unit + unit) : bool :=
  match a, b with inl _, inl _ | inr _, inr _ => true | _, _ => false end.
Definition skeleton_eqb (s t : skeleton) : bool :=
  stage_eqb (stage_ s) (stage_ t) && flags_eqb (flags1 s) (flags1 t) && flags_eqb (flags2 s) (flags2 t) &&
  Bool.eqb (Cancelling s) (Cancelling t) && option_eqb (fun _ _ => true) (result_ s) (result_ t) &&
  handle_eqb (parent_ s) (parent_ t) && Bool.eqb (built s) (built t) && checker_eqb (first s) (first t) &&
  checker_eqb (outer s) (outer t) && Bool.eqb (fired s) (fired t) && calls_eqb (stack s) (stack t) &&
  option_eqb sum_eqb (yielded s) (yielded t) && option_eqb (fun _ _ => true) (thrown s) (thrown t) &&
  Bool.eqb (interrupted s) (interrupted t).

Lemma option_eqb_sound {A} (f : A -> A -> bool) a b :
  (forall x y, f x y = true -> x = y) -> option_eqb f a b = true -> a = b.
Proof. destruct a, b; cbn; naive_solver. Qed.
Lemma handle_eqb_sound h h' : handle_eqb h h' = true -> h = h'.
Proof. destruct h, h'; cbn; try done. by intros ->%Pos.eqb_eq. Qed.
Lemma checker_eqb_sound c c' : checker_eqb c c' = true -> c = c'.
Proof.
  destruct c as [h e s], c' as [h' e' s']. unfold checker_eqb. cbn.
  intros [[Hs ->%eqb_prop]%andb_prop Hh]%andb_prop.
  rewrite (handle_eqb_sound h h' Hh).
  by destruct s, s'.
Qed.
Lemma skeleton_eqb_sound s t : skeleton_eqb s t = true -> s = t.
Proof.
  destruct s as [st [] [] c r p b ch o fi [th su] y t0 i], t as [st' [] [] c' r' p' b' ch' o' fi' [th' su'] y' t0' i'].
  unfold skeleton_eqb, flags_eqb, calls_eqb. cbn. intros H.
  repeat match goal with H : _ && _ = true |- _ => apply andb_prop in H as [? ?] end.
  repeat match goal with H : Bool.eqb _ _ = true |- _ => apply eqb_prop in H as -> end.
  f_equal; try (eapply option_eqb_sound; [|eassumption]; try (by intros [] []); intros ? ? ?%eqb_prop; done).
  - destruct st as [| |[]|[]], st' as [| |[]|[]]; cbn in *; try done. by f_equal; apply checker_eqb_sound.
  - by apply handle_eqb_sound.
  - by apply checker_eqb_sound.
  - by apply checker_eqb_sound.
  - f_equal; (eapply option_eqb_sound; [|eassumption]); [|intros ? ? ?%eqb_prop; done].
    intros [[] ?] [[] ?] ?%eqb_prop. cbn in *. by subst.
  - eapply option_eqb_sound; [|eassumption]. by intros [[]|[]] [[]|[]].
Qed.

Definition bit (b : bool) (p : positive) : positive := if b then xI p else xO p.
Definition flags_key (f : flags) (p : positive) : positive :=
  bit (StageStarted f) (bit (StageCancelling f) (bit (StageDone f) (bit (StageMustNotResume f) p))).
Definition key (s : skeleton) : positive :=
  flags_key (flags1 s) (flags_key (flags2 s) (bit (fired s) (bit (Cancelling s) (N.succ_pos
    (state_code (Checker.state_ (outer s)) + 16 *
    match stage_ s with
    | NoStage => 0 | FirstStage => 1 | ExceptionStage _ => 2
    | SecondStage _ c => 3 + state_code (Checker.state_ c)
    end)%N)))).

(** What a step may depend on: enough answers to stand for all. *)
Definition conducts (ready : list bool) (suspend : list suspension) : list conduct :=
  a ← ready; b ← suspend; c ← [Confirmed; Refused; RefusedResumed]; d ← [true; false]; [Conduct a b c d].
Definition bools : list bool := [true; false].
Definition suspensions : list suspension := [Later; AtOnce; Throws].
Definition relevant (e : event unit unit) : list (answers unit unit) :=
  match e with
  | EBuilt | EReady | EStarted _ | EMustResume => [Answers (Conduct false Later Refused false) false None () (Conduct false Later Refused false) (inl ())]
  | ESetExecutor => r ← bools; [Answers (Conduct false Later Refused false) false None () (Conduct r Later Refused false) (inl ())]
  | EResume =>
      o ← [None; Some (inl ()); Some (inr ())];
      [Answers (Conduct false Later Refused false) false o () (Conduct false Later Refused false) (inl ())]
  | ESuspend _ =>
      f ← conducts bools [Later]; b ← bools; g ← conducts bools suspensions; o ← [inl (); inr ()]; [Answers f b None () g o]
  | ESuspended =>
      f ← conducts [false] suspensions; b ← bools; g ← conducts bools suspensions; o ← [inl (); inr ()]; [Answers f b None () g o]
  | EMade _ =>
      f ← conducts [false] [Later]; b ← bools; g ← conducts bools suspensions; o ← [inl (); inr ()]; [Answers f b None () g o]
  | EEarlyCancel | ECancel | EFirst | ESecond =>
      f ← conducts [false] [Later]; b ← bools; g ← conducts [false] [Later]; o ← [inl (); inr ()]; [Answers f b None () g o]
  end.
Definition restrict (ready suspend : bool) (c : conduct) : conduct :=
  Conduct (if ready then c_ready c else false) (if suspend then c_suspend c else Later) (c_cancel c) (c_must c).
Definition silent : conduct := Conduct false Later Refused false.
Definition canon (e : event unit unit) (ans : answers unit unit) : answers unit unit :=
  match e with
  | EBuilt | EReady | EStarted _ | EMustResume => Answers silent false None () silent (inl ())
  | ESetExecutor => Answers silent false None () (Conduct (c_ready (s_does ans)) Later Refused false) (inl ())
  | EResume => Answers silent false (f_out ans) () silent (inl ())
  | ESuspend _ => Answers (restrict true false (f_does ans)) (f_starts ans) None () (s_does ans) (s_out ans)
  | ESuspended => Answers (restrict false true (f_does ans)) (f_starts ans) None () (s_does ans) (s_out ans)
  | EMade _ => Answers (restrict false false (f_does ans)) (f_starts ans) None () (s_does ans) (s_out ans)
  | EEarlyCancel | ECancel | EFirst | ESecond =>
      Answers (restrict false false (f_does ans)) (f_starts ans) None () (restrict false false (s_does ans)) (s_out ans)
  end.
Definition events : list (event unit unit) :=
  [EBuilt; EReady; EEarlyCancel; ESetExecutor; ESuspend parent_loc; ESuspended; ECancel; EStarted ();
   EMade None; EMade (Some ()); EFirst; ESecond; EMustResume; EResume].
Definition outcomes (e : event unit unit) (s : skeleton) : list (res skeleton) :=
  if may_happen e s then ans ← relevant e; if relies_on e ans s then [step e ans s] else [] else [].
Definition next (s : skeleton) : list skeleton := e ← events; m ← outcomes e s; match m with Ok s => [s] | Fault _ => [] end.
Definition states : list skeleton := Eval vm_compute in states_from key skeleton_eqb next 60 new_with.

Lemma canon_step e ans s : step e ans s = step e (canon e ans) s.
Proof. destruct ans as [[] ? ? [] [] ?], e; reflexivity. Qed.
Lemma canon_relies_on e ans s : relies_on e ans s = relies_on e (canon e ans) s.
Proof. destruct ans as [[] ? ? [] [] ?], e as [| | | | | | | |[]| | | |]; reflexivity. Qed.
Lemma elem_bind {A B} (f : A -> list B) l x y : x ∈ l -> y ∈ f x -> y ∈ l ≫= f.
Proof. intros. apply list_elem_of_bind. eauto. Qed.
Lemma bool_in b : b ∈ bools.
Proof. destruct b; set_solver. Qed.
Lemma suspension_in u : u ∈ suspensions.
Proof. destruct u; set_solver. Qed.
Lemma restrict_in r u c :
  restrict r u c ∈ conducts (if r then bools else [false]) (if u then suspensions else [Later]).
Proof.
  unfold conducts, restrict.
  apply (elem_bind _ _ (if r then c_ready c else false)); [destruct r; [apply bool_in|set_solver]|].
  apply (elem_bind _ _ (if u then c_suspend c else Later)); [destruct u; [apply suspension_in|set_solver]|].
  apply (elem_bind _ _ (c_cancel c)); [destruct (c_cancel c); set_solver|].
  apply (elem_bind _ _ (c_must c)); [apply bool_in|set_solver].
Qed.
Lemma conduct_in c : c ∈ conducts bools suspensions.
Proof. destruct c as [r u c m]. apply (restrict_in true true (Conduct r u c m)). Qed.
Lemma canon_relevant e ans : canon e ans ∈ relevant e.
Proof.
  destruct ans as [f b o [] g o2].
  assert (Ho : o2 ∈ [inl (); inr ()]) by (destruct o2 as [[]|[]]; set_solver).
  destruct e; cbn [canon relevant f_does f_starts f_out s_does s_out]; try (apply list_elem_of_singleton; done).
  1, 3-8:
    match goal with |- Answers ?f' ?b' ?o' ?t' ?g' ?o2' ∈ _ =>
      apply (elem_bind _ _ f'); [first [apply (restrict_in true false)|apply (restrict_in false true)|apply (restrict_in false false)]|];
      apply (elem_bind _ _ b'); [apply bool_in|];
      apply (elem_bind _ _ g'); [first [apply conduct_in|apply (restrict_in false false)]|];
      apply (elem_bind _ _ o2'); [exact Ho|set_solver]
    end.
  - apply (elem_bind _ _ (c_ready g)); [apply bool_in|set_solver].
  - apply (elem_bind _ _ o); [|set_solver]. destruct o as [[[]|[]]|]; set_solver.
Qed.

Definition tab : Pmap (list skeleton) := Eval vm_compute in table key states.
Lemma tab_eq : tab = table key states.
Proof. vm_compute. reflexivity. Qed.

Definition closed_at (s : skeleton) : bool :=
  forallb (fun e => if may_happen e s then forallb (fun ans => if relies_on e ans s then
    match step e ans s with Ok s => member key skeleton_eqb tab s | Fault _ => false end else true) (relevant e) else true) events.
Lemma states_closed : forallb closed_at states = true.
Proof. vm_compute. reflexivity. Qed.

Lemma skeleton_step e ans (s : skeleton) :
  s ∈ states -> e ∈ events -> may_happen e s = true -> relies_on e ans s = true -> exists t, step e ans s = Ok t /\ t ∈ states.
Proof.
  intros Hs He Hm Hr. pose proof (forallb_sound _ _ s states_closed Hs) as Hc. unfold closed_at in Hc.
  pose proof (forallb_sound _ _ e Hc He) as Hc'. cbn beta in Hc'. rewrite Hm in Hc'.
  pose proof (forallb_sound _ _ (canon e ans) Hc' (canon_relevant e ans)) as Hx. cbn beta in Hx.
  rewrite <- canon_relies_on, Hr, <- canon_step in Hx. destruct (step e ans s) as [t|]; [|done].
  exists t. split; [done|]. rewrite tab_eq in Hx. by apply (member_sound key skeleton_eqb skeleton_eqb_sound).
Qed.

(** ** What is to hold everywhere *)

Section Checks.
Context {V W E : Type}.
Implicit Types (s : with_ V W E).
(** The second stage, or the function that makes it, and the first have both failed. *)
Definition both_failed s : bool :=
  inException s && (Checker.in_state Checker.Ready (first s) || Checker.in_state Checker.ReadyImmediately (first s)).
Definition finished s : bool := Checker.in_state Checker.Done (outer s) || Checker.in_state Checker.Cancelled (outer s).
Definition waiting_ok s : bool :=
  implb (Checker.running (outer s)) (being_made s || suspending s || Checker.running (first s) || second_is Checker.running s).
Definition destroy_ok s : bool :=
  implb (finished s) match destroy s with Ok _ => negb (both_failed s) | Fault AssertFailed => both_failed s | _ => false end.
Definition order_ok s : bool :=
  implb (second_is Checker.running s && isStageCancelling First s) (interrupted s) &&
  implb (second_is Checker.running s && isStageDone First s) (isStageCancelling Second s) &&
  implb (isStageDone Second s) (isStageDone First s || isStageCancelling First s) &&
  implb (asked_by_parent Checker.Cancelled s)
    (Cancelling s && negb (inException s) && negb (mustStageResume First s) &&
     match yielded s with None => true | Some _ => false end).
(** Where the result is when the parent may take it. *)
Definition result_there s : bool :=
  inException s || (if mustStageResume First s then built s && Checker.may Checker.QResume (first s)
                    else match result_ s with Some _ => true | None => false end).
Definition result_ok s : bool := implb (asked_by_parent Checker.Ready s) (result_there s).
End Checks.

Section Theorems.
Context {V W E : Type}.
Implicit Types (s : with_ V W E) (ans : answers W E) (e : event V E).

Lemma event_in e : erase_event e ∈ events.
Proof. destruct e as [| | | | | | | |[]| | | |]; cbn; set_solver. Qed.
Lemma with_step_ok e ans s :
  erase s ∈ states -> enabled e ans s = true -> exists s', step e ans s = Ok s' /\ erase s' ∈ states.
Proof.
  intros Hs [Hm Hr]%andb_prop.
  destruct (skeleton_step (erase_event e) (erase_answers ans) (erase s) Hs (event_in e)) as (t & Et & Ht).
  { by rewrite may_happen_erase. }
  { by rewrite relies_on_erase. }
  destruct (related_ok erases _ _ _ (step_erase e ans s) Et) as (s' & Es & H). red in H. subst t. eauto.
Qed.
Lemma reach_states s : reach s -> erase s ∈ states.
Proof.
  induction 1 as [|e ans s s' _ IH He Es].
  - apply (member_sound key skeleton_eqb skeleton_eqb_sound). vm_compute. reflexivity.
  - destruct (with_step_ok e ans s IH He) as (s2 & E2 & Hin). congruence.
Qed.
(** A property of the skeleton that holds of all those found. *)
Lemma everywhere (p : skeleton -> bool) s : reach s -> forallb p states = true -> p (erase s) = true.
Proof. intros Hs%reach_states Hp. by apply (forallb_sound p states). Qed.

(** ** Values *)

(** What the scope keeps is what it was given. *)
Definition honest s : Prop :=
  match stage_ s with
  | ExceptionStage e => thrown s = Some e \/ yielded s = Some (inr e)
  | _ => forall w, result_ s = Some w -> yielded s = Some (inl w)
  end.
Definition keeps {A} (P : A -> Prop) (m : res A) : Prop := match m with Ok a => P a | Fault _ => True end.
Lemma keeps_bind {A B} (P : A -> Prop) (Q : B -> Prop) m k :
  keeps P m -> (forall a, P a -> keeps Q (k a)) -> keeps Q (m ≫= k).
Proof. destruct m; cbn; auto. Qed.
Lemma keeps_bind_any {A B} (Q : B -> Prop) (m : res A) k : (forall a, keeps Q (k a)) -> keeps Q (m ≫= k).
Proof. destruct m; cbn; auto. Qed.
Definition honest_pair {A} (p : A * with_ V W E) : Prop := honest p.2.

Lemma honest_set_flags x f s : honest s -> honest (set_flags x f s).
Proof. by destruct x. Qed.
Lemma on_stage_honest x k s : honest s -> keeps honest (on_stage x k s).
Proof.
  intros Hs. destruct x; unfold on_stage.
  - destruct (built s); [|done]. by apply keeps_bind_any.
  - unfold honest in Hs. destruct (stage_ s) eqn:E1; try done. apply keeps_bind_any. intros c.
    unfold honest. cbn. done.
Qed.
Lemma on_outer_honest k s : honest s -> keeps honest (on_outer k s).
Proof. intros Hs. unfold on_outer. by apply keeps_bind_any. Qed.
Lemma resume_parent_honest s : honest s -> keeps honest (resume_parent s).
Proof. intros Hs. unfold resume_parent. destruct (parent_ s); [done|]. by apply on_outer_honest. Qed.
Lemma switchTo_honest (a : stage V E) s :
  match a with ExceptionStage _ => False | _ => True end -> inException s = false -> honest s -> keeps honest (switchTo a s).
Proof.
  unfold honest, inException, switchTo. destruct a; try done; destruct (stage_ s); try done; intros _ _ H; by apply keeps_bind_any.
Qed.
Lemma switchTo_none_honest s : inSecondStage s = true -> honest s -> keeps honest (switchTo NoStage s).
Proof. intros H. apply switchTo_honest; [done|]. unfold inSecondStage, inException in *. by destruct (stage_ s). Qed.
Lemma switchTo_thrown_honest (exn : E) s : keeps honest (switchTo (ExceptionStage exn) (log_thrown exn s)).
Proof. unfold switchTo. destruct (stage_ _); try (by left). apply keeps_bind_any. by left. Qed.
#[local] Hint Resolve on_stage_honest on_outer_honest resume_parent_honest honest_set_flags switchTo_none_honest
  switchTo_thrown_honest : honest.
#[local] Hint Extern 1 (honest (markStageStarted _ _)) => apply honest_set_flags : honest.
#[local] Hint Extern 1 (honest (markStageCancelling _ _)) => apply honest_set_flags : honest.
#[local] Hint Extern 1 (honest (markStageDone _ _)) => apply honest_set_flags : honest.
#[local] Hint Extern 1 (honest (markStageMustNotResume _ _)) => apply honest_set_flags : honest.
Local Ltac keep_step :=
  match goal with
  | |- keeps honest_pair (Ok (_, _)) => red; red; cbn [snd]
  | |- keeps honest (Ok _) => red
  | |- keeps _ (Fault _) => exact I
  | |- keeps _ (@mbind _ _ (with_ _ _ _) _ _ _) => apply (keeps_bind honest); [|intros ? ?]
  | |- keeps _ (@mbind _ _ (_ * with_ _ _ _)%type _ _ _) => apply (keeps_bind honest_pair); [|let H := fresh in intros [? ?] H; unfold honest_pair in H; cbn [snd] in H]
  | |- keeps _ (@mbind _ _ _ _ _ _) => apply keeps_bind_any; intros ?
  | |- context [if ?b then _ else _] => destruct b eqn:?
  | |- context [match ?b with _ => _ end] => destruct b eqn:?
  end.
Local Ltac keep := repeat (solve [eauto with honest] || keep_step).

Lemma started_meanwhile_honest x ans s : honest s -> keeps honest (started_meanwhile x ans s).
Proof. intros Hs. unfold started_meanwhile. keep. Qed.
#[local] Hint Resolve started_meanwhile_honest : honest.
Lemma cancelStage_honest f x ans s :
  (forall s, honest s -> keeps honest (f s)) -> honest s -> keeps honest_pair (cancelStage f x ans s).
Proof. intros Hf Hs. unfold cancelStage. keep. Qed.
Lemma take_result_honest ans s : honest s -> keeps honest (take_result ans s).
Proof.
  intros Hs. unfold take_result, on_stage. unfold honest in Hs. destruct (stage_ s) as [| |v c|] eqn:E1; try done.
  destruct (Checker.step CResume c) as [c'|]; [|done]. cbn. destruct (s_out ans) as [w|e]; cbn.
  - unfold honest. cbn. congruence.
  - unfold switchTo. cbn. apply keeps_bind_any. intros _. by right.
Qed.
#[local] Hint Resolve cancelStage_honest take_result_honest : honest.
Lemma onStageDone_honest n x ans s : honest s -> keeps honest (onStageDone n x ans s).
Proof. revert x s. induction n as [|n IH]; intros x s Hs; [done|]. cbn [onStageDone]. keep. Qed.
#[local] Hint Resolve onStageDone_honest : honest.
#[local] Hint Extern 1 (keeps _ (onStageDone_ _ _ _)) => apply onStageDone_honest : honest.
Lemma cancelStage__honest x ans s : honest s -> keeps honest_pair (cancelStage_ x ans s).
Proof. intros Hs. apply cancelStage_honest; auto with honest. Qed.
Lemma beginStage_enter_honest x ans s : honest s -> keeps honest_pair (beginStage_enter x ans s).
Proof. intros Hs. unfold beginStage_enter. keep. Qed.
Lemma beginStage_return_honest x ans s : honest s -> keeps honest (beginStage_return x ans s).
Proof. intros Hs. unfold beginStage_return. keep. Qed.
#[local] Hint Resolve cancelStage__honest beginStage_enter_honest beginStage_return_honest : honest.
Lemma beginSecond_honest ans s : honest s -> keeps honest (beginSecond ans s).
Proof. intros Hs. unfold beginSecond. keep. Qed.
Lemma doCancel_honest ans s : honest s -> keeps honest_pair (doCancel ans s).
Proof. intros Hs. assert (honest (set_cancelling s)) by done. unfold doCancel. keep. Qed.
#[local] Hint Resolve beginSecond_honest doCancel_honest : honest.
Lemma started_honest v s : inException s = false -> honest s -> keeps honest (started v s).
Proof.
  intros Hx Hs. unfold started, markStarted. assert (honest (set_fired s)) by done. keep.
  by apply switchTo_honest.
Qed.
Lemma markStarted_return_honest (threw : option E) ans s :
  inException s = false -> honest s -> keeps honest (markStarted_return threw ans s).
Proof.
  intros Hx Hs. unfold markStarted_return. apply keeps_bind_any. intros [v ex]. destruct threw as [exn|]; [keep|].
  assert (Hm : honest (set_stage (SecondStage v Checker.initial) (set_then None s))).
  { unfold honest, inException in *. cbn. by destruct (stage_ s). }
  revert Hm. generalize (set_stage (SecondStage v Checker.initial) (set_then None s)). intros. keep.
Qed.
Lemma await_resume_honest ans s : honest s -> keeps honest_pair (await_resume ans s).
Proof. intros Hs. unfold await_resume. keep. Qed.
Lemma await_set_executor_honest ans s : honest s -> keeps honest (await_set_executor ans s).
Proof.
  intros Hs. unfold await_set_executor. keep_step; [by apply on_stage_honest|]. destruct (inSecondStage a); [keep|].
  destruct (stage_ a) eqn:Ha; try done. cbn. apply switchTo_honest; [done| |done]. unfold inException. by rewrite Ha.
Qed.
#[local] Hint Resolve await_resume_honest await_set_executor_honest : honest.
Lemma step_honest e ans s s' :
  match e with EStarted _ | EMade _ => inException s = false | _ => True end ->
  honest s -> step e ans s = Ok s' -> honest s'.
Proof.
  intros Hx Hs Es. enough (Hk : keeps honest (step e ans s)) by (by rewrite Es in Hk). clear Es.
  destruct e; cbn [step]; try (by apply started_honest); try (by apply markStarted_return_honest);
    unfold await_suspend, await_suspend_return, await_cancel, await_early_cancel; keep.
Qed.

Definition untouched (s : skeleton) : bool :=
  implb (being_made s || negb (fired s) && (negb (built s) || Checker.running (first s))) (negb (inException s)).
Lemma reach_honest s : reach s -> honest s.
Proof.
  induction 1 as [|e ans s s' Hr IH He Es]; [by intros w|].
  apply (step_honest e ans s s'); [|done|done].
  assert (Hu : untouched (erase s) = true) by (apply everywhere; [done|vm_compute; reflexivity]).
  unfold untouched in Hu. rewrite being_made_erase, inException_erase in Hu.
  change (fired (erase s)) with (fired s) in Hu. change (built (erase s)) with (built s) in Hu.
  change (first (erase s)) with (first s) in Hu.
  apply andb_prop in He as [He _]. destruct e; try done; cbn [may_happen] in He; rewrite He in Hu;
    rewrite ?orb_true_r in Hu; by destruct (inException s).
Qed.

(** * Properties *)

(** C30.  A with-scope is an awaiter made of two that run side by
    side.  No step fails, on any side, as long as its parent and the two keep to the
    protocol and to the following, which the protocol does not demand and the scope relies
    on ([relies_on]): the parent runs when [await_suspend()] has returned, and does not
    cancel early a scope whose second stage is there ([early_with_second]) nor cancel it
    between the two when [await_suspend()] begins both; when the parent cancels, the second
    stage does not confirm at once unless the first does ([second_confirms_alone]); while
    the function that makes the second runs, the first neither completes nor confirms a
    cancellation ([confirmed_and_resumed]), and in the scope's constructor that
    function does not throw ([throws_in_constructor]); a stage that throws from
    [await_suspend()] has not been cancelled before, and the first has not called
    [started()] ([throws_after_started]), nor does the second throw when the first stage's
    [await_suspend()] is yet to be called; the first stage, if it has to be
    resumed, has an error; and the second, once ready, stays ready.  While the parent is
    suspended a stage is suspended too, or a call has yet to return, so that
    somebody will resume the parent.  Destroying the scope, when the parent is
    done with it, destroys no awaiter in use, unless both stages have failed: then
    the result of the first has not been taken, and an assertion fails. *)
Theorem with_is_awaiter s :
  reach s ->
  (forall e ans, enabled e ans s = true -> exists s', step e ans s = Ok s') /\
  (Checker.running (outer s) = true ->
     being_made s = true \/ suspending s = true \/ Checker.running (first s) = true \/ second_is Checker.running s = true) /\
  (finished s = true ->
     if both_failed s then destroy s = Fault AssertFailed else exists s', destroy s = Ok s').
Proof.
  intros Hr. split_and!.
  - intros e ans He. destruct (with_step_ok e ans s (reach_states s Hr) He) as (s' & Es & _). by exists s'.
  - intros Ho. assert (Hw : waiting_ok (erase s) = true) by (apply everywhere; [done|vm_compute; reflexivity]).
    revert Hw. unfold waiting_ok. rewrite being_made_erase, second_is_erase.
    change (Checker.running (outer (erase s))) with (Checker.running (outer s)).
    change (suspending (erase s)) with (suspending s). change (first (erase s)) with (first s). rewrite Ho. cbn [implb].
    rewrite !orb_true_iff. tauto.
  - intros Hf. assert (Hd : destroy_ok (erase s) = true) by (apply everywhere; [done|vm_compute; reflexivity]).
    revert Hd. unfold destroy_ok, both_failed. rewrite inException_erase.
    change (finished (erase s)) with (finished s). change (first (erase s)) with (first s). rewrite Hf. cbn [implb].
    pose proof (destroy_erase s) as Hx. destruct (destroy s) as [s'|f], (destroy (erase s)) as [t|f']; try done.
    + intros ->%negb_true_iff. by exists s'.
    + cbn in Hx. subst f'. destruct f; try done. by intros ->.
Qed.

(** C31.  In every state that a with-scope reaches under the conditions of
    [with_is_awaiter]: as long as the second stage runs the first has
    not been asked to cancel - unless the parent's request came while the function that
    makes the second was running: then the first is asked at once and the second begins all the
    same, against the documentation ([interrupted], [second_begins_cancelled]).  If the
    first is done, the second, if it runs, has been asked to cancel; if the second is
    done, or never to be, the first is done or has been asked.  The scope ends as cancelled
    only when it was asked to, and then no result or exception is lost. *)
Theorem with_cancels_in_order s :
  reach s ->
  (second_is Checker.running s = true -> isStageCancelling First s = true -> interrupted s = true) /\
  (second_is Checker.running s = true -> isStageDone First s = true -> isStageCancelling Second s = true) /\
  (isStageDone Second s = true -> isStageDone First s = true \/ isStageCancelling First s = true) /\
  (asked_by_parent Checker.Cancelled s = true ->
     Cancelling s = true /\ inException s = false /\ mustStageResume First s = false /\ yielded s = None).
Proof.
  intros Hr. assert (Ho : order_ok (erase s) = true) by (apply everywhere; [done|vm_compute; reflexivity]).
  revert Ho. unfold order_ok, isStageCancelling, isStageDone, mustStageResume, asked_by_parent.
  rewrite second_is_erase, inException_erase, !stage_flags_erase.
  change (interrupted (erase s)) with (interrupted s). change (Cancelling (erase s)) with (Cancelling s).
  change (Checker.in_state ?st (outer (erase s))) with (Checker.in_state st (outer s)).
  cbn [yielded erase]. rewrite !andb_true_iff, !implb_true_iff, !andb_true_iff, !orb_true_iff, !negb_true_iff.
  destruct (yielded s); intuition discriminate.
Qed.

Lemma outer_resumes s : asked_by_parent Checker.Ready s = true -> exists c, on_outer CResume s = Ok (set_outer c s).
Proof.
  unfold asked_by_parent, on_outer, Checker.step, Checker.aboutToResume, Checker.in_state. intros H%bool_decide_eq_true.
  rewrite (bool_decide_true (_ = Checker.Ready)) by done. rewrite orb_true_r. cbn. eauto.
Qed.
Lemma await_resume_ok ans s :
  result_there s = true -> honest s -> f_out ans <> None ->
  exists out s', await_resume ans s = Ok (out, s') /\
    if inException s then exists e : E, out = inr e /\ (thrown s = Some e \/ yielded s = Some (inr e))
    else if mustStageResume First s then f_out ans = Some out
    else yielded s = Some out.
Proof.
  unfold result_there. intros Ho Hh Hf. unfold await_resume, honest, inException in *.
  destruct (stage_ s) as [| |v c2|e] eqn:Hst; cbn [orb] in Ho; [| | |exists (inr e); eauto];
    (destruct (mustStageResume First s);
     [unfold on_stage; apply andb_prop in Ho as [-> Hm]; unfold Checker.may in Hm;
      unfold Checker.step, Checker.aboutToResume; rewrite orb_comm in Hm; rewrite orb_comm, Hm; cbn;
      destruct (f_out ans) as [o|]; [by eauto|done]
     |destruct (result_ s) as [w|]; [|done]; cbn; eauto]).
Qed.

(** When the parent has been resumed and takes the result, there is one:
    the exception, if the function or an [await_suspend()] threw one
    or the second stage ended with one; else the error of the first stage, if it
    completed; else what the second stage yielded. *)
Theorem with_result s ans :
  reach s -> asked_by_parent Checker.Ready s = true -> f_out ans <> None ->
  exists out s', (s ← on_outer CResume s; await_resume ans s) = Ok (out, s') /\
    if inException s then exists e : E, out = inr e /\ (thrown s = Some e \/ yielded s = Some (inr e))
    else if mustStageResume First s then f_out ans = Some out
    else yielded s = Some out.
Proof.
  intros Hr Ha Hf.
  assert (Ho : result_ok (erase s) = true) by (apply everywhere; [done|vm_compute; reflexivity]).
  destruct (outer_resumes s Ha) as (c & ->). apply (await_resume_ok ans (set_outer c s)); [|exact (reach_honest s Hr)|done].
  revert Ho. unfold result_ok, result_there, mustStageResume, asked_by_parent in *.
  rewrite inException_erase, stage_flags_erase. change (Checker.in_state ?st (outer (erase s))) with (Checker.in_state st (outer s)).
  rewrite Ha. cbn [implb result_ erase built first set_outer]. intros Ho.
  change (inException (set_outer c s)) with (inException s). change (stage_flags First (set_outer c s)) with (stage_flags First s).
  by destruct (result_ s).
Qed.
End Theorems.

(** * Runs *)

Section Play.
Context {V W E : Type}.
Fixpoint play (l : list (event V E * answers W E)) (s : with_ V W E) : option (with_ V W E) :=
  match l with
  | [] => Some s
  | (e, ans) :: l =>
      if enabled e ans s then match step e ans s with Ok s => play l s | Fault _ => None end else None
  end.
Lemma play_with_reach l s s' : reach s -> play l s = Some s' -> reach s'.
Proof.
  revert s. induction l as [|[e ans] l IH]; intros s Hr; cbn [play]; [by intros [= <-]|].
  destruct (enabled e ans s) eqn:He; [|done]. destruct (step e ans s) as [s1|] eqn:Es; [|done].
  apply IH. by apply (reach_step e ans s).
Qed.
End Play.

(** Steps whose preconditions are not looked at. *)
Definition force {V W E} (l : list (event V E * answers W E)) (s : with_ V W E) : res (with_ V W E) :=
  fold_left (fun m p => s ← m; step p.1 p.2 s) l (Ok s).

(** Both stages suspend; a cancellation is refused; the first, cancelled, does
    not insist on its result; the second yields 7. *)
Definition slow : conduct := Conduct false Later Refused false.
Definition plain : answers nat nat := Answers slow false (Some (inr 0)) 0 slow (inl 7).
Definition all_plain (l : list (event nat nat)) : list (event nat nat * answers nat nat) := map (fun e => (e, plain)) l.
Definition both_run : list (event nat nat) :=
  [EBuilt; EReady; ESetExecutor; ESuspend 9; ESuspended; EStarted 1; EMade None].
Definition run_of (l : list (event nat nat)) : with_ nat nat nat := default new_with (play (all_plain l) new_with).
Definition scope_running : with_ nat nat nat := run_of both_run.
Definition scope_second_done : with_ nat nat nat := run_of (both_run ++ [ESecond]).
Definition scope_resumed : with_ nat nat nat := run_of (both_run ++ [ESecond; EFirst]).
Lemma run_reach l : is_Some (play (all_plain l) new_with) -> reach (run_of l).
Proof. intros [s Hs]. unfold run_of. rewrite Hs. by apply (play_with_reach (all_plain l) new_with); [apply reach_new|]. Qed.

Lemma with_is_awaiter_witness : exists s', step ECancel plain scope_running = Ok s'.
Proof.
  destruct (with_is_awaiter scope_running) as [H _]; [apply run_reach; vm_compute; eauto|]. apply H. vm_compute. reflexivity.
Defined.
Lemma with_cancels_in_order_witness : isStageDone First scope_second_done = true \/ isStageCancelling First scope_second_done = true.
Proof.
  destruct (with_cancels_in_order scope_second_done) as (_ & _ & H & _); [apply run_reach; vm_compute; eauto|].
  apply H. vm_compute. reflexivity.
Defined.
Lemma with_result_witness : exists out s', (s ← on_outer CResume scope_resumed; await_resume plain s) = Ok (out, s') /\ Some (inl 7) = Some out.
Proof. apply (with_result scope_resumed plain); [apply run_reach; vm_compute; eauto|vm_compute; reflexivity|discriminate]. Defined.

(** ** Outside what the scope relies on *)

Definition with_second (c : conduct) : answers nat nat := Answers slow false (Some (inr 0)) 0 c (inl 7).

(** The parent cancels, the second stage confirms at once, the first does not:
    the second is not destroyed, and [await_must_resume()] fails its assertion. *)
Example second_confirms_alone :
  force (all_plain both_run ++
    [(ECancel, with_second (Conduct false Later Confirmed false)); (EFirst, plain); (EMustResume, plain)]) new_with =
  Fault AssertFailed.
Proof. vm_compute. reflexivity. Qed.

(** [firstFn] calls [started()] itself and the function throws:
    [first_] is cancelled before it is constructed. *)
Example throws_in_constructor : force (all_plain [EStarted 1; EMade (Some 5)]) new_with = Fault BadAccess.
Proof. vm_compute. reflexivity. Qed.

(** The scope is cancelled early with its second stage made: it confirms, and
    destroys an awaiter that has been asked. *)
Example early_with_second :
  (s ← force (all_plain [EStarted 1; EMade None; EBuilt; EReady; ESetExecutor] ++
      [(EEarlyCancel, Answers (Conduct false Later Confirmed false) false (Some (inr 0)) 0 slow (inl 7))]) new_with;
   Ok (Checker.state_ (outer s), is_ok (destroy s))) = Ok (Checker.Cancelled, false).
Proof. vm_compute. reflexivity. Qed.

(** The parent cancels while the function runs: the first stage is cancelled, and
    the second begins all the same. *)
Definition cancelled_while_made : with_ nat nat nat :=
  run_of (take 6 both_run ++ [ECancel; EMade None]).
Example second_begins_cancelled :
  isStageCancelling First cancelled_while_made = true /\ second_is Checker.running cancelled_while_made = true.
Proof. vm_compute. auto. Qed.

(** In that case, if the first confirms at once, the parent is resumed although
    it has been told that the scope is cancelled. *)
Example confirmed_and_resumed :
  force (all_plain (take 6 both_run) ++
    [(ECancel, Answers (Conduct false Later Confirmed false) false (Some (inr 0)) 0 slow (inl 7));
     (EMade None, with_second (Conduct false Later Confirmed false))]) new_with = Fault Unreachable.
Proof. vm_compute. reflexivity. Qed.

(** The first stage calls [started()] and throws, both in [await_suspend()]: the
    second is destroyed in use. *)
Example throws_after_started :
  force (all_plain (take 4 both_run ++ [EStarted 1; EMade None]) ++
    [(ESuspended, Answers (Conduct false Throws Refused false) false (Some (inr 0)) 3 slow (inl 7))]) new_with =
  Fault AssertFailed.
Proof. vm_compute. reflexivity. Qed.
