(* ===== verification/CBPortal.v ===== *)
(** [CBPortal.h]: waiting for a callback.

    A portal has room for one call's values; the callback runs the task that waits
    for it on the spot, inside [Executor::capture()].  So the initiate function,
    the callback and the task are on one stack of the processor, and the proxy that
    called the initiate function may be gone when that returns.  [stack] has the
    calls that are still to return, oldest first; everything else happens between
    them.  One task, one portal at a time, awaited directly or through
    [untilCBCalled()] with one callback; the task sees either through a state checker
    (Awaiter.v). *)
From S2P Require Export Awaiter.
Import Checker(checker, call(..)).

Section CBPortal.
(** [T]: the tuple of the callback's arguments. *)
Context {T : Type}.

(** * Data *)

(** [CBPortalProxyStatus] *)
Inductive status := NotStarted | Scheduled | CancelPending | Initiated.

(** [CBPortal]; [executor_] is the pointer and the tag of [PointerBits], [parent_]
    a possibly null handle, [callback_] whether [callback()] was called. *)
Record portal := Portal {
  value_ : option T; executor_ : bool; bits_ : status; parent_ : option handle; callback_ : bool }.

(** [CBPortalProxy]: whether the portal is external, whether there is a
    cancellation function, and where on the stack [completed_] points to.
    For the theorems: how often the two functions were called. *)
Record proxy := Proxy {
  external : bool; has_cancelFn : bool; completed_ : option nat; initiated : nat; cancelled : nat }.

(** A step of the task, run by [h.resume()]; [CBPortalProxy::await_suspend()] in
    its call of [initiateFn_], with the variable [completed]. *)
Inductive frame := FTask | FInitiate (completed : bool).

(** What the task does: it runs, it is in a [co_await] of the portal or of the
    proxy, or it waits for something else. *)
Inductive task := Runs | AwaitsPortal (c : checker) | AwaitsProxy (c : checker) | Away.

(** For the theorems: the values passed to the callback, and those that the task got. *)
Record world := World {
  the_portal : option portal; the_proxy : option proxy; the_task : task; stack : list frame;
  called : list T; received : list T }.
Implicit Types (w : world) (p : portal) (q : proxy).

Definition set_portal (p : option portal) w : world :=
  World p (the_proxy w) (the_task w) (stack w) (called w) (received w).
Definition set_proxy (q : option proxy) w : world :=
  World (the_portal w) q (the_task w) (stack w) (called w) (received w).
Definition set_task (t : task) w : world :=
  World (the_portal w) (the_proxy w) t (stack w) (called w) (received w).
Definition set_stack (l : list frame) w : world :=
  World (the_portal w) (the_proxy w) (the_task w) l (called w) (received w).
Definition log_called (v : T) w : world :=
  World (the_portal w) (the_proxy w) (the_task w) (stack w) (called w ++ [v]) (received w).
Definition log_received (v : T) w : world :=
  World (the_portal w) (the_proxy w) (the_task w) (stack w) (called w) (received w ++ [v]).

Definition set_value (v : option T) p : portal := Portal v (executor_ p) (bits_ p) (parent_ p) (callback_ p).
Definition set_executor p : portal := Portal (value_ p) true (bits_ p) (parent_ p) (callback_ p).
Definition set_bits (s : status) p : portal := Portal (value_ p) (executor_ p) s (parent_ p) (callback_ p).
Definition set_parent (h : option handle) p : portal := Portal (value_ p) (executor_ p) (bits_ p) h (callback_ p).
Definition set_completed (i : option nat) q : proxy := Proxy (external q) (has_cancelFn q) i (initiated q) (cancelled q).

Definition portal_of w : res portal := deref (the_portal w).
Definition proxy_of w : res proxy := deref (the_proxy w).
Definition update (f : portal -> portal) w : res world := p ← portal_of w; Ok (set_portal (Some (f p)) w).

(** The checker of the awaiter that the task is in. *)
Definition checker_of w : option checker :=
  match the_task w with AwaitsPortal c | AwaitsProxy c => Some c | _ => None end.
Definition set_checker (c : checker) w : world :=
  match the_task w with
  | AwaitsPortal _ => set_task (AwaitsPortal c) w
  | AwaitsProxy _ => set_task (AwaitsProxy c) w
  | _ => w
  end.
Definition on_awaiter (k : call) w : res world :=
  c ← deref (checker_of w); c ← Checker.step k c; Ok (set_checker c w).

(** * [CBPortal] *)

Definition new_portal : portal := Portal None false NotStarted None false.
Definition portal_ready p : bool := match value_ p with Some _ => true | None => false end.
Definition canMove p : bool := negb (callback_ p) && match parent_ p with None => true | Some _ => false end.
(** [callback()] *)
Definition hand_out p : portal := Portal (value_ p) (executor_ p) (bits_ p) (parent_ p) true.
Definition hasResumedParent p : bool := match parent_ p with None => true | Some _ => false end.

(** [wakeUp()]: the task runs before it returns. *)
Definition wakeUp w : res world :=
  p ← portal_of w;
  let h := parent_ p in
  let w := set_portal (Some (set_parent None p)) w in
  match h with
  | Some _ =>
      _ ← (if executor_ p then Ok () else Fault BadAccess);
      w ← on_awaiter CResumed w; Ok (set_stack (stack w ++ [FTask]) w)
  | None => Ok w
  end.

Definition portal_suspend (h : handle) w : res world := update (set_parent (Some h)) w.
Definition portal_resume w : res (T * world) :=
  p ← portal_of w;
  corral_assert (portal_ready p);;
  v ← deref (value_ p);
  Ok (v, log_received v (set_portal (Some (set_value None p)) w)).
Definition portal_cancel w : res (bool * world) := w ← wakeUp w; Ok (false, w).
Definition portal_must_resume w : res bool := p ← portal_of w; Ok (portal_ready p).

(** [Callback::operator()] *)
Definition callback (v : T) w : res world :=
  p ← portal_of w;
  corral_assert (negb (portal_ready p));;
  wakeUp (log_called v (set_portal (Some (set_value (Some v) p)) w)).

(** * [CBPortalProxy] *)

Definition getProxyStatus w : res status := p ← portal_of w; Ok (bits_ p).
Definition setProxyStatus (s : status) w : res world := update (set_bits s) w.

(** The constructors: external portals are passed, others are members. *)
Definition new_external w : res world :=
  setProxyStatus Scheduled (set_proxy (Some (Proxy true false None 0 0)) w).
Definition new_inline (cancelFn : bool) w : res world :=
  setProxyStatus NotStarted (set_portal (Some new_portal) (set_proxy (Some (Proxy false cancelFn None 0 0)) w)).

Definition proxy_ready : bool := false.
Definition proxy_early_cancel w : res (bool * world) :=
  q ← proxy_of w;
  s ← getProxyStatus w;
  if external q then
    corral_assert (match s with Scheduled => true | _ => false end);;
    w ← setProxyStatus CancelPending w; Ok (false, w)
  else corral_assert (match s with NotStarted => true | _ => false end);; Ok (true, w).
Definition proxy_set_executor w : res world :=
  p ← portal_of w;
  corral_assert (negb (portal_ready p));;
  update set_executor w.

(** Up to the call of [initiateFn_]. *)
Definition proxy_suspend (h : handle) w : res world :=
  w ← portal_suspend h w;
  s ← getProxyStatus w;
  w ← match s with NotStarted => setProxyStatus Scheduled w | _ => Ok w end;
  w ← update hand_out w;
  q ← proxy_of w;
  let q := Proxy (external q) (has_cancelFn q) (Some (length (stack w))) (S (initiated q)) (cancelled q) in
  Ok (set_stack (stack w ++ [FInitiate false]) (set_proxy (Some q) w)).

Definition proxy_cancel w : res (bool * world) :=
  s ← getProxyStatus w;
  match s with
  | NotStarted => Fault Unreachable
  | Scheduled | CancelPending => w ← setProxyStatus CancelPending w; Ok (false, w)
  | Initiated =>
      q ← proxy_of w;
      if negb (external q) && negb (has_cancelFn q) then Ok (false, w)
      else
        let q := Proxy (external q) (has_cancelFn q) (completed_ q) (initiated q)
                   (if has_cancelFn q then S (cancelled q) else cancelled q) in
        portal_cancel (set_proxy (Some q) w)
  end.

(** From the return of [initiateFn_]. *)
Definition proxy_suspend_return (completed : bool) w : res world :=
  if completed then Ok w
  else
    q ← proxy_of w;
    let w := set_proxy (Some (set_completed None q)) w in
    s ← getProxyStatus w;
    w ← setProxyStatus Initiated w;
    p ← portal_of w;
    if match s with CancelPending => negb (hasResumedParent p) | _ => false end then
      '(b, w) ← proxy_cancel w;
      if b : bool then on_awaiter CResumed w else Ok w
    else Ok w.

Definition proxy_must_resume w : res bool := portal_must_resume w.
Definition proxy_resume w : res (T * world) :=
  q ← proxy_of w;
  w ← match completed_ q with
      | Some i =>
          match stack w !! i with
          | Some (FInitiate _) => Ok (set_stack (<[i := FInitiate true]> (stack w)) w)
          | _ => Fault BadAccess
          end
      | None => Ok w
      end;
  portal_resume w.
(** [~CBPortalProxy()]: a portal that is a member goes too. *)
Definition proxy_destroy w : res world :=
  q ← proxy_of w;
  Ok (set_proxy None (if external q then w else set_portal None w)).

(** * The portal in use *)

(** [EUntilCalled], [EUntilCalledInline]: the task evaluates [untilCBCalled()] with
    the portal, or with a portal of the proxy's own (and a cancellation function).
    [EReturn]: the latest call on the stack returns.  [EAway], [EBack]: the task
    waits for something else.  [EUseCaptures]: the initiate function, if it is what
    runs, uses what it has captured, which is in [initiateFn_], a member of its proxy. *)
Inductive event :=
| EMakePortal | EDropPortal | EAwaitPortal | EUntilCalled | EUntilCalledInline (cancelFn : bool)
| EReady | EEarlyCancel | ESetExecutor | ESuspend (c : loc) | EMustResume | EResume | EEnd
| ECall (v : T) | ECancel | EReturn | EAway | EBack | EUseCaptures.

Definition fresh_logs w : world := World (the_portal w) (the_proxy w) (the_task w) (stack w) [] [].
Definition awaits_proxy w : bool := match the_task w with AwaitsProxy _ => true | _ => false end.

Definition step (e : event) w : res world :=
  match e with
  | EMakePortal => Ok (fresh_logs (set_portal (Some new_portal) w))
  | EDropPortal => Ok (set_portal None w)
  | EAwaitPortal => _ ← portal_of w; Ok (set_task (AwaitsPortal Checker.initial) w)
  | EUntilCalled => w ← new_external w; Ok (set_task (AwaitsProxy Checker.initial) w)
  | EUntilCalledInline f => w ← new_inline f (fresh_logs w); Ok (set_task (AwaitsProxy Checker.initial) w)
  | EReady =>
      p ← portal_of w; on_awaiter (CReady (if awaits_proxy w then proxy_ready else portal_ready p)) w
  | EEarlyCancel =>
      '(b, w) ← (if awaits_proxy w then proxy_early_cancel w else Ok (awaitEarlyCancel None, w));
      on_awaiter (CEarlyCancel b) w
  | ESetExecutor => w ← on_awaiter CSetExecutor w; if awaits_proxy w then proxy_set_executor w else update set_executor w
  | ESuspend c =>
      w ← on_awaiter (CSuspend (Coro c)) w;
      if awaits_proxy w then proxy_suspend (Coro c) w else portal_suspend (Coro c) w
  | EMustResume => b ← (if awaits_proxy w then proxy_must_resume w else portal_must_resume w); on_awaiter (CMustResume b) w
  | EResume =>
      w ← on_awaiter CResume w;
      '(_, w) ← (if awaits_proxy w then proxy_resume w else portal_resume w); Ok w
  | EEnd =>
      c ← deref (checker_of w);
      _ ← Checker.reset c;
      w ← (if awaits_proxy w then proxy_destroy w else Ok w); Ok (set_task Runs w)
  | ECall v => callback v w
  | ECancel =>
      c ← deref (checker_of w);
      w ← on_awaiter (CCancel (Checker.realHandle_ c)) w;
      '(b, w) ← (if awaits_proxy w then proxy_cancel w else portal_cancel w);
      on_awaiter (CCancelled b) w
  | EReturn =>
      f ← deref (last (stack w));
      let w := set_stack (take (pred (length (stack w))) (stack w)) w in
      match f with FTask => Ok w | FInitiate completed => proxy_suspend_return completed w end
  | EAway => Ok (set_task Away w)
  | EBack => Ok (set_task Runs (set_stack (stack w ++ [FTask]) w))
  | EUseCaptures =>
      f ← deref (last (stack w));
      (* the task is past the [co_await], which has destroyed the proxy *)
      match f with FInitiate true => Fault BadAccess | _ => Ok w end
  end.

(** ** What may happen *)

Definition suspended w : bool := match checker_of w with Some c => Checker.running c | None => false end.
Definition top_is_task w : bool := match last (stack w) with Some FTask => true | _ => false end.
Definition runs w : bool := match the_task w with Runs => true | _ => false end.
Definition asks (q : Checker.request) w : bool :=
  match checker_of w with Some c => top_is_task w && Checker.may q c | None => false end.
Definition has_portal w : bool := match the_portal w with Some _ => true | None => false end.
Definition empty_portal w : bool := match the_portal w with Some p => negb (portal_ready p) | None => false end.

(** The callback is called after it was handed out, as long as the portal lives and
    when its previous values have been taken; and neither it nor the task's
    cancellation comes from within the library.  [untilCBCalled()] is not used on a
    portal that holds values, and an initiate function does not use what it has captured
    after it has called its callback ([initiator_outlives_proxy]). *)
Definition enabled (e : event) w : bool :=
  match e with
  | EMakePortal | EUntilCalledInline _ => runs w && negb (has_portal w)
  | EDropPortal | EAwaitPortal => runs w && has_portal w
  | EUntilCalled => runs w && empty_portal w
  | EReady => asks Checker.QReady w
  | EEarlyCancel => asks Checker.QEarlyCancel w
  | ESetExecutor => asks Checker.QSetExecutor w
  | ESuspend _ => asks Checker.QSuspend w
  | EMustResume => asks Checker.QMustResume w
  | EResume => asks Checker.QResume w
  | EEnd =>
      match checker_of w with
      | Some c => top_is_task w && (Checker.in_state Checker.Done c || Checker.in_state Checker.Cancelled c)
      | None => false
      end
  | ECall _ =>
      empty_portal w && match the_portal w with Some p => callback_ p | None => false end &&
      implb (top_is_task w) (runs w)
  | ECancel =>
      match checker_of w with Some c => Checker.may Checker.QCancel c | None => false end && negb (top_is_task w)
  | EReturn =>
      match last (stack w) with
      | Some (FInitiate _) => true
      | Some FTask => suspended w || match the_task w with Away => true | _ => false end
      | None => false
      end
  | EAway => runs w
  | EBack => match the_task w, stack w with Away, [] => true | _, _ => false end
  | EUseCaptures => match last (stack w) with Some (FInitiate completed) => negb completed | _ => false end
  end.

(** A task that has begun to run. *)
Definition start : world := World None None Runs [FTask] [] [].
Inductive reach : world -> Prop :=
| reach_start : reach start
| reach_step e w w' : reach w -> enabled e w = true -> step e w = Ok w' -> reach w'.

(** * Invariant *)

Definition pending (v : option T) : list T := match v with Some x => [x] | None => [] end.
Definition busy (a : bool) : Checker.state := if a then Checker.Cancelling else Checker.Running.

(** No call of an initiate function whose proxy may still be needed. *)
Definition settled (l : list frame) : Prop := FInitiate false ∉ l.
Definition idle (o : option portal) (cl rc : list T) : Prop :=
  match o with None => True | Some p => parent_ p = None /\ cl = rc ++ pending (value_ p) end.

(** The awaiter's checker, and the portal's value, before the task is suspended
    on the portal, and once it is woken. *)
Definition portal_before (ex : bool) (st : Checker.state) (v : option T) (e : bool) : Prop :=
  (st = Checker.Initial \/ st = Checker.NotReady /\ v = None \/ st = Checker.ReadyImmediately /\ is_Some v) /\
  (ex = true -> e = true).
Definition woken (st : Checker.state) (v : option T) : Prop :=
  st = Checker.Ready /\ is_Some v \/ st = Checker.ReadyAfterCancel /\ v = None.
(** The same for the proxy, with its status, whether it is external, and whether it
    has a cancellation function. *)
Definition proxy_before (x : bool) (s : status) (ex : bool) (st : Checker.state) (e : bool) : Prop :=
  match x, s with
  | true, Scheduled | false, NotStarted => st = Checker.Initial \/ st = Checker.NotReady
  | true, CancelPending => st = Checker.InitialCxlPend \/ st = Checker.CancelPending
  | _, _ => False
  end /\ (ex = true -> e = true).
Definition proxy_woken (x hc : bool) (st : Checker.state) (v : option T) (n : nat) : Prop :=
  st = Checker.Ready /\ is_Some v /\ n = 0 \/
  st = Checker.ReadyAfterCancel /\ is_Some v /\ x = false /\ hc = false /\ n = 0 \/
  st = Checker.ReadyAfterCancel /\ v = None /\ (x = true \/ hc = true) /\ n = Nat.b2n hc.
Definition proxy_over (x hc : bool) (st : Checker.state) (m n : nat) : Prop :=
  st = Checker.Done /\ m = 1 /\ n = 0 \/
  st = Checker.Cancelled /\ (m = 0 /\ n = 0 /\ x = false \/ m = 1 /\ (x = true \/ hc = true) /\ n = Nat.b2n hc).

Inductive phase : world -> Prop :=
| ph_runs o l cl rc : settled l -> idle o cl rc -> phase (World o None Runs (l ++ [FTask]) cl rc)
| ph_away o l cl rc : settled l -> idle o cl rc -> phase (World o None Away l cl rc)
| ph_portal_before v e s cb ex st l cl rc :
    settled l -> cl = rc ++ pending v -> portal_before ex st v e ->
    phase (World (Some (Portal v e s None cb)) None (AwaitsPortal (Checker.Checker Noop ex st)) (l ++ [FTask]) cl rc)
| ph_portal_waits s cb h l rc :
    settled l ->
    phase (World (Some (Portal None true s (Some h) cb)) None (AwaitsPortal (Checker.Checker h true Checker.Running)) l rc rc)
| ph_portal_woken v s cb h st l cl rc :
    settled l -> cl = rc ++ pending v -> woken st v ->
    phase (World (Some (Portal v true s None cb)) None (AwaitsPortal (Checker.Checker h true st)) (l ++ [FTask]) cl rc)
| ph_portal_over v e s cb h ex st l cl rc :
    settled l -> cl = rc ++ pending v -> st = Checker.Done \/ st = Checker.Cancelled ->
    phase (World (Some (Portal v e s None cb)) None (AwaitsPortal (Checker.Checker h ex st)) (l ++ [FTask]) cl rc)
| ph_before e s cb x hc ex st l rc :
    settled l -> proxy_before x s ex st e ->
    phase (World (Some (Portal None e s None cb)) (Some (Proxy x hc None 0 0)) (AwaitsProxy (Checker.Checker Noop ex st)) (l ++ [FTask]) rc rc)
| ph_initiating (a : bool) x hc h l rc :
    settled l ->
    phase (World (Some (Portal None true (if a then CancelPending else Scheduled) (Some h) true))
      (Some (Proxy x hc (Some (length l)) 1 0)) (AwaitsProxy (Checker.Checker h true (busy a))) (l ++ [FInitiate false]) rc rc)
| ph_called s v x hc h st l rc :
    settled l -> st = Checker.Ready \/ st = Checker.ReadyAfterCancel ->
    phase (World (Some (Portal (Some v) true s None true))
      (Some (Proxy x hc (Some (length l)) 1 0)) (AwaitsProxy (Checker.Checker h true st)) ((l ++ [FInitiate false]) ++ [FTask]) (rc ++ [v]) rc)
| ph_waits (a : bool) x hc h l rc :
    settled l -> (a = true -> x = false /\ hc = false) ->
    phase (World (Some (Portal None true Initiated (Some h) true)) (Some (Proxy x hc None 1 0))
      (AwaitsProxy (Checker.Checker h true (busy a))) l rc rc)
| ph_woken v x hc n h st l cl rc :
    settled l -> cl = rc ++ pending v -> proxy_woken x hc st v n ->
    phase (World (Some (Portal v true Initiated None true)) (Some (Proxy x hc None 1 n))
      (AwaitsProxy (Checker.Checker h true st)) (l ++ [FTask]) cl rc)
| ph_over e s cb x hc i m n h ex st l rc :
    settled l -> proxy_over x hc st m n ->
    phase (World (Some (Portal None e s None cb)) (Some (Proxy x hc i m n))
      (AwaitsProxy (Checker.Checker h ex st)) (l ++ [FTask]) rc rc).

Lemma settled_task l : settled l -> settled (l ++ [FTask]).
Proof. unfold settled. rewrite elem_of_app, list_elem_of_singleton. naive_solver. Qed.
Lemma settled_done l : settled l -> settled (l ++ [FInitiate true]).
Proof. unfold settled. rewrite elem_of_app, list_elem_of_singleton. naive_solver. Qed.
Lemma settled_take n l : settled l -> settled (take n l).
Proof. unfold settled. intros H (i & Hi & _)%elem_of_take. apply H. by apply list_elem_of_lookup_2 in Hi. Qed.
Lemma take_snoc (l : list frame) f : take (pred (length (l ++ [f]))) (l ++ [f]) = l.
Proof. rewrite length_app. cbn. rewrite Nat.add_1_r. cbn. by rewrite take_app_length. Qed.
Lemma last_settled l f : settled l -> last l = Some f -> f <> FInitiate false.
Proof. intros Hs [l' ->]%last_Some ->. apply Hs. rewrite elem_of_app. right. by apply list_elem_of_singleton. Qed.

(** Runs a step, the list operations on the stack apart. *)
Local Ltac compute_step :=
  match goal with
  | |- exists w', ?m = Ok w' /\ phase w' =>
      let r := eval lazy -[app length last take pred lookup insert] in m in
      match r with Ok ?x => exists x; split; [reflexivity|] end
  end.
Local Ltac no_step He :=
  cbn -[app last take length] in He; rewrite ?last_snoc in He; cbn -[app last take length] in He;
  rewrite ?andb_false_r in He; try discriminate He.

Local Ltac start_step He :=
  unfold enabled, asks, empty_portal, has_portal, top_is_task, suspended in He; no_step He.

Lemma step_runs e o l cl rc :
  settled l -> idle o cl rc -> enabled e (World o None Runs (l ++ [FTask]) cl rc) = true ->
  exists w', step e (World o None Runs (l ++ [FTask]) cl rc) = Ok w' /\ phase w'.
Proof.
  intros Hl Hi He. destruct e as [| | | |f| | | |c| | | |v| | | | |]; start_step He;
    try (destruct o as [[v' e s h cb]|]; cbn in He, Hi; try discriminate He; try (destruct Hi as [-> ->])).
  - compute_step. by apply ph_runs; [|split].
  - compute_step. by apply ph_runs.
  - compute_step. apply ph_portal_before; [done|done|]. split; [auto|done].
  - destruct v'; [done|]. rewrite app_nil_r. compute_step. apply ph_before; [done|]. split; cbn; [auto|done].
  - compute_step. apply ph_before; [done|]. split; cbn; [auto|done].
  - destruct v', cb; try done. rewrite app_nil_r. compute_step. by apply ph_runs; [|split].
  - compute_step. apply ph_away; [by apply settled_task|by split].
  - compute_step. apply ph_away; [by apply settled_task|done].
Qed.

(** Only a call of an initiate function may use its captures. *)
Lemma no_captures l : settled l -> match last l with Some (FInitiate b) => negb b | _ => false end = true -> False.
Proof.
  intros Hs. destruct (last l) as [[|[]]|] eqn:E; [done..| |done]. by destruct (last_settled _ _ Hs E).
Qed.

Lemma step_away e o l cl rc :
  settled l -> idle o cl rc -> enabled e (World o None Away l cl rc) = true ->
  exists w', step e (World o None Away l cl rc) = Ok w' /\ phase w'.
Proof.
  intros Hl Hi He. destruct e as [| | | |f| | | |c| | | |v| | | | |]; start_step He.
  - destruct o as [[[] e s h []]|]; cbn in He, Hi; try discriminate He. destruct Hi as [-> ->]. rewrite app_nil_r.
    compute_step. by apply ph_away; [|split].
  - cbn [step stack deref mbind res_bind]. destruct (last l) as [f|] eqn:Hf; [|done]. cbn [deref mbind res_bind].
    destruct f as [|[]]; [| |by destruct (last_settled l _ Hl Hf)]; (eexists; split; [reflexivity|]);
      (apply ph_away; [by apply settled_take|done]).
  - destruct l; [|done]. compute_step. by apply (ph_runs o []).
  - by destruct (no_captures _ Hl He).
Qed.

(** In a [co_await] of the portal. *)
Local Ltac logs := cbn; rewrite ?app_nil_r; done.
Local Ltac in_portal :=
  first
    [ apply ph_portal_before; [done|logs|split; [solve [eauto 6]|auto; done]]
    | apply ph_portal_waits; [first [done|by apply settled_task]]
    | apply ph_portal_woken; [done|logs|first [left; split; [done|eauto]|right; split; done]]
    | apply ph_portal_over; [done|logs|solve [auto]]
    | apply ph_runs; [done|split; [done|logs]] ].
Lemma step_portal_before e v x s cb ex st l cl rc :
  settled l -> cl = rc ++ pending v -> portal_before ex st v x ->
  let w := World (Some (Portal v x s None cb)) None (AwaitsPortal (Checker.Checker Noop ex st)) (l ++ [FTask]) cl rc in
  enabled e w = true -> exists w', step e w = Ok w' /\ phase w'.
Proof.
  intros Hl Hc [Hst Hx] w He. subst w.
  destruct e as [| | | |f| | | |c| | | |u| | | | |]; start_step He;
    destruct Hst as [-> |[[-> ->]|[-> [u' ->]]]]; try discriminate He; cbn in Hc;
    try (destruct ex; [specialize (Hx eq_refl) as ->|]; try discriminate He);
    try destruct v; rewrite ?app_nil_r in Hc; subst cl; try (compute_step; in_portal).
Qed.

Lemma portal_cancel_ok h e : Checker.step (CCancel h) (Checker.Checker h e Checker.Running) = Ok (Checker.Checker h e Checker.Cancelling).
Proof. unfold Checker.step, Checker.aboutToCancel. cbn. by rewrite bool_decide_true. Qed.
(** The latest call on the stack, when none is of an initiate function that may
    still touch its proxy. *)
Lemma return_settled w :
  settled (stack w) -> stack w <> [] -> step EReturn w = Ok (set_stack (take (pred (length (stack w))) (stack w)) w).
Proof.
  intros Hs Hn. cbn [step]. destruct (last (stack w)) as [[|[]]|] eqn:Hl; [done|done| |].
  - by destruct (last_settled _ _ Hs Hl).
  - by apply last_None in Hl.
Qed.
Lemma can_return w : enabled EReturn w = true -> stack w <> [].
Proof. cbn. by intros H E1; rewrite E1 in H. Qed.

Lemma step_portal_waits e s cb h l rc :
  settled l ->
  let w := World (Some (Portal None true s (Some h) cb)) None (AwaitsPortal (Checker.Checker h true Checker.Running)) l rc rc in
  enabled e w = true -> exists w', step e w = Ok w' /\ phase w'.
Proof.
  intros Hl w He. destruct e as [| | | |f| | | |c| | | |u| | | | |]; try discriminate He;
    try (cbn in He; destruct (top_is_task w); discriminate He).
  - destruct cb; [|done]. compute_step. in_portal.
  - subst w. cbn [step checker_of the_task deref mbind res_bind Checker.realHandle_]. unfold on_awaiter.
    cbn [checker_of the_task deref mbind res_bind]. rewrite portal_cancel_ok. compute_step. in_portal.
  - rewrite return_settled by (done || by apply can_return). eexists; split; [reflexivity|].
    apply ph_portal_waits. by apply settled_take.
  - by destruct (no_captures _ Hl He).
Qed.

Lemma step_portal_woken e v s cb h st l cl rc :
  settled l -> cl = rc ++ pending v -> woken st v ->
  let w := World (Some (Portal v true s None cb)) None (AwaitsPortal (Checker.Checker h true st)) (l ++ [FTask]) cl rc in
  enabled e w = true -> exists w', step e w = Ok w' /\ phase w'.
Proof.
  intros Hl -> Hw w He. subst w.
  destruct e as [| | | |f| | | |c| | | |u| | | | |]; start_step He; destruct Hw as [[-> [x ->]]|[-> ->]]; try discriminate He;
    rewrite ?app_nil_r; compute_step; in_portal.
Qed.
Lemma step_portal_over e v x s cb h ex st l cl rc :
  settled l -> cl = rc ++ pending v -> st = Checker.Done \/ st = Checker.Cancelled ->
  let w := World (Some (Portal v x s None cb)) None (AwaitsPortal (Checker.Checker h ex st)) (l ++ [FTask]) cl rc in
  enabled e w = true -> exists w', step e w = Ok w' /\ phase w'.
Proof.
  intros Hl -> Hw w He. subst w.
  destruct e as [| | | |f| | | |c| | | |u| | | | |]; start_step He; destruct Hw as [-> | ->]; cbn in He;
    rewrite ?andb_false_r in He; try discriminate He; compute_step; in_portal.
Qed.

(** In a [co_await] of the proxy. *)
Local Ltac in_proxy :=
  first
    [ apply ph_before; [done|split; [solve [cbn; auto]|auto; done]]
    | apply (ph_initiating false); by apply settled_task | apply (ph_initiating true); by apply settled_task
    | apply ph_called; solve [auto]
    | apply (ph_waits false); [first [done|by apply settled_task]|done]
    | apply (ph_waits true); [first [done|by apply settled_task]|auto; done]
    | apply ph_woken; [first [done|by apply settled_task]|logs|unfold proxy_woken; cbn; solve [eauto 10]]
    | apply ph_over; [first [done|by apply settled_done]|unfold proxy_over; cbn; solve [auto 10]]
    | apply ph_runs; [done|first [done|split; [done|logs]]] ].

Lemma step_proxy_before e x s cb ext hc ex st l rc :
  settled l -> proxy_before ext s ex st x ->
  let w := World (Some (Portal None x s None cb)) (Some (Proxy ext hc None 0 0)) (AwaitsProxy (Checker.Checker Noop ex st))
    (l ++ [FTask]) rc rc in
  enabled e w = true -> exists w', step e w = Ok w' /\ phase w'.
Proof.
  intros Hl [Hst Hx] w He. subst w.
  destruct e as [| | | |f| | | |c| | | |u| | | | |]; start_step He;
    destruct ext, s; cbn in Hst; try done; destruct Hst as [-> | ->]; try discriminate He;
    try (destruct ex; [specialize (Hx eq_refl) as ->|]; try discriminate He);
    compute_step; in_proxy.
Qed.

Lemma step_initiating e (a : bool) ext hc h l rc :
  settled l ->
  let w := World (Some (Portal None true (if a then CancelPending else Scheduled) (Some h) true))
    (Some (Proxy ext hc (Some (length l)) 1 0)) (AwaitsProxy (Checker.Checker h true (busy a))) (l ++ [FInitiate false]) rc rc in
  enabled e w = true -> exists w', step e w = Ok w' /\ phase w'.
Proof.
  intros Hl w He. subst w.
  destruct e as [| | | |f| | | |c| | | |u| | | | |]; start_step He; destruct a; try discriminate He.
  - compute_step. by apply ph_called; auto.
  - compute_step. by apply ph_called; auto.
  - cbn [step checker_of the_task deref mbind res_bind Checker.realHandle_ busy]. unfold on_awaiter.
    cbn [checker_of the_task deref mbind res_bind]. rewrite portal_cancel_ok. compute_step. by apply (ph_initiating true).
  - cbn [step stack]. rewrite last_snoc, take_snoc. destruct ext, hc; compute_step; in_proxy.
  - cbn [step stack]. rewrite last_snoc, take_snoc. compute_step. in_proxy.
  - cbn [step stack]. rewrite last_snoc. cbn. eexists. split; [reflexivity|]. by apply (ph_initiating true).
  - cbn [step stack]. rewrite last_snoc. cbn. eexists. split; [reflexivity|]. by apply (ph_initiating false).
Qed.

Lemma stack_lookup l : ((l ++ [FInitiate false]) ++ [FTask]) !! length l = Some (FInitiate false).
Proof. rewrite <- app_assoc. by apply list_lookup_middle. Qed.
Lemma stack_insert l : <[length l := FInitiate true]> ((l ++ [FInitiate false]) ++ [FTask]) = (l ++ [FInitiate true]) ++ [FTask].
Proof. rewrite <- !app_assoc. rewrite insert_app_r_alt by done. by rewrite Nat.sub_diag. Qed.
Lemma step_called e s v ext hc h st l rc :
  settled l -> st = Checker.Ready \/ st = Checker.ReadyAfterCancel ->
  let w := World (Some (Portal (Some v) true s None true)) (Some (Proxy ext hc (Some (length l)) 1 0))
    (AwaitsProxy (Checker.Checker h true st)) ((l ++ [FInitiate false]) ++ [FTask]) (rc ++ [v]) rc in
  enabled e w = true -> exists w', step e w = Ok w' /\ phase w'.
Proof.
  intros Hl Hst w He. subst w.
  destruct e as [| | | |f| | | |c| | | |u| | | | |]; start_step He; destruct Hst as [-> | ->]; try discriminate He.
  - compute_step. by apply ph_called; auto.
  - cbn [step]. unfold on_awaiter. cbn [checker_of the_task deref mbind res_bind].
    unfold Checker.step, Checker.aboutToResume, Checker.in_state. cbn [Checker.state_].
    rewrite (bool_decide_true (Checker.Ready = Checker.Ready)), orb_true_r by done.
    cbn [corral_assert mbind res_bind set_checker the_task awaits_proxy set_task]. unfold proxy_resume, proxy_of, set_task.
    cbn [the_proxy deref mbind res_bind completed_ stack]. rewrite stack_lookup, stack_insert.
    compute_step. in_proxy.
Qed.

Lemma step_proxy_waits e (a : bool) ext hc h l rc :
  settled l -> (a = true -> ext = false /\ hc = false) ->
  let w := World (Some (Portal None true Initiated (Some h) true)) (Some (Proxy ext hc None 1 0))
    (AwaitsProxy (Checker.Checker h true (busy a))) l rc rc in
  enabled e w = true -> exists w', step e w = Ok w' /\ phase w'.
Proof.
  intros Hl Ha w He. destruct e as [| | | |f| | | |c| | | |u| | | | |]; try discriminate He;
    try (cbn in He; destruct (top_is_task w), a; discriminate He).
  - destruct a; [destruct (Ha eq_refl) as [-> ->]|]; compute_step; in_proxy.
  - destruct a; [discriminate He|]. subst w. cbn [step checker_of the_task deref mbind res_bind Checker.realHandle_ busy]. unfold on_awaiter.
    cbn [checker_of the_task deref mbind res_bind]. rewrite portal_cancel_ok. destruct ext, hc; compute_step; in_proxy.
  - rewrite return_settled by (done || by apply can_return). eexists; split; [reflexivity|].
    apply ph_waits; [by apply settled_take|done].
  - by destruct (no_captures _ Hl He).
Qed.
Lemma step_proxy_woken e v ext hc n h st l cl rc :
  settled l -> cl = rc ++ pending v -> proxy_woken ext hc st v n ->
  let w := World (Some (Portal v true Initiated None true)) (Some (Proxy ext hc None 1 n))
    (AwaitsProxy (Checker.Checker h true st)) (l ++ [FTask]) cl rc in
  enabled e w = true -> exists w', step e w = Ok w' /\ phase w'.
Proof.
  intros Hl -> Hw w He. subst w. destruct e as [| | | |f| | | |c| | | |u| | | | |]; start_step He;
    destruct Hw as [(-> & [x ->] & ->)|[(-> & [x ->] & -> & -> & ->)|(-> & -> & Hx & ->)]]; try discriminate He;
    rewrite ?app_nil_r; compute_step; in_proxy.
Qed.
Lemma step_proxy_over e x s cb ext hc i m n h ex st l rc :
  settled l -> proxy_over ext hc st m n ->
  let w := World (Some (Portal None x s None cb)) (Some (Proxy ext hc i m n)) (AwaitsProxy (Checker.Checker h ex st))
    (l ++ [FTask]) rc rc in
  enabled e w = true -> exists w', step e w = Ok w' /\ phase w'.
Proof.
  intros Hl Hw w He. subst w. assert (Hst : st = Checker.Done \/ st = Checker.Cancelled) by (destruct Hw as [[-> _]|[-> _]]; auto).
  destruct e as [| | | |f| | | |c| | | |u| | | | |]; start_step He; destruct Hst as [-> | ->]; cbn in He;
    rewrite ?andb_false_r in He; try discriminate He; destruct ext; compute_step; in_proxy.
Qed.

Lemma portal_phase_step e w : phase w -> enabled e w = true -> exists w', step e w = Ok w' /\ phase w'.
Proof.
  destruct 1; [eapply step_runs|eapply step_away|eapply step_portal_before|eapply step_portal_waits|eapply step_portal_woken
    |eapply step_portal_over|eapply step_proxy_before|eapply step_initiating|eapply step_called|eapply step_proxy_waits
    |eapply step_proxy_woken|eapply step_proxy_over]; eauto.
Qed.
Lemma portal_reach_phase w : reach w -> phase w.
Proof.
  induction 1 as [|e w w' Hr IH He Hs]; [apply (ph_runs None []); [apply not_elem_of_nil|done]|].
  destruct (portal_phase_step e w IH He) as (w2 & E2 & Hp). congruence.
Qed.

Lemma phase_suspended w :
  phase w -> suspended w = true ->
  exists s cb h, the_portal w = Some (Portal None true s (Some h) cb) /\
    ((exists l rc, settled l /\ w = World (Some (Portal None true s (Some h) cb)) None (AwaitsPortal (Checker.Checker h true Checker.Running)) l rc rc) \/
     (exists (a : bool) x hc l rc, settled l /\ cb = true /\ s = (if a then CancelPending else Scheduled) /\
       w = World (Some (Portal None true s (Some h) cb)) (Some (Proxy x hc (Some (length l)) 1 0))
             (AwaitsProxy (Checker.Checker h true (busy a))) (l ++ [FInitiate false]) rc rc) \/
     (exists (a : bool) x hc l rc, settled l /\ cb = true /\ s = Initiated /\
       w = World (Some (Portal None true s (Some h) cb)) (Some (Proxy x hc None 1 0)) (AwaitsProxy (Checker.Checker h true (busy a))) l rc rc)).
Proof.
  intros Hp Hs. destruct Hp; cbn in Hs; try discriminate Hs; eauto 15; exfalso; revert Hs;
    unfold portal_before, woken, proxy_before, proxy_woken, proxy_over in *;
    try match goal with H : match ?x with true => _ | false => _ end /\ _ |- _ => destruct x, s end;
    repeat match goal with
    | H : _ \/ _ |- _ => destruct H
    | H : _ /\ _ |- _ => destruct H
    end; subst; done.
Qed.

(** * Properties *)

Definition in_state (st : Checker.state) w : bool :=
  match checker_of w with Some c => Checker.in_state st c | None => false end.

Lemma cancel_while_running c : Checker.may Checker.QCancel c = true -> Checker.running c = true.
Proof. destruct c as [h e []]; done. Qed.

(** C28.  One task uses one portal at a time, by the awaiter protocol.  No step fails,
    whatever calls whatever from within, if the callback is called only while the portal is
    there and empty, [untilCBCalled()] is given an empty portal, and an initiate function that has called its
    callback uses its captures no more: the proxy they are in may be gone
    ([initiator_outlives_proxy]).  What the task has got from a portal, followed by what
    the portal holds, are the values that the callback was called with, in order.  While the
    task is suspended the portal is empty and knows the task.  A callback then runs it
    before it returns.  A cancellation that is carried out at once runs it too, so that
    no callback can come in between; one that has to wait, because the initiate function
    has not returned or there is no function to cancel what it began, leaves it
    suspended, and a callback may still come first. *)
Theorem portal_delivers w :
  reach w ->
  (forall e, enabled e w = true -> exists w', step e w = Ok w') /\
  (forall p, the_portal w = Some p -> called w = received w ++ pending (value_ p)) /\
  (suspended w = true -> exists p h, the_portal w = Some p /\ value_ p = None /\ parent_ p = Some h) /\
  (forall e w', enabled e w = true -> step e w = Ok w' -> suspended w = true ->
     match e with ECall _ => true | ECancel => negb (suspended w') | _ => false end = true ->
     suspended w' = false /\ top_is_task w' = true) /\
  (forall w', enabled ECancel w = true -> step ECancel w = Ok w' -> suspended w' = true ->
     exists q, the_proxy w = Some q /\ (completed_ q <> None \/ external q = false /\ has_cancelFn q = false)).
Proof.
  intros Hr%portal_reach_phase. split_and!.
  - intros e He. destruct (portal_phase_step e w Hr He) as (w' & E1 & _). by exists w'.
  - intros p Hp. destruct Hr; cbn in *; simplify_eq; cbn; rewrite ?app_nil_r; try done;
      match goal with H : idle _ _ _ |- _ => by destruct H end.
  - intros Hs. destruct (phase_suspended w Hr Hs) as (s & cb & h & -> & _). eauto.
  - intros e w' He E1 Hs Hk.
    destruct (phase_suspended w Hr Hs) as (s & cb & h & _ & [(l & rc & Hl & ->)|[(a & x & hc & l & rc & Hl & -> & -> & ->)|(a & x & hc & l & rc & Hl & -> & -> & ->)]]);
      destruct e; try discriminate Hk; try (destruct a; try discriminate He); try destruct x, hc; (revert E1 Hk; cbn [step];
      try (cbn [checker_of the_task deref mbind res_bind Checker.realHandle_ busy]; unfold on_awaiter;
           cbn [checker_of the_task deref mbind res_bind busy]; rewrite portal_cancel_ok);
      intros E1 Hk; lazy -[app] in E1; injection E1 as <-;
      first [discriminate Hk|split; [done|unfold top_is_task; cbn [stack]; by rewrite last_snoc]]).
  - intros w' He E1 Hk. assert (Hs : suspended w = true).
    { unfold enabled, suspended in *. destruct (checker_of w) as [c|]; [|done].
      apply andb_true_iff in He as [He _]. by apply cancel_while_running. }
    destruct (phase_suspended w Hr Hs) as (s & cb & h & _ & [(l & rc & Hl & ->)|[(a & x & hc & l & rc & Hl & -> & -> & ->)|(a & x & hc & l & rc & Hl & -> & -> & ->)]]).
    + exfalso. revert E1. cbn [step checker_of the_task deref mbind res_bind Checker.realHandle_]. unfold on_awaiter.
      cbn [checker_of the_task deref mbind res_bind]. rewrite portal_cancel_ok. lazy -[app]. intros [= <-]. done.
    + eexists. split; [reflexivity|]. by left.
    + eexists. split; [reflexivity|]. right. destruct a; [done|]. revert E1.
      cbn [step checker_of the_task deref mbind res_bind Checker.realHandle_ busy]. unfold on_awaiter.
      cbn [checker_of the_task deref mbind res_bind busy]. rewrite portal_cancel_ok.
      destruct x, hc; lazy -[app]; intros [= <-]; done.
Qed.

Lemma in_state_iff h ex (s st : Checker.state) : Checker.in_state st (Checker.Checker h ex s) = true <-> s = st.
Proof. apply bool_decide_eq_true. Qed.

(** C29.  One [untilCBCalled()] calls its initiate function at most
    once.  If the task gets a result, that function was called and no
    cancellation function.  If the task is cancelled, no value is lost, and either
    nothing was called, or the initiate function has returned and the cancellation function, if there is
    one, was called once.  A cancellation function is never called when a
    value has come. *)
Theorem until_called_once w q :
  reach w -> the_proxy w = Some q ->
  initiated q <= 1 /\
  (in_state Checker.Done w = true -> initiated q = 1 /\ cancelled q = 0) /\
  (in_state Checker.Cancelled w = true ->
     empty_portal w = true /\ FInitiate false ∉ stack w /\
     (initiated q = 0 /\ cancelled q = 0 /\ external q = false \/
      initiated q = 1 /\ (external q = true \/ has_cancelFn q = true) /\ cancelled q = Nat.b2n (has_cancelFn q))) /\
  (cancelled q <> 0 -> empty_portal w = true).
Proof.
  intros Hr%portal_reach_phase Hq. destruct Hr; cbn in Hq; simplify_eq; cbn; rewrite !in_state_iff.
  - destruct H0 as [Hb _]. assert (st <> Checker.Done /\ st <> Checker.Cancelled) as [? ?]
      by (destruct x, s; try done; destruct Hb as [-> | ->]; done). split_and!; [lia|done|done|done].
  - split_and!; [lia|by destruct a|by destruct a|done].
  - split_and!; [lia|by destruct H0 as [-> | ->]|by destruct H0 as [-> | ->]|done].
  - split_and!; [lia|by destruct a|by destruct a|done].
  - destruct H1 as [(-> & _ & ->)|[(-> & _ & _ & _ & ->)|(-> & -> & _ & ->)]]; split_and!; try done; lia.
  - destruct H0 as [(-> & -> & ->)|(-> & Hc)]; [split_and!; done|].
    split_and!; [destruct Hc as [(-> & _)|(-> & _)]; lia|done| |done].
    intros _. split_and!; [done|by apply settled_task|]. naive_solver.
Qed.
End CBPortal.
Arguments portal : clear implicits.
Arguments world : clear implicits.
Arguments event : clear implicits.

(** * Runs *)

Section Play.
Context {T : Type}.
Fixpoint play (l : list (event T)) (w : world T) : option (world T) :=
  match l with
  | [] => Some w
  | e :: l => if enabled e w then match step e w with Ok w => play l w | Fault _ => None end else None
  end.
Lemma play_portal_reach l w w' : reach w -> play l w = Some w' -> reach w'.
Proof.
  revert w. induction l as [|e l IH]; intros w Hr; cbn [play]; [by intros [= <-]|].
  destruct (enabled e w) eqn:He; [|done]. destruct (step e w) as [w1|] eqn:Es; [|done].
  apply IH. by apply (reach_step e w).
Qed.
End Play.

(** As in the example of [CBPortal.h]: the initiate function calls back twice,
    the task takes one value from [untilCBCalled()] and one from the portal. *)
Definition begin_await : list (event nat) := [EReady; ESetExecutor; ESuspend 5].
Definition until_called : list (event nat) := [EMakePortal; EUntilCalled] ++ begin_await.
Definition take_value : list (event nat) := [EResume; EEnd].
Definition called_twice : list (event nat) :=
  until_called ++ [ECall 2] ++ take_value ++ [EAwaitPortal] ++ begin_await ++ [EReturn; ECall 4] ++ take_value ++ [EAway; EReturn; EReturn].
Definition world_of (l : list (event nat)) : world nat := default start (play l start).
Lemma world_reach l : is_Some (play l start) -> reach (world_of l).
Proof. intros [w Hw]. unfold world_of. rewrite Hw. by apply (play_portal_reach l start); [apply reach_start|]. Qed.
Example received_both : option_map (fun w => (received w, stack w)) (play called_twice start) = Some ([2; 4], [FTask]).
Proof. vm_compute. reflexivity. Qed.

Definition initiating : world nat := world_of until_called.
Lemma portal_delivers_witness : exists p h, the_portal initiating = Some p /\ value_ p = None /\ parent_ p = Some h.
Proof.
  destruct (portal_delivers initiating) as (_ & _ & H & _); [apply world_reach; vm_compute; eauto|].
  apply H. vm_compute. reflexivity.
Defined.

(** Cancelled while the initiate function runs, and so as soon as it returns. *)
Definition cancelled_while_initiating : world nat := world_of (until_called ++ [ECancel; EReturn; EMustResume]).
Lemma until_called_once_witness : empty_portal cancelled_while_initiating = true.
Proof.
  destruct (until_called_once cancelled_while_initiating (Proxy true false None 1 0)) as (_ & _ & H & _);
    [apply world_reach; vm_compute; eauto|vm_compute; reflexivity|].
  apply H. vm_compute. reflexivity.
Defined.

(** ** Outside what the portal relies on *)

(** The initiate function goes on after its callback has run the task past the
    [co_await]: it runs as a member of a proxy that is gone, and may not use what it
    has captured. *)
Definition outlived : world nat := world_of (until_called ++ [ECall 2] ++ take_value ++ [EAway; EReturn]).
Example initiator_outlives_proxy :
  last (stack outlived) = Some (FInitiate true) /\ the_proxy outlived = None /\
  step EUseCaptures outlived = Fault BadAccess.
Proof. vm_compute. auto. Qed.
(** A cancellation that waits, with no function to cancel what was begun: the next callback comes
    first. *)
Example cancellation_waits :
  option_map (fun w => (suspended w, received w))
    (play ([EUntilCalledInline false] ++ begin_await ++ [EReturn; EReturn; ECancel]) start) = Some (true, []) /\
  option_map received
    (play ([EUntilCalledInline false] ++ begin_await ++ [EReturn; EReturn; ECancel; ECall 3; EMustResume; EResume]) start) = Some [3].
Proof. vm_compute. auto. Qed.

(** [untilCBCalled()] with a portal that already holds values fails an assertion when it is awaited. *)
Example portal_not_empty :
  match play (until_called ++ [ECall 2] ++ take_value ++ [ECall 3]) start with
  | Some w => w ← step EUntilCalled w; w ← step EReady w; step ESetExecutor w
  | None => Fault BadAccess
  end = Fault AssertFailed.
Proof. vm_compute. reflexivity. Qed.
