(* ===== verification/Adapters.v ===== *)
(** [detail/utility.h], [utility.h]: awaiters that wrap one awaiter.

    An [adapter] holds the awaiter it wraps, seen through the state machine of
    Awaiter.v ([inner]), and the checker of whoever awaits the adapter ([outer]).
    The methods of a class are a record [methods]: [AwaiterAdapterBase] passes
    every call on, [NoncancellableAdapter] and [DisposableAdapter] override some
    of its fields as the classes override its members, [RunOnCancel]
    ([untilCancelledAnd()]) starts what it wraps when it is cancelled.  The parent
    ([step], [enabled], [reach]) is the same for all of them. *)
From S2P Require Export Awaiter.
Import Checker(checker, call(..)).

(** What [RunOnCancel] adds is [cancelPending_]. *)
Record adapter := Adapter { inner : checker; outer : checker; cancelPending_ : bool }.
Implicit Types (s : adapter) (b : behaviour).

Definition new_adapter : adapter := Adapter Checker.initial Checker.initial false.
Definition on_inner (k : call) s : res adapter :=
  c ← Checker.step k (inner s); Ok (Adapter c (outer s) (cancelPending_ s)).
Definition on_outer (k : call) s : res adapter :=
  c ← Checker.step k (outer s); Ok (Adapter (inner s) c (cancelPending_ s)).
Definition set_pending s : adapter := Adapter (inner s) (outer s) true.

(** The wrapped awaiter is given the parent's handle: to resume it is to resume
    the parent. *)
Definition resume_parent s : res adapter := on_outer CResumed s.
Definition inner_resumes s : res adapter := s ← on_inner CResumed s; resume_parent s.

(** * The classes *)

(** [behaviour] is what the wrapped awaiter answers in this call;
    [await_suspend] answers whether it has thrown. *)
Record methods := Methods {
  await_set_executor : adapter -> res adapter;
  await_ready : behaviour -> adapter -> res (bool * adapter);
  await_early_cancel : behaviour -> adapter -> res (bool * adapter);
  await_suspend : handle -> behaviour -> adapter -> res (bool * adapter);
  await_cancel : handle -> behaviour -> adapter -> res (bool * adapter);
  await_must_resume : behaviour -> adapter -> res (bool * adapter);
  await_resume : adapter -> res adapter }.

Definition AwaiterAdapterBase : methods := {|
  await_set_executor := on_inner CSetExecutor;
  await_ready b s := s ← on_inner (CReady (b_ready b)) s; Ok (b_ready b, s);
  await_early_cancel b s := s ← on_inner (CEarlyCancel (b_early b)) s; Ok (b_early b, s);
  await_suspend h b s :=
    s ← on_inner (CSuspend h) s;
    match b_suspend b with
    | Later => Ok (false, s)
    | AtOnce => s ← inner_resumes s; Ok (false, s)
    | Throws => s ← on_inner CThrew s; Ok (true, s)
    end;
  await_cancel h b s :=
    s ← on_inner (CCancel h) s;
    match b_cancel b with
    | Confirmed => s ← on_inner (CCancelled true) s; Ok (true, s)
    | Refused => s ← on_inner (CCancelled false) s; Ok (false, s)
    | RefusedResumed => s ← inner_resumes s; s ← on_inner (CCancelled false) s; Ok (false, s)
    end;
  await_must_resume b s := s ← on_inner (CMustResume (b_must b)) s; Ok (b_must b, s);
  await_resume := on_inner CResume |}.

Definition NoncancellableAdapter : methods := {|
  await_set_executor := await_set_executor AwaiterAdapterBase;
  await_ready := await_ready AwaiterAdapterBase;
  await_early_cancel _ s := Ok (false, s);
  await_suspend := await_suspend AwaiterAdapterBase;
  await_cancel _ _ s := Ok (false, s);
  await_must_resume _ s := Ok (true, s);
  await_resume := await_resume AwaiterAdapterBase |}.

Definition DisposableAdapter : methods := {|
  await_set_executor := await_set_executor AwaiterAdapterBase;
  await_ready := await_ready AwaiterAdapterBase;
  await_early_cancel := await_early_cancel AwaiterAdapterBase;
  await_suspend := await_suspend AwaiterAdapterBase;
  await_cancel := await_cancel AwaiterAdapterBase;
  await_must_resume _ s := Ok (false, s);
  await_resume := await_resume AwaiterAdapterBase |}.

(** [RunOnCancel::await_cancel(h)]; it is [noexcept]. *)
Definition run_cleanup (h : handle) b s : res (bool * adapter) :=
  s ← on_inner (CReady (b_ready b)) s;
  if b_ready b then s ← resume_parent s; Ok (false, s)
  else
    s ← on_inner (CSuspend h) s;
    match b_suspend b with
    | Later => Ok (false, s)
    | AtOnce => s ← inner_resumes s; Ok (false, s)
    | Throws => Fault Terminated
    end.
Definition RunOnCancel : methods := {|
  await_set_executor := on_inner CSetExecutor;
  await_ready _ s := Ok (false, s);
  await_early_cancel _ s := Ok (false, set_pending s);
  await_suspend h b s :=
    if cancelPending_ s then '(_, s) ← run_cleanup h b s; Ok (false, s) else Ok (false, s);
  await_cancel := run_cleanup;
  await_must_resume b s :=
    s ← on_inner CResume s;
    if b_error b then Fault Terminated else Ok (false, s);
  await_resume _ := Fault Unreachable |}.

(** The implicit destructor: that of the wrapped awaiter. *)
Definition destroy s : res adapter := c ← Checker.reset (inner s); Ok (Adapter c (outer s) (cancelPending_ s)).

(** * Adapters in use *)

Inductive event :=
| EReady | EEarlyCancel | ESetExecutor | ESuspend (h : handle) | ECancel | EInner | EMustResume | EResume.

Section Use.
(** [ok] says what the wrapped awaiter may answer. *)
Context (M : methods) (ok : behaviour -> bool).

Definition step (e : event) b s : res adapter :=
  match e with
  | EReady => '(v, s) ← await_ready M b s; on_outer (CReady v) s
  | EEarlyCancel => '(v, s) ← await_early_cancel M b s; on_outer (CEarlyCancel v) s
  | ESetExecutor => s ← on_outer CSetExecutor s; await_set_executor M s
  | ESuspend h =>
      s ← on_outer (CSuspend h) s;
      '(threw, s) ← await_suspend M h b s;
      if threw : bool then on_outer CThrew s else Ok s
  | ECancel =>
      let h := Checker.realHandle_ (outer s) in
      s ← on_outer (CCancel h) s;
      '(v, s) ← await_cancel M h b s; on_outer (CCancelled v) s
  | EInner => inner_resumes s
  | EMustResume => '(v, s) ← await_must_resume M b s; on_outer (CMustResume v) s
  | EResume => s ← on_outer CResume s; await_resume M s
  end.
Definition enabled (e : event) b s : bool :=
  ok b && match e with
  | EReady => Checker.may Checker.QReady (outer s)
  | EEarlyCancel => Checker.may Checker.QEarlyCancel (outer s)
  | ESetExecutor => Checker.may Checker.QSetExecutor (outer s)
  | ESuspend _ => Checker.may Checker.QSuspend (outer s)
  | ECancel => Checker.may Checker.QCancel (outer s)
  | EInner => Checker.running (inner s)
  | EMustResume => Checker.may Checker.QMustResume (outer s)
  | EResume => Checker.may Checker.QResume (outer s)
  end.
Inductive reach : adapter -> Prop :=
| reach_new : reach new_adapter
| reach_step e b s s' : reach s -> enabled e b s = true -> step e b s = Ok s' -> reach s'.

(** A predicate that every enabled step leads to again holds of all that is reached. *)
Lemma reach_invariant (P : adapter -> Prop) s :
  P new_adapter -> (forall e b s, P s -> enabled e b s = true -> exists s', step e b s = Ok s' /\ P s') ->
  reach s -> P s.
Proof.
  intros H0 HS. induction 1 as [|e b s s' Hr IH He Hs]; [done|].
  destruct (HS e b s IH He) as (s2 & E & Hp). congruence.
Qed.

Fixpoint play (l : list (event * behaviour)) s : option adapter :=
  match l with
  | [] => Some s
  | (e, b) :: l => if enabled e b s then match step e b s with Ok s => play l s | Fault _ => None end else None
  end.
Lemma play_adapter_reach l s s' : reach s -> play l s = Some s' -> reach s'.
Proof.
  revert s. induction l as [|[e b] l IH]; intros s Hr; cbn [play]; [by intros [= <-]|].
  destruct (enabled e b s) eqn:He; [|done]. destruct (step e b s) as [s1|] eqn:Es; [|done].
  apply IH. by apply (reach_step e b s).
Qed.
End Use.

Definition any (_ : behaviour) : bool := true.
(** The user's promise about [untilCancelledAnd(aw)]: no exceptions. *)
Definition no_exceptions b : bool := negb (b_error b) && negb (bool_decide (b_suspend b = Throws)).

(** * The proxies *)

Lemma cancel_running h x :
  Checker.aboutToCancel h (Checker.Checker h x Checker.Running) = Ok (Checker.Checker h x Checker.Cancelling).
Proof. unfold Checker.aboutToCancel. cbn. by rewrite bool_decide_true. Qed.

(** Runs a step on a state whose checkers' states are known. *)
Local Ltac run_step :=
  cbn; rewrite ?cancel_running; cbn; rewrite ?cancel_running; cbn; eexists; (split; [reflexivity|]).
(** By event, by what the checkers know, and by what the awaiter answers. *)
Local Ltac cases e x b :=
  destruct b as [rd sk ea su ca mu er]; destruct e; try done; try destruct x; try done; try destruct rd; try destruct su;
  try done.

(** [AwaiterAdapterBase]: both sides go through the same states. *)
Lemma base_is_transparent s : reach AwaiterAdapterBase any s -> inner s = outer s.
Proof.
  apply (reach_invariant _ _ (fun s => inner s = outer s)); [done|]. clear s. intros e b [c o p] E. cbn in E. subst o.
  destruct c as [h x st]. destruct st; cases e x b; try destruct ea; try destruct ca; try destruct mu; intros _; run_step; done.
Qed.

(** The wrapped awaiter is where it would be without the cancellation. *)
Definition masked (i o : Checker.state) : bool :=
  match i, o with
  | Checker.Initial, (Checker.Initial | Checker.InitialCxlPend)
  | Checker.NotReady, (Checker.NotReady | Checker.CancelPending)
  | Checker.ReadyImmediately, (Checker.ReadyImmediately | Checker.ReadyAfterCancel | Checker.Ready)
  | Checker.Running, (Checker.Running | Checker.Cancelling)
  | Checker.Ready, (Checker.Ready | Checker.ReadyAfterCancel)
  | Checker.Done, Checker.Done => true
  | _, _ => false
  end.
Record uncancelled s : Prop := {
  un_masked : masked (Checker.state_ (inner s)) (Checker.state_ (outer s)) = true;
  un_handle : Checker.realHandle_ (inner s) = Checker.realHandle_ (outer s);
  un_executor : Checker.hasExecutor_ (inner s) = Checker.hasExecutor_ (outer s) }.

Lemma uncancelled_step e b s :
  uncancelled s -> enabled any e b s = true -> exists s', step NoncancellableAdapter e b s = Ok s' /\ uncancelled s'.
Proof.
  destruct s as [[h x st] [h' x' st'] p]. intros [Hm Hh Hx]. cbn in Hm, Hh, Hx. subst h' x'.
  destruct st, st'; try discriminate Hm; clear Hm; cases e x b; intros _; run_step; done.
Qed.

(** [noncancellable()] keeps to the protocol towards the awaiter it wraps and towards
    its parent; the wrapped awaiter is never told of a cancellation, and whatever
    the parent asks for, an awaiter that was suspended ends with its result taken (or
    with [await_suspend()] having thrown): nothing that was started is dropped. *)
Theorem noncancellable_completes s :
  reach NoncancellableAdapter any s ->
  (forall e b, enabled any e b s = true -> exists s', step NoncancellableAdapter e b s = Ok s') /\
  Checker.state_ (inner s) ∉ [Checker.InitialCxlPend; Checker.CancelPending; Checker.Cancelling;
    Checker.ReadyAfterCancel; Checker.Cancelled] /\
  (forall c, Checker.reset (outer s) = Ok c ->
     Checker.state_ (inner s) = Checker.state_ (outer s) /\ exists s', destroy s = Ok s').
Proof.
  intros Hu%(reach_invariant _ _ uncancelled); [|done|intros; by apply uncancelled_step]. split_and!.
  - intros e b He. destruct (uncancelled_step e b s Hu He) as (s' & E & _). by exists s'.
  - destruct s as [[h x st] o p], Hu as [Hm _ _]. cbn in *. destruct st; try discriminate; set_solver.
  - destruct s as [[h x st] [h' x' st'] p], Hu as [Hm _ _]. cbn in *.
    destruct st, st'; try discriminate Hm; intros c; try discriminate; intros _; (split; [done|by eexists]).
Qed.

(** * [untilCancelledAnd()] *)

(** The wrapped awaiter before it is started, while it runs, and after. *)
Inductive cleanup : adapter -> Prop :=
| cl_new x st : st = Checker.Initial \/ st = Checker.NotReady ->
    cleanup (Adapter (Checker.Checker Noop x Checker.Initial) (Checker.Checker Noop x st) false)
| cl_asked x st : st = Checker.InitialCxlPend \/ st = Checker.CancelPending ->
    cleanup (Adapter (Checker.Checker Noop x Checker.Initial) (Checker.Checker Noop x st) true)
| cl_idle h : cleanup (Adapter (Checker.Checker Noop true Checker.Initial) (Checker.Checker h true Checker.Running) false)
| cl_runs h p : cleanup (Adapter (Checker.Checker h true Checker.Running) (Checker.Checker h true Checker.Cancelling) p)
| cl_ready h h' st p : st = Checker.ReadyImmediately \/ st = Checker.Ready ->
    cleanup (Adapter (Checker.Checker h' true st) (Checker.Checker h true Checker.ReadyAfterCancel) p)
| cl_done h h' p : cleanup (Adapter (Checker.Checker h' true Checker.Done) (Checker.Checker h true Checker.Cancelled) p).

Lemma cleanup_step e b s :
  cleanup s -> enabled no_exceptions e b s = true -> exists s', step RunOnCancel e b s = Ok s' /\ cleanup s'.
Proof.
  intros Hc. destruct Hc as [x st Hst|x st Hst|h|h p|h h' st p Hst|h h' p];
    try destruct Hst as [-> | ->]; cases e x b; try destruct er; try done; intros _; run_step;
    match goal with |- cleanup ?s => let y := eval lazy in s in change s with y end; constructor; auto.
Qed.

(** C33.  [untilCancelledAnd(cleanup)] is an awaiter: as
    long as the cleanup throws no exception and keeps to the protocol, so does the
    adapter, on both sides, and its destruction is safe.  The cleanup is not started
    before the parent asks for a cancellation; when the adapter waits for a
    cancellation, the cleanup runs and will resume the parent; it has ended before
    the cancellation is confirmed.  There is never a result to take. *)
Theorem until_cancelled_is_awaiter s :
  reach RunOnCancel no_exceptions s ->
  (forall e b, enabled no_exceptions e b s = true -> exists s', step RunOnCancel e b s = Ok s') /\
  (Checker.state_ (outer s) = Checker.Running -> Checker.state_ (inner s) = Checker.Initial) /\
  (Checker.state_ (outer s) = Checker.Cancelling <-> Checker.running (inner s) = true) /\
  (Checker.state_ (outer s) = Checker.Cancelled <-> Checker.state_ (inner s) = Checker.Done) /\
  Checker.may Checker.QResume (outer s) = false /\
  (forall c, Checker.reset (outer s) = Ok c -> exists s', destroy s = Ok s').
Proof.
  intros Hc%(reach_invariant _ _ cleanup); [|by apply cl_new; left|intros; by apply cleanup_step]. split.
  { intros e b He. destruct (cleanup_step e b s Hc He) as (s' & E & _). by exists s'. }
  destruct Hc as [x st Hst|x st Hst|h|h p|h h' st p Hst|h h' p];
    try destruct Hst as [-> | ->]; split_and!; try done;
    intros c; try discriminate; intros _; by eexists.
Qed.

Definition suspends : behaviour := Beh false true true Later Refused false false.
(** Suspended, cancelled, and the cleanup is done. *)
Definition cleaned_up : list (event * behaviour) :=
  (., suspends) <$> [EReady; ESetExecutor; ESuspend (Coro 1); ECancel; EInner].
Definition after_cleanup : adapter := default new_adapter (play RunOnCancel no_exceptions cleaned_up new_adapter).
Lemma after_cleanup_reach : reach RunOnCancel no_exceptions after_cleanup.
Proof. apply (play_adapter_reach _ _ cleaned_up new_adapter); [apply reach_new|vm_compute; reflexivity]. Qed.
Lemma until_cancelled_is_awaiter_witness : exists s', step RunOnCancel EMustResume suspends after_cleanup = Ok s'.
Proof. destruct (until_cancelled_is_awaiter after_cleanup after_cleanup_reach) as [H _]. apply H. vm_compute. reflexivity. Defined.

(** Cancelled before it was suspended, the cleanup starts in [await_suspend()]. *)
Example cancelled_early :
  (fun s => (inner s, outer s)) <$> play RunOnCancel no_exceptions
    ((., suspends) <$> [EEarlyCancel; EReady; ESetExecutor; ESuspend (Coro 1)]) new_adapter =
  Some (Checker.Checker (Coro 1) true Checker.Running, Checker.Checker (Coro 1) true Checker.Cancelling).
Proof. vm_compute. reflexivity. Qed.

(** An exception of the cleanup ends the program. *)
Example cleanup_throws :
  step RunOnCancel EMustResume (Beh false true true Later Refused false true) after_cleanup = Fault Terminated.
Proof. vm_compute. reflexivity. Qed.

(** * [suspendForever], [yield] *)

(** Their [await_cancel()] always confirms, and they have no [await_early_cancel()] and no
    [await_must_resume()]. *)
Definition abortable (r : suspend_result) : behaviour :=
  let h := Coro 1 in
  Beh false true (awaitEarlyCancel None)
    (if decide (awaitSuspend r h = h) then AtOnce else Later)
    (if awaitCancel (Some (fun _ => true)) h then Confirmed else Refused) (awaitMustResume None true) false.
Definition SuspendForever : behaviour := abortable RVoid.
Definition Yield : behaviour := abortable (RHandle (Coro 1)).

(** Waiting forever ends with a cancellation, unless that is suppressed; yielding
    returns before it can come. *)
Example forever_cancelled :
  (fun s => Checker.state_ (outer s)) <$> play AwaiterAdapterBase any
    ((., SuspendForever) <$> [EReady; ESetExecutor; ESuspend (Coro 1); ECancel]) new_adapter = Some Checker.Cancelled.
Proof. vm_compute. reflexivity. Qed.
Example forever_noncancellable :
  (fun s => (Checker.state_ (inner s), Checker.state_ (outer s))) <$> play NoncancellableAdapter any
    ((., SuspendForever) <$> [EReady; ESetExecutor; ESuspend (Coro 1); ECancel]) new_adapter =
  Some (Checker.Running, Checker.Cancelling).
Proof. vm_compute. reflexivity. Qed.
Example yield_returns :
  (fun s => Checker.state_ (outer s)) <$> play AwaiterAdapterBase any
    ((., Yield) <$> [EReady; ESetExecutor; ESuspend (Coro 1); EResume]) new_adapter = Some Checker.Done.
Proof. vm_compute. reflexivity. Qed.

(** * [disposable()] *)

(** The parent is told that the result is not needed without the wrapped awaiter
    being asked.  One that holds sanitized awaiters of its own is then destroyed
    in a state in which [~AwaiterStateChecker()] does not accept it. *)
Definition disposed : list (event * behaviour) :=
  (., suspends) <$> [EReady; ESetExecutor; ESuspend (Coro 1); ECancel; EInner; EMustResume].
Example disposable_unasked :
  (fun s => (Checker.state_ (outer s), Checker.state_ (inner s), destroy s)) <$> play DisposableAdapter any disposed new_adapter =
  Some (Checker.Cancelled, Checker.ReadyAfterCancel, Fault AssertFailed).
Proof. vm_compute. reflexivity. Qed.
(** Without a cancellation, or with one that is confirmed at once, nothing is amiss. *)
Example disposable_confirmed :
  (fun s => is_ok (destroy s)) <$> play DisposableAdapter any
    [(EReady, suspends); (ESetExecutor, suspends); (ESuspend (Coro 1), suspends);
     (ECancel, Beh false true true Later Confirmed true false)] new_adapter = Some true.
Proof. vm_compute. reflexivity. Qed.
