(* ===== verification/Run.v ===== *)
(** [run.h]: [corral::run()], from ordinary code into asynchronous code and back.

    The runner works on the executors of Executor.v ([sched]) and on the state
    checker of the awaitable it runs ([awaiter]).  The frame it hands to the
    awaitable as its continuation posts [stop_] to the executor, so the trace of
    the executor says when that frame was resumed and when the event loop was told
    to stop; [notice] is what the runner makes of each entry.  The event loop is the
    user's: all that is known of it is which calls its handlers make before its
    [run()] returns, and that it is run and stopped ([LRun], [LStop]). *)
From S2P Require Export Executor Awaiter.
Import Checker(checker, call(..)).

Inductive loop_call := LRun | LStop.
Inductive outcome := Returned | Threw | Failed.
(** [CORRAL_FAIL_FOR_DANGLING_TASKS]: the assertion it is by default, a macro that throws,
    or one that does neither. *)
Inductive fail_macro := FailAsserts | FailThrows | FailReturns.

(** [eventLoop_] says whether the pointer is not null; [currentExecutor] is the
    thread's, in [RunnerTracking]. *)
Record runner := Runner {
  eventLoop_ : bool; executor_ : option eid; currentExecutor : option eid;
  awaiter : checker; calls : list loop_call; sched : world }.
Implicit Types (r : runner).

(** The awaitable: what [await_ready()], [await_suspend()] and [await_cancel()]
    answer, throw and call. *)
Record root := Root {
  r_ready : bool; r_suspend : list cmd; r_throws : bool; r_cancel : list cmd; r_confirms : bool }.
Implicit Types (a : root).

Definition set_sched w r : runner :=
  Runner (eventLoop_ r) (executor_ r) (currentExecutor r) (awaiter r) (calls r) w.
Definition set_awaiter (c : checker) r : runner :=
  Runner (eventLoop_ r) (executor_ r) (currentExecutor r) c (calls r) (sched r).
Definition log (k : loop_call) r : runner :=
  Runner (eventLoop_ r) (executor_ r) (currentExecutor r) (awaiter r) (calls r ++ [k]) (sched r).
Definition on_awaiter (k : call) r : res runner :=
  c ← Checker.step k (awaiter r); Ok (set_awaiter c r).

Section Run.
(** [stop_] is the callback that stops the event loop, [self] the runner's frame,
    [ex] the address of the executor, [lp] the event loop's identity. *)
Context (prog : loc -> list cmd) (stop_ self : loc) (ex : eid) (lp fuel : nat).

(** [stop_] submits nothing. *)
Definition program (c : loc) : list cmd := if decide (c = stop_) then [] else prog c.

(** [resumeFn], by which the awaitable posts [stop_]: its checker sees the
    resumption; [stop_] itself stops the loop and forgets it. *)
Definition resumeFn r : res runner := on_awaiter CResumed r.
Definition stop r : res runner :=
  if eventLoop_ r then
    Ok (log LStop (Runner false (executor_ r) (currentExecutor r) (awaiter r) (calls r) (sched r)))
  else Fault BadAccess.
Definition is_stop (e : eid) (c : loc) r : bool := bool_decide (executor_ r = Some e /\ c = stop_).
Definition notice r (t : event) : res runner :=
  match t with
  | Submitted e c => if is_stop e c r then resumeFn r else Ok r
  | Began e c => if is_stop e c r then stop r else Ok r
  | Ended _ _ => Ok r
  end.
Fixpoint notice_all r (tr : list event) : res runner :=
  match tr with [] => Ok r | t :: tr => r ← notice r t; notice_all r tr end.

(** The executor does something, the runner takes notice. *)
Definition perform (t : todo) r : res runner :=
  w ← Executor.run program fuel t (sched r);
  notice_all (set_sched w r) (drop (length (trace (sched r))) (trace w)).
Fixpoint perform_all (ks : list cmd) r : res runner :=
  match ks with [] => Ok r | k :: ks => r ← perform (TCmd k) r; perform_all ks r end.

(** ** [Runner::run()] *)

(** The executor is made and becomes the current one; the scope guard, then the
    destructors of the executor and of the awaiter. *)
Definition enter r : runner :=
  Runner (eventLoop_ r) (Some ex) (Some ex) (awaiter r) (calls r) (new_exec ex lp (sched r)).
Definition leave (prevExec : option eid) r : res runner :=
  w ← destroy ex (sched r);
  c ← Checker.reset (awaiter r);
  Ok (Runner (eventLoop_ r) None prevExec c (calls r) w).

Definition run_loop (handlers : list cmd) r : res runner := perform_all handlers (log LRun r).
(** [abandon()] *)
Definition abandon r : runner := set_awaiter (Checker.forceReset (awaiter r)) r.

(** [cleanupGuard] *)
Definition cleanup a r : res runner :=
  r ← on_awaiter (CCancel (Coro self)) r;
  r ← perform_all (r_cancel a) r;
  r ← on_awaiter (CCancelled (r_confirms a)) r;
  if r_confirms a then Ok r
  else
    r ← perform (TCmd (Drain ex)) r;
    Ok (if eventLoop_ r then abandon r else r).
Definition dangling (f : fail_macro) a r : res (outcome * runner) :=
  match f with
  | FailAsserts => Fault AssertFailed
  | FailThrows => r ← cleanup a r; Ok (Failed, r)
  | FailReturns => Fault Terminated
  end.

(** From where the event loop has returned. *)
Definition after_loop (f : fail_macro) a r : res (outcome * runner) :=
  r ← (if eventLoop_ r then perform (TCmd (Drain ex)) r else Ok r);
  if eventLoop_ r then dangling f a r
  else r ← on_awaiter CResume r; Ok (Returned, r).
Definition body (f : fail_macro) a (handlers : list cmd) r : res (outcome * runner) :=
  r ← on_awaiter (CReady (r_ready a)) r;
  if r_ready a then r ← on_awaiter CResume r; Ok (Returned, r)
  else
    r ← on_awaiter CSetExecutor r;
    r ← on_awaiter (CSuspend (Coro self)) r;
    r ← perform_all (r_suspend a) r;
    if r_throws a then r ← on_awaiter CThrew r; Ok (Threw, r)
    else
      r ← perform (TCmd (Kick ex)) r;
      r ← (if eventLoop_ r then run_loop handlers r else Ok r);
      after_loop f a r.

(** [run(eventLoop, awaitable)], with [prevExec] the thread's current executor; the
    event loop must not be running. *)
Definition new_runner (prevExec : option eid) w : runner := Runner true None prevExec Checker.initial [] w.
Definition run_root (f : fail_macro) a (isRunning : bool) (handlers : list cmd) (prevExec : option eid) w : res (outcome * runner) :=
  corral_assert (negb isRunning);;
  '(o, r) ← body f a handlers (enter (new_runner prevExec w));
  r ← leave prevExec r;
  Ok (o, r).

(** * What happens, without the runner

    The executors, made to do what the awaitable and the event loop's handlers
    call: the handlers are left out if the continuation was resumed before. *)
Fixpoint run_all (ks : list cmd) w : res world :=
  match ks with [] => Ok w | k :: ks => w ← Executor.run program fuel (TCmd k) w; run_all ks w end.
Definition resumptions (tr : list event) : nat := length (filter (eq stop_) (submitted ex tr)).
Definition reference a (handlers : list cmd) w : res (bool * world) :=
  w ← run_all (r_suspend a) (new_exec ex lp w);
  w ← Executor.run program fuel (TCmd (Kick ex)) w;
  if decide (resumptions (trace w) = 0) then w ← run_all handlers w; Ok (false, w) else Ok (true, w).

(** * The runner's bookkeeping *)

Definition stops (tr : list event) : nat := length (filter (eq stop_) (began ex tr)).
Lemma resumptions_app tr1 tr2 : resumptions (tr1 ++ tr2) = resumptions tr1 + resumptions tr2.
Proof. unfold resumptions. by rewrite submitted_app, filter_app, length_app. Qed.

(** The runner, suspended, after [m] resumptions and [n] stops. *)
Definition waiting (m n : nat) (prev : option eid) (cs : list loop_call) w : runner :=
  Runner (bool_decide (n = 0)) (Some ex) prev
    (Checker.Checker (Coro self) true (if decide (m = 0) then Checker.Running else Checker.Ready))
    (cs ++ (if decide (n = 0) then [] else [LStop])) w.

Lemma notice_all_waiting tr m n prev cs w :
  m <= 1 -> n <= 1 ->
  if decide (m + resumptions tr <= 1 /\ n + stops tr <= 1)
  then notice_all (waiting m n prev cs w) tr = Ok (waiting (m + resumptions tr) (n + stops tr) prev cs w)
  else is_ok (notice_all (waiting m n prev cs w) tr) = false.
Proof.
  revert m n. induction tr as [|t tr IH]; intros m n Hm Hn.
  { unfold resumptions, stops. cbn. rewrite decide_True by lia. by rewrite !Nat.add_0_r. }
  assert (Hskip : resumptions (t :: tr) = resumptions tr -> stops (t :: tr) = stops tr ->
    notice (waiting m n prev cs w) t = Ok (waiting m n prev cs w) ->
    if decide (m + resumptions (t :: tr) <= 1 /\ n + stops (t :: tr) <= 1)
    then notice_all (waiting m n prev cs w) (t :: tr) = Ok (waiting (m + resumptions (t :: tr)) (n + stops (t :: tr)) prev cs w)
    else is_ok (notice_all (waiting m n prev cs w) (t :: tr)) = false).
  { intros -> -> E. cbn [notice_all]. rewrite E. by apply IH. }
  destruct t as [e c|e c|e c]; [| |by apply Hskip].
  - destruct (decide (e = ex /\ c = stop_)) as [[-> ->]|Hne].
    + assert (E : resumptions (Submitted ex stop_ :: tr) = S (resumptions tr)).
      { unfold resumptions. cbn. rewrite decide_True by done. cbn. by rewrite decide_True. }
      rewrite E. change (stops (Submitted ex stop_ :: tr)) with (stops tr). cbn [notice_all notice].
      unfold is_stop. rewrite bool_decide_true by done. destruct (decide (m = 0)) as [->|]; cbn.
      * by apply (IH 1 n).
      * assert (m = 1) as -> by lia. rewrite decide_False by lia. done.
    + apply Hskip; [|done|].
      * unfold resumptions. cbn. destruct (decide (e = ex)) as [->|]; [|done]. cbn. rewrite decide_False; [done|]. naive_solver.
      * cbn. unfold is_stop. rewrite bool_decide_false; [done|]. cbn. naive_solver.
  - destruct (decide (e = ex /\ c = stop_)) as [[-> ->]|Hne].
    + assert (E : stops (Began ex stop_ :: tr) = S (stops tr)).
      { unfold stops. cbn. rewrite decide_True by done. cbn. by rewrite decide_True. }
      rewrite E. change (resumptions (Began ex stop_ :: tr)) with (resumptions tr). cbn [notice_all notice].
      unfold is_stop. rewrite bool_decide_true by done. unfold stop. cbn [eventLoop_ waiting].
      destruct (decide (n = 0)) as [->|].
      * cbn. rewrite app_nil_r. pose proof (IH m 1 Hm ltac:(lia)) as H. by rewrite (Nat.add_1_l (stops tr)) in H.
      * assert (n = 1) as -> by lia. rewrite decide_False by lia. done.
    + apply Hskip; [done| |].
      * unfold stops. cbn. destruct (decide (e = ex)) as [->|]; [|done]. cbn. rewrite decide_False; [done|]. naive_solver.
      * cbn. unfold is_stop. rewrite bool_decide_false; [done|]. cbn. naive_solver.
Qed.

(** * The runner and the reference *)

Context (alive : list eid) (wt : loc -> nat).
Context (Hwb : well_behaved program (ex :: alive) wt).
Abbreviation ok w := (world_ok lp (ex :: alive) None w).
Abbreviation settles w w' tr n := (settled lp (ex :: alive) wt w w' tr n).

(** The handlers, and the awaitable, post callbacks to the thread's executors. *)
Definition posts (ks : list cmd) : Prop := forall k, k ∈ ks -> exists e c, k = RunSoon e c /\ e ∈ ex :: alive.

Lemma settled_stops w w' tr n : ok w -> idle w -> settles w w' tr n -> stops tr = resumptions tr.
Proof.
  intros HW HI [H1 H2 H3 _ _ _]. assert (Hex : ex ∈ ex :: alive) by set_solver.
  destruct (settled_submitted lp _ w ex HW HI (proj2 HW ex Hex)) as [_ E0].
  destruct (settled_submitted lp _ w' ex H1 H2 (proj2 H1 ex Hex)) as [_ E].
  rewrite H3, submitted_app, began_app, E0 in E. apply app_inv_head in E. unfold stops, resumptions. by rewrite E.
Qed.

(** The runner makes of [m] resumptions so far, and of those in [tr], what it should. *)
Definition keeps_up (m : nat) (tr : list event) (prev : option eid) (cs : list loop_call) w' (result : res runner) : Prop :=
  if decide (m + resumptions tr <= 1)
  then result = Ok (waiting (m + resumptions tr) (m + resumptions tr) prev cs w') else is_ok result = false.

Lemma perform_keeps_up t m prev cs w w' tr n :
  ok w -> idle w -> m <= 1 -> Executor.run program fuel t w = Ok w' -> settles w w' tr n ->
  keeps_up m tr prev cs w' (perform t (waiting m m prev cs w)).
Proof.
  intros HW HI Hm E HS. unfold keeps_up, perform. change (sched (waiting m m prev cs w)) with w. rewrite E. res_cbn.
  rewrite (se_trace _ _ _ _ _ _ _ HS), drop_app_length.
  pose proof (notice_all_waiting tr m m prev cs w' Hm Hm) as H. rewrite (settled_stops w w' tr n HW HI HS) in H.
  destruct (decide (m + resumptions tr <= 1)); [by rewrite decide_True in H by done|by rewrite decide_False in H by lia].
Qed.

Lemma is_ok_bind {A B} (m : res A) (k : A -> res B) : is_ok m = false -> is_ok (m ≫= k) = false.
Proof. by destruct m. Qed.

Lemma perform_all_keeps_up ks m prev cs w :
  ok w -> idle w -> m <= 1 -> posts ks -> enough (load wt w + wsum wt ks) + 4 <= fuel ->
  exists w' tr, run_all ks w = Ok w' /\ settles w w' tr (wsum wt ks) /\
    keeps_up m tr prev cs w' (perform_all ks (waiting m m prev cs w)).
Proof.
  revert w m. induction ks as [|k ks IH]; intros w m HW HI Hm Hks Hf.
  { exists w, []. split; [done|]. split.
    - split; try done; [by rewrite app_nil_r|lia].
    - unfold keeps_up, resumptions. cbn. rewrite decide_True by lia. by rewrite Nat.add_0_r. }
  destruct (Hks k ltac:(set_solver)) as (e & c & -> & He). rewrite wsum_cons in *. unfold enough in Hf.
  destruct (runsoon_outside program lp (ex :: alive) wt Hwb w e c fuel HW HI He) as (w1 & tr1 & E1 & HS1);
    [unfold enough; lia|].
  pose proof (perform_keeps_up _ m prev cs w w1 _ _ HW HI Hm E1 HS1) as HK1.
  set (tr := Submitted e c :: tr1) in *. pose proof HS1 as [H1 H2 _ _ H5 _].
  destruct (decide (m + resumptions tr <= 1)) as [Hle|Hgt].
  - destruct (IH w1 (m + resumptions tr) H1 H2 Hle) as (w2 & tr2 & E2 & HS2 & HK2); [intros ? ?; apply Hks; set_solver|unfold enough; lia|].
    exists w2, (tr ++ tr2). split; [cbn [run_all]; by rewrite E1|]. split.
    + pose proof (settled_trans _ _ _ _ _ _ _ _ _ _ HS1 HS2) as HS. destruct HS. split; try done. lia.
    + unfold keeps_up in *. rewrite resumptions_app, Nat.add_assoc. cbn [perform_all].
      rewrite decide_True in HK1 by done. rewrite HK1. exact HK2.
  - destruct (IH w1 0 H1 H2 ltac:(lia)) as (w2 & tr2 & E2 & HS2 & _); [intros ? ?; apply Hks; set_solver|unfold enough; lia|].
    exists w2, (tr ++ tr2). split; [cbn [run_all]; by rewrite E1|]. split.
    + pose proof (settled_trans _ _ _ _ _ _ _ _ _ _ HS1 HS2) as HS. destruct HS. split; try done. lia.
    + unfold keeps_up in *. rewrite resumptions_app. rewrite decide_False by lia. cbn [perform_all].
      apply is_ok_bind. by rewrite decide_False in HK1 by done.
Qed.

(** [runSoon()] and [drain()] with nothing to do. *)
Lemma idle_call t m prev cs w :
  t = Kick ex \/ t = Drain ex -> ok w -> idle w -> m <= 1 -> 5 <= fuel ->
  exists w', Executor.run program fuel (TCmd t) w = Ok w' /\ settles w w' [] 0 /\
    perform (TCmd t) (waiting m m prev cs w) = Ok (waiting m m prev cs w').
Proof.
  intros Ht HW HI Hm Hf.
  destruct (idle_cmd program lp (ex :: alive) wt t w ex fuel Ht HW HI ltac:(set_solver) Hf) as (w' & E & HS).
  exists w'. split_and!; [done|done|].
  pose proof (perform_keeps_up _ m prev cs w w' _ _ HW HI Hm E HS) as HK. unfold keeps_up, resumptions in HK.
  cbn in HK. rewrite Nat.add_0_r, decide_True in HK by done. exact HK.
Qed.

(** Suspended, the awaitable has its executor and the runner's frame. *)
Lemma body_suspended f a handlers prev w :
  r_ready a = false -> r_throws a = false ->
  body f a handlers (enter (new_runner prev w)) =
    (r ← perform_all (r_suspend a) (waiting 0 0 (Some ex) [] (new_exec ex lp w));
     r ← perform (TCmd (Kick ex)) r;
     r ← (if eventLoop_ r then run_loop handlers r else Ok r);
     after_loop f a r).
Proof. intros Hr Ht. unfold body. rewrite Hr, Ht. reflexivity. Qed.

(** The way out: what the executor has submitted has been run. *)
Definition left_behind prev (cs : list loop_call) w w' r : Prop :=
  eventLoop_ r = bool_decide (cs = []) /\ executor_ r = None /\ currentExecutor r = prev /\ calls r = cs /\
  trace (sched r) = trace w' /\ world_ok lp alive None (sched r) /\ idle (sched r) /\
  execs (sched r) !! ex = None /\ (forall e, e <> ex -> is_Some (execs (sched r) !! e) <-> is_Some (execs w !! e)).

Lemma after_loop_done a w prev (early : bool) w' :
  ok w' -> idle w' -> ex ∉ alive ->
  (forall e, e <> ex -> is_Some (execs w' !! e) <-> is_Some (execs w !! e)) ->
  exists r, ('(o, r) ← after_loop FailAsserts a (waiting 1 1 (Some ex) (if early then [] else [LRun]) w');
             r ← leave prev r; Ok (o, r)) = Ok (Returned, r) /\ left_behind prev (if early then [LStop] else [LRun; LStop]) w w' r.
Proof.
  intros HW HI He Hsame. destruct (destroy_ok lp alive w' ex HW HI He) as (w2 & E & HW2 & HI2 & Ht & Hx).
  eexists. split.
  { assert (E1 : forall cs, after_loop FailAsserts a (waiting 1 1 (Some ex) cs w') =
      Ok (Returned, Runner false (Some ex) (Some ex) (Checker.Checker (Coro self) true Checker.Done) (cs ++ [LStop]) w'))
      by reflexivity.
    rewrite E1. res_cbn. unfold leave. cbn [sched]. rewrite E. reflexivity. }
  unfold left_behind. cbn. rewrite Hx, lookup_delete_eq.
  split_and!; try done; [by destruct early|by destruct early|]. intros e Hne. by rewrite lookup_delete_ne, Hsame.
Qed.
(** Before the event loop was touched. *)
Lemma leave_untouched prev w w' o c c' :
  ok w' -> idle w' -> ex ∉ alive -> Checker.reset c = Ok c' ->
  (forall e, e <> ex -> is_Some (execs w' !! e) <-> is_Some (execs w !! e)) ->
  exists r, (r ← leave prev (Runner true (Some ex) (Some ex) c [] w'); Ok (o, r)) = Ok (o : outcome, r) /\
    left_behind prev [] w w' r.
Proof.
  intros HW HI He Hc Hsame. destruct (destroy_ok lp alive w' ex HW HI He) as (w2 & E & HW2 & HI2 & Ht & Hx).
  eexists. unfold leave. cbn [sched awaiter]. rewrite E. res_cbn. rewrite Hc. split; [reflexivity|].
  unfold left_behind. cbn. rewrite Hx, lookup_delete_eq.
  split_and!; try done. intros e Hne. by rewrite lookup_delete_ne, Hsame.
Qed.
(** And when it is not. *)
Lemma after_loop_dangling a prev cs w :
  ok w -> idle w -> 5 <= fuel -> after_loop FailAsserts a (waiting 0 0 prev cs w) = Fault AssertFailed.
Proof.
  intros HW HI Hf. unfold after_loop. cbn [eventLoop_ waiting]. rewrite bool_decide_true by done.
  destruct (idle_call (Drain ex) 0 prev cs w) as (w' & _ & _ & E); auto.
  rewrite E. reflexivity.
Qed.

Lemma enter_new_ok w :
  world_ok lp alive None w -> idle w -> execs w !! ex = None -> queues w !! QBuf ex = None ->
  submitted ex (trace w) = [] -> began ex (trace w) = [] ->
  ok (new_exec ex lp w) /\ idle (new_exec ex lp w) /\ load wt (new_exec ex lp w) = load wt w /\
  (forall e, e <> ex -> is_Some (execs (new_exec ex lp w) !! e) <-> is_Some (execs w !! e)).
Proof.
  intros HW [Hc Hr] Hn Hq Hs Hb. split_and!; [by apply new_exec_ok| | |].
  - split; [done|]. intros e. unfold new_exec. rewrite running_set_queue, running_set_exec. case_decide; [done|]. apply Hr.
  - unfold load. cbn [queues new_exec set_queue set_exec].
    pose proof (msum_insert (sum_list_with (cb_weight wt)) (queues w) (QBuf ex) []) as HM. rewrite Hq in HM. cbn in HM. lia.
  - intros e Hne. cbn. by rewrite lookup_insert_ne.
Qed.

(** What the reference comes to, given how often the frame is resumed before the loop. *)
Lemma reference_suspend a handlers w w1 w2 tr :
  submitted ex (trace w) = [] -> run_all (r_suspend a) (new_exec ex lp w) = Ok w1 ->
  Executor.run program fuel (TCmd (Kick ex)) w1 = Ok w2 -> trace w2 = trace w ++ tr ->
  resumptions (trace w2) = resumptions tr /\
  reference a handlers w =
    if decide (resumptions tr = 0) then w3 ← run_all handlers w2; Ok (false, w3) else Ok (true, w2).
Proof.
  intros Hs E1 E2 Ht. assert (Hr : resumptions (trace w2) = resumptions tr).
  { rewrite Ht, resumptions_app. unfold resumptions at 1. by rewrite Hs. }
  split; [done|]. unfold reference. rewrite E1. res_cbn. rewrite E2. res_cbn. by rewrite Hr.
Qed.

(** The event loop, when the frame was not resumed before. *)
Lemma run_loop_ok a handlers prev w w2 :
  ok w2 -> idle w2 -> ex ∉ alive -> posts handlers -> enough (load wt w2 + wsum wt handlers) + 4 <= fuel ->
  (forall e, e <> ex -> is_Some (execs w2 !! e) <-> is_Some (execs w !! e)) ->
  exists w3 tr, run_all handlers w2 = Ok w3 /\ trace w3 = trace w2 ++ tr /\
    let result := '(o, r) ← (r ← run_loop handlers (waiting 0 0 (Some ex) [] w2); after_loop FailAsserts a r);
                  r ← leave prev r; Ok (o, r) in
    match resumptions tr with
    | 0 => result = Fault AssertFailed
    | 1 => exists r, result = Ok (Returned, r) /\ left_behind prev [LRun; LStop] w w3 r
    | _ => is_ok result = false
    end.
Proof.
  intros HW HI Hex Hp Hf Hsame.
  destruct (perform_all_keeps_up handlers 0 (Some ex) [LRun] w2 HW HI ltac:(lia) Hp Hf) as (w3 & tr & E & HS & HK).
  destruct HS as [HW3 HI3 Ht _ _ Hx]. exists w3, tr. split_and!; [done|done|]. cbv zeta.
  change (run_loop handlers (waiting 0 0 (Some ex) [] w2)) with (perform_all handlers (waiting 0 0 (Some ex) [LRun] w2)).
  unfold keeps_up in HK. cbn [Nat.add] in HK. destruct (resumptions tr) as [|[|n]].
  - rewrite decide_True in HK by lia. rewrite HK. res_cbn. rewrite after_loop_dangling; [done|done|done|unfold enough in Hf; lia].
  - rewrite decide_True in HK by lia. rewrite HK. res_cbn. apply (after_loop_done a w prev false); [done..|].
    intros e Hne. by rewrite Hx, Hsame.
  - rewrite decide_False in HK by lia. by repeat apply is_ok_bind.
Qed.

(** An awaitable that suspends. *)
Lemma run_suspended a handlers prev w :
  world_ok lp alive None w -> idle w -> ex ∉ alive ->
  execs w !! ex = None -> queues w !! QBuf ex = None -> submitted ex (trace w) = [] -> began ex (trace w) = [] ->
  posts (r_suspend a ++ handlers) -> r_ready a = false -> r_throws a = false ->
  enough (load wt w + wsum wt (r_suspend a ++ handlers)) + 8 <= fuel ->
  exists early w', reference a handlers w = Ok (early, w') /\
    match resumptions (trace w') with
    | 0 => run_root FailAsserts a false handlers prev w = Fault AssertFailed
    | 1 => exists r, run_root FailAsserts a false handlers prev w = Ok (Returned, r) /\
        left_behind prev (if early : bool then [LStop] else [LRun; LStop]) w w' r
    | _ => is_ok (run_root FailAsserts a false handlers prev w) = false
    end.
Proof.
  intros HW HI Hex Hnone Hq Hs Hb Hp Hrd Hth Hf.
  destruct (enter_new_ok w HW HI Hnone Hq Hs Hb) as (HW0 & HI0 & HL0 & Hx0).
  unfold wsum in Hf. rewrite sum_list_with_app in Hf. unfold enough in Hf. fold (wsum wt (r_suspend a)) (wsum wt handlers) in Hf.
  destruct (perform_all_keeps_up (r_suspend a) 0 (Some ex) [] _ HW0 HI0 ltac:(lia)) as (w1 & tr1 & E1 & HS1 & HK1);
    [intros ? ?; apply Hp; set_solver|unfold enough; lia|].
  pose proof HS1 as [HW1 HI1 Ht1 _ HL1 Hx1]. unfold keeps_up in HK1. cbn [Nat.add] in HK1.
  unfold run_root. cbn [negb]. res_cbn. rewrite (body_suspended _ _ _ _ _ Hrd Hth).
  destruct (idle_call (Kick ex) (if decide (resumptions tr1 = 0) then 0 else 1) (Some ex) [] w1)
    as (w2 & E2 & HS2 & EK); [auto|done|done|destruct (decide (resumptions tr1 = 0)); lia|lia|].
  pose proof HS2 as [HW2 HI2 Ht2 _ HL2 Hx2]. rewrite app_nil_r in Ht2.
  destruct (reference_suspend a handlers w w1 w2 tr1 Hs E1 E2) as [Hr2 ->]; [by rewrite Ht2, Ht1|].
  assert (Hsame : forall e, e <> ex -> is_Some (execs w2 !! e) <-> is_Some (execs w !! e)).
  { intros e Hne. by rewrite Hx2, Hx1, Hx0. }
  destruct (resumptions tr1) as [|[|n]] eqn:En; cbn [decide] in EK.
  - rewrite decide_True in HK1 by lia. rewrite decide_True in EK by done. rewrite HK1. res_cbn. rewrite EK. res_cbn. cbn [eventLoop_ waiting].
    rewrite bool_decide_true by done. rewrite decide_True by done.
    destruct (run_loop_ok a handlers prev w w2 HW2 HI2 Hex) as (w3 & tr3 & -> & Ht3 & HR);
      [intros ? ?; apply Hp; set_solver|unfold enough; lia|done|].
    exists false, w3. split; [done|]. by rewrite Ht3, resumptions_app, Hr2.
  - rewrite decide_True in HK1 by lia. rewrite HK1. res_cbn. 
    exists true, w2. rewrite decide_False by lia. split; [done|]. rewrite Hr2.
    rewrite decide_False in EK by lia. rewrite EK. res_cbn. cbn [eventLoop_ waiting]. rewrite bool_decide_false by done.
    by apply (after_loop_done a w prev true).
  - exists true, w2. rewrite decide_False by lia. split; [done|]. rewrite Hr2. rewrite decide_False in HK1 by lia.
    by repeat apply is_ok_bind.
Qed.

(** One that is ready, and one whose [await_suspend()] throws. *)
Lemma run_ready a handlers prev w :
  world_ok lp alive None w -> idle w -> ex ∉ alive ->
  execs w !! ex = None -> queues w !! QBuf ex = None -> submitted ex (trace w) = [] -> began ex (trace w) = [] ->
  r_ready a = true ->
  exists r, run_root FailAsserts a false handlers prev w = Ok (Returned, r) /\ left_behind prev [] w w r.
Proof.
  intros HW HI Hex Hnone Hq Hs Hb Hrd. destruct (enter_new_ok w HW HI Hnone Hq Hs Hb) as (HW0 & HI0 & _ & Hx0).
  destruct (leave_untouched prev w (new_exec ex lp w) Returned (Checker.Checker Noop false Checker.Done)
    _ HW0 HI0 Hex eq_refl Hx0) as (r & E & HL).
  exists r. split; [|exact HL]. unfold run_root, body. rewrite Hrd. exact E.
Qed.
Lemma run_throws a handlers prev w :
  world_ok lp alive None w -> idle w -> ex ∉ alive ->
  execs w !! ex = None -> queues w !! QBuf ex = None -> submitted ex (trace w) = [] -> began ex (trace w) = [] ->
  posts (r_suspend a) -> r_ready a = false -> r_throws a = true -> enough (load wt w + wsum wt (r_suspend a)) + 8 <= fuel ->
  exists w', run_all (r_suspend a) (new_exec ex lp w) = Ok w' /\
    if decide (resumptions (trace w') = 0)
    then exists r, run_root FailAsserts a false handlers prev w = Ok (Threw, r) /\ left_behind prev [] w w' r
    else is_ok (run_root FailAsserts a false handlers prev w) = false.
Proof.
  intros HW HI Hex Hnone Hq Hs Hb Hp Hrd Hth Hf. destruct (enter_new_ok w HW HI Hnone Hq Hs Hb) as (HW0 & HI0 & HL0 & Hx0).
  destruct (perform_all_keeps_up (r_suspend a) 0 (Some ex) [] _ HW0 HI0 ltac:(lia) Hp) as (w1 & tr1 & E1 & HS1 & HK1);
    [unfold enough in *; lia|].
  pose proof HS1 as [HW1 HI1 Ht1 _ HL1 Hx1]. unfold keeps_up in HK1. cbn [Nat.add] in HK1.
  exists w1. split; [exact E1|].
  assert (Hr : resumptions (trace w1) = resumptions tr1).
  { rewrite Ht1. change (trace (new_exec ex lp w)) with (trace w).
    rewrite resumptions_app. unfold resumptions at 1. by rewrite Hs. }
  rewrite Hr. unfold run_root. cbn [negb]. res_cbn.
  assert (Eb : body FailAsserts a handlers (enter (new_runner prev w)) =
    (r ← perform_all (r_suspend a) (waiting 0 0 (Some ex) [] (new_exec ex lp w)); r ← on_awaiter CThrew r; Ok (Threw, r)))
    by (unfold body; rewrite Hrd, Hth; reflexivity).
  rewrite Eb. destruct (resumptions tr1) as [|[|n]] eqn:En.
  - rewrite decide_True by done. rewrite decide_True in HK1 by lia. rewrite HK1. res_cbn.
    destruct (leave_untouched prev w w1 Threw (Checker.Checker (Coro self) true Checker.Done)
      _ HW1 HI1 Hex eq_refl) as (r & E & HL).
    { intros e Hne. by rewrite Hx1, Hx0. }
    exists r. split; [exact E|exact HL].
  - rewrite decide_False by done. rewrite decide_True in HK1 by lia. by rewrite HK1.
  - rewrite decide_False by done. rewrite decide_False in HK1 by lia. by repeat apply is_ok_bind.
Qed.

(** C32.  [corral::run()] on an event loop that is not running, against the executors alone,
    with an awaitable and handlers of the event loop that do nothing but post callbacks to the
    thread's executors, callbacks that in turn only post ones of less weight, and the assertion as
    the failure for dangling tasks: every call terminates.  A ready awaitable's result is returned, and what
    [await_suspend()] throws is thrown on, without the event loop being run or stopped.
    If the awaitable suspends and the runner's
    frame is resumed once in all, [run()] returns the awaitable's result, and
    the event loop was told to stop exactly once; it was not run at all if the awaitable was done before
    that.  If the frame was not resumed when the event loop returns, that is the
    failure for dangling tasks; if more than once (or before an exception), an assertion fails.
    When [run()] returns or throws, all callbacks have been run, the runner's
    executor is gone and the others are there, and the thread's current executor is
    what it was. *)
Theorem run_outcome a handlers prev w :
  world_ok lp alive None w -> idle w -> ex ∉ alive ->
  execs w !! ex = None -> queues w !! QBuf ex = None -> submitted ex (trace w) = [] -> began ex (trace w) = [] ->
  posts (r_suspend a ++ handlers) ->
  enough (load wt w + wsum wt (r_suspend a ++ handlers)) + 8 <= fuel ->
  run_root FailAsserts a true handlers prev w = Fault AssertFailed /\
  if r_ready a then
    exists r, run_root FailAsserts a false handlers prev w = Ok (Returned, r) /\ left_behind prev [] w w r
  else if r_throws a then
    exists w', run_all (r_suspend a) (new_exec ex lp w) = Ok w' /\
      if decide (resumptions (trace w') = 0)
      then exists r, run_root FailAsserts a false handlers prev w = Ok (Threw, r) /\ left_behind prev [] w w' r
      else is_ok (run_root FailAsserts a false handlers prev w) = false
  else
    exists early w', reference a handlers w = Ok (early, w') /\
      match resumptions (trace w') with
      | 0 => run_root FailAsserts a false handlers prev w = Fault AssertFailed
      | 1 => exists r, run_root FailAsserts a false handlers prev w = Ok (Returned, r) /\
          left_behind prev (if early : bool then [LStop] else [LRun; LStop]) w w' r
      | _ => is_ok (run_root FailAsserts a false handlers prev w) = false
      end.
Proof.
  intros HW HI Hex Hnone Hq Hs Hb Hp Hf. split; [done|].
  destruct (r_ready a) eqn:Hrd; [by apply run_ready|]. destruct (r_throws a) eqn:Hth; [|by apply run_suspended].
  apply run_throws; try done; [intros ? ?; apply Hp; set_solver|].
  unfold wsum in *. rewrite sum_list_with_app in Hf. unfold enough in *. lia.
Qed.
End Run.

(** * Runs *)

(** Executor 1 is there already; the runner's is 2, and 20 stops the event loop.
    Callback 10 resumes the runner's frame. *)
Definition root_prog (c : loc) : list cmd := if decide (c = 10%positive) then [RunSoon 2 20]%positive else [].
Definition root_wt (c : loc) : nat := if decide (c = 10%positive) then 4 else 1.
Definition other_world : world := new_exec 1 0 (World ∅ ∅ None ∅ 0 []).
(** It submits 11 and waits for a handler to resume it. *)
Definition waits : root := Root false [RunSoon 2 11]%positive false [] false.
Definition completes : list cmd := [RunSoon 1 12; RunSoon 2 10]%positive.
Abbreviation run' := (run_root root_prog 20 30 2 0 200).

Lemma root_prog_ok : well_behaved (program root_prog 20) [2; 1]%positive root_wt.
Proof.
  split.
  - intros c k. unfold program, root_prog. repeat case_decide; try (by intros ?%elem_of_nil).
    intros ->%list_elem_of_singleton. do 2 eexists. split; [done|set_solver].
  - intros c. unfold program, root_prog, root_wt. repeat case_decide; vm_compute; lia.
Qed.
Lemma other_world_ok : world_ok 0 [1]%positive None other_world /\ idle other_world.
Proof.
  split; [by apply new_exec_ok; try done; split; [done|set_solver]|]. split; [done|].
  intros e. unfold running_of, other_world. cbn.
  destruct (decide (e = 1%positive)) as [->|]; [done|]. by rewrite lookup_insert_ne, lookup_empty.
Qed.

Lemma run_outcome_witness :
  exists r, run' FailAsserts waits false completes None other_world = Ok (Returned, r) /\
    calls r = [LRun; LStop] /\ currentExecutor r = None /\ idle (sched r).
Proof.
  destruct (run_outcome root_prog 20 30 2 0 200 [1]%positive root_wt root_prog_ok waits completes None other_world
    (proj1 other_world_ok) (proj2 other_world_ok)) as (_ & early & w' & E & H).
  1: set_solver. 1-4: reflexivity. 2: vm_compute; lia.
  { intros k Hk. cbn in Hk. set_unfold in Hk. destruct Hk as [-> |[-> |[-> |[]]]]; do 2 eexists; (split; [reflexivity|set_solver]). }
  vm_compute in E. injection E as <- <-. destruct H as (r & E & _ & _ & Hc & Hl & _ & _ & Hi & _). exists r. split; [exact E|].
  split; [exact Hl|]. split; [exact Hc|exact Hi].
Defined.

(** What is left, for the examples. *)
Definition ends (m : res (outcome * runner)) : res (outcome * list loop_call * option eid * option eid) :=
  '(o, r) ← m; Ok (o, calls r, currentExecutor r, current_ (sched r)).

(** An awaitable that is done as soon as it is suspended - a task that does not wait
    for anything, say: the event loop is told to stop although it was never run. *)
Example stops_a_loop_not_run :
  ends (run' FailAsserts (Root false [RunSoon 2 10]%positive false [] false) false [] None other_world) =
    Ok (Returned, [LStop], None, None).
Proof. vm_compute. reflexivity. Qed.
Example ready_at_once :
  ends (run' FailAsserts (Root true [] false [] false) false [] None other_world) = Ok (Returned, [], None, None).
Proof. vm_compute. reflexivity. Qed.
Example throws_on_suspension :
  ends (run' FailAsserts (Root false [] true [] false) false [] (Some 7%positive) other_world) = Ok (Threw, [], Some 7%positive, None).
Proof. vm_compute. reflexivity. Qed.
Example not_twice_at_once : run' FailAsserts waits true [] None other_world = Fault AssertFailed.
Proof. vm_compute. reflexivity. Qed.

(** A callback of another event loop's executor may run one of its own. *)
Example nested_runs :
  let w := World (<[1%positive := Exec 7 (QBuf 1) (Some 0) None Noop]> (execs other_world)) (queues other_world)
                 (Some 1%positive) {[0 := true]} 1 [] in
  ends (run' FailAsserts waits false [RunSoon 2 10]%positive (Some 1%positive) w) =
    Ok (Returned, [LRun; LStop], Some 1%positive, Some 1%positive).
Proof. vm_compute. reflexivity. Qed.

(** The event loop returns early: with the default macro, with one that throws when the
    cancellation is confirmed, and when nothing helps. *)
Example loop_returns_early :
  run' FailAsserts waits false [] None other_world = Fault AssertFailed /\
  ends (run' FailThrows (Root false [] false [] true) false [] None other_world) = Ok (Failed, [LRun], None, None) /\
  ends (run' FailThrows waits false [] None other_world) = Ok (Failed, [LRun], None, None).
Proof. vm_compute. done. Qed.

(** A cancellation that succeeds "after a spin of the executor" resumes the frame; but
    then nobody calls [await_must_resume()], and the checker does not accept the
    destruction of the awaiter. *)
Example cancelled_late :
  run' FailThrows (Root false [] false [RunSoon 2 10]%positive false) false [] None other_world = Fault AssertFailed.
Proof. vm_compute. reflexivity. Qed.
