(* ===== verification/RefCount.v ===== *)
(** [detail/IntrusivePtr.h]: reference counts.

    A heap has objects, which hold their count, and [IntrusivePtr] variables, which
    hold the address of an object or null.  A variable is on the stack or a member
    of an object; the destructor of an object destroys its members, and so may
    delete other objects.  A count is a [size_t] and wraps. *)
From S2P Require Export Prelude.

Local Open Scope Z_scope.

Abbreviation loc := positive.
Abbreviation var := positive.

(** [RefCounted], with the members of the object that are [IntrusivePtr]s;
    [adopted_], for the theorems, says whether a pointer has ever held it. *)
Record object := Object { refCount_ : Z; members : list var; adopted_ : bool }.
(** [ptr_] of every variable that is alive; [deleted]: the objects deleted, in order. *)
Record heap := Heap { objects : gmap loc object; ptr_ : gmap var (option loc); deleted : list loc }.
Implicit Types (h : heap) (v : var) (l : loc) (o : object) (p : option loc).

Definition set_object l o h : heap := Heap (<[l := o]> (objects h)) (ptr_ h) (deleted h).
Definition set_ptr v p h : heap := Heap (objects h) (<[v := p]> (ptr_ h)) (deleted h).
Definition remove_var v h : heap := Heap (objects h) (delete v (ptr_ h)) (deleted h).
Definition remove_object l h : heap := Heap (delete l (objects h)) (ptr_ h) (deleted h ++ [l]).

(** A new variable: its address was not in use. *)
Definition construct v p h : res heap :=
  corral_assert (bool_decide (ptr_ h !! v = None));; Ok (set_ptr v p h).
Definition get v h : res (option loc) := deref (ptr_ h !! v).

(** [ref()] *)
Definition ref p h : res heap :=
  match p with
  | Some l =>
      o ← deref (objects h !! l);
      Ok (set_object l (Object (to_word (refCount_ o + 1)) (members o) true) h)
  | None => Ok h
  end.

(** [~IntrusivePtr()] of the variables [vs], one after the other, with [deref()]: an
    object whose count drops to zero is deleted.  Its lifetime ends as its destructor
    begins; then its members are destroyed. *)
Fixpoint destroy_all (fuel : nat) (vs : list var) h : res heap :=
  match fuel, vs with
  | _, [] => Ok h
  | O, _ => Fault OutOfFuel
  | S fuel, v :: vs =>
      p ← get v h;
      let h := remove_var v h in
      h ← match p with
          | Some l =>
              o ← deref (objects h !! l);
              let n := to_word (refCount_ o - 1) in
              if n =? 0 then destroy_all fuel (members o) (remove_object l h)
              else Ok (set_object l (Object n (members o) (adopted_ o)) h)
          | None => Ok h
          end;
      destroy_all fuel vs h
  end.
(** Every destruction takes a variable away. *)
Definition destroy v h : res heap := destroy_all (S (size (ptr_ h))) [v] h.

(** The constructors: null, from an address, copy, move. *)
Definition new_null v h : res heap := construct v None h.
Definition new_raw v l h : res heap := h ← construct v (Some l) h; ref (Some l) h.
Definition new_copy v r h : res heap := p ← get r h; h ← construct v p h; ref p h.
Definition new_move v r h : res heap := p ← get r h; h ← construct v p (set_ptr r None h); Ok h.

(** [operator=(IntrusivePtr rhs)]: [t] is the parameter, constructed by the caller
    and destroyed once it has been swapped in. *)
Definition swap v t h : res heap :=
  p ← get v h; q ← get t h; Ok (set_ptr t p (set_ptr v q h)).
Definition assign_copy v r t h : res heap := h ← new_copy t r h; h ← swap v t h; destroy t h.
Definition assign_move v r t h : res heap := h ← new_move t r h; h ← swap v t h; destroy t h.

(** [new T], whose members [ms] are constructed null. *)
Fixpoint construct_all (ms : list var) h : res heap :=
  match ms with [] => Ok h | m :: ms => h ← new_null m h; construct_all ms h end.
Definition new_object l (ms : list var) h : res heap :=
  h ← construct_all ms h; Ok (set_object l (Object 0 ms false) h).

(** * Programs *)

Inductive op :=
| ONew l (ms : list var) | ONull v | ORaw v l | OCopy v (r : var) | OMove v (r : var)
| OAssign v (r t : var) | OAssignMove v (r t : var) | ODestroy v.
Definition exec (k : op) h : res heap :=
  match k with
  | ONew l ms => new_object l ms h
  | ONull v => new_null v h
  | ORaw v l => new_raw v l h
  | OCopy v r => new_copy v r h
  | OMove v r => new_move v r h
  | OAssign v r t => assign_copy v r t h
  | OAssignMove v r t => assign_move v r t h
  | ODestroy v => destroy v h
  end.

Definition alive v h : bool := bool_decide (is_Some (ptr_ h !! v)).
(** Members are destroyed with their object only. *)
Definition owned v h : bool := bool_decide (map_Exists (fun _ o => v ∈ members o) (objects h)).
Definition fresh v h : bool := negb (alive v h).
Definition used l h : bool := bool_decide (is_Some (objects h !! l)) || bool_decide (l ∈ deleted h).
Definition room (n : nat) h : bool := Z.of_nat (size (ptr_ h) + n) <? 2 ^ 64.
(** What a program may do: name variables and objects that are there, or new ones. *)
Definition enabled (k : op) h : bool :=
  match k with
  | ONew l ms => negb (used l h) && forallb (fun m => fresh m h) ms && bool_decide (NoDup ms) && room (length ms) h
  | ONull v => fresh v h && room 1 h
  | ORaw v l => fresh v h && bool_decide (is_Some (objects h !! l)) && room 1 h
  | OCopy v r | OMove v r => fresh v h && alive r h && room 1 h
  | OAssign v r t | OAssignMove v r t => alive v h && alive r h && fresh t h && room 1 h
  | ODestroy v => alive v h && negb (owned v h)
  end.
Definition empty : heap := Heap ∅ ∅ [].
Inductive reach : heap -> Prop :=
| reach_empty : reach empty
| reach_step k h h' : reach h -> enabled k h = true -> exec k h = Ok h' -> reach h'.

(** * Invariant *)

(** The pointers to an object. *)
Definition points l (p : option loc) : bool := bool_decide (p = Some l).
Definition pointers l h : Z := countZ (points l) (ptr_ h).

Lemma points_self l : points l (Some l) = true.
Proof. unfold points. by rewrite bool_decide_true. Qed.
Lemma points_other l l' : l <> l' -> points l (Some l') = false.
Proof. intros. unfold points. rewrite bool_decide_false; [done|congruence]. Qed.
Lemma points_null l : points l None = false.
Proof. done. Qed.

(** [vs] are variables about to be destroyed, which no object owns (any longer). *)
Record wf (vs : list var) h : Prop := {
  wf_count : forall l o, objects h !! l = Some o -> refCount_ o = pointers l h;
  wf_live : forall v l, ptr_ h !! v = Some (Some l) -> is_Some (objects h !! l);
  wf_adopted : forall l o, objects h !! l = Some o -> adopted_ o = true <-> 0 < refCount_ o;
  wf_members : forall l o v, objects h !! l = Some o -> v ∈ members o -> is_Some (ptr_ h !! v);
  wf_nodup : forall l o, objects h !! l = Some o -> NoDup (members o);
  wf_owner : forall l l' o o' v, objects h !! l = Some o -> objects h !! l' = Some o' ->
    v ∈ members o -> v ∈ members o' -> l = l';
  wf_pending : NoDup vs /\ forall v, v ∈ vs -> is_Some (ptr_ h !! v);
  wf_free : forall l o v, objects h !! l = Some o -> v ∈ vs -> v ∉ members o;
  wf_deleted : NoDup (deleted h) /\ forall l, l ∈ deleted h -> objects h !! l = None;
  wf_room : Z.of_nat (size (ptr_ h)) < 2 ^ 64 }.

Lemma pointers_room l h vs : wf vs h -> 0 <= pointers l h < 2 ^ 64.
Proof.
  intros HW. pose proof (wf_room _ _ HW). pose proof (countZ_nonneg (points l) (ptr_ h)).
  pose proof (countZ_le_size (points l) (ptr_ h)). unfold pointers. lia.
Qed.

Lemma wf_weaken vs vs' h : wf vs h -> NoDup vs' -> (forall v, v ∈ vs' -> v ∈ vs) -> wf vs' h.
Proof. intros [] Hn Hs. split; try done. - split; [done|]. intros v Hv. by apply wf_pending0, Hs. - eauto. Qed.

(** The pointers to [l] once [v] is gone. *)
Lemma pointers_remove l v p h : ptr_ h !! v = Some p -> pointers l (remove_var v h) = pointers l h - Z.b2z (points l p).
Proof. intros Hv. unfold pointers. cbn. by rewrite countZ_delete, Hv. Qed.
Lemma pointers_set l v p h :
  pointers l (set_ptr v p h) = pointers l h - weight (points l) (ptr_ h !! v) + Z.b2z (points l p).
Proof. unfold pointers. cbn. by rewrite countZ_insert. Qed.

(** A variable that nobody owns goes away, with the count of its object. *)
Lemma wf_drop_null v vs h : wf (v :: vs) h -> ptr_ h !! v = Some None -> wf vs (remove_var v h).
Proof.
  intros [] Hv. destruct wf_pending0 as [[Hnv Hnd]%NoDup_cons Hp]. split; cbn.
  - intros l o Ho. rewrite (pointers_remove l v None h Hv), (wf_count0 _ _ Ho), points_null. cbn. lia.
  - intros v' l [_ Hv']%lookup_delete_Some. eauto.
  - done.
  - intros l o v' Ho Hv'. rewrite lookup_delete_ne; [eauto|]. intros ->. by eapply (wf_free0 l o v'); [done|left|].
  - done.
  - done.
  - split; [done|]. intros v' Hv'. rewrite lookup_delete_ne by congruence. apply Hp. by right.
  - intros l o v' Ho Hv'. apply (wf_free0 l o v' Ho). by right.
  - done.
  - rewrite map_size_delete, Hv. cbn. lia.
Qed.

Lemma counted v l o vs h : wf vs h -> ptr_ h !! v = Some (Some l) -> objects h !! l = Some o -> 1 <= refCount_ o < 2 ^ 64.
Proof.
  intros HW Hv Ho. rewrite (wf_count _ _ HW _ _ Ho). pose proof (pointers_room l h vs HW).
  pose proof (countZ_weight_le (points l) (ptr_ h) v) as H1. rewrite Hv in H1. cbn [weight] in H1.
  rewrite points_self in H1. unfold pointers in *. cbn in H1. lia.
Qed.
Lemma to_word_pred z : 1 <= z < 2 ^ 64 -> to_word (z - 1) = z - 1.
Proof. intros. apply to_word_small. lia. Qed.

Lemma wf_drop_some v vs l o h :
  wf (v :: vs) h -> ptr_ h !! v = Some (Some l) -> objects h !! l = Some o -> refCount_ o <> 1 ->
  wf vs (set_object l (Object (refCount_ o - 1) (members o) (adopted_ o)) (remove_var v h)).
Proof.
  intros HW Hv Ho Hn. pose proof (counted _ _ _ _ _ HW Hv Ho) as Hc. destruct HW.
  destruct wf_pending0 as [[Hnv Hnd]%NoDup_cons Hp].
  assert (Hm : forall l' o', <[l:=Object (refCount_ o - 1) (members o) (adopted_ o)]> (objects h) !! l' = Some o' ->
    exists o0, objects h !! l' = Some o0 /\ members o' = members o0).
  { intros l' o' [[<- <-]|[_ Ho']]%lookup_insert_Some; [by exists o|by exists o']. }
  split; cbn.
  - intros l' o' Ho'. change (pointers l' (set_object l _ ?h)) with (pointers l' h). rewrite (pointers_remove l' v (Some l) h Hv).
    apply lookup_insert_Some in Ho' as [[<- <-]|[Hne Ho']]; cbn [refCount_].
    + rewrite points_self, (wf_count0 _ _ Ho). cbn. lia.
    + rewrite points_other by done. rewrite (wf_count0 _ _ Ho'). cbn. lia.
  - intros v' l' [_ Hv']%lookup_delete_Some. rewrite lookup_insert_is_Some'. right. eauto.
  - intros l' o' [[<- <-]|[_ Ho']]%lookup_insert_Some; [|eauto]. cbn. rewrite (wf_adopted0 _ _ Ho). lia.
  - intros l' o' v' (o0 & Ho0 & ->)%Hm Hv'. rewrite lookup_delete_ne; [eauto|]. intros ->.
    by eapply (wf_free0 l' o0 v'); [done|left|].
  - intros l' o' (o0 & Ho0 & ->)%Hm. eauto.
  - intros l1 l2 o1 o2 v' (o3 & H3 & ->)%Hm (o4 & H4 & ->)%Hm. eauto.
  - split; [done|]. intros v' Hv'. rewrite lookup_delete_ne by congruence. apply Hp. by right.
  - intros l' o' v' (o0 & Ho0 & ->)%Hm Hv'. apply (wf_free0 l' o0 v' Ho0). by right.
  - destruct wf_deleted0 as [? Hd]. split; [done|]. intros l' Hl'. rewrite lookup_insert_ne; [by apply Hd|].
    intros ->. rewrite Hd in Ho; done.
  - rewrite map_size_delete, Hv. cbn. lia.
Qed.

(** The last pointer to an object goes away, and the object with it. *)
Lemma wf_drop_last v vs l o h :
  wf (v :: vs) h -> ptr_ h !! v = Some (Some l) -> objects h !! l = Some o -> refCount_ o = 1 ->
  wf (members o ++ vs) (remove_object l (remove_var v h)).
Proof.
  intros HW Hv Ho Hn. destruct HW. destruct wf_pending0 as [[Hnv Hnd]%NoDup_cons Hp].
  assert (Hz : pointers l (remove_var v h) = 0).
  { rewrite (pointers_remove l v (Some l) h Hv), points_self, <- (wf_count0 _ _ Ho), Hn. done. }
  assert (Hvm : forall l' o', objects h !! l' = Some o' -> v ∉ members o') by (intros; eapply wf_free0; [done|by left]).
  split; cbn.
  - intros l' o' [Hne Ho']%lookup_delete_Some. change (pointers l' (remove_object l ?h)) with (pointers l' h).
    rewrite (pointers_remove l' v (Some l) h Hv), points_other by done. rewrite (wf_count0 _ _ Ho'). cbn. lia.
  - intros v' l' Hv'. destruct (decide (l' = l)) as [->|Hne].
    + pose proof (countZ_weight_le (points l) (delete v (ptr_ h)) v') as H1. rewrite Hv' in H1. cbn [weight] in H1.
      rewrite points_self in H1. unfold pointers in Hz. cbn in Hz, H1. lia.
    + rewrite lookup_delete_ne by done. apply lookup_delete_Some in Hv' as [_ Hv']. eauto.
  - intros l' o' [_ Ho']%lookup_delete_Some. eauto.
  - intros l' o' v' [_ Ho']%lookup_delete_Some Hv'. rewrite lookup_delete_ne; [eauto|]. intros ->. by eapply Hvm.
  - intros l' o' [_ Ho']%lookup_delete_Some. eauto.
  - intros l1 l2 o1 o2 v' [_ H1]%lookup_delete_Some [_ H2]%lookup_delete_Some. eauto.
  - split.
    + apply NoDup_app. split_and!; [eauto| |done]. intros v' Hv' Hin. eapply (wf_free0 l o v'); [done|by right|done].
    + intros v' [Hv'|Hv']%elem_of_app; rewrite lookup_delete_ne.
      * eauto.
      * intros ->. by eapply Hvm.
      * apply Hp. by right.
      * congruence.
  - intros l' o' v' [Hne Ho']%lookup_delete_Some [Hv'|Hv']%elem_of_app Hin.
    + apply Hne. by eapply (wf_owner0 l l' o o' v').
    + eapply (wf_free0 l' o' v'); [done|by right|done].
  - destruct wf_deleted0 as [Hd Hd']. split.
    + apply NoDup_app. split_and!; [done| |apply NoDup_singleton]. intros l' Hl' ->%list_elem_of_singleton.
      rewrite Hd' in Ho; done.
    + intros l' [Hl'| ->%list_elem_of_singleton]%elem_of_app; [|apply lookup_delete_eq].
      apply lookup_delete_None. right. by apply Hd'.
  - rewrite map_size_delete, Hv. cbn. lia.
Qed.

Lemma destroy_all_ok fuel vs rest h :
  wf (vs ++ rest) h -> (size (ptr_ h) < fuel)%nat ->
  exists h', destroy_all fuel vs h = Ok h' /\ wf rest h' /\ (size (ptr_ h') + length vs <= size (ptr_ h))%nat.
Proof.
  revert vs rest h. induction fuel as [|fuel IH]; intros vs rest h HW Hf; [lia|].
  destruct vs as [|v vs]; [by exists h; split_and!; [|done|cbn; lia]|].
  destruct (proj2 (wf_pending _ _ HW) v) as [p Hv]; [by left|]. cbn [destroy_all]. unfold get. rewrite Hv. res_cbn.
  assert (Hsz : size (ptr_ (remove_var v h)) = (size (ptr_ h) - 1)%nat /\ (0 < size (ptr_ h))%nat).
  { cbn. rewrite map_size_delete, Hv. split; [cbn; lia|]. assert (size (ptr_ h) <> 0%nat); [|lia].
    intros E%map_size_empty_inv. by rewrite E, lookup_empty in Hv. }
  destruct p as [l|].
  - destruct (wf_live _ _ HW v l Hv) as [o Ho]. cbn [objects remove_var]. rewrite Ho. res_cbn.
    pose proof (counted _ _ _ _ _ HW Hv Ho) as Hc. rewrite to_word_pred by done.
    destruct (Z.eqb_spec (refCount_ o - 1) 0) as [E|E].
    + pose proof (wf_drop_last v (vs ++ rest) l o h HW Hv Ho ltac:(lia)) as HW1.
      destruct (IH (members o) (vs ++ rest) _ HW1) as (h1 & -> & HW2 & Hs2); [cbn in *; lia|]. res_cbn.
      destruct (IH vs rest h1 HW2) as (h2 & -> & HW3 & Hs3); [cbn in *; lia|].
      exists h2. split_and!; [done|done|cbn in *; lia].
    + destruct (IH vs rest _ (wf_drop_some v (vs ++ rest) l o h HW Hv Ho ltac:(lia))) as (h2 & E2 & HW3 & Hs3); [cbn in *; lia|].
      exists h2. split_and!; [done|done|cbn in *; lia].
  - destruct (IH vs rest _ (wf_drop_null v (vs ++ rest) h HW Hv)) as (h2 & E2 & HW3 & Hs3); [lia|].
    exists h2. split_and!; [done|done|cbn in *; lia].
Qed.

(** ** Operations *)

Lemma insert_alive {A} (m : gmap positive A) k k' x : is_Some (m !! k') -> is_Some (<[k:=x]> m !! k').
Proof. intros. apply lookup_insert_is_Some'. by right. Qed.

Lemma alive_ne {A} (m : gmap positive A) v t : is_Some (m !! v) -> m !! t = None -> v <> t.
Proof. intros [x Hx] Ht ->. congruence. Qed.
Lemma pointers_dead vs l h : wf vs h -> objects h !! l = None -> pointers l h = 0.
Proof.
  intros HW Ho. unfold pointers. rewrite <- (countZ_empty (K:=var) (points l)). apply countZ_ext.
  intros v. rewrite lookup_empty. destruct (ptr_ h !! v) as [[l'|]|] eqn:Hv; [|done..]. cbn.
  rewrite points_other; [done|]. intros <-. destruct (wf_live _ _ HW _ _ Hv) as [? Hx]. congruence.
Qed.

(** A change of the pointers that leaves them as many to each object, and takes no
    variable away. *)
Lemma wf_ptrs vs h h' :
  wf vs h -> objects h' = objects h -> deleted h' = deleted h ->
  (forall l, pointers l h' = pointers l h) ->
  (forall v, is_Some (ptr_ h !! v) -> is_Some (ptr_ h' !! v)) ->
  Z.of_nat (size (ptr_ h')) < 2 ^ 64 -> wf vs h'.
Proof.
  intros HW. pose proof HW as []. intros Eo Ed Hc Hd Hr. split; rewrite ?Eo, ?Ed; try done.
  - intros l o Ho. rewrite Hc. eauto.
  - intros v l Hv. destruct (objects h !! l) as [o|] eqn:Ho; [done|exfalso].
    pose proof (pointers_dead vs l h HW Ho) as Hz. pose proof (Hc l) as Hcl.
    pose proof (countZ_weight_le (points l) (ptr_ h') v) as H1. rewrite Hv in H1. cbn [weight] in H1.
    rewrite points_self in H1. unfold pointers in *. cbn in H1. lia.
  - eauto.
  - destruct wf_pending0. auto.
Qed.

Lemma wf_new_null vs v h :
  wf vs h -> ptr_ h !! v = None -> Z.of_nat (size (ptr_ h) + 1) < 2 ^ 64 -> wf vs (set_ptr v None h).
Proof.
  intros HW Hv Hr. apply (wf_ptrs vs h); try done.
  - intros l. rewrite pointers_set, Hv, points_null. cbn. lia.
  - intros v'. apply insert_alive.
  - cbn. rewrite map_size_insert_None by done. lia.
Qed.

Lemma wf_new_some vs v l o h :
  wf vs h -> ptr_ h !! v = None -> objects h !! l = Some o -> Z.of_nat (size (ptr_ h) + 1) < 2 ^ 64 ->
  wf vs (set_object l (Object (refCount_ o + 1) (members o) true) (set_ptr v (Some l) h)).
Proof.
  intros HW Hv Ho Hr. pose proof (pointers_room l h vs HW) as Hp. destruct HW.
  assert (Hm : forall l' o', <[l:=Object (refCount_ o + 1) (members o) true]> (objects h) !! l' = Some o' ->
    exists o0, objects h !! l' = Some o0 /\ members o' = members o0).
  { intros l' o' [[<- <-]|[_ Ho']]%lookup_insert_Some; [by exists o|by exists o']. }
  split; cbn.
  - intros l' o' Ho'. change (pointers l' (set_object l _ ?h)) with (pointers l' h).
    rewrite pointers_set, Hv. apply lookup_insert_Some in Ho' as [[<- <-]|[Hne Ho']]; cbn [refCount_ weight].
    + rewrite points_self, (wf_count0 _ _ Ho). cbn. lia.
    + rewrite points_other by done. rewrite (wf_count0 _ _ Ho'). cbn. lia.
  - intros v' l' [[<- [= <-]]|[_ Hv']]%lookup_insert_Some; rewrite lookup_insert_is_Some'; [by left|right; eauto].
  - intros l' o' [[<- <-]|[_ Ho']]%lookup_insert_Some; [|eauto]. cbn. rewrite (wf_count0 _ _ Ho). split; [lia|done].
  - intros l' o' v' (o0 & Ho0 & ->)%Hm Hv'. apply insert_alive. eauto.
  - intros l' o' (o0 & Ho0 & ->)%Hm. eauto.
  - intros l1 l2 o1 o2 v' (o3 & H3 & ->)%Hm (o4 & H4 & ->)%Hm. eauto.
  - destruct wf_pending0. split; [done|]. intros v' Hv'. apply insert_alive. auto.
  - intros l' o' v' (o0 & Ho0 & ->)%Hm. eauto.
  - destruct wf_deleted0 as [? Hd]. split; [done|]. intros l' Hl'. rewrite lookup_insert_ne; [by apply Hd|].
    intros ->. rewrite Hd in Ho; done.
  - rewrite map_size_insert_None by done. lia.
Qed.

(** A variable that is there, and no member, may be destroyed. *)
Lemma wf_push vs v h :
  wf vs h -> is_Some (ptr_ h !! v) -> v ∉ vs -> (forall l o, objects h !! l = Some o -> v ∉ members o) -> wf (v :: vs) h.
Proof.
  intros [] Hv Hn Ho. destruct wf_pending0. split; try done.
  - split; [by constructor|]. intros v' [-> |?]%elem_of_cons; auto.
  - intros l o v' Hl [-> |?]%elem_of_cons; eauto.
Qed.
Lemma fresh_unowned vs v h : wf vs h -> ptr_ h !! v = None -> forall l o, objects h !! l = Some o -> v ∉ members o.
Proof. intros HW Hv l o Ho Hin. destruct (wf_members _ _ HW l o v Ho Hin). congruence. Qed.

Lemma new_copy_ok v r h :
  wf [] h -> ptr_ h !! v = None -> is_Some (ptr_ h !! r) -> Z.of_nat (size (ptr_ h) + 1) < 2 ^ 64 ->
  exists h', new_copy v r h = Ok h' /\ wf [] h' /\ ptr_ h' = <[v := default None (ptr_ h !! r)]> (ptr_ h) /\
    (forall l o, objects h' !! l = Some o -> exists o0, objects h !! l = Some o0 /\ members o = members o0).
Proof.
  intros HW Hv [p Hp] Hr. unfold new_copy, get, construct. rewrite Hp, Hv. res_cbn. rewrite bool_decide_true by done. res_cbn.
  destruct p as [l|]; cbn [ref].
  - destruct (wf_live _ _ HW _ _ Hp) as [o Ho]. cbn [objects set_ptr]. rewrite Ho. res_cbn.
    pose proof (pointers_room l _ _ HW). pose proof (countZ_le_size (points l) (ptr_ h)). pose proof (wf_count _ _ HW _ _ Ho) as Hc.
    rewrite to_word_small by (unfold pointers in *; lia).
    eexists. split; [done|]. split_and!; [by apply wf_new_some|done|].
    cbn. intros l' o' [[<- <-]|[_ Ho']]%lookup_insert_Some; [by exists o|by exists o'].
  - eexists. split; [done|]. split_and!; [by apply wf_new_null|done|]. eauto.
Qed.
Lemma new_move_ok v r h :
  wf [] h -> ptr_ h !! v = None -> is_Some (ptr_ h !! r) -> Z.of_nat (size (ptr_ h) + 1) < 2 ^ 64 ->
  exists h', new_move v r h = Ok h' /\ wf [] h' /\ ptr_ h' = <[v := default None (ptr_ h !! r)]> (<[r := None]> (ptr_ h)) /\
    objects h' = objects h.
Proof.
  intros HW Hv [p Hp] Hr. assert (Hne : r <> v) by congruence. unfold new_move, get, construct. rewrite Hp. res_cbn.
  cbn [ptr_ set_ptr]. rewrite lookup_insert_ne, Hv, bool_decide_true by done. res_cbn.
  eexists. split; [done|]. split_and!; [|done|done]. apply (wf_ptrs [] h); try done.
  - intros l. rewrite !pointers_set, Hp. cbn [ptr_ set_ptr]. rewrite lookup_insert_ne, Hv, points_null by done. cbn. lia.
  - intros v' Hv'. cbn. by do 2 apply insert_alive.
  - cbn. rewrite map_size_insert_None by (by rewrite lookup_insert_ne). rewrite map_size_insert_Some by done. lia.
Qed.
Lemma swap_ok v t h :
  wf [] h -> v <> t -> is_Some (ptr_ h !! v) -> is_Some (ptr_ h !! t) ->
  exists h', swap v t h = Ok h' /\ wf [] h' /\ objects h' = objects h /\
    ptr_ h' = <[t := default None (ptr_ h !! v)]> (<[v := default None (ptr_ h !! t)]> (ptr_ h)).
Proof.
  intros HW Hne [p Hp] [q Hq]. unfold swap, get. rewrite Hp, Hq. res_cbn. eexists. split; [done|]. split_and!; [|done|done].
  apply (wf_ptrs [] h); try done.
  - intros l. rewrite !pointers_set. cbn [ptr_ set_ptr]. rewrite lookup_insert_ne, Hp, Hq by done. cbn. lia.
  - intros v' Hv'. cbn. by do 2 apply insert_alive.
  - cbn. rewrite !map_size_insert_Some; [apply (wf_room _ _ HW)|done|by rewrite lookup_insert_ne].
Qed.
Lemma destroy_one_ok v h :
  wf [] h -> is_Some (ptr_ h !! v) -> (forall l o, objects h !! l = Some o -> v ∉ members o) ->
  exists h', destroy v h = Ok h' /\ wf [] h'.
Proof.
  intros HW Hv Ho. destruct (destroy_all_ok (S (size (ptr_ h))) [v] [] h) as (h' & E & HW' & _); [|lia|eauto].
  rewrite app_nil_r. apply wf_push; [done|done|apply not_elem_of_nil|done].
Qed.

Lemma construct_all_ok ms h :
  wf [] h -> NoDup ms -> (forall m, m ∈ ms -> ptr_ h !! m = None) -> Z.of_nat (size (ptr_ h) + length ms) < 2 ^ 64 ->
  exists h', construct_all ms h = Ok h' /\ wf [] h' /\ objects h' = objects h /\ deleted h' = deleted h /\
    (forall m, m ∈ ms -> ptr_ h' !! m = Some None) /\ (forall v, v ∉ ms -> ptr_ h' !! v = ptr_ h !! v).
Proof.
  revert h. induction ms as [|m ms IH]; intros h HW Hnd Hms Hr; cbn [construct_all].
  { exists h. split_and!; try done. by intros m ?%elem_of_nil. }
  apply NoDup_cons in Hnd as [Hm Hnd]. cbn [length] in Hr. assert (Hn : ptr_ h !! m = None) by (apply Hms; by left).
  unfold new_null, construct. rewrite Hn, bool_decide_true by done. res_cbn.
  destruct (IH (set_ptr m None h)) as (h' & -> & HW' & Eo & Ed & H1 & H2).
  - apply wf_new_null; [done|done|lia].
  - done.
  - intros m' Hm'. cbn. rewrite lookup_insert_ne by congruence. apply Hms. by right.
  - cbn. rewrite map_size_insert_None by done. lia.
  - exists h'. split_and!; try done.
    + intros m' [-> |Hm']%elem_of_cons; [|by apply H1]. rewrite H2 by done. cbn. apply lookup_insert_eq.
    + intros v [Hv1 Hv2]%not_elem_of_cons. rewrite H2 by done. cbn. by apply lookup_insert_ne.
Qed.

Lemma new_object_ok l ms h :
  wf [] h -> objects h !! l = None -> l ∉ deleted h -> NoDup ms -> (forall m, m ∈ ms -> ptr_ h !! m = None) ->
  Z.of_nat (size (ptr_ h) + length ms) < 2 ^ 64 -> exists h', new_object l ms h = Ok h' /\ wf [] h'.
Proof.
  intros HW Ho Hd Hnd Hms Hr. unfold new_object.
  destruct (construct_all_ok ms h HW Hnd Hms Hr) as (h1 & -> & HW1 & Eo & Ed & Hin & _). res_cbn. eexists. split; [done|].
  assert (Hno : forall l' o' m, objects h1 !! l' = Some o' -> m ∈ members o' -> m ∉ ms).
  { intros l' o' m Ho' Hm Hm'. rewrite Eo in Ho'. by eapply (fresh_unowned [] m h HW (Hms m Hm')). }
  pose proof (pointers_dead [] l h1 HW1) as Hz. rewrite Eo in Hz. specialize (Hz Ho). destruct HW1. split; cbn; try done.
  - intros l' o' [[<- <-]|[_ Ho']]%lookup_insert_Some; [by rewrite <- Hz|by apply wf_count0].
  - intros v l' Hv. apply insert_alive. eauto.
  - intros l' o' [[<- <-]|[_ Ho']]%lookup_insert_Some; [done|eauto].
  - intros l' o' v [[<- <-]|[_ Ho']]%lookup_insert_Some Hv; [|eauto]. cbn in Hv. rewrite Hin by done. eauto.
  - intros l' o' [[<- <-]|[_ Ho']]%lookup_insert_Some; [done|eauto].
  - intros l1 l2 o1 o2 v [[<- <-]|[_ H1]]%lookup_insert_Some [[<- <-]|[_ H2]]%lookup_insert_Some Hv1 Hv2;
      [done|exfalso; by eapply Hno|exfalso; by eapply Hno|eauto].
  - intros l' o' v _ Hv. by apply elem_of_nil in Hv.
  - destruct wf_deleted0 as [Hnd' Hd']. split; [done|]. intros l' Hl'. rewrite lookup_insert_ne; [by apply Hd'|].
    intros ->. by rewrite Ed in Hl'.
Qed.

(** [operator=], whichever way the parameter was constructed. *)
Lemma assign_ok v t h :
  wf [] h -> v <> t -> is_Some (ptr_ h !! v) -> is_Some (ptr_ h !! t) ->
  (forall l o, objects h !! l = Some o -> t ∉ members o) -> exists h', (h ← swap v t h; destroy t h) = Ok h' /\ wf [] h'.
Proof.
  intros HW Hne Hv Ht Ho. destruct (swap_ok v t h HW Hne Hv Ht) as (h1 & -> & HW1 & Eo & Ep). res_cbn.
  apply destroy_one_ok; [done|rewrite Ep; rewrite lookup_insert_eq; eauto|by rewrite Eo].
Qed.

Lemma exec_ok k h : wf [] h -> enabled k h = true -> exists h', exec k h = Ok h' /\ wf [] h'.
Proof.
  intros HW. unfold enabled, fresh, alive, owned, used, room.
  destruct k as [l ms|v|v l|v r|v r|v r t|v r t|v]; cbn [exec]; rewrite ?andb_true_iff, ?negb_true_iff, ?orb_false_iff;
    repeat setoid_rewrite bool_decide_eq_false; rewrite ?bool_decide_eq_true, ?bool_decide_eq_false, ?Z.ltb_lt.
  all: intros He; repeat match goal with H : _ /\ _ |- _ => destruct H end;
    repeat match goal with H : ~ is_Some _ |- _ => apply eq_None_not_Some in H end.
  - apply new_object_ok; try done. intros m Hm. rewrite forallb_forall in H2. apply list_elem_of_In, H2 in Hm.
    apply negb_true_iff, bool_decide_eq_false in Hm. by apply eq_None_not_Some.
  - unfold new_null, construct. rewrite H, bool_decide_true by done. res_cbn. eexists. split; [done|]. by apply wf_new_null.
  - destruct H1 as [o Ho]. unfold new_raw, construct. rewrite H, bool_decide_true by done. res_cbn. cbn [ref objects set_ptr].
    rewrite Ho. res_cbn. pose proof (pointers_room l _ _ HW). pose proof (countZ_le_size (points l) (ptr_ h)).
    pose proof (wf_count _ _ HW _ _ Ho). rewrite to_word_small by (unfold pointers in *; lia).
    eexists. split; [done|]. by apply wf_new_some.
  - destruct (new_copy_ok v r h HW) as (h' & E & HW' & _); eauto.
  - destruct (new_move_ok v r h HW) as (h' & E & HW' & _); eauto.
  - unfold assign_copy. destruct (new_copy_ok t r h HW) as (h' & -> & HW' & Ep & Ho); [done..|]. res_cbn.
    apply assign_ok; [done|by eapply alive_ne| | |].
    + rewrite Ep. by apply insert_alive.
    + rewrite Ep, lookup_insert_eq. eauto.
    + intros l o (o0 & Ho0 & ->)%Ho. by eapply (fresh_unowned [] t h HW).
  - unfold assign_move. destruct (new_move_ok t r h HW) as (h' & -> & HW' & Ep & Ho); [done..|]. res_cbn.
    apply assign_ok; [done|by eapply alive_ne| | |].
    + rewrite Ep. by do 2 apply insert_alive.
    + rewrite Ep, lookup_insert_eq. eauto.
    + intros l o Hl. rewrite Ho in Hl. by eapply (fresh_unowned [] t h HW).
  - apply destroy_one_ok; [done|done|]. intros l o Ho Hv. by apply H0; exists l, o.
Qed.

Lemma reach_wf h : reach h -> wf [] h.
Proof.
  induction 1 as [|k h h' Hr IH He Hx]; [|destruct (exec_ok k h IH He) as (h2 & E & ?); congruence].
  split; cbn; try done.
  all: try (intros *; rewrite lookup_empty; done).
  - split; [apply NoDup_nil_2|]. by intros v ?%elem_of_nil.
  - split; [apply NoDup_nil_2|]. by intros l ?%elem_of_nil.
Qed.

(** C39.  Whatever a program does with objects and [IntrusivePtr]s
    that are alive - copies, moves and assignments in any order, of a pointer to
    itself, of members of an object that goes away meanwhile - no operation fails:
    none touches an object after its deletion, none runs forever.  The count of an
    object is the number of pointers to it; an object that has been held is alive
    as long as there is one, no longer, and is deleted once.  No pointer dangles. *)
Theorem refcount_exact h :
  reach h ->
  (forall k, enabled k h = true -> exists h', exec k h = Ok h') /\
  (forall l o, objects h !! l = Some o -> refCount_ o = pointers l h /\ (adopted_ o = true <-> 0 < pointers l h)) /\
  (forall l, l ∈ deleted h -> objects h !! l = None /\ pointers l h = 0) /\ NoDup (deleted h) /\
  (forall v l, ptr_ h !! v = Some (Some l) -> is_Some (objects h !! l)).
Proof.
  intros HW%reach_wf. split_and!.
  - intros k Hk. destruct (exec_ok k h HW Hk) as (h' & E & _). by exists h'.
  - intros l o Ho. rewrite <- (wf_count _ _ HW _ _ Ho). split; [done|]. by apply (wf_adopted _ _ HW l o).
  - intros l Hl. pose proof (proj2 (wf_deleted _ _ HW) l Hl) as Ho. split; [done|]. by apply (pointers_dead [] l h HW).
  - apply (wf_deleted _ _ HW).
  - intros v l. apply (wf_live _ _ HW).
Qed.

(** * Runs *)

Fixpoint play (ks : list op) h : option heap :=
  match ks with
  | [] => Some h
  | k :: ks => if enabled k h then match exec k h with Ok h => play ks h | Fault _ => None end else None
  end.
Lemma play_reach ks h h' : reach h -> play ks h = Some h' -> reach h'.
Proof.
  revert h. induction ks as [|k ks IH]; intros h Hr; cbn [play]; [by intros [= <-]|].
  destruct (enabled k h) eqn:He; [|done]. destruct (exec k h) as [h1|] eqn:Ex; [|done].
  apply IH. by apply (reach_step k h).
Qed.

(** A list of three objects: 10 points to 20, that to 30; variable 1 holds the first. *)
Definition chain : list op :=
  [ONew 10 [11]; ONew 20 [21]; ONew 30 [31]; ORaw 1 10; ORaw 2 20; OAssignMove 11 2 9; ORaw 3 30; OAssign 21 3 9;
   ODestroy 2]%positive.
Definition after_chain : heap := default empty (play chain empty).
Lemma after_chain_reach : reach after_chain.
Proof. apply (play_reach chain empty); [apply reach_empty|vm_compute; reflexivity]. Qed.
Lemma refcount_exact_witness : exists h', exec (ODestroy 1%positive) after_chain = Ok h'.
Proof. destruct (refcount_exact after_chain after_chain_reach) as [H _]. apply H. vm_compute. reflexivity. Defined.

(** The last pointer to the first object takes the second along, not the third, which
    variable 3 holds too. *)
Example chain_goes :
  (fun h => (deleted h, refCount_ <$> objects h !! 30%positive)) <$> play [ODestroy 1%positive] after_chain =
    Some ([10; 20]%positive, Some 1).
Proof. vm_compute. reflexivity. Qed.
(** [p = p], [p = std::move(p)] *)
Example self_assignment :
  (fun h => (deleted h, ptr_ h !! 1%positive, refCount_ <$> objects h !! 10%positive)) <$>
    play [OAssign 1 1 9; OAssignMove 1 1 9]%positive after_chain = Some ([], Some (Some 10%positive), Some 1).
Proof. vm_compute. reflexivity. Qed.
(** [head = std::move(head->next)], where the old head owns what is moved from. *)
Example head_moves_on :
  (fun h => (deleted h, ptr_ h !! 1%positive)) <$> play [OAssignMove 1 11 9]%positive after_chain =
    Some ([10]%positive, Some (Some 20%positive)).
Proof. vm_compute. reflexivity. Qed.
(** Objects that hold each other are never deleted. *)
Example cycle_stays :
  (fun h => (deleted h, refCount_ <$> objects h !! 10%positive)) <$>
    play [OCopy 4 1; OAssignMove 31 4 9; ODestroy 1; ODestroy 3]%positive after_chain = Some ([], Some 1).
Proof. vm_compute. reflexivity. Qed.
