(* ===== verification/Concepts.v ===== *)
(** [concepts.h]: what the library may assume of an awaiter, from its type.

    A class is the list of [await_*()] methods it declares, each with the type it
    returns ([cls]).  The concepts are predicates on classes.  The awaiter classes of
    the library are given as they are declared; those that are templates over other
    awaiters - adapters, sequences, shared operations, combiners - as functions that
    fail when a constraint, a [static_assert] or the deduction of a return type does.
    Of results we know whether they are [void], which error policy their type names, and
    whether they can be copied.  [expr] are
    the awaitables that can be put together from all of these. *)
From S2P Require Import Awaiter Mux.

(** * Classes *)

(** Error policies: the two of the library and any number of the user's, of which we
    say whether [unwrapValue<Void>()] is well-formed. *)
Inductive policy := UseExceptions | Infallible | UserPolicy (n : N) (takes_void : bool).
#[export] Instance policy_eq_dec : EqDecision policy.
Proof. solve_decision. Defined.
Definition DefaultErrorPolicy : policy := UseExceptions.

(** Return types, as far as they are told apart: [TTrue] and [TFalse] are
    [std::true_type] and [std::false_type]; of a class we say which policy
    [UseErrorPolicy] names for it, and whether its objects (and the values in it) can be
    copied. *)
Inductive ty := TVoid | TBool | TTrue | TFalse | THandle | TObject (own : policy) (copyable : bool).
Notation TOther := (TObject DefaultErrorPolicy true).
#[export] Instance ty_eq_dec : EqDecision ty.
Proof. solve_decision. Defined.
Definition same_as (t u : ty) : bool := bool_decide (t = u).
Definition same_as_any (ts : list ty) (t : ty) : bool := existsb (same_as t) ts.
(** The two constants convert to [bool]. *)
Definition convertible_to (t u : ty) : bool :=
  same_as t u || (same_as u TBool && same_as_any [TTrue; TFalse] t).
Definition convertible_to_any (ts : list ty) (t : ty) : bool := existsb (convertible_to t) ts.

Definition UseErrorPolicy (t : ty) : policy :=
  match t with TObject p _ => p | _ => DefaultErrorPolicy end.
Definition CopyConstructible (t : ty) : bool := match t with TObject _ b => b | _ => true end.
(** [Void] stands for [void]. *)
Definition InhabitedType (t : ty) : ty := if same_as t TVoid then TOther else t.

(** A method: whether the call that a concept spells out is well-formed ([callable]),
    and whether its name alone is ([named]; it is not for a template). *)
Record method := Method { ret : ty; is_noexcept : bool; callable : bool; named : bool }.
Record cls := Cls {
  await_ready : option method;
  await_suspend : option method;
  await_resume : option method;
  await_cancel : option method;
  await_early_cancel : option method;
  await_must_resume : option method;
  await_set_executor : option method;
  await_introspect : option method }.
Implicit Types (c d : cls) (m : option method).

(** [requires { { t.m(...) } -> P }], with [noexcept] or not, and [requires { &T::m }]. *)
Definition yields (P : ty -> bool) m : bool :=
  match m with Some m => callable m && P (ret m) | None => false end.
Definition yields_noexcept (P : ty -> bool) m : bool :=
  match m with Some m => callable m && is_noexcept m && P (ret m) | None => false end.
Definition has_name m : bool := match m with Some m => named m | None => false end.

(** * The concepts *)

Definition is_Awaiter c : bool :=
  yields_noexcept (same_as TBool) (await_ready c) &&
  yields (convertible_to_any [TVoid; TBool; THandle]) (await_suspend c) &&
  yields (fun _ => true) (await_resume c).
Definition Cancellable c : bool := yields_noexcept (same_as_any [TBool; TTrue]) (await_cancel c).
Definition CustomizesEarlyCancel c : bool :=
  yields_noexcept (same_as_any [TBool; TTrue]) (await_early_cancel c).
Definition CustomizesMustResume c : bool :=
  yields_noexcept (same_as_any [TBool; TFalse]) (await_must_resume c).
Definition CanRequireResume c : bool :=
  (negb (Cancellable c) && negb (CustomizesMustResume c)) ||
  yields_noexcept (same_as TBool) (await_must_resume c).
Definition ImplicitlySkippable c : bool := negb (CustomizesEarlyCancel c).
Definition Skippable c : bool :=
  ImplicitlySkippable c || yields_noexcept (same_as TTrue) (await_early_cancel c).
Definition Abortable c : bool := yields_noexcept (same_as TTrue) (await_cancel c).
Definition CancelAlwaysSucceeds c : bool :=
  (Skippable c && Abortable c) || yields_noexcept (same_as TFalse) (await_must_resume c).
Definition NeedsExecutor c : bool := yields_noexcept (same_as TVoid) (await_set_executor c).
Definition Introspectable c : bool := yields_noexcept (same_as TVoid) (await_introspect c).
Definition ValidAwaiter c : bool :=
  is_Awaiter c &&
  (negb (Cancellable c) || Abortable c || CustomizesMustResume c) &&
  (negb (CustomizesEarlyCancel c) || Skippable c || CustomizesMustResume c) &&
  ((CancelAlwaysSucceeds c && negb (CanRequireResume c)) ||
   (negb (CancelAlwaysSucceeds c) && CanRequireResume c)) &&
  (Cancellable c || CustomizesEarlyCancel c || negb (CustomizesMustResume c)) &&
  (Cancellable c || negb (has_name (await_cancel c))) &&
  (CustomizesEarlyCancel c || negb (has_name (await_early_cancel c))) &&
  (CustomizesMustResume c || negb (has_name (await_must_resume c))) &&
  (NeedsExecutor c || negb (has_name (await_set_executor c))) &&
  (Introspectable c || negb (has_name (await_introspect c))).

(** * The wrappers, and getting at an awaiter *)

Definition ret_of m : option ty := ret <$> m.
Definition static_assert (b : bool) : option unit := if b then Some () else None.

Definition type_awaitEarlyCancel c : option ty :=
  if CustomizesEarlyCancel c then ret_of (await_early_cancel c) else Some TTrue.
Definition type_awaitCancel c : option ty :=
  if Cancellable c then ret_of (await_cancel c) else Some TBool.
Definition type_awaitMustResume c : option ty :=
  if CustomizesMustResume c then ret_of (await_must_resume c)
  else if CancelAlwaysSucceeds c then Some TFalse
  else static_assert (negb (Cancellable c));; Some TBool.

(** What [co_await] is applied to: itself an awaiter, or something with an
    [operator co_await], as a member or not; [trusted] is [ThisIsAwaitableTrustMe]. *)
Record object := Object {
  itself : option cls; member_co_await : option cls; free_co_await : option cls; trusted : bool }.
Definition awaiter_of (o : option cls) : bool := match o with Some c => is_Awaiter c | None => false end.
Definition Awaitable (o : object) : bool :=
  awaiter_of (itself o) || awaiter_of (member_co_await o) || awaiter_of (free_co_await o) || trusted o.

Definition staticAwaiterCheck c : option unit := static_assert (ValidAwaiter c).
Definition getAwaiter (o : object) : option cls :=
  static_assert (Awaitable o);;
  if awaiter_of (itself o) then c ← itself o; staticAwaiterCheck c;; Some c
  else if awaiter_of (member_co_await o) then c ← member_co_await o; staticAwaiterCheck c;; Some c
  else if awaiter_of (free_co_await o) then c ← free_co_await o; staticAwaiterCheck c;; Some c
  else static_assert (negb (Awaitable o));; None.

(** * The classes of the library *)

(** [T m(...) noexcept], [T m(...)], and a member template [T m(auto&) noexcept]. *)
Definition decl (t : ty) : option method := Some (Method t true true true).
Definition throwing (t : ty) : option method := Some (Method t false true true).
Definition generic (t : ty) : option method := Some (Method t true true false).

(** An awaiter without the extensions, and what the optional methods add. *)
Definition plain (suspend resume : ty) : cls :=
  Cls (decl TBool) (throwing suspend) (throwing resume) None None None None None.
Definition cancel_as (cancel : option method) c : cls :=
  Cls (await_ready c) (await_suspend c) (await_resume c) cancel (await_early_cancel c) (await_must_resume c)
      (await_set_executor c) (await_introspect c).
Definition answers_as (cancel early must : option method) c : cls :=
  Cls (await_ready c) (await_suspend c) (await_resume c) cancel early must
      (await_set_executor c) (await_introspect c).
Definition with_executor c : cls :=
  Cls (await_ready c) (await_suspend c) (await_resume c) (await_cancel c) (await_early_cancel c)
      (await_must_resume c) (decl TVoid) (await_introspect c).
Definition introspected (i : option method) c : cls :=
  Cls (await_ready c) (await_suspend c) (await_resume c) (await_cancel c) (await_early_cancel c)
      (await_must_resume c) (await_set_executor c) i.

(** [ParkingLotImpl::Parked] adds an [await_cancel()] that always succeeds. *)
Definition Parked c : cls := cancel_as (decl TTrue) c.
Definition ParkingLot_Awaiter : cls := Parked (plain TVoid TVoid).
Definition Event_Awaiter : cls := Parked (plain TVoid TVoid).
Definition Semaphore_Awaiter (resume : ty) : cls := Parked (plain TBool resume).
Definition Channel_Awaiter (resume : ty) : cls := Parked (plain TBool resume).
Definition Value_Awaiter (resume : ty) : cls := cancel_as (decl TTrue) (plain TVoid resume).

Definition SuspendForever : cls := introspected (generic TVoid) (cancel_as (decl TTrue) (plain TVoid TVoid)).
Definition Yield : cls := introspected (generic TVoid) (cancel_as (decl TTrue) (plain THandle TVoid)).
Definition AsyncStackTrace : cls := plain THandle TOther.
Definition YieldImpl (resume : ty) : cls := introspected (generic TVoid) (plain TBool resume).
Definition GetExecutor : cls := with_executor (plain THandle TOther).
Definition CollectTreeImpl : cls := introspected (decl TVoid) (with_executor (plain THandle TOther)).
Definition ReadyAwaiter (resume : ty) : cls :=
  answers_as (decl TBool) (decl TBool) (decl TBool) (plain TBool resume).
Definition RethrowCurrentException : cls := answers_as None (decl TBool) (decl TBool) (plain TBool TVoid).

Definition TaskAwaiter (resume : ty) : cls :=
  introspected (decl TVoid)
    (with_executor (answers_as (decl TBool) (decl TBool) (decl TBool) (plain THandle resume))).
Definition TryBlock : cls := TaskAwaiter TVoid.
Definition NurseryStartAwaiter (resume : ty) : cls :=
  with_executor (answers_as (decl TBool) (decl TBool) (decl TFalse) (plain THandle resume)).
(** [NurseryParentAwaiter] is a base of both that follow. *)
Definition NurseryParentAwaiter c : cls := answers_as (decl TBool) (decl TBool) (decl TBool) c.
Definition NurseryJoinAwaiter (resume : ty) : cls :=
  introspected (decl TVoid) (NurseryParentAwaiter (plain TBool resume)).
Definition Nursery_Scope (resume : ty) : cls :=
  introspected (decl TVoid) (with_executor (NurseryParentAwaiter (plain THandle resume))).
Definition ThreadPool_Task (resume : ty) : cls :=
  answers_as (decl TBool) None (decl TBool) (plain TBool resume).
Definition DegenerateThreadPool_Task (resume : ty) : cls := plain TBool resume.
Definition CBPortal (resume : ty) : cls :=
  with_executor (answers_as (decl TBool) None (decl TBool) (plain TVoid resume)).
Definition CBPortalProxy (external : bool) (resume : ty) : cls :=
  with_executor (answers_as (decl TBool) (decl (if external then TBool else TTrue)) (decl TBool)
                            (plain TVoid resume)).
Definition AsioAwaiter (resume : ty) : cls := answers_as (decl TBool) None (decl TBool) (plain TVoid resume).

(** * Templates over awaiters *)

(** [Noexcept] methods whose return type is deduced. *)
Definition decl_of (t : option ty) : option (option method) := decl <$> t.

Definition SanitizedAwaiter c : option cls :=
  early ← decl_of (type_awaitEarlyCancel c); cancel ← decl_of (type_awaitCancel c);
  must ← decl_of (type_awaitMustResume c); resume ← ret_of (await_resume c);
  Some (introspected (generic TVoid) (with_executor (answers_as cancel early must
         (plain THandle (InhabitedType resume))))).
Definition AwaiterAdapterBase c : option cls :=
  early ← decl_of (type_awaitEarlyCancel c); cancel ← decl_of (type_awaitCancel c);
  must ← decl_of (type_awaitMustResume c); resume ← ret_of (await_resume c);
  suspend ← ret_of (await_suspend c);
  Some (introspected (generic TVoid) (with_executor (answers_as cancel early must (plain suspend resume)))).
(** Derived classes hide methods of their base, whose types are deduced only if asked for. *)
Definition NoncancellableAdapter c : option cls :=
  suspend ← ret_of (await_suspend c); resume ← ret_of (await_resume c);
  Some (introspected (generic TVoid) (with_executor
         (answers_as (decl TBool) (decl TBool) (decl TBool) (plain suspend resume)))).
Definition DisposableAdapter c : option cls :=
  early ← decl_of (type_awaitEarlyCancel c); cancel ← decl_of (type_awaitCancel c);
  suspend ← ret_of (await_suspend c); resume ← ret_of (await_resume c);
  Some (introspected (generic TVoid) (with_executor
         (answers_as cancel early (decl TFalse) (plain suspend resume)))).
Definition AnnotatedTreeNode c : option cls := AwaiterAdapterBase c.
(** [untilCancelledAnd()] takes an [Awaitable<void>]. *)
Definition RunOnCancel c : option cls :=
  t ← ret_of (await_resume c); static_assert (same_as t TVoid);;
  _ ← SanitizedAwaiter c;
  Some (introspected (generic TVoid) (with_executor
         (answers_as (decl TBool) (decl TBool) (decl TFalse) (plain TVoid TVoid)))).
(** It forwards to methods that the awaiter must have. *)
Definition AwaitableLambda c : option cls :=
  early ← decl_of (ret_of (await_early_cancel c)); cancel ← decl_of (ret_of (await_cancel c));
  must ← decl_of (ret_of (await_must_resume c)); _ ← await_set_executor c; _ ← await_introspect c;
  resume ← ret_of (await_resume c);
  Some (introspected (generic TVoid) (with_executor (answers_as cancel early must (plain THandle resume)))).

(** Which policy is used: the one given, or the one that the types of the results have
    in common; there is none if they have none.  A policy of the user's can look into the
    types that name it as theirs, and into no others, [Void] perhaps excepted; what it
    wraps names it again. *)
Definition PolicyUsesErrorCodes (p : policy) : bool :=
  match p with UserPolicy _ _ => true | _ => false end.
Definition HaveCompatibleErrorPolicies (t : ty) (rest : list ty) : bool :=
  forallb (fun u => bool_decide (UseErrorPolicy t = UseErrorPolicy u)) rest.
Definition DetectErrorPolicy (ts : list ty) : option policy :=
  match ts with
  | [] => Some Infallible
  | t :: rest => static_assert (HaveCompatibleErrorPolicies t rest);; Some (UseErrorPolicy t)
  end.
Definition AwaitableReturnType c : option ty := InhabitedType <$> ret_of (await_resume c).
Definition ChooseErrorPolicyForAwaitables (given : option policy) (cs : list cls) : option policy :=
  match given with Some p => Some p | None => ts ← mapM AwaitableReturnType cs; DetectErrorPolicy ts end.
(** [unwrapError()] and [unwrapValue()] can be applied to a result ([void]: to a [Void]). *)
Definition applicable (p : policy) (t : ty) : bool :=
  match p with
  | UserPolicy _ takes_void => bool_decide (UseErrorPolicy t = p) || (takes_void && same_as t TVoid)
  | _ => true
  end.
Definition unwraps (p : policy) c : bool :=
  match ret_of (await_resume c) with Some t => applicable p t | None => false end.
Definition PolicyReturnTypeFor (p : policy) (copyable : bool) : ty :=
  TObject (if PolicyUsesErrorCodes p then p else DefaultErrorPolicy) copyable.

(** [first_] and [secondStage_] hold sanitized awaiters; the result is that of the second
    awaiter itself. *)
Definition Sequence c d : option cls :=
  f ← SanitizedAwaiter c; _ ← SanitizedAwaiter d;
  early ← decl_of (ret_of (await_early_cancel f)); resume ← ret_of (await_resume d);
  Some (introspected (generic TVoid) (with_executor
         (answers_as (decl TBool) early (decl TBool) (plain TVoid resume)))).
(** What the first awaiter yields is looked at for an error, which the scope yields in
    place of the second's result, unless it yields nothing. *)
Definition returns_error (p : policy) (first second : ty) : bool :=
  same_as first TVoid || negb (PolicyUsesErrorCodes p) ||
  (bool_decide (UseErrorPolicy first = p) && bool_decide (UseErrorPolicy second = p)).
Definition With (given : option policy) c d : option cls :=
  _ ← SanitizedAwaiter c; _ ← SanitizedAwaiter d;
  first ← ret_of (await_resume c); resume ← ret_of (await_resume d);
  p ← ChooseErrorPolicyForAwaitables given [c; d];
  static_assert (returns_error p first resume);;
  Some (introspected (generic TVoid) (with_executor
         (answers_as (decl TBool) (decl TBool) (decl TBool) (plain THandle resume)))).

(** The returns of a function with a deduced type must agree; and [b ? x : y]. *)
Definition deduce (t u : ty) : option ty := static_assert (same_as t u);; Some t.
Definition conditional (t u : ty) : option ty :=
  if same_as t u then Some t
  else if convertible_to t u then Some u else if convertible_to u t then Some t else None.
Definition Shared_earlyCancel c s : option ty :=
  t ← ret_of (await_early_cancel s); deduce t (if Skippable c then TTrue else TBool).
Definition Shared_cancel c s : option ty :=
  t ← ret_of (await_cancel s); deduce t (if Abortable c then TTrue else TBool).
Definition Shared_mustResume c : ty := if CancelAlwaysSucceeds c then TFalse else TBool.
Definition Shared_Awaiter (resume : ty) c : option cls :=
  s ← SanitizedAwaiter c;
  early ← (t ← Shared_earlyCancel c s; decl_of (conditional t TTrue));
  cancel ← (t ← Shared_cancel c s; decl_of (conditional t TTrue));
  must ← decl_of (conditional (Shared_mustResume c) TFalse);
  Some (introspected (generic TVoid) (with_executor (answers_as cancel early must (plain THandle resume)))).

(** Combiners.  A mux calls its children through [MuxHelper], which holds a sanitized
    awaiter; [minReady] is what [Self::minReady()] is at compile time. *)
Definition muxIsAbortable (minReady : Z) (cs : list cls) : bool := (minReady =? 1)%Z && forallb Abortable cs.
Definition muxIsSkippable (cs : list cls) : bool := forallb Skippable cs.
Definition if_always (b : bool) (t : ty) : ty := if b then t else TBool.
Definition copies c : bool :=
  match ret_of (await_resume c) with Some t => CopyConstructible t | None => false end.
Definition MuxTuple (p : policy) (minReady : Z) (cs : list cls) : option cls :=
  let resume := PolicyReturnTypeFor p (forallb copies cs) in
  match cs with
  | [] => (* the specialisation for no awaitables *)
      Some (answers_as (decl TTrue) (decl TTrue) None (plain TBool resume))
  | _ =>
      _ ← mapM SanitizedAwaiter cs;
      static_assert (forallb (unwraps p) cs);;
      let skip := muxIsSkippable cs in
      let abort := muxIsAbortable minReady cs in
      Some (with_executor (answers_as (decl (if_always abort TTrue)) (decl (if_always skip TTrue))
             (decl (if_always (skip && abort) TFalse)) (plain TBool resume)))
  end.
Definition AnyOf (p : policy) (cs : list cls) : option cls :=
  introspected (generic TVoid) <$> MuxTuple p 1 cs.
Definition MostOf (p : policy) (cs : list cls) : option cls :=
  introspected (generic TVoid) <$> MuxTuple p (Z.of_nat (length cs)) cs.
(** [AllOf] has an [await_must_resume()] of its own, also for no awaitables. *)
Definition AllOf (p : policy) (cs : list cls) : option cls :=
  c ← MuxTuple p (Z.of_nat (length cs)) cs;
  let must := decl (if_always (Skippable c && Abortable c) TFalse) in
  Some (introspected (generic TVoid) (answers_as (await_cancel c) (await_early_cancel c) must c)).

Definition MuxRange (p : policy) (doneOnFirstReady : bool) c : option cls :=
  _ ← SanitizedAwaiter c;
  static_assert (unwraps p c);;
  let skip := Skippable c in
  let abort := doneOnFirstReady && Abortable c in
  Some (introspected (generic TVoid) (with_executor
         (answers_as (decl (if_always abort TTrue)) (decl (if_always skip TTrue))
                     (decl (if_always (skip && abort) TFalse)) (plain TBool (PolicyReturnTypeFor p (copies c)))))).
Definition AnyOfRange (p : policy) c : option cls := static_assert (Cancellable c);; MuxRange p true c.
Definition MostOfRange (p : policy) c : option cls := MuxRange p false c.
(** [return Policy::wrapValue(ret)] copies the vector of results. *)
Definition AllOfRange (p : policy) c : option cls :=
  static_assert (copies c);;
  c ← MuxRange p false c; Some (answers_as (await_cancel c) (await_early_cancel c) (decl TBool) c).

(** The functions that make them.  [given] is the template argument; [None] is
    [Unspecified], the default of [anyOf()], of [allOf()] of a pack and of [with()], while
    that of the others is [DefaultErrorPolicy]. *)
Definition anyOf_type (given : option policy) (cs : list cls) : option cls :=
  static_assert (match cs with [] => true | _ => existsb Cancellable cs end);;
  p ← ChooseErrorPolicyForAwaitables given cs; AnyOf p cs.
Definition mostOf_type (given : option policy) (cs : list cls) : option cls :=
  p ← ChooseErrorPolicyForAwaitables given cs; MostOf p cs.
Definition allOf_type (given : option policy) (cs : list cls) : option cls :=
  p ← ChooseErrorPolicyForAwaitables given cs; AllOf p cs.
Definition anyOf_range_type (given : option policy) c : option cls :=
  p ← ChooseErrorPolicyForAwaitables given [c]; AnyOfRange p c.
Definition mostOf_range_type (given : option policy) c : option cls :=
  p ← ChooseErrorPolicyForAwaitables given [c]; MostOfRange p c.
Definition allOf_range_type (given : option policy) c : option cls :=
  p ← ChooseErrorPolicyForAwaitables given [c]; AllOfRange p c.

(** * What can be awaited *)

(** A class of the user's, the awaiters that depend on no other (with what they yield),
    and what is built from others; tasks and lambdas that return one, and all that the
    awaiter of a task stands for, are [ETask]. *)
Inductive expr :=
| EUser (o : object)
| ELot | EEvent | ESemaphore (r : ty) | EChannel (r : ty) | EValue (r : ty)
| ESuspendForever | EYield | EStackTrace | EYieldToRun (r : ty) | EGetExecutor | ETaskTree
| EJust (r : ty) | ERethrow | ETask (r : ty) | ELambda (r : ty) | ETry
| EStart (r : ty) | EJoin (r : ty) | EScope (r : ty)
| EThreadPool (r : ty) | EDegenerateThreadPool (r : ty) | EPortal (r : ty)
| EUntilCBCalled (external : bool) (r : ty) | EAsio (r : ty)
| ENoncancellable (e : expr) | EDisposable (e : expr) | EAnnotate (e : expr)
| EUntilCancelledAnd (e : expr) | EShared (r : ty) (e : expr)
| ESequence (e f : expr) | EWith (given : option policy) (e f : expr)
| EAnyOf (given : option policy) (es : list expr)
| EMostOf (given : option policy) (es : list expr)
| EAllOf (given : option policy) (es : list expr)
| EAnyOfRange (given : option policy) (e : expr)
| EMostOfRange (given : option policy) (e : expr)
| EAllOfRange (given : option policy) (e : expr).

(** An object of a class that is an awaiter. *)
Definition as_object c : object := Object (Some c) None None false.
Definition made (o : option cls) : option cls := c ← o; getAwaiter (as_object c).

(** The awaiter that is obtained: every layer asks [getAwaiter()] for those below. *)
Fixpoint class_of (e : expr) : option cls :=
  match e with
  | EUser o => getAwaiter o
  | ELot => made (Some ParkingLot_Awaiter)
  | EEvent => made (Some Event_Awaiter)
  | ESemaphore r => made (Some (Semaphore_Awaiter r))
  | EChannel r => made (Some (Channel_Awaiter r))
  | EValue r => made (Some (Value_Awaiter r))
  | ESuspendForever => made (Some SuspendForever)
  | EYield => made (Some Yield)
  | EStackTrace => made (Some AsyncStackTrace)
  | EYieldToRun r => made (Some (YieldImpl r))
  | EGetExecutor => made (Some GetExecutor)
  | ETaskTree => made (Some CollectTreeImpl)
  | EJust r => made (Some (ReadyAwaiter r))
  | ERethrow => made (Some RethrowCurrentException)
  | ETask r => made (Some (TaskAwaiter r))
  | ELambda r => made (c ← made (Some (TaskAwaiter r)); AwaitableLambda c)
  | ETry => made (Some TryBlock)
  | EStart r => made (Some (NurseryStartAwaiter r))
  | EJoin r => made (Some (NurseryJoinAwaiter r))
  | EScope r => made (Some (Nursery_Scope r))
  | EThreadPool r => made (Some (ThreadPool_Task r))
  | EDegenerateThreadPool r => made (Some (DegenerateThreadPool_Task r))
  | EPortal r => made (Some (CBPortal r))
  | EUntilCBCalled x r => made (Some (CBPortalProxy x r))
  | EAsio r => made (Some (AsioAwaiter r))
  | ENoncancellable e => made (c ← class_of e; NoncancellableAdapter c)
  | EDisposable e => made (c ← class_of e; DisposableAdapter c)
  | EAnnotate e => made (c ← class_of e; AnnotatedTreeNode c)
  | EUntilCancelledAnd e => made (c ← class_of e; RunOnCancel c)
  | EShared r e => made (c ← class_of e; Shared_Awaiter r c)
  | ESequence e f => made (c ← class_of e; d ← class_of f; Sequence c d)
  | EWith g e f => made (c ← class_of e; d ← class_of f; With g c d)
  | EAnyOf g es => made (cs ← mapM class_of es; anyOf_type g cs)
  | EMostOf g es => made (cs ← mapM class_of es; mostOf_type g cs)
  | EAllOf g es => made (cs ← mapM class_of es; allOf_type g cs)
  | EAnyOfRange g e => made (c ← class_of e; anyOf_range_type g c)
  | EMostOfRange g e => made (c ← class_of e; mostOf_range_type g c)
  | EAllOfRange g e => made (c ← class_of e; allOf_range_type g c)
  end.

(** * What the types promise *)

Record promise := Promise { p_skip : bool; p_abort : bool; p_always : bool }.
Definition promise_of c : promise := Promise (Skippable c) (Abortable c) (CancelAlwaysSucceeds c).
(** Nothing; that cancellation always succeeds at once; and a mux. *)
Definition nothing : promise := Promise false false false.
Definition at_once : promise := Promise true true true.
Definition mux_promise (alone : bool) (ps : list promise) : promise :=
  let s := forallb p_skip ps in let a := alone && forallb p_abort ps in Promise s a (s && a).

Fixpoint promises (e : expr) : promise :=
  match e with
  | EUser o => match getAwaiter o with Some c => promise_of c | None => nothing end
  | ELot | EEvent | ESemaphore _ | EChannel _ | EValue _ | ESuspendForever | EYield => at_once
  | EStackTrace | EYieldToRun _ | EGetExecutor | ETaskTree
  | EDegenerateThreadPool _ | EThreadPool _ | EPortal _ | EAsio _ => Promise true false false
  | EJust _ | ERethrow | ETask _ | ELambda _ | ETry | EJoin _ | EScope _ => nothing
  | EStart _ => Promise false false true
  | EUntilCBCalled external _ => Promise (negb external) false false
  | ENoncancellable _ | EWith _ _ _ => nothing
  | EDisposable e => Promise (p_skip (promises e)) (p_abort (promises e)) true
  | EAnnotate e | EShared _ e => promises e
  | EUntilCancelledAnd _ => Promise false false true
  | ESequence e _ => Promise (p_skip (promises e)) false false
  | EAnyOf _ es => mux_promise true (promises <$> es)
  | EMostOf _ es | EAllOf _ es => mux_promise (length es <=? 1) (promises <$> es)
  | EAnyOfRange _ e => mux_promise true [promises e]
  | EMostOfRange _ e | EAllOfRange _ e => mux_promise false [promises e]
  end.

Definition cancellable (e : expr) : bool :=
  match e with
  | EUser o => match getAwaiter o with Some c => Cancellable c | None => false end
  | EStackTrace | EYieldToRun _ | EGetExecutor | ETaskTree | ERethrow | EDegenerateThreadPool _ => false
  | _ => true
  end.
(** What is yielded. *)
Definition detect (given : option policy) (ts : list ty) : option policy :=
  match given with Some p => Some p | None => DetectErrorPolicy (InhabitedType <$> ts) end.
Definition mux_result (given : option policy) (ts : list ty) : ty :=
  match detect given ts with
  | Some p => PolicyReturnTypeFor p (forallb CopyConstructible ts)
  | None => TOther
  end.
Fixpoint result_of (e : expr) : ty :=
  match e with
  | EUser o => match getAwaiter o with Some c => default TVoid (ret_of (await_resume c)) | None => TVoid end
  | ELot | EEvent | ESuspendForever | EYield | ERethrow | ETry | EUntilCancelledAnd _ => TVoid
  | EStackTrace | EGetExecutor | ETaskTree => TOther
  | ESemaphore r | EChannel r | EValue r | EYieldToRun r | EJust r | ETask r | ELambda r | EStart r | EJoin r | EScope r
  | EThreadPool r | EDegenerateThreadPool r | EPortal r | EUntilCBCalled _ r | EAsio r | EShared r _ => r
  | ENoncancellable e | EDisposable e | EAnnotate e => result_of e
  | ESequence _ f | EWith _ _ f => result_of f
  | EAnyOf g es | EMostOf g es | EAllOf g es => mux_result g (result_of <$> es)
  | EAnyOfRange g e | EMostOfRange g e | EAllOfRange g e => mux_result g [result_of e]
  end.

(** What is asked of the user: awaiters that are valid, something to cancel in an
    [anyOf()], [void] for [untilCancelledAnd()], one error policy for all parts of a
    combiner or a with-scope, or one given that can look into them all, and results that
    can be copied in an [allOf()] of a range. *)
Definition one_policy (given : option policy) (ts : list ty) : bool :=
  match detect given ts with Some p => forallb (applicable p) ts | None => false end.
Definition with_policy (given : option policy) (t u : ty) : bool :=
  match detect given [t; u] with Some p => returns_error p t u | None => false end.
Fixpoint well_formed (e : expr) : bool :=
  match e with
  | EUser o => match getAwaiter o with Some _ => true | None => false end
  | ENoncancellable e | EDisposable e | EAnnotate e | EShared _ e => well_formed e
  | EUntilCancelledAnd e => well_formed e && same_as (result_of e) TVoid
  | ESequence e f => well_formed e && well_formed f
  | EWith g e f => well_formed e && well_formed f && with_policy g (result_of e) (result_of f)
  | EAnyOf g es =>
      forallb well_formed es && match es with [] => true | _ => existsb cancellable es end &&
      one_policy g (result_of <$> es)
  | EMostOf g es | EAllOf g es => forallb well_formed es && one_policy g (result_of <$> es)
  | EAnyOfRange g e => well_formed e && cancellable e && one_policy g [result_of e]
  | EMostOfRange g e => well_formed e && one_policy g [result_of e]
  | EAllOfRange g e => well_formed e && CopyConstructible (result_of e) && one_policy g [result_of e]
  | _ => true
  end.

(** * Lemmas *)

Lemma same_as_true t u : same_as t u = true <-> t = u.
Proof. apply bool_decide_eq_true. Qed.

(** A method of one of two types is of the second or of the first. *)
Lemma two_types t u m :
  yields_noexcept (same_as_any [t; u]) m = true ->
  ret_of m = Some (if yields_noexcept (same_as u) m then u else t).
Proof.
  destruct m as [[r nx cb nm]|]; [|done]. cbn. intros [Hc Hr]%andb_true_iff. rewrite Hc. cbn.
  apply orb_true_iff in Hr. unfold same_as in *. destruct (decide (u = r)) as [->|Hu].
  - by rewrite bool_decide_true.
  - rewrite bool_decide_false by done. rewrite (bool_decide_false (r = u)) in Hr by congruence.
    destruct Hr as [Hr|Hr]; [|done]. apply bool_decide_eq_true in Hr. by subst.
Qed.
Lemma two_types_r t u m :
  yields_noexcept (same_as u) m = true -> yields_noexcept (same_as_any [t; u]) m = true.
Proof.
  destruct m as [[r nx cb nm]|]; [|done]. cbn. intros [Hc ->%same_as_true]%andb_true_iff. rewrite Hc.
  unfold same_as. cbn. rewrite (bool_decide_true (r = r)) by done. by rewrite orb_true_r.
Qed.
Lemma one_type t m : yields_noexcept (same_as t) m = true -> ret_of m = Some t.
Proof.
  destruct m as [[r nx cb nm]|]; [|done]. cbn. by intros [_ ->%same_as_true]%andb_true_iff.
Qed.

Lemma type_early c : type_awaitEarlyCancel c = Some (if_always (Skippable c) TTrue).
Proof.
  unfold type_awaitEarlyCancel, Skippable, ImplicitlySkippable, CustomizesEarlyCancel.
  destruct (yields_noexcept _ (await_early_cancel c)) eqn:E; [|done]. by rewrite (two_types _ _ _ E).
Qed.
Lemma type_cancel c : type_awaitCancel c = Some (if_always (Abortable c) TTrue).
Proof.
  unfold type_awaitCancel, Cancellable, Abortable. destruct (yields_noexcept (same_as_any _) _) eqn:E.
  - by rewrite (two_types _ _ _ E).
  - destruct (yields_noexcept (same_as TTrue) _) eqn:E'; [|done]. by rewrite (two_types_r TBool _ _ E') in E.
Qed.

(** What a valid awaiter is, one condition at a time. *)
Record valid c : Prop := {
  v_awaiter : is_Awaiter c = true;
  v_cancel : Cancellable c = true -> Abortable c = true \/ CustomizesMustResume c = true;
  v_early : CustomizesEarlyCancel c = true -> Skippable c = true \/ CustomizesMustResume c = true;
  v_must : CanRequireResume c = negb (CancelAlwaysSucceeds c) }.
Lemma valid_parts c : ValidAwaiter c = true -> valid c.
Proof.
  unfold ValidAwaiter. rewrite !andb_true_iff, !orb_true_iff, !andb_true_iff, !negb_true_iff.
  intros (((((((((? & H1) & H2) & H3) & _) & _) & _) & _) & _) & _). split; [done|..].
  - destruct H1 as [[?|?]|?]; intros; [congruence|auto..].
  - destruct H2 as [[?|?]|?]; intros; [congruence|auto..].
  - destruct H3 as [[-> ->]|[-> ->]]; done.
Qed.

Lemma type_must c : valid c -> type_awaitMustResume c = Some (if_always (CancelAlwaysSucceeds c) TFalse).
Proof.
  intros [_ Hk He Hm]. unfold type_awaitMustResume.
  destruct (CustomizesMustResume c) eqn:E.
  - unfold CanRequireResume in Hm. rewrite E, andb_false_r in Hm. cbn in Hm.
    rewrite (two_types _ _ _ E). destruct (yields_noexcept (same_as TFalse) _) eqn:F.
    + unfold CancelAlwaysSucceeds. by rewrite F, orb_true_r.
    + destruct (CancelAlwaysSucceeds c); [|done]. cbn in Hm.
      pose proof (two_types _ _ _ E) as HR. rewrite F in HR. unfold CustomizesMustResume in E.
      destruct (await_must_resume c) as [[r nx cb nm]|]; [|done]. cbn in HR, Hm, E. injection HR as ->.
      by destruct cb, nx.
  - destruct (CancelAlwaysSucceeds c) eqn:F; [done|].
    destruct (Cancellable c) eqn:G; [|done]. exfalso.
    destruct (Hk eq_refl) as [Ha|?]; [|done]. unfold CancelAlwaysSucceeds in F. rewrite Ha, andb_true_r in F.
    apply orb_false_iff in F as [F _]. destruct (CustomizesEarlyCancel c) eqn:H; [by destruct (He eq_refl); congruence|].
    unfold Skippable, ImplicitlySkippable in F. by rewrite H in F.
Qed.

Lemma awaiter_returns c : is_Awaiter c = true ->
  exists s r, ret_of (await_suspend c) = Some s /\ convertible_to_any [TVoid; TBool; THandle] s = true /\
    ret_of (await_resume c) = Some r.
Proof.
  unfold is_Awaiter. rewrite !andb_true_iff. intros ((_ & Hs) & Hr).
  destruct (await_suspend c) as [s|]; [|done]. destruct (await_resume c) as [r|]; [|done].
  cbn [yields] in Hs. apply andb_true_iff in Hs as [_ Hs]. by exists (ret s), (ret r).
Qed.

Lemma made_valid c : ValidAwaiter c = true -> made (Some c) = Some c.
Proof.
  intros H. pose proof (v_awaiter _ (valid_parts _ H)) as Ha.
  unfold made, getAwaiter, Awaitable, staticAwaiterCheck, as_object. cbn. rewrite Ha. cbn. by rewrite H.
Qed.

(** ** Templates *)

Record spec (p : promise) (b : bool) (r : ty) c : Prop := {
  sp_valid : ValidAwaiter c = true; sp_promise : promise_of c = p; sp_cancellable : Cancellable c = b;
  sp_result : ret_of (await_resume c) = Some r }.

(** A class that declares all the methods. *)
Definition full (p : promise) (suspend resume : ty) (i : option method) : cls :=
  introspected i (with_executor (answers_as (decl (if_always (p_abort p) TTrue)) (decl (if_always (p_skip p) TTrue))
    (decl (if_always (p_always p) TFalse)) (plain suspend resume))).
Definition consistent (p : promise) : Prop := p_skip p && p_abort p = true -> p_always p = true.
Lemma full_spec p suspend resume i :
  consistent p -> convertible_to_any [TVoid; TBool; THandle] suspend = true ->
  i = generic TVoid \/ i = decl TVoid -> spec p true resume (full p suspend resume i).
Proof.
  intros Hc Hs Hi. destruct p as [s a t]. unfold consistent in Hc. cbn in Hc.
  destruct Hi as [-> | ->], suspend; try discriminate Hs; destruct s, a, t; try discriminate (Hc eq_refl);
    split; reflexivity.
Qed.
Lemma promise_consistent c : consistent (promise_of c).
Proof. unfold consistent, promise_of, CancelAlwaysSucceeds. cbn. by intros ->. Qed.
Lemma spec_consistent p b r c : spec p b r c -> consistent p.
Proof. intros [_ <- _ _]. apply promise_consistent. Qed.

(** The types the wrappers deduce for an awaiter. *)
Lemma wrapper_types p b r c :
  spec p b r c ->
  type_awaitEarlyCancel c = Some (if_always (p_skip p) TTrue) /\
  type_awaitCancel c = Some (if_always (p_abort p) TTrue) /\
  type_awaitMustResume c = Some (if_always (p_always p) TFalse) /\
  exists s, ret_of (await_suspend c) = Some s /\ convertible_to_any [TVoid; TBool; THandle] s = true.
Proof.
  intros [Hv <- _ _]. pose proof (valid_parts c Hv) as HV. cbn [promise_of p_skip p_abort p_always].
  rewrite type_early, type_cancel, (type_must c HV). split_and!; [done..|].
  destruct (awaiter_returns c (v_awaiter _ HV)) as (s & _ & ? & ? & _). eauto.
Qed.

Lemma sanitized_full p b r c : spec p b r c -> SanitizedAwaiter c = Some (full p THandle (InhabitedType r) (generic TVoid)).
Proof.
  intros H. destruct (wrapper_types _ _ _ _ H) as (E1 & E2 & E3 & _).
  unfold SanitizedAwaiter. by rewrite E1, E2, E3, (sp_result _ _ _ _ H).
Qed.
Lemma adapter_spec p b r c : spec p b r c -> exists d, AwaiterAdapterBase c = Some d /\ spec p true r d.
Proof.
  intros H. destruct (wrapper_types _ _ _ _ H) as (E1 & E2 & E3 & s & E4 & Hs).
  unfold AwaiterAdapterBase. rewrite E1, E2, E3, E4, (sp_result _ _ _ _ H). eexists. split; [reflexivity|].
  apply (full_spec p); [by apply (spec_consistent p b r c)|done|by left].
Qed.
Lemma noncancellable_spec p b r c : spec p b r c -> exists d, NoncancellableAdapter c = Some d /\ spec nothing true r d.
Proof.
  intros H. destruct (wrapper_types _ _ _ _ H) as (_ & _ & _ & s & E4 & Hs).
  unfold NoncancellableAdapter. rewrite E4, (sp_result _ _ _ _ H). eexists. split; [reflexivity|].
  by apply (full_spec nothing); [|done|left].
Qed.
Lemma disposable_spec p b r c :
  spec p b r c -> exists d, DisposableAdapter c = Some d /\ spec (Promise (p_skip p) (p_abort p) true) true r d.
Proof.
  intros H. destruct (wrapper_types _ _ _ _ H) as (E1 & E2 & _ & s & E4 & Hs).
  unfold DisposableAdapter. rewrite E1, E2, E4, (sp_result _ _ _ _ H). eexists. split; [reflexivity|].
  by apply (full_spec (Promise (p_skip p) (p_abort p) true)); [|done|left].
Qed.

(** What is made if a condition holds, and only then. *)
Definition makes (ok : bool) (p : promise) (r : ty) (o : option cls) : Prop :=
  if ok then exists d, o = Some d /\ spec p true r d else o = None.

Lemma run_on_cancel_spec p b r c :
  spec p b r c -> makes (same_as r TVoid) (Promise false false true) TVoid (RunOnCancel c).
Proof.
  intros H. unfold RunOnCancel, makes. rewrite (sp_result _ _ _ _ H), (sanitized_full _ _ _ _ H).
  cbn [mbind option_bind]. destruct (same_as r TVoid); [|done]. eexists. split; [reflexivity|].
  by apply (full_spec (Promise false false true)); [|done|left].
Qed.
Lemma sequence_spec p b r c q b' r' d :
  spec p b r c -> spec q b' r' d -> exists k, Sequence c d = Some k /\ spec (Promise (p_skip p) false false) true r' k.
Proof.
  intros H H'. unfold Sequence.
  rewrite (sanitized_full _ _ _ _ H), (sanitized_full _ _ _ _ H'), (sp_result _ _ _ _ H'). eexists. split; [reflexivity|].
  apply (full_spec (Promise (p_skip p) false false)); [|done|by left]. unfold consistent. by rewrite andb_false_r.
Qed.

(** ** The choice of a policy *)

Definition returns (rs : list ty) (cs : list cls) : Prop :=
  Forall2 (fun r c => ret_of (await_resume c) = Some r) rs cs.
Lemma returns_inhabited rs cs : returns rs cs -> mapM AwaitableReturnType cs = Some (InhabitedType <$> rs).
Proof.
  induction 1 as [|r c rs cs E _ IH]; [done|]. cbn [mapM].
  assert (AwaitableReturnType c = Some (InhabitedType r)) as -> by (unfold AwaitableReturnType; by rewrite E).
  cbn. by rewrite IH.
Qed.
Lemma returns_choose g rs cs : returns rs cs -> ChooseErrorPolicyForAwaitables g cs = detect g rs.
Proof. intros H. unfold ChooseErrorPolicyForAwaitables. by rewrite (returns_inhabited _ _ H). Qed.
Lemma returns_unwraps p rs cs : returns rs cs -> forallb (unwraps p) cs = forallb (applicable p) rs.
Proof. induction 1 as [|r c rs cs E _ IH]; [done|]. cbn. f_equal; [by unfold unwraps; rewrite E|done]. Qed.
Lemma returns_copies rs cs : returns rs cs -> forallb copies cs = forallb CopyConstructible rs.
Proof. induction 1 as [|r c rs cs E _ IH]; [done|]. cbn. f_equal; [by unfold copies; rewrite E|done]. Qed.

Lemma with_spec g p b r c q b' r' d :
  spec p b r c -> spec q b' r' d -> makes (with_policy g r r') nothing r' (With g c d).
Proof.
  intros H H'. unfold With, makes, with_policy.
  assert (R : returns [r; r'] [c; d]) by (repeat constructor; by eapply sp_result).
  rewrite (sanitized_full _ _ _ _ H), (sanitized_full _ _ _ _ H'), (sp_result _ _ _ _ H), (sp_result _ _ _ _ H').
  cbn [mbind option_bind]. rewrite (returns_choose g _ _ R).
  destruct (detect g [r; r']) as [e|]; [|done]. cbn [mbind option_bind].
  destruct (returns_error e r r'); [|done].
  eexists. split; [reflexivity|]. by apply (full_spec nothing); [|done|left].
Qed.

(** The returns of [State::earlyCancel()] and [State::cancel()] agree. *)
Lemma deduce_same b : deduce (if_always b TTrue) (if b then TTrue else TBool) = Some (if_always b TTrue).
Proof. by destruct b. Qed.
Lemma conditional_always b t : t = TTrue \/ t = TFalse -> conditional (if_always b t) t = Some (if_always b t).
Proof. by intros [-> | ->]; destruct b. Qed.
Lemma shared_spec resume p b r c : spec p b r c -> exists d, Shared_Awaiter resume c = Some d /\ spec p true resume d.
Proof.
  intros H. unfold Shared_Awaiter. rewrite (sanitized_full _ _ _ _ H).
  unfold Shared_earlyCancel, Shared_cancel, Shared_mustResume.
  pose proof (sp_promise _ _ _ _ H) as <-. cbn.
  rewrite !deduce_same. cbn. change (if CancelAlwaysSucceeds c then TFalse else TBool)
    with (if_always (CancelAlwaysSucceeds c) TFalse).
  rewrite !conditional_always by auto. cbn. eexists. split; [reflexivity|].
  apply (full_spec (promise_of c)); [apply promise_consistent|done|by left].
Qed.

(** ** Combiners *)

Record summary := Summary { s_promise : promise; s_cancellable : bool; s_result : ty }.
Definition specs (ss : list summary) (cs : list cls) : Prop :=
  Forall2 (fun s c => spec (s_promise s) (s_cancellable s) (s_result s) c) ss cs.

Lemma specs_sanitized ss cs : specs ss cs -> exists ds, mapM SanitizedAwaiter cs = Some ds.
Proof.
  induction 1 as [|s c ss cs H _ [ds IH]]; [by eexists|].
  cbn. rewrite (sanitized_full _ _ _ _ H). cbn. rewrite IH. by eexists.
Qed.
Lemma specs_skippable ss cs : specs ss cs -> forallb Skippable cs = forallb p_skip (s_promise <$> ss).
Proof. induction 1 as [|s c ss cs H _ IH]; [done|]. cbn. by rewrite IH, <- (sp_promise _ _ _ _ H). Qed.
Lemma specs_abortable ss cs : specs ss cs -> forallb Abortable cs = forallb p_abort (s_promise <$> ss).
Proof. induction 1 as [|s c ss cs H _ IH]; [done|]. cbn. by rewrite IH, <- (sp_promise _ _ _ _ H). Qed.
Lemma specs_cancellable ss cs : specs ss cs -> existsb Cancellable cs = existsb id (s_cancellable <$> ss).
Proof. induction 1 as [|s c ss cs H _ IH]; [done|]. cbn. by rewrite IH, (sp_cancellable _ _ _ _ H). Qed.
Lemma specs_returns ss cs : specs ss cs -> returns (s_result <$> ss) cs.
Proof. induction 1 as [|s c ss cs [_ _ _ E] _ IH]; constructor; done. Qed.

Lemma mux_consistent alone ps : consistent (mux_promise alone ps).
Proof. unfold consistent, mux_promise. by cbn. Qed.

Lemma mux_tuple_full p min ss cs :
  specs ss cs -> cs <> [] ->
  MuxTuple p min cs =
    if forallb (applicable p) (s_result <$> ss)
    then Some (full (mux_promise (min =? 1)%Z (s_promise <$> ss)) TBool
                    (PolicyReturnTypeFor p (forallb CopyConstructible (s_result <$> ss))) None)
    else None.
Proof.
  intros H Hne. destruct (specs_sanitized _ _ H) as [ds E]. pose proof (specs_returns _ _ H) as R. unfold MuxTuple.
  rewrite (returns_copies _ _ R).
  destruct cs as [|c cs]; [done|]. rewrite E. cbn [mbind option_bind]. rewrite (returns_unwraps p _ _ R).
  destruct (forallb (applicable p) _); [|done].
  unfold muxIsSkippable, muxIsAbortable. by rewrite (specs_skippable _ _ H), (specs_abortable _ _ H).
Qed.
Lemma alone_min {A} (cs : list A) : cs <> [] -> (Z.of_nat (length cs) =? 1)%Z = (length cs <=? 1)%nat.
Proof. destruct cs as [|? [|? ?]]; [done..|]. intros _. apply Z.eqb_neq. cbn. lia. Qed.

(** The pack may be empty; its class is then written out, not deduced. *)
Lemma any_of_spec g ss cs :
  specs ss cs ->
  makes (match cs with [] => true | _ => existsb id (s_cancellable <$> ss) end && one_policy g (s_result <$> ss))
        (mux_promise true (s_promise <$> ss)) (mux_result g (s_result <$> ss)) (anyOf_type g cs).
Proof.
  intros H. unfold anyOf_type, makes, one_policy, mux_result, AnyOf.
  rewrite (returns_choose g _ _ (specs_returns _ _ H)), (specs_cancellable _ _ H).
  destruct (match cs with [] => true | _ => _ end); [|done]. cbn [static_assert mbind option_bind andb].
  destruct (detect g _) as [p|]; [|done]. cbn [mbind option_bind]. destruct (decide (cs = [])) as [->|Hne].
  - inversion H; subst. eexists. split; [reflexivity|]. by split.
  - rewrite (mux_tuple_full p 1 ss cs H Hne). destruct (forallb _ _); [|done]. eexists. split; [reflexivity|].
    apply (full_spec (mux_promise true (s_promise <$> ss))); [apply mux_consistent|done|by left].
Qed.
Lemma most_of_spec g ss cs :
  specs ss cs ->
  makes (one_policy g (s_result <$> ss)) (mux_promise (length cs <=? 1) (s_promise <$> ss))
        (mux_result g (s_result <$> ss)) (mostOf_type g cs).
Proof.
  intros H. unfold mostOf_type, makes, one_policy, mux_result, MostOf. rewrite (returns_choose g _ _ (specs_returns _ _ H)).
  destruct (detect g _) as [p|]; [|done]. cbn [mbind option_bind]. destruct (decide (cs = [])) as [->|Hne].
  - inversion H; subst. eexists. split; [reflexivity|]. by split.
  - rewrite (mux_tuple_full p _ ss cs H Hne), (alone_min _ Hne). destruct (forallb _ _); [|done].
    eexists. split; [reflexivity|].
    apply (full_spec (mux_promise (length cs <=? 1) (s_promise <$> ss))); [apply mux_consistent|done|by left].
Qed.
Lemma all_of_spec g ss cs :
  specs ss cs ->
  makes (one_policy g (s_result <$> ss)) (mux_promise (length cs <=? 1) (s_promise <$> ss))
        (mux_result g (s_result <$> ss)) (allOf_type g cs).
Proof.
  intros H. unfold allOf_type, makes, one_policy, mux_result, AllOf. rewrite (returns_choose g _ _ (specs_returns _ _ H)).
  destruct (detect g _) as [p|]; [|done]. cbn [mbind option_bind]. destruct (decide (cs = [])) as [->|Hne].
  - inversion H; subst. eexists. split; [reflexivity|]. by split.
  - rewrite (mux_tuple_full p _ ss cs H Hne), (alone_min _ Hne). destruct (forallb _ _); [|done].
    eexists. split; [reflexivity|]. set (q := mux_promise _ _).
    replace (decl (if_always _ TFalse)) with (decl (if_always (p_always q) TFalse)).
    + apply (full_spec q); [apply mux_consistent|done|by left].
    + subst q. unfold mux_promise. by destruct (forallb p_skip _), (length cs <=? 1), (forallb p_abort _).
Qed.

Lemma returns_one p b r c : spec p b r c -> returns [r] [c].
Proof. intros H. repeat constructor. by eapply sp_result. Qed.
Lemma mux_range_full e first p b r c :
  spec p b r c ->
  MuxRange e first c =
    if forallb (applicable e) [r]
    then Some (full (mux_promise first [p]) TBool (PolicyReturnTypeFor e (forallb CopyConstructible [r])) (generic TVoid))
    else None.
Proof.
  intros H. unfold MuxRange. rewrite (sanitized_full _ _ _ _ H). unfold unwraps, copies.
  rewrite (sp_result _ _ _ _ H). cbn [mbind option_bind forallb]. rewrite !andb_true_r.
  destruct (applicable e r); [|done].
  pose proof (sp_promise _ _ _ _ H) as <-. unfold full, mux_promise.
  cbn [static_assert mbind option_bind forallb p_skip p_abort p_always promise_of].
  by rewrite !andb_true_r.
Qed.
Lemma any_of_range_spec g p b r c :
  spec p b r c -> makes (b && one_policy g [r]) (mux_promise true [p]) (mux_result g [r]) (anyOf_range_type g c).
Proof.
  intros H. unfold anyOf_range_type, makes, one_policy, mux_result, AnyOfRange.
  rewrite (returns_choose g _ _ (returns_one _ _ _ _ H)), (sp_cancellable _ _ _ _ H).
  destruct (detect g [r]) as [e|]; [|by rewrite andb_false_r].
  cbn [mbind option_bind]. rewrite (mux_range_full e _ _ _ _ _ H).
  destruct b; [|done]. cbn [static_assert mbind option_bind andb]. destruct (forallb (applicable e) _); [|done].
  eexists. split; [reflexivity|]. apply (full_spec (mux_promise true [p])); [apply mux_consistent|done|by left].
Qed.
Lemma most_of_range_spec g p b r c :
  spec p b r c -> makes (one_policy g [r]) (mux_promise false [p]) (mux_result g [r]) (mostOf_range_type g c).
Proof.
  intros H. unfold mostOf_range_type, makes, one_policy, mux_result, MostOfRange.
  rewrite (returns_choose g _ _ (returns_one _ _ _ _ H)). destruct (detect g [r]) as [e|]; [|done].
  cbn [mbind option_bind]. rewrite (mux_range_full e _ _ _ _ _ H). destruct (forallb (applicable e) _); [|done].
  eexists. split; [reflexivity|]. apply (full_spec (mux_promise false [p])); [apply mux_consistent|done|by left].
Qed.
Lemma all_of_range_spec g p b r c :
  spec p b r c ->
  makes (CopyConstructible r && one_policy g [r]) (mux_promise false [p]) (mux_result g [r]) (allOf_range_type g c).
Proof.
  intros H. unfold allOf_range_type, makes, one_policy, mux_result, AllOfRange.
  rewrite (returns_choose g _ _ (returns_one _ _ _ _ H)).
  destruct (detect g [r]) as [e|]; [|by rewrite andb_false_r].
  cbn [mbind option_bind]. rewrite (mux_range_full e _ _ _ _ _ H).
  assert (copies c = CopyConstructible r) as -> by (unfold copies; by rewrite (sp_result _ _ _ _ H)).
  destruct (CopyConstructible r); [|done]. cbn [static_assert mbind option_bind andb].
  destruct (forallb (applicable e) _); [|done].
  eexists. split; [reflexivity|]. set (q := mux_promise false [p]).
  replace (decl TBool) with (decl (if_always (p_always q) TFalse)) by (cbn; by rewrite andb_false_r).
  apply (full_spec q); [apply mux_consistent|done|by left].
Qed.

(** * Everything that can be awaited *)

Definition parts (e : expr) : list expr :=
  match e with
  | ENoncancellable e | EDisposable e | EAnnotate e | EUntilCancelledAnd e | EShared _ e
  | EAnyOfRange _ e | EMostOfRange _ e | EAllOfRange _ e => [e]
  | ESequence e f | EWith _ e f => [e; f]
  | EAnyOf _ es | EMostOf _ es | EAllOf _ es => es
  | _ => []
  end.
Lemma expr_induction (P : expr -> Prop) : (forall e, Forall P (parts e) -> P e) -> forall e, P e.
Proof.
  intros H. fix IH 1. intros e. apply H.
  destruct e; cbn [parts]; repeat constructor; try apply IH;
    (induction es as [|e es IHes]; constructor; [apply IH|exact IHes]).
Qed.

Definition summary_of (e : expr) : summary := Summary (promises e) (cancellable e) (result_of e).
Definition described (e : expr) c : Prop := spec (promises e) (cancellable e) (result_of e) c.
(** It compiles exactly if it is well-formed. *)
Definition built (e : expr) : Prop :=
  if well_formed e then exists c, class_of e = Some c /\ described e c else class_of e = None.

(** [getAwaiter()] adds nothing to what is made. *)
Lemma built_made ok o p r :
  makes ok p r o -> if ok then exists c, made o = Some c /\ spec p true r c else made o = None.
Proof.
  unfold makes. destruct ok; [|by intros ->]. intros (c & -> & H). exists c. by rewrite (made_valid c (sp_valid _ _ _ _ H)).
Qed.

Lemma checked c d : (staticAwaiterCheck c;; Some c) = Some d -> ValidAwaiter d = true.
Proof. unfold staticAwaiterCheck. destruct (ValidAwaiter c) eqn:E; [by intros [= <-]|done]. Qed.
Lemma getAwaiter_valid o c : getAwaiter o = Some c -> ValidAwaiter c = true.
Proof.
  unfold getAwaiter. intros H. destruct (Awaitable o); [|done]. cbn [static_assert mbind option_bind] in H.
  destruct (awaiter_of (itself o)); [destruct (itself o); [by apply checked in H|done]|].
  destruct (awaiter_of (member_co_await o)); [destruct (member_co_await o); [by apply checked in H|done]|].
  destruct (awaiter_of (free_co_await o)); [destruct (free_co_await o); [by apply checked in H|done]|done].
Qed.

Lemma built_list es :
  Forall built es ->
  if forallb well_formed es
  then exists cs, mapM class_of es = Some cs /\ specs (summary_of <$> es) cs /\ length cs = length es
  else mapM class_of es = None.
Proof.
  induction 1 as [|e es He _ IH]; cbn; [by eexists; split_and!; [|constructor|]|].
  unfold built in He. destruct (well_formed e); cbn [andb]; [|by rewrite He].
  destruct He as (c & -> & Hc). cbn [mbind option_bind]. destruct (forallb well_formed es); [|by rewrite IH].
  destruct IH as (cs & -> & Hcs & Hl). eexists. split_and!; [done|constructor; done|cbn; by rewrite Hl].
Qed.

(** From one part, from two, and from a list of parts. *)
Lemma from_one e ok p r (f : cls -> option cls) :
  built e -> (forall c, described e c -> makes ok p r (f c)) ->
  if well_formed e && ok then exists d, made (c ← class_of e; f c) = Some d /\ spec p true r d
  else made (c ← class_of e; f c) = None.
Proof.
  unfold built. intros H Hf. destruct (well_formed e); [|by rewrite H].
  destruct H as (c & -> & Hc). apply (built_made ok), Hf, Hc.
Qed.
Lemma from_two e1 e2 ok p r (f : cls -> cls -> option cls) :
  built e1 -> built e2 -> (forall c d, described e1 c -> described e2 d -> makes ok p r (f c d)) ->
  if well_formed e1 && well_formed e2 && ok
  then exists k, made (c ← class_of e1; d ← class_of e2; f c d) = Some k /\ spec p true r k
  else made (c ← class_of e1; d ← class_of e2; f c d) = None.
Proof.
  unfold built. intros H1 H2 Hf. destruct (well_formed e1); [|by rewrite H1].
  destruct H1 as (c & -> & Hc). cbn [mbind option_bind andb]. destruct (well_formed e2); [|by rewrite H2].
  destruct H2 as (d & -> & Hd). apply (built_made ok), Hf; done.
Qed.
Lemma from_list es ok p r (f : list cls -> option cls) :
  Forall built es ->
  (forall cs, specs (summary_of <$> es) cs -> length cs = length es -> makes ok p r (f cs)) ->
  if forallb well_formed es && ok
  then exists k, made (cs ← mapM class_of es; f cs) = Some k /\ spec p true r k
  else made (cs ← mapM class_of es; f cs) = None.
Proof.
  intros H%built_list Hf. destruct (forallb well_formed es); [|by rewrite H].
  destruct H as (cs & -> & Hc & Hl). by apply (built_made ok), Hf.
Qed.
Lemma makes_always p r o : (exists d, o = Some d /\ spec p true r d) -> makes true p r o.
Proof. done. Qed.
Lemma summaries es :
  (s_promise <$> (summary_of <$> es) = promises <$> es) /\ (s_result <$> (summary_of <$> es) = result_of <$> es) /\
  existsb id (s_cancellable <$> (summary_of <$> es)) = existsb cancellable es.
Proof. rewrite <- !list_fmap_compose. split_and!; [done..|]. induction es as [|e es IH]; cbn; [done|by rewrite IH]. Qed.

Lemma build e : built e.
Proof.
  induction e as [e IH] using expr_induction. unfold built, described.
  assert (Hone : forall f, parts e = [f] -> built f).
  { intros f Hp. rewrite Hp in IH. by apply Forall_cons in IH as [IH _]. }
  assert (Htwo : forall f g, parts e = [f; g] -> built f /\ built g).
  { intros f g Hp. rewrite Hp in IH. by apply Forall_cons in IH as [? [? _]%Forall_cons]. }
  destruct e; cbn [well_formed class_of promises cancellable result_of];
    try (eexists; split; [reflexivity|by split]);
    try (pose proof (Hone e eq_refl) as H); try (destruct (Htwo e1 e2 eq_refl) as [H1 H2]); clear Hone Htwo.
  - destruct (getAwaiter o) as [c|] eqn:E; [|done]. exists c. split; [done|].
    pose proof (getAwaiter_valid _ _ E) as HV. split; [done..|].
    destruct (awaiter_returns c) as (_ & r & _ & _ & ->); [|done]. apply valid_parts, HV.
  - destruct external; (eexists; split; [reflexivity|by split]).
  - rewrite <- (andb_true_r (well_formed e)). apply from_one; [done|]. intros c Hc.
    by eapply makes_always, noncancellable_spec.
  - rewrite <- (andb_true_r (well_formed e)). apply from_one; [done|]. intros c Hc.
    by eapply makes_always, disposable_spec.
  - rewrite <- (andb_true_r (well_formed e)). apply from_one; [done|]. intros c Hc. by eapply makes_always, adapter_spec.
  - apply from_one; [done|]. intros c Hc. by eapply run_on_cancel_spec.
  - rewrite <- (andb_true_r (well_formed e)). apply from_one; [done|]. intros c Hc. by eapply makes_always, shared_spec.
  - rewrite <- (andb_true_r (_ && _)). apply from_two; [done..|]. intros c d Hc Hd. by eapply makes_always, sequence_spec.
  - apply from_two; [done..|]. intros c d Hc Hd. by eapply with_spec.
  - destruct (summaries es) as (Ep & Er & Ec). rewrite <- andb_assoc. apply from_list; [done|]. intros cs H Hl.
    rewrite <- Ep, <- Er, <- Ec. pose proof (any_of_spec given _ _ H) as HA. by destruct cs, es.
  - destruct (summaries es) as (Ep & Er & _). apply from_list; [done|]. intros cs H Hl.
    rewrite <- Ep, <- Er, <- Hl. by apply most_of_spec.
  - destruct (summaries es) as (Ep & Er & _). apply from_list; [done|]. intros cs H Hl.
    rewrite <- Ep, <- Er, <- Hl. by apply all_of_spec.
  - rewrite <- andb_assoc. apply from_one; [done|]. intros c Hc. by eapply any_of_range_spec.
  - apply from_one; [done|]. intros c Hc. by eapply most_of_range_spec.
  - rewrite <- andb_assoc. apply from_one; [done|]. intros c Hc. by eapply all_of_range_spec.
Qed.

(** * Types and answers *)

(** What the optional methods of an awaiter answer, if there are any; the answers are of
    the types declared. *)
Record answers := Answers { a_early : bool; a_cancel : bool; a_must : bool }.
Implicit Types (a : answers).
Definition typed (t : ty) (b : bool) : bool :=
  match t with TBool => true | TTrue => b | TFalse => negb b | _ => false end.
Definition typed_method m (b : bool) : Prop := forall t, ret_of m = Some t -> typed t b = true.
Definition conforms c a : Prop :=
  (CustomizesEarlyCancel c = true -> typed_method (await_early_cancel c) (a_early a)) /\
  (Cancellable c = true -> typed_method (await_cancel c) (a_cancel a)) /\
  (CustomizesMustResume c = true -> typed_method (await_must_resume c) (a_must a)).

(** What the wrappers answer. *)
Definition own (b : bool) {A} (x : A) : option A := if b then Some x else None.
Definition early_answer c a : bool := awaitEarlyCancel (own (CustomizesEarlyCancel c) (a_early a)).
Definition cancel_answer c a : bool := awaitCancel (own (Cancellable c) (fun _ => a_cancel a)) Noop.
Definition must_answer c a : bool := awaitMustResume (own (CustomizesMustResume c) (a_must a)) (CancelAlwaysSucceeds c).

Lemma answers_typed c a :
  valid c -> conforms c a ->
  typed (if_always (Skippable c) TTrue) (early_answer c a) = true /\
  typed (if_always (Abortable c) TTrue) (cancel_answer c a) = true /\
  typed (if_always (CancelAlwaysSucceeds c) TFalse) (must_answer c a) = true.
Proof.
  intros HV (H1 & H2 & H3). unfold early_answer, cancel_answer, must_answer. split_and!.
  - pose proof (type_early c) as E. unfold type_awaitEarlyCancel in E.
    destruct (CustomizesEarlyCancel c); [by apply H1|by destruct (Skippable c)].
  - pose proof (type_cancel c) as E. unfold type_awaitCancel in E.
    destruct (Cancellable c) eqn:F; [by apply H2|by destruct (Abortable c)].
  - pose proof (type_must c HV) as E. unfold type_awaitMustResume in E.
    destruct (CustomizesMustResume c); [by apply H3|by destruct (CancelAlwaysSucceeds c)].
Qed.

Lemma typed_true b x : typed (if_always b TTrue) x = true -> b = true -> x = true.
Proof. by intros H ->. Qed.
Lemma typed_false b x : typed (if_always b TFalse) x = true -> b = true -> x = false.
Proof. intros H ->. by destruct x. Qed.

(** An awaiter whose own method refuses a cancellation has been asked to say how such
    a cancellation ended. *)
Lemma refusal_customizes c a :
  valid c -> conforms c a ->
  (CustomizesEarlyCancel c = true /\ a_early a = false) \/ (Cancellable c = true /\ a_cancel a = false) ->
  CustomizesMustResume c = true.
Proof.
  intros HV Hc Hr. destruct (answers_typed _ _ HV Hc) as (T1 & T2 & _).
  unfold early_answer, cancel_answer in *. destruct Hr as [[E R]|[E R]]; rewrite E, R in *; cbn in *.
  - destruct (v_early _ HV E) as [S|?]; [|done]. by rewrite S in T1.
  - destruct (v_cancel _ HV E) as [S|?]; [|done]. by rewrite S in T2.
Qed.


(** A user's awaiter that can only be cancelled asynchronously, inside a disposable,
    shared, in an [anyOf()] with an event, as the first stage of a sequence. *)
Definition user_awaiter : cls := answers_as (decl TBool) (decl TBool) (decl TBool) (plain TVoid TOther).
Definition nested : expr :=
  ESequence (EAnyOf None [EShared TOther (EDisposable (EUser (as_object user_awaiter))); EEvent]) (ETask TVoid).

(** What does not compile: a cleanup that yields something, tasks that return errors
    beside one that does not, unless a policy is given that can cope with both, and all
    of a range of results that can only be moved (of a pack, it does). *)
Definition fallible : ty := TObject (UserPolicy 0 false) true.
Definition move_only : ty := TObject DefaultErrorPolicy false.
Example cleanup_with_a_result :
  class_of (EUntilCancelledAnd (ETask TBool)) = None /\ class_of (EUntilCancelledAnd (ETask TVoid)) <> None.
Proof. by split. Qed.
Example mixed_policies :
  class_of (EAllOf None [ETask fallible; EEvent]) = None /\
  class_of (EAllOf (Some UseExceptions) [ETask fallible; EEvent]) <> None /\
  class_of (EAllOf (Some (UserPolicy 0 false)) [ETask fallible; EEvent]) = None /\
  class_of (EAllOf None [ETask fallible; ETask fallible]) <> None /\
  class_of (EWith None (ETask TVoid) (ETask fallible)) = None.
Proof. by split_and!. Qed.
Example moved_results :
  class_of (EAllOfRange None (ETask move_only)) = None /\ class_of (EAnyOfRange None (ETask move_only)) <> None /\
  class_of (EAllOf None [ETask move_only]) <> None.
Proof. by split_and!. Qed.
Example nothing_to_cancel :
  class_of (EAnyOf None [EGetExecutor; ERethrow]) = None /\ class_of (EAnyOf None [EGetExecutor; EEvent]) <> None.
Proof. by split. Qed.

(** What the concepts refuse: an awaiter that may refuse a cancellation and does not say
    how it ended; and one that could require resumption although nothing is ever refused. *)
Example no_must_resume : ValidAwaiter (cancel_as (decl TBool) (plain TVoid TVoid)) = false.
Proof. reflexivity. Qed.
Example needless_must_resume : ValidAwaiter (answers_as (decl TTrue) None (decl TBool) (plain TVoid TVoid)) = false.
Proof. reflexivity. Qed.
Example misspelt_type : ValidAwaiter (cancel_as (decl TVoid) (plain TVoid TVoid)) = false.
Proof. reflexivity. Qed.
(** A method of the right name that is a template with a wrong type goes unnoticed: it
    is not called, and the awaiter counts as not cancellable. *)
Example template_unnoticed :
  let c := cancel_as (generic TVoid) (plain TVoid TVoid) in ValidAwaiter c = true /\ Cancellable c = false.
Proof. split; reflexivity. Qed.
