(* ===== verification/Abortable.v ===== *)
(** [detail/wait.h]: what the type of a combiner promises, and what it does.

    An [anyOf()] of abortable awaiters is abortable itself ([muxIsAbortable()] of
    Concepts.v): its [await_cancel()] returns [std::true_type], and asserts that it has
    cancelled every child.  Here the combiner is the one of Mux.v, its children answer
    as their classes say, and the assertion is shown to hold - and an example shows
    when it does not. *)
From S2P Require Import Awaiter Mux Concepts.

Implicit Types (m : mux) (k : helper) (i : option nat) (j : nat).

(** Each child but [i] is running or cancelled, and a cancellation of it succeeds. *)
Definition prompt k : Prop := b_cancel (h_beh k) = Confirmed /\ (h_state k = Running \/ h_state k = Cancelled).
Definition all_prompt (i : option nat) m : Prop :=
  forall j k, kids m !! j = Some k -> if decide (Some j = i) then h_state k = Succeeded \/ h_state k = Failed else prompt k.

Lemma all_prompt_kids i m m' : kids m = kids m' -> all_prompt i m -> all_prompt i m'.
Proof. intros E H j k Hk. rewrite <- E in Hk. by apply H. Qed.

(** Writing a child's state. *)
Lemma setState_kids j s m m' :
  setState j s m = Ok m' -> exists k, kids m !! j = Some k /\ kids m' = <[j := Helper (h_bound k) s (h_beh k)]> (kids m).
Proof. unfold setState, kid. intros H. res_inv. eauto. Qed.
Lemma all_prompt_insert i j k' m m' :
  all_prompt i m -> kids m' = <[j := k']> (kids m) ->
  (if decide (Some j = i) then h_state k' = Succeeded \/ h_state k' = Failed else prompt k') -> all_prompt i m'.
Proof.
  intros H E Hk j' k Hj. rewrite E in Hj. apply list_lookup_insert_Some in Hj as [(-> & <- & _)|(_ & Hj)]; [done|].
  by apply H.
Qed.

Definition keeps (i : option nat) (inv : bool -> mux -> res mux) : Prop :=
  forall err m m', all_prompt i m -> inv err m = Ok m' -> all_prompt i m'.
Lemma notify_keeps i inv j err m m' : keeps i inv -> all_prompt i m -> notify inv j err m = Ok m' -> all_prompt i m'.
Proof. unfold notify. intros Hi Hm H. res_inv. destruct (h_bound _); [by eapply Hi|done]. Qed.

Lemma cancel_keeps i inv j b m m' :
  keeps i inv -> all_prompt i m -> cancel inv j m = Ok (b, m') -> all_prompt i m' /\ (Some j <> i -> b = true).
Proof.
  intros Hi Hm H. unfold cancel, kid in H. apply bind_ok in H as (k & Hk%deref_ok & H).
  pose proof (Hm j k Hk) as Hj.
  case_decide as E; [destruct Hj as [Hs|Hs] | destruct Hj as [Hc [Hs|Hs]]]; rewrite Hs in H.
  - by res_inv.
  - by res_inv.
  - rewrite Hc in H. res_inv.
    rename H into S1, H0 into S2, H1 into S3.
    apply setState_kids in S1 as (k1 & K1 & E1). apply setState_kids in S2 as (k2 & K2 & E2).
    rewrite E1 in K2, E2. rewrite list_lookup_insert_eq in K2 by (by eapply lookup_lt_Some).
    injection K2 as <-. rewrite list_insert_insert_eq in E2. split; [|done].
    eapply notify_keeps; [done| |exact S3]. eapply all_prompt_insert; [exact Hm|exact E2|].
    rewrite decide_False by done. split; [|by right]. cbn. congruence.
  - by res_inv.
Qed.

Lemma cancel_from_keeps i inv js b m m' :
  keeps i inv -> all_prompt i m -> cancel_from inv js m = Ok (b, m') ->
  all_prompt i m' /\ ((forall j, j ∈ js -> Some j <> i) -> b = true).
Proof.
  intros Hi. revert b m. induction js as [|j js IH]; intros b m Hm H; cbn in H; [by res_inv|].
  apply bind_ok in H as ([b1 m1] & E1 & H). apply bind_ok in H as ([b2 m2] & E2 & H). injection H as <- <-.
  destruct (cancel_keeps i inv j b1 m m1 Hi Hm E1) as [Hm1 Hb1]. destruct (IH _ _ Hm1 E2) as [Hm2 Hb2].
  split; [done|]. intros Hj. rewrite Hb1, Hb2 by set_solver. done.
Qed.
Lemma invoke_keeps i fuel : keeps i (invoke fuel).
Proof.
  induction fuel as [|fuel IH]; intros err m m' Hm H; [done|]. cbn [invoke] in H.
  set (m0 := if err && _ then set_error true _ else _) in H.
  assert (Hm0 : all_prompt i m0) by (eapply all_prompt_kids, Hm; by subst m0; destruct (err && _)).
  destruct (_ =? size m0)%Z; [injection H as <-; by eapply all_prompt_kids, Hm0|].
  destruct (_ || _); [|by injection H as <-].
  apply bind_ok in H as ([b m1] & E1 & H). unfold internalCancel in E1.
  eapply cancel_from_keeps in E1 as [Hm1 _]; [|exact IH|by eapply all_prompt_kids, Hm0].
  destruct (_ =? _)%Z; injection H as <-; by eapply all_prompt_kids, Hm1.
Qed.

(** ** The combiner *)

(** The children answer within the types of their classes, and none of them finishes
    while the combiner is started. *)
Definition answers_of (b : behaviour) : answers :=
  Answers (b_early b) (bool_decide (b_cancel b = Confirmed)) (b_must b).
Definition child_ok (c : cls) (b : behaviour) : Prop :=
  ValidAwaiter c = true /\ conforms c (answers_of b) /\
  b_skippable b = Skippable c /\ b_ready b = false /\ b_suspend b = Later.

Lemma abortable_confirms c b : child_ok c b -> Abortable c = true -> b_cancel b = Confirmed.
Proof.
  intros (Hv & Hc & _) Ha. destruct (answers_typed c _ (valid_parts _ Hv) Hc) as (_ & T & _).
  rewrite Ha in T. unfold cancel_answer in T. destruct (Cancellable c); [|done]. cbn in T.
  by apply bool_decide_eq_true in T.
Qed.

Lemma confirm_all cs bs :
  Forall2 child_ok cs bs -> forallb Abortable cs = true ->
  Forall (fun b => b_cancel b = Confirmed /\ b_ready b = false /\ b_suspend b = Later) bs.
Proof.
  induction 1 as [|c b cs bs H _ IH]; cbn; [done|]. intros [Ha Has]%andb_true_iff. constructor; [|auto].
  split; [by apply (abortable_confirms c)|by apply H].
Qed.

Definition started (p : loc) (bs : list behaviour) : mux :=
  set_kids ((fun b => Helper true Running b) <$> bs) (set_parent (Coro p) (anyOf bs true)).

Section Started.
Context (p : loc) (bs : list behaviour).
Hypothesis Hne : bs <> [].
Hypothesis Hbs : Forall (fun b => b_cancel b = Confirmed /\ b_ready b = false /\ b_suspend b = Later) bs.

Lemma starts :
  mux_await_suspend (Coro p) (anyOf bs true) = Ok (true, started p bs) /\
  running p (started p bs) /\ log_ (started p bs) = [] /\ minReady (started p bs) = 1%Z.
Proof.
  assert (Hs : startable (anyOf bs true)).
  { apply new_mux_startable; [done|destruct bs; [done|cbn; lia]|]. clear Hne.
    induction Hbs as [|b l (_ & Hr & Hs) Hl IH]; [done|]. cbn. unfold finishes_at_start. rewrite Hr, Hs. by apply IH. }
  assert (E : mux_await_suspend (Coro p) (anyOf bs true) = Ok (true, started p bs)).
  { unfold mux_await_suspend. destruct (Z.eqb_spec (size (anyOf bs true)) 0) as [E|_].
    - unfold size in E. cbn in E. rewrite length_fmap in E. destruct bs; [done|cbn in E; lia].
    - cbv zeta. set (m0 := bind_all _). rewrite (suspend_from_async _ 0 [] (kids m0) []); [|cbn; by rewrite app_nil_r|done|].
      + cbn [mbind res_bind app]. do 2 f_equal. unfold started, m0, bind_all. cbn. rewrite app_nil_r, <- !list_fmap_compose. done.
      + cbn. rewrite <- list_fmap_compose. apply Forall_fmap. eapply Forall_impl; [exact Hbs|].
        by intros b (_ & ? & ?). }
  destruct (start_ok p _ Hs) as (m' & E' & Hr & Hmin & _ & _ & _ & Hl). rewrite E in E'. injection E' as <-.
  split_and!; [done|done|done|]. cbn. destruct bs; [done|cbn; lia].
Qed.

Lemma started_prompt : all_prompt None (started p bs).
Proof.
  intros j k Hk. rewrite decide_False by done. cbn in Hk. apply list_lookup_fmap_Some in Hk as (b & -> & Hb).
  split; [|by left]. by destruct (Forall_lookup_1 _ _ _ _ Hbs Hb).
Qed.

(** The parent cancels. *)
Lemma cancels :
  exists m, mux_await_cancel (Coro p) (started p bs) = Ok (true, m) /\ log_ m = [] /\
    forall k, k ∈ kids m -> h_state k = Cancelled.
Proof.
  destruct starts as (_ & [Hok Hq Hp] & Hlog & _). set (m := started p bs) in *.
  unfold mux_await_cancel. cbv zeta. set (m0 := set_parent Noop m).
  destruct (internalCancel_ok (mux_invoke m) (fuel_of m) (length (kids m)) 0 m0) as (b & m1 & E & _ & Hp1 & Ht & _ & Hl).
  { by apply mux_invoke_ok. } { by apply parent_ext. } { done. }
  { pose proof (unfinished_le (kids m)). unfold fuel_of. cbn [kids m0 set_parent]. lia. }
  assert (Hb : b = true).
  { eapply cancel_from_keeps; [apply (invoke_keeps None)|eapply all_prompt_kids, started_prompt|exact E|]; done. }
  rewrite E. cbn [mbind res_bind]. change (abortable_ (set_parent (parent_ m) m1)) with (abortable_ m1).
  rewrite (pg_abort _ _ Hp1), Hb. eexists. split; [reflexivity|]. split; [|by apply Ht].
  cbn. rewrite (Hl (or_intror eq_refl)). exact Hlog.
Qed.

(** A child finishes. *)
Lemma finishes j :
  j < length bs ->
  exists m, helper_invoke (mux_invoke (started p bs)) j (started p bs) = Ok m /\ log_ m = [p] /\
    forall j' k, kids m !! j' = Some k ->
      if decide (j' = j) then h_state k = Succeeded \/ h_state k = Failed else h_state k = Cancelled.
Proof.
  intros Hj. destruct starts as (_ & Hr & Hlog & Hmin). set (m := started p bs) in *.
  destruct (lookup_lt_is_Some_2 bs j Hj) as [b Hb].
  assert (Hk : kids m !! j = Some (Helper true Running b)) by (cbn; by rewrite list_lookup_fmap, Hb).
  destruct (complete_ok p j _ m Hr Hk ltac:(by left)) as (m' & E & Hr' & Hp' & _ & Hl').
  assert (HA : all_prompt (Some j) m').
  { unfold helper_invoke, kid in E. rewrite Hk in E. cbn [mbind res_bind deref h_state] in E.
    unfold reportResult in E. apply bind_ok in E as (m1 & E1 & E). apply bind_ok in E as (k1 & Hk1%deref_ok & E).
    apply bind_ok in E as (m2 & E2 & E). eapply notify_keeps; [apply invoke_keeps| |exact E].
    assert (H1 : all_prompt (Some j) m1).
    { apply setState_kids in E1 as (k0 & _ & E1). intros j' k Hj'. rewrite E1 in Hj'.
      apply list_lookup_insert_Some in Hj' as [(-> & <- & _)|(Hne' & Hj')].
      - rewrite decide_True by done. by left.
      - rewrite decide_False by congruence. pose proof (started_prompt j' k Hj') as HP. by rewrite decide_False in HP. }
    destruct (b_error _); [|by injection E2 as <-]. apply setState_kids in E2 as (k2 & _ & E2).
    eapply all_prompt_insert; [exact H1|exact E2|]. rewrite decide_True by done. by right. }
  assert (Hcalm : forall k, k ∈ kids m' -> calm (h_state k) = true).
  { apply (rn_quiet _ _ Hr'). right. rewrite (pg_min _ _ Hp'), Hmin.
    pose proof (mo_count _ _ _ _ (rn_ok _ _ Hr')) as HC. pose proof (unfinished_fcount (kids m')) as HF.
    destruct (lookup_lt_is_Some_2 (kids m') j) as [k Hk']; [rewrite (pg_length _ _ Hp'); by eapply lookup_lt_Some|].
    pose proof (HA j k Hk') as Hf. rewrite decide_True in Hf by done.
    assert (unfinished (kids m') <> length (kids m')); [|lia]. intros Hu.
    pose proof (cnt_all not_fin (kids m') Hu k (list_elem_of_lookup_2 _ _ _ Hk')) as Hn. unfold not_fin in Hn.
    by destruct Hf as [Hf|Hf]; rewrite Hf in Hn. }
  assert (Hfin : forall j' k, kids m' !! j' = Some k ->
      if decide (j' = j) then h_state k = Succeeded \/ h_state k = Failed else h_state k = Cancelled).
  { intros j' k Hk'. pose proof (HA j' k Hk') as HP. destruct (decide (j' = j)) as [->|Hn].
    - by rewrite decide_True in HP.
    - rewrite decide_False in HP by congruence. destruct HP as [_ [Hs|Hs]]; [|done].
      pose proof (Hcalm k (list_elem_of_lookup_2 _ _ _ Hk')) as Hc. by rewrite Hs in Hc. }
  exists m'. split_and!; [done| |exact Hfin]. rewrite Hl', Hlog, decide_True; [done|].
  apply cnt_zero. intros k [j' Hk']%list_elem_of_lookup. specialize (Hfin j' k Hk').
  destruct (decide (j' = j)); [by destruct Hfin as [Hs|Hs]; rewrite Hs|by rewrite Hfin].
Qed.
End Started.

(** The type of an [anyOf()] of such children, and that there is one. *)
Lemma children_specs cs bs :
  Forall2 child_ok cs bs ->
  specs ((fun c => Summary (promise_of c) (Cancellable c) (default TVoid (ret_of (await_resume c)))) <$> cs) cs.
Proof.
  induction 1 as [|c b cs bs (Hv & _) _ IH]; constructor; [|exact IH]. split; [exact Hv|done..|].
  destruct (awaiter_returns c) as (_ & r & _ & _ & E); [apply (valid_parts c), Hv|]. cbn. by rewrite E.
Qed.
Lemma any_of_abortable cs bs :
  Forall2 child_ok cs bs -> cs <> [] -> forallb Abortable cs = true ->
  (forall g c, anyOf_type g cs = Some c -> Abortable c = true) /\
  (exists c, anyOf_type (Some DefaultErrorPolicy) cs = Some c).
Proof.
  intros HS%children_specs Hne Ha. pose proof (fun g => any_of_spec g _ _ HS) as HT. split.
  - intros g c E. specialize (HT g). unfold makes in HT. rewrite E in HT.
    destruct (_ && _); [|done]. destruct HT as (d & [= <-] & [_ Hp _ _]).
    change (Abortable c) with (p_abort (promise_of c)). rewrite Hp. cbn. by rewrite <- (specs_abortable _ _ HS).
  - specialize (HT (Some DefaultErrorPolicy)). unfold makes in HT.
    destruct (_ && _) eqn:E; [by destruct HT as (d & ? & _); exists d|].
    exfalso. apply andb_false_iff in E as [E|E].
    + rewrite <- (specs_cancellable _ _ HS) in E. destruct cs as [|c cs]; [done|].
      cbn in E, Ha. apply andb_true_iff in Ha as [Ha _]. apply orb_false_iff in E as [E _].
      unfold Abortable in Ha. unfold Cancellable in E. by rewrite (two_types_r TBool TTrue _ Ha) in E.
    + clear -E. unfold one_policy in E. cbn in E. by induction (s_result <$> _) as [|t ts IH].
Qed.

(** C36.  An [anyOf()] whose children are all of abortable
    classes has, whenever it compiles, which it does for the default error policy, the
    type of one whose cancellation always succeeds at once, and that is what it does, whatever the children answer within their types, as long as none
    of them finishes while the combiner is being started: if the parent cancels, every
    child is cancelled then and there, the assertion holds, and the parent is not
    resumed; if a child finishes, with a value or an error, every other child is cancelled before
    the call returns and the parent is resumed, once. *)
Theorem abortable_mux_keeps_promise p cs bs :
  cs <> [] -> muxIsAbortable 1 cs = true -> Forall2 child_ok cs bs ->
  (forall g c, anyOf_type g cs = Some c -> Abortable c = true) /\
  (exists c, anyOf_type (Some DefaultErrorPolicy) cs = Some c) /\
  exists m, mux_await_suspend (Coro p) (anyOf bs (muxIsAbortable 1 cs)) = Ok (true, m) /\ log_ m = [] /\
    (exists m', mux_await_cancel (Coro p) m = Ok (true, m') /\ log_ m' = [] /\
       forall k, k ∈ kids m' -> h_state k = Cancelled) /\
    (forall j, j < length cs -> exists m', helper_invoke (mux_invoke m) j m = Ok m' /\ log_ m' = [p] /\
       forall j' k, kids m' !! j' = Some k ->
         if decide (j' = j) then h_state k = Succeeded \/ h_state k = Failed else h_state k = Cancelled).
Proof.
  intros Hne Ha H. rewrite Ha. unfold muxIsAbortable in Ha. cbn in Ha.
  assert (Hbs : bs <> []) by (by intros ->; inversion H).
  pose proof (confirm_all _ _ H Ha) as HC. destruct (any_of_abortable cs bs H Hne Ha) as [HT HE].
  split_and!; [exact HT|exact HE|].
  exists (started p bs). destruct (starts p bs Hbs HC) as (E & _ & Hl & _). split_and!; [done|done| |].
  - by apply cancels.
  - intros j Hj. apply finishes; [done|done|]. by rewrite <- (Forall2_length _ _ _ H).
Qed.

(** Two events. *)
Definition events : list cls := [Event_Awaiter; Event_Awaiter].
Definition b_waiting : behaviour := Beh false true true Later Confirmed true false.
Lemma abortable_mux_keeps_promise_witness :
  exists m m', mux_await_suspend (Coro 1) (anyOf [b_waiting; b_waiting] true) = Ok (true, m) /\
    mux_await_cancel (Coro 1) m = Ok (true, m').
Proof.
  assert (H : Forall2 child_ok events [b_waiting; b_waiting]).
  { repeat constructor; try (intros _ t E; injection E as <-; reflexivity); intros HF; discriminate HF. }
  destruct (abortable_mux_keeps_promise 1 events [b_waiting; b_waiting] ltac:(discriminate) eq_refl H)
    as (_ & _ & m & E & _ & (m' & E' & _) & _).
  exists m, m'. split; [exact E|exact E'].
Defined.

(** The assertion fails if a child finishes at once: a later child that refuses to be
    cancelled early is told to cancel before it has started, and so has not finished
    when the parent cancels. *)
Definition b_at_once : behaviour := Beh true true true Later Confirmed true false.
Definition b_unskippable : behaviour := Beh false false false Later Confirmed true false.
Example abortable_mux_asserts :
  ('(_, m) ← mux_await_suspend (Coro 1) (anyOf [b_at_once; b_unskippable] true);
   mux_await_cancel (Coro 1) m) = Fault AssertFailed.
Proof. vm_compute. reflexivity. Qed.
