(* ===== verification/ErrorPolicy.v ===== *)
(** [ErrorPolicy.h]: errors carried in values, and the code that is generic in how.

    [ErrorPolicy] are the operations of a policy and [PolicyLaws] what the comments of
    the concept demand of them.  [UseExceptions] and [Infallible] are the two of the
    library; [Expected] is a user's, for a type that holds a value or an error code.
    Then the parts of the library that are templates over a policy, with the values
    that the other files leave out: how a combiner reports a child's result and
    makes its own (detail/wait.h), how a nursery collects errors (Nursery.h), and
    [co_try] (detail/Promise.h). *)
From S2P Require Import Prelude.

(** What evaluating an expression of C++ ends in.  [X] is what can be thrown. *)
Inductive flow (X A : Type) := Returns (a : A) | Throws (x : X) | Dies (f : fault).
Arguments Returns {X A} a.
Arguments Throws {X A} x.
Arguments Dies {X A} f.
#[export] Instance flow_ret X : MRet (flow X) := fun A a => Returns a.
#[export] Instance flow_bind X : MBind (flow X) := fun A B k m =>
  match m with Returns a => k a | Throws x => Throws x | Dies f => Dies f end.

(** [CORRAL_ASSERT(b)]; [try { m } catch (...) { h }]; and a [noexcept] function. *)
Definition flow_assert {X} (b : bool) : flow X unit := if b then Returns () else Dies AssertFailed.
Definition try_catch {X A} (m : flow X A) (h : X -> flow X A) : flow X A :=
  match m with Throws x => h x | _ => m end.
Definition noexcept {X A} (m : flow X A) : flow X A := try_catch m (fun _ => Dies Terminated).

(** * Policies *)

(** [Wrapped V] is the type of a function that yields a [V] or an error; [no_error] is
    [ErrorType{}], [uninitialized] what a variable holds that is declared as [ErrorType err;],
    which for a number or a plain struct may be anything; [UsesErrorCodes] tells whether [wrapValue()] of no value returns something. *)
Class ErrorPolicy (X : Type) := {
  ErrorType : Type;
  no_error : ErrorType;
  uninitialized : ErrorType;
  Wrapped : Type -> Type;
  UsesErrorCodes : bool;
  hasError : ErrorType -> bool;
  fromCurrentException : X -> flow X ErrorType;
  terminateBy : ErrorType -> flow X unit;
  wrapError : forall V : Type, ErrorType -> flow X (Wrapped V);
  wrapValue : forall V : Type, V -> Wrapped V;
  unwrapError : forall V : Type, Wrapped V -> ErrorType;
  unwrapValue : forall V : Type, Wrapped V -> flow X V }.
Arguments wrapError {X _} V e.
Arguments wrapValue {X _ V} v.
Arguments unwrapError {X _ V} w.
Arguments unwrapValue {X _ V} w.

(** What the comments of [ApplicableErrorPolicy] say. *)
Class PolicyLaws X `{ErrorPolicy X} := {
  (** a default-initialized error should indicate no error *)
  no_error_is_none : hasError no_error = false;
  (** what comes from an exception is an error *)
  exception_is_error x e : fromCurrentException x = Returns e -> hasError e = true;
  (** the error of an object that holds a value is a default-constructed one *)
  unwrapError_value V (v : V) : unwrapError (wrapValue v) = no_error;
  (** an object without an error holds a value *)
  unwrapValue_ok V (w : Wrapped V) : hasError (unwrapError w) = false -> exists v, unwrapValue w = Returns v;
  unwrapValue_value V (v : V) : unwrapValue (wrapValue v) = Returns v;
  (** an error is wrapped into an object or thrown, and comes out again *)
  wrapError_codes V e : UsesErrorCodes = true -> hasError e = true ->
    exists w, wrapError V e = Returns w /\ unwrapError w = e;
  wrapError_throws V e : UsesErrorCodes = false -> hasError e = true ->
    exists x, wrapError V e = Throws x /\ fromCurrentException x = Returns e;
  (** without error codes, no object holds an error *)
  unwrapError_none V (w : Wrapped V) : UsesErrorCodes = false -> hasError (unwrapError w) = false }.

(** [UseExceptions]: errors are exception pointers, thrown again to propagate. *)
Definition UseExceptions X : ErrorPolicy X := {|
  ErrorType := option X;
  no_error := None;
  uninitialized := None;
  Wrapped V := V;
  UsesErrorCodes := false;
  hasError e := match e with Some _ => true | None => false end;
  fromCurrentException x := Returns (Some x);
  terminateBy e := match e with Some x => noexcept (Throws x) | None => Dies BadAccess end;
  wrapError V e := match e with Some x => Throws x | None => Dies BadAccess end;
  wrapValue V v := v;
  unwrapError V w := None;
  unwrapValue V w := Returns w |}.
#[local] Instance UseExceptions_laws X : @PolicyLaws X (UseExceptions X).
Proof.
  split; try done.
  - by intros x e [= <-].
  - intros V w _. by exists w.
  - intros V [x|] _; [|done]. by exists x.
Qed.

(** [Infallible]: there are no errors. *)
Definition Infallible X : ErrorPolicy X := {|
  ErrorType := unit;
  no_error := ();
  uninitialized := ();
  Wrapped V := V;
  UsesErrorCodes := false;
  hasError _ := false;
  fromCurrentException _ := Dies Terminated;
  terminateBy _ := Dies Unreachable;
  wrapError V _ := Dies Unreachable;
  wrapValue V v := v;
  unwrapError V _ := ();
  unwrapValue V w := Returns w |}.
#[local] Instance Infallible_laws X : @PolicyLaws X (Infallible X).
Proof. split; try done. intros V w _. by exists w. Qed.

(** A policy for a type like [std::expected<V, int>], where 0 means success; [garbage] is
    what was in memory. *)
Definition ExpectedWith (garbage : Z) X : ErrorPolicy X := {|
  ErrorType := Z;
  no_error := 0%Z;
  uninitialized := garbage;
  Wrapped V := (V + {e : Z | (e =? 0)%Z = false})%type;
  UsesErrorCodes := true;
  hasError e := negb (e =? 0)%Z;
  fromCurrentException _ := Dies Unreachable;
  terminateBy _ := Dies Terminated;
  wrapError V e := match decide ((e =? 0)%Z = false) with left H => Returns (inr (exist _ e H)) | right _ => Dies Unreachable end;
  wrapValue V v := inl v;
  unwrapError V w := match w with inl _ => 0%Z | inr e => proj1_sig e end;
  unwrapValue V w := match w with inl v => Returns v | inr _ => Dies BadAccess end |}.
Definition Expected X : ErrorPolicy X := ExpectedWith 0 X.
#[local] Instance Expected_laws garbage X : @PolicyLaws X (ExpectedWith garbage X).
Proof.
  split; try done; cbn.
  - intros V [v|[e H]]; [by exists v|]. cbn. by rewrite H.
  - intros V e _ He. destruct (decide _) as [H|H]; [by eexists|]. by destruct (e =? 0)%Z.
Qed.

(** * Combiners *)

(** The states of a child that has been started, and [storage_]. *)
Inductive child_state := Running | Succeeded | Failed | Cancelled.
#[export] Instance child_state_eq_dec : EqDecision child_state.
Proof. solve_decision. Defined.

Section Policy.
Context {X : Type} `{HP : ErrorPolicy X}.

Record helper (V : Type) := Helper { h_state : child_state; storage_ : option V }.
Arguments Helper {V} h_state storage_.
Arguments h_state {V} h.
Arguments storage_ {V} h.
Record mux (V : Type) := Mux { children : list (helper V); count_ : Z; error_ : ErrorType }.
Arguments Mux {V} children count_ error_.
Arguments children {V} m.
Arguments count_ {V} m.
Arguments error_ {V} m.

(** What a task or an awaitable tells the library: a value or an error. *)
Definition outcome {V} (r : flow X (Wrapped V)) : flow X (V + ErrorType) :=
  match r with
  | Returns w =>
      if hasError (unwrapError w) then Returns (inr (unwrapError w))
      else v ← unwrapValue w; Returns (inl v)
  | Throws x => e ← fromCurrentException x; Returns (inr e)
  | Dies f => Dies f
  end.

Section Values.
Context {V : Type}.

(** What [await_resume()] of a child's awaiter does: it yields a wrapped value, or its
    type is [void], [v] being the [Void] that stands for its value. *)
Inductive resumption := Yields (r : flow X (Wrapped V)) | YieldsVoid (v : V) (r : flow X unit).
Implicit Types (m : mux V) (k : helper V) (j : nat) (e : ErrorType) (w : Wrapped V) (r : resumption).

Definition new_mux (n : nat) : mux V := Mux (replicate n (Helper Running None)) 0 no_error.
Definition set_child j k m : mux V := Mux (<[j := k]> (children m)) (count_ m) (error_ m).

(** [MuxBase::invoke(err)], as far as it is about errors *)
Definition invoke e m : mux V :=
  let i := (count_ m + 1)%Z in
  let firstFail := hasError e && negb (hasError (error_ m)) in
  Mux (children m) i (if firstFail then e else error_ m).

(** [MuxHelper::reportResult()].  In the branch for [void] nothing is assigned to [err]. *)
Definition reportResult j r m : flow X (mux V) :=
  '(e, k) ← try_catch
    (match r with
     | Yields r =>
         ret ← r;
         let err := unwrapError ret in
         if negb (hasError err) then v ← unwrapValue ret; Returns (err, Helper Succeeded (Some v))
         else Returns (err, Helper Failed None)
     | YieldsVoid v r => _ ← r; Returns (uninitialized, Helper Succeeded (Some v))
     end)
    (fun x => err ← fromCurrentException x; Returns (err, Helper Failed None));
  Returns (invoke e (set_child j k m)).
(** A child whose cancellation was confirmed: [mux()->invoke({})] *)
Definition reportCancelled j m : mux V := invoke no_error (set_child j (Helper Cancelled None) m).

(** [asOptional()] and [result()] *)
Definition asOptional k : flow X (option V) :=
  match h_state k with
  | Succeeded => match storage_ k with Some v => Returns (Some v) | None => Dies BadAccess end
  | Cancelled => Returns None
  | _ => Dies Unreachable
  end.
Definition result k : flow X V :=
  flow_assert (bool_decide (h_state k = Succeeded));;
  match storage_ k with Some v => Returns v | None => Dies BadAccess end.

(** [await_resume()]: of [AnyOf] and [MostOf], and of [AllOf] *)
Definition collect {A} (take : helper V -> flow X A) m : flow X (Wrapped (list A)) :=
  if negb (hasError (error_ m)) then vs ← mapM take (children m); Returns (wrapValue vs)
  else if UsesErrorCodes then wrapError (list A) (error_ m)
  else _ ← wrapError (list A) (error_ m); Dies Unreachable.
Definition await_resume m : flow X (Wrapped (list (option V))) := collect asOptional m.
Definition AllOf_await_resume m : flow X (Wrapped (list V)) := collect result m.

(** Children report in any order; [None] is a confirmed cancellation. *)
Definition event : Type := nat * option resumption.
Definition report (ev : event) m : flow X (mux V) :=
  match snd ev with Some r => reportResult (fst ev) r m | None => Returns (reportCancelled (fst ev) m) end.
Fixpoint reports (evs : list event) m : flow X (mux V) :=
  match evs with [] => Returns m | ev :: evs => m ← report ev m; reports evs m end.
End Values.

(** * Nurseries *)

(** [parent_]: whether somebody waits for the nursery, and the flag [Cancelling]. *)
Record nursery := Nursery { parent_ : bool; cancelling : bool; n_error : ErrorType }.

Definition new_nursery : nursery := Nursery true false no_error.

(** [BasicNursery::storeError()], [storeValue()], [storeException()], [wrapError()] *)
Definition storeError (e : ErrorType) (n : nursery) : flow X nursery :=
  noexcept (if parent_ n then Returns () else terminateBy e);;
  Returns (Nursery (parent_ n) true (if hasError (n_error n) then n_error n else e)).
Definition storeValue (value : Wrapped unit) (n : nursery) : flow X nursery :=
  if UsesErrorCodes then
    let err := unwrapError value in if hasError err then storeError err n else Returns n
  else Returns n.
Definition storeException (x : X) (n : nursery) : flow X nursery := err ← fromCurrentException x; storeError err n.
Definition nursery_wrapError (n : nursery) : flow X (Wrapped unit) :=
  if negb (hasError (n_error n)) then Returns (wrapValue tt)
  else if negb UsesErrorCodes then _ ← wrapError unit (n_error n); Dies Unreachable
  else wrapError unit (n_error n).

(** A task of the nursery ends. *)
Definition task_ends (r : flow X (Wrapped unit)) (n : nursery) : flow X nursery :=
  match r with Returns w => storeValue w n | Throws x => storeException x n | Dies f => Dies f end.
Fixpoint tasks_end (rs : list (flow X (Wrapped unit))) (n : nursery) : flow X nursery :=
  match rs with [] => Returns n | r :: rs => n ← task_ends r n; tasks_end rs n end.

(** [CORRAL_CO_TRY]: a coroutine that tries values one after the other. *)
Inductive body (V : Type) :=
| CoReturn (w : Wrapped V) | CoThrow (x : X) | CoTry (U : Type) (w : Wrapped U) (k : U -> body V).
Arguments CoReturn {V} w.
Arguments CoThrow {V} x.
Arguments CoTry {V} U w k.

(** [CoTry::await_ready()], [await_suspend()], [await_resume()] *)
Definition cotry_ready {U} (w : Wrapped U) : bool := negb (hasError (unwrapError w)).
Definition cotry_suspend {U} V (w : Wrapped U) : flow X (Wrapped V) :=
  noexcept (let err := unwrapError w in flow_assert (hasError err);; wrapError V err).
Definition cotry_resume {U} (w : Wrapped U) : flow X U := unwrapValue w.
(** What the parent of the coroutine is told. *)
Fixpoint run_body {V} (b : body V) : flow X (Wrapped V) :=
  match b with
  | CoReturn w => Returns w
  | CoThrow x => Throws x
  | CoTry U w k => if cotry_ready w then u ← cotry_resume w; run_body (k u) else cotry_suspend V w
  end.

(** * Reference *)

(** The outcomes of the children in the order in which they came, without a policy:
    the first error, and what the child [j] has yielded. *)
Section Reference.
Context {V : Type}.
Implicit Types (os : list (nat * option (V + ErrorType))) (o : option (V + ErrorType)).
Fixpoint first_error os : option ErrorType :=
  match os with [] => None | (_, Some (inr e)) :: _ => Some e | _ :: os => first_error os end.
Fixpoint slot os j : option (V + ErrorType) :=
  match os with [] => None | (i, o) :: os => if decide (i = j) then o else slot os j end.
Definition value_of o : option V := match o with Some (inl v) => Some v | _ => None end.
(** The value of a combiner, and of one that needs all values. *)
Definition any_values (n : nat) os : list (option V) := (fun j => value_of (slot os j)) <$> seq 0 n.
Definition reference {A} (values : A) os : A + ErrorType :=
  match first_error os with Some e => inr e | None => inl values end.
End Reference.

(** * Laws at work *)

Section Laws.
Context `{!PolicyLaws X}.

(** A result that the policy can deal with at all. *)
Definition tells {V} (r : flow X (Wrapped V)) (x : V + ErrorType) : Prop := outcome r = Returns x.
Definition child_tells {V} (r : resumption (V:=V)) (x : V + ErrorType) : Prop :=
  match r with
  | Yields r => tells r x
  | YieldsVoid v (Returns _) => x = inl v
  | YieldsVoid v (Throws y) => tells (V:=V) (Throws y) x
  | YieldsVoid v (Dies f) => False
  end.
(** A child of type [void] that yields its value leaves the error uninitialised. *)
Definition initialized {V} (r : resumption (V:=V)) : Prop :=
  match r with YieldsVoid _ (Returns _) => hasError uninitialized = false | _ => True end.

Lemma tells_error {V} (r : flow X (Wrapped V)) e : tells r (inr e) -> hasError e = true.
Proof.
  unfold tells, outcome. destruct r as [w|x|f]; [|destruct (fromCurrentException x) eqn:E|done].
  - destruct (hasError (unwrapError w)) eqn:E; [by intros [= <-]|]. by destruct (unwrapValue w).
  - cbn. intros [= <-]. by eapply exception_is_error.
  - done.
  - done.
Qed.

Lemma outcome_value {V} (v : V) : outcome (Returns (wrapValue v)) = Returns (inl v).
Proof. unfold outcome. by rewrite unwrapError_value, no_error_is_none, unwrapValue_value. Qed.
Lemma outcome_error V e : hasError e = true -> outcome (wrapError V e) = Returns (inr e).
Proof.
  intros He. destruct UsesErrorCodes eqn:U.
  - destruct (wrapError_codes V e U He) as (w & -> & Hw). cbn. by rewrite Hw, He.
  - destruct (wrapError_throws V e U He) as (x & -> & Hx). cbn. by rewrite Hx.
Qed.
(** Without error codes the error is thrown, so that nothing after it is reached. *)
Lemma outcome_rethrow V A e (k : Wrapped V -> flow X (Wrapped A)) :
  UsesErrorCodes = false -> hasError e = true -> outcome (wrapError V e ≫= k) = Returns (inr e).
Proof.
  intros U He. destruct (wrapError_throws V e U He) as (x & -> & Hx). cbn. by rewrite Hx.
Qed.

Section Values.
Context {V : Type}.
Implicit Types (m : mux V) (j : nat).

Definition kid_of (o : option (V + ErrorType)) : helper V :=
  match o with
  | None => Helper Cancelled None
  | Some (inl v) => Helper Succeeded (Some v)
  | Some (inr e) => Helper Failed None
  end.
Definition error_of (o : option (V + ErrorType)) : ErrorType :=
  match o with Some (inr e) => e | _ => no_error end.
Definition apply1 m (jo : nat * option (V + ErrorType)) : mux V :=
  invoke (error_of (snd jo)) (set_child (fst jo) (kid_of (snd jo)) m).

Lemma invoke_none e m : hasError e = false -> invoke e m = invoke no_error m.
Proof. intros He. unfold invoke. by rewrite He, no_error_is_none. Qed.

Lemma report_result j r x m :
  child_tells r x -> initialized r -> reportResult j r m = Returns (apply1 m (j, Some x)).
Proof.
  assert (Ht : forall y, tells (V:=V) (Throws y) x -> exists e, fromCurrentException y = Returns e /\ x = inr e).
  { intros y. unfold tells, outcome. destruct (fromCurrentException y) as [e| |]; [|done..]. intros [= <-]. by exists e. }
  unfold reportResult. destruct r as [[w|y|f]|v [u|y|f]]; cbn [child_tells initialized]; [| |done| | |done].
  - unfold tells, outcome. intros H _. cbn. destruct (hasError (unwrapError w)) eqn:E; cbn; [by injection H as <-|].
    revert H. destruct (unwrapValue_ok V w E) as [v ->]. cbn. intros [= <-]. cbn. by rewrite (invoke_none _ _ E).
  - intros (e & E & ->)%Ht _. cbn. by rewrite E.
  - intros -> Hu. cbn. by rewrite (invoke_none _ _ Hu).
  - intros (e & E & ->)%Ht _. cbn. by rewrite E.
Qed.

(** Events that tell what [os] says. *)
Definition event_tells (ev : event) (jo : nat * option (V + ErrorType)) : Prop :=
  fst ev = fst jo /\
  match snd ev, snd jo with Some r, Some x => child_tells r x | None, None => True | _, _ => False end.
Definition event_initialized (ev : event (V:=V)) : Prop := match snd ev with Some r => initialized r | None => True end.

Lemma reports_apply evs os m :
  Forall2 event_tells evs os -> Forall event_initialized evs -> reports evs m = Returns (foldl apply1 m os).
Proof.
  intros H. revert m. induction H as [|[j r] [j' x] evs os [Hj Hx] _ IH]; intros m Hi; [done|].
  apply Forall_cons in Hi as [Hr Hi]. cbn in Hj, Hx. subst j'. cbn [reports foldl]. unfold report. cbn [fst snd].
  destruct r as [r|], x as [x|]; try done.
  - rewrite (report_result j r x m Hx Hr). by apply IH.
  - by apply IH.
Qed.

(** Of the children, the one that an event names changes, once. *)
Lemma apply_length os m : length (children (foldl apply1 m os)) = length (children m).
Proof. revert m. induction os as [|jo os IH]; intros m; [done|]. cbn. rewrite IH. cbn. apply length_insert. Qed.
Lemma apply_other os m j : j ∉ os.*1 -> children (foldl apply1 m os) !! j = children m !! j.
Proof.
  revert m. induction os as [|[i o] os IH]; intros m Hj; [done|]. cbn in *.
  rewrite not_elem_of_cons in Hj. destruct Hj as [Hn Hj]. rewrite (IH _ Hj). cbn. by rewrite list_lookup_insert_ne.
Qed.
Lemma apply_child os m j :
  NoDup os.*1 -> j ∈ os.*1 -> j < length (children m) -> children (foldl apply1 m os) !! j = Some (kid_of (slot os j)).
Proof.
  revert m. induction os as [|[i o] os IH]; intros m Hd Hj Hl; cbn in *; [by apply not_elem_of_nil in Hj|].
  apply NoDup_cons in Hd as [Hi Hd]. destruct (decide (i = j)) as [->|Hn].
  - rewrite apply_other by done. cbn. by rewrite list_lookup_insert_eq.
  - apply elem_of_cons in Hj as [->|Hj]; [done|]. apply IH; [done..|]. cbn. by rewrite length_insert.
Qed.
Lemma apply_error os m :
  (forall j e, (j, Some (inr e)) ∈ os -> hasError e = true) ->
  error_ (foldl apply1 m os) =
    if hasError (error_ m) then error_ m else default (error_ m) (first_error os).
Proof.
  revert m. induction os as [|[j o] os IH]; intros m He; cbn [foldl first_error]; [by destruct (hasError _)|].
  rewrite IH by (intros j' e' Hin; apply (He j' e'), elem_of_cons; by right). cbn [apply1 invoke error_ fst snd set_child].
  destruct (hasError (error_ m)) eqn:E; [by rewrite andb_false_r, E|].
  rewrite andb_true_r. destruct o as [[v|e]|]; cbn [error_of]; rewrite ?no_error_is_none, ?E; [done| |done].
  assert (Hj : hasError e = true) by (apply (He j e), elem_of_cons; by left). by rewrite Hj, Hj.
Qed.
End Values.

(** ** Combiners *)

Section Combiners.
Context {V : Type}.
Context (n : nat) (evs : list (event (V:=V))) (os : list (nat * option (V + ErrorType))).
Hypothesis Hall : os.*1 ≡ₚ seq 0 n.
Hypothesis Htell : Forall2 event_tells evs os.

Lemma events_nodup : NoDup os.*1.
Proof. rewrite Hall. apply NoDup_seq. Qed.
Lemma os_error j e : (j, Some (inr e)) ∈ os -> hasError e = true.
Proof.
  intros [i Hi]%list_elem_of_lookup. destruct (Forall2_lookup_r _ _ _ _ _ Htell Hi) as ([j' [r|]] & _ & _ & Hr); [|done].
  destruct r as [r|v [u|y|f]]; [by apply (tells_error r)|done|by apply (tells_error (V:=V) (Throws y))|done].
Qed.

Lemma first_error_in e : first_error os = Some e -> exists j, (j, Some (inr e)) ∈ os.
Proof.
  clear Hall Htell. induction os as [|[j o] l IH]; [done|]. cbn. intros He.
  assert (Hl : first_error l = Some e -> exists j0, (j0, Some (inr e)) ∈ (j, o) :: l).
  { intros [j' Hj]%IH. exists j'. apply elem_of_cons. by right. }
  destruct o as [[v|e']|]; [auto| |auto]. injection He as ->. exists j. apply elem_of_cons. by left.
Qed.
Lemma slot_no_error j e : first_error os = None -> slot os j <> Some (inr e).
Proof.
  clear Hall Htell. induction os as [|[i o] l IH]; [done|]. cbn.
  destruct o as [[v|e']|]; [|done|]; intros He; case_decide; auto.
Qed.

Definition final : mux V := foldl apply1 (new_mux n) os.
Lemma final_children : children final = (fun j => kid_of (slot os j)) <$> seq 0 n.
Proof.
  apply list_eq. intros j. rewrite list_lookup_fmap. destruct (decide (j < n)) as [Hj|Hj].
  - rewrite lookup_seq_lt by done. cbn. apply apply_child; [apply events_nodup| |cbn; by rewrite length_replicate].
    rewrite Hall. apply elem_of_seq. lia.
  - rewrite (lookup_ge_None_2 (seq 0 n)) by (rewrite length_seq; lia). cbn.
    apply lookup_ge_None_2. unfold final. rewrite apply_length. cbn. rewrite length_replicate. lia.
Qed.
Lemma final_error : error_ final = default no_error (first_error os).
Proof. unfold final. rewrite apply_error by apply os_error. cbn. by rewrite no_error_is_none. Qed.

(** [take] yields what a child has, unless there is an error. *)
Lemma collect_tells {A} (take : helper V -> flow X A) vs :
  (first_error os = None -> mapM take (children final) = Returns vs) ->
  tells (collect take final) (reference vs os).
Proof.
  intros Hv. unfold tells, collect, reference. rewrite final_error. destruct (first_error os) as [e|] eqn:E; cbn [from_option id].
  - destruct (first_error_in e E) as [j Hj]. rewrite (os_error j e Hj). cbn [negb].
    destruct UsesErrorCodes eqn:U; [by apply outcome_error, (os_error j)|]. by apply outcome_rethrow, (os_error j).
  - rewrite no_error_is_none. cbn [negb]. rewrite Hv by done. apply outcome_value.
Qed.

Lemma mapM_seq {A} (take : helper V -> flow X A) (f : nat -> A) l :
  (forall j, j ∈ l -> take (kid_of (slot os j)) = Returns (f j)) ->
  mapM take ((fun j => kid_of (slot os j)) <$> l) = Returns (f <$> l).
Proof.
  induction l as [|j l IH]; intros Hf; [done|]. cbn.
  rewrite (Hf j) by (apply elem_of_cons; by left). cbn. rewrite IH; [done|].
  intros i Hi. apply Hf, elem_of_cons. by right.
Qed.
Lemma any_of_tells : tells (await_resume final) (reference (any_values n os) os).
Proof.
  apply collect_tells. intros He. rewrite final_children. apply mapM_seq. intros j _.
  pose proof (fun e => slot_no_error j e He) as Hn. destruct (slot os j) as [[v|e]|]; [done|by destruct (Hn e)|done].
Qed.
Lemma all_of_tells vs : any_values n os = Some <$> vs -> tells (AllOf_await_resume final) (reference vs os).
Proof.
  intros Hvs. apply collect_tells. intros He. rewrite final_children.
  assert (Hl : forall l us, (fun j => value_of (slot os j)) <$> l = Some <$> us ->
    mapM result ((fun j => kid_of (slot os j)) <$> l) = Returns us).
  { induction l as [|j l IH]; intros us Hu; destruct us as [|u us]; try discriminate Hu; [done|].
    cbn in Hu. injection Hu as Hj Hu. cbn. destruct (slot os j) as [[v|e]|]; try discriminate Hj.
    cbn in Hj. injection Hj as ->. cbn. by rewrite (IH us Hu). }
  by apply Hl.
Qed.
End Combiners.

(** ** Nurseries and [co_try] *)

Fixpoint first_failure (os : list (unit + ErrorType)) : option ErrorType :=
  match os with [] => None | inr e :: _ => Some e | inl _ :: os => first_failure os end.

Definition note_error (e : ErrorType) (n : nursery) : nursery :=
  Nursery true true (if hasError (n_error n) then n_error n else e).
Lemma task_tells r o n :
  parent_ n = true -> tells r o ->
  task_ends r n = Returns (match o with inl _ => n | inr e => note_error e n end).
Proof.
  intros Hp. unfold tells, outcome, task_ends, storeValue, storeException, storeError. rewrite Hp. cbn.
  destruct r as [w|x|f]; [| |done].
  - destruct UsesErrorCodes eqn:U; [|rewrite (unwrapError_none _ w U)];
      (destruct (hasError (unwrapError w)) eqn:E; [by intros [= <-]|]) || idtac;
      destruct (unwrapValue w); cbn; by intros [= <-].
  - destruct (fromCurrentException x) as [e|y|f]; cbn; [by intros [= <-]|done..].
Qed.
Lemma nursery_tells rs os n :
  Forall2 tells rs os -> parent_ n = true ->
  exists n', tasks_end rs n = Returns n' /\ parent_ n' = true /\
    n_error n' = (if hasError (n_error n) then n_error n else default (n_error n) (first_failure os)) /\
    cancelling n' = cancelling n || bool_decide (is_Some (first_failure os)).
Proof.
  intros H. revert n. induction H as [|r o rs os Ho _ IH]; intros n Hp.
  - exists n. cbn. split_and!; [done|done|by destruct (hasError _)|]. by rewrite orb_false_r.
  - cbn [tasks_end]. rewrite (task_tells r o n Hp Ho). cbn [mbind flow_bind]. destruct o as [v|e].
    + destruct (IH n Hp) as (n' & E & ? & ? & ?). exists n'. by rewrite E.
    + destruct (IH (note_error e n) eq_refl) as (n' & E & H1 & H2 & H3). exists n'. rewrite E, H2, H3. cbn.
      pose proof (tells_error _ _ Ho) as He. destruct (hasError (n_error n)) eqn:En; rewrite ?En, ?He.
      all: split_and!; try done; by rewrite orb_true_r.
Qed.

(** The coroutine without a policy: the errors of the values it tries, and its own. *)
Fixpoint eval_body {V} (b : body V) : flow X (V + ErrorType) :=
  match b with
  | CoReturn w => outcome (Returns w)
  | CoThrow x => outcome (V:=V) (Throws x)
  | CoTry U w k => o ← outcome (Returns w); match o with inl u => eval_body (k u) | inr e => Returns (inr e) end
  end.
Lemma cotry_tells {V} (b : body V) : outcome (run_body b) = eval_body b.
Proof.
  induction b as [w|x|U w k IH]; [done..|]. cbn [run_body eval_body outcome]. unfold cotry_ready, cotry_resume.
  destruct (hasError (unwrapError w)) eqn:E; cbn [negb mbind flow_bind].
  - unfold cotry_suspend. rewrite E. cbn [flow_assert mbind flow_bind].
    destruct UsesErrorCodes eqn:C; [|by rewrite (unwrapError_none _ w C) in E].
    destruct (wrapError_codes V _ C E) as (w' & -> & Hw). cbn. by rewrite Hw, E.
  - destruct (unwrapValue_ok _ w E) as [u ->]. cbn. apply IH.
Qed.

(** C37.  Whatever the policy - exceptions, none, or a type of the
    user's that carries an error code - the errors of an operation's parts have the
    effect they have with exceptions.  The children of a combiner may report in any
    order, by returning, by throwing, or as cancelled: its parent is told the first error
    that came, with the same policy, or else for each child the value it yielded,
    for [allOf()] all of them.  This is on the condition that an error variable which was
    not initialised does not read as an error if a child of type [void] yields
    ([event_initialized]): [reportResult()] passes such a one on
    ([void_child_tells_garbage]).  The parent of a nursery is told the first error of its
    tasks, and the nursery is cancelled exactly if there is one.  A coroutine that
    tries values ends with the first error among them, and otherwise goes on with
    the values. *)
Theorem error_policies_agree {V} (n : nat) (evs : list (event (V:=V))) os rs ts (b : body V) :
  os.*1 ≡ₚ seq 0 n -> Forall2 event_tells evs os -> Forall event_initialized evs -> Forall2 tells rs ts ->
  (exists m, reports evs (new_mux n) = Returns m /\
     tells (await_resume m) (reference (any_values n os) os) /\
     forall vs, any_values n os = Some <$> vs -> tells (AllOf_await_resume m) (reference vs os)) /\
  (exists s, tasks_end rs new_nursery = Returns s /\
     cancelling s = bool_decide (is_Some (first_failure ts)) /\
     tells (nursery_wrapError s) (match first_failure ts with Some e => inr e | None => inl () end)) /\
  outcome (run_body b) = eval_body b.
Proof.
  intros Hall Htell Hinit Hrs. split_and!.
  - exists (final n os). split_and!; [by apply reports_apply|by eapply any_of_tells|].
    intros vs. by eapply all_of_tells.
  - destruct (nursery_tells rs ts new_nursery Hrs eq_refl) as (s & E & _ & Hs & Hc). exists s.
    split_and!; [done|done|]. cbn in Hs. rewrite no_error_is_none in Hs. unfold tells, nursery_wrapError. rewrite Hs.
    assert (Hf : forall e, first_failure ts = Some e -> hasError e = true).
    { clear -Hrs PolicyLaws0. induction Hrs as [|r o rs ts Ho _ IH]; [done|]. intros e. destruct o as [v|e']; [apply IH|].
      intros [= <-]. by apply (tells_error r). }
    destruct (first_failure ts) as [e|]; cbn [from_option id].
    + rewrite (Hf e eq_refl). cbn [negb]. destruct UsesErrorCodes eqn:U; cbn [negb];
        [by apply outcome_error, Hf|by apply outcome_rethrow, Hf].
    + rewrite no_error_is_none. apply (outcome_value tt).
  - apply cotry_tells.
Qed.
End Laws.
End Policy.

(** * Runs *)

(** Two children: the second fails with the code 5, or an exception, before the first yields 7. *)
Definition code (e : Z) (H : (e =? 0)%Z = false) : flow Z (@Wrapped Z (Expected Z) Z) := Returns (inr (exist _ e H)).
Definition coded : list (@event Z (Expected Z) Z) := 
  [(1, Some (@Yields Z (Expected Z) Z (code 5 eq_refl))); (0, Some (YieldsVoid 7%Z (Returns ())))].
Definition thrown : list (@event Z (UseExceptions Z) Z) := 
  [(1, Some (@Yields Z (UseExceptions Z) Z (Throws 5%Z))); (0, Some (@Yields Z (UseExceptions Z) Z (Returns 7%Z)))].
(** A coroutine that tries 1, then a failure, then something else. *)
Definition tries : @body Z (Expected Z) Z :=
  CoTry Z Z (inl 1%Z : @Wrapped Z (Expected Z) Z)
    (fun i => CoTry Z Z (inr (exist _ 4%Z eq_refl) : @Wrapped Z (Expected Z) Z)
      (fun j => CoReturn Z (inl (i + j)%Z : @Wrapped Z (Expected Z) Z))).

Lemma error_policies_agree_witness :
  exists m, @reports Z (Expected Z) Z coded (new_mux 2) = Returns m /\ outcome (await_resume m) = Returns (inr 5%Z).
Proof.
  assert (Hp : ([(1, Some (inr 5%Z)); (0, Some (inl 7%Z))] : list (nat * option (Z + Z))).*1 ≡ₚ seq 0 2)
    by apply Permutation_swap.
  assert (Ht : Forall2 (@event_tells Z (Expected Z) Z) coded [(1, Some (inr 5%Z)); (0, Some (inl 7%Z))])
    by (repeat constructor).
  destruct (@error_policies_agree Z (Expected Z) (Expected_laws 0 Z) Z 2 coded _ [] [] tries Hp Ht
    ltac:(repeat constructor) (List.Forall2_nil _))
    as ((m & E & T & _) & _).
  exists m. split; [exact E|exact T].
Defined.

Example exceptions_and_codes :
  (m ← @reports Z (UseExceptions Z) Z thrown (new_mux 2); outcome (await_resume m)) = Returns (inr (Some 5%Z)) /\
  @outcome Z (Expected Z) Z (run_body tries) = Returns (inr 4%Z).
Proof. split; reflexivity. Qed.

(** An exception in a program whose policy has no place for it ends the program. *)
Example infallible_throws :
  @reports Z (Infallible Z) Z [(0, Some (@Yields Z (Infallible Z) Z (Throws 5%Z)))] (new_mux 1) = Dies Terminated.
Proof. reflexivity. Qed.
(** The only child is of type [void] and succeeds; its parent is told of an error that
    was in memory. *)
Example void_child_tells_garbage :
  (m ← @reports Z (ExpectedWith 77 Z) Z [(0, Some (YieldsVoid 0%Z (Returns ())))] (new_mux 1); outcome (await_resume m)) =
    Returns (inr 77%Z).
Proof. vm_compute. reflexivity. Qed.
