(* ===== verification/Introspect.v ===== *)
(** [detail/introspect.h]: dumps of the task tree.

    [TaskTreeCollector] is what [await_introspect()] talks to; it writes elements with
    their depth to a sink.  [awaitable] are the awaitables of the library as far as
    their [await_introspect()] looks at them - which stage they are in, which children
    they have - and [introspect] is that method, which may touch what is not there: a
    with-scope whose second stage is not done is asked for it, also if it has not been
    constructed yet.  [trees_of] is the tree that is meant. *)
From S2P Require Import Prelude Mux.
From stdpp Require Export strings.

Local Open Scope Z_scope.

(** * The collector *)

(** [value]: an address in a program, a name, or a type. *)
Inductive label := PC (pc : Z) | Name (s : string) | Type_info (t : positive).
Record TreeDumpElement := Element { value : label; ptr : option loc; depth : Z }.
(** [depth_], and what the sink has received. *)
Record collector := Collector { depth_ : Z; sunk : list TreeDumpElement }.
Implicit Types (c : collector).

Definition sink (e : TreeDumpElement) c : collector := Collector (depth_ c) (sunk c ++ [e]).
Definition node (l : label) (p : option loc) c : collector := sink (Element l p (depth_ c)) c.
Definition taskPC (pc : Z) (h : option loc) c : collector := node (PC pc) h c.
(** [child(x)], where [visit] is what is done with [x] in between. *)
Definition child (visit : collector -> res collector) c : res collector :=
  c ← visit (Collector (depth_ c + 1) (sunk c)); Ok (Collector (depth_ c - 1) (sunk c)).
Definition footnote (name : string) c : collector := sink (Element (Name name) None (depth_ c + 1)) c.

(** * What is introspected *)

(** The kind of a class that only has a name and one child, or none. *)
Inductive awaitable :=
| Other (type : positive) (p : loc)                     (* not introspectable *)
| Simple (name : string) (p : option loc)               (* Yield, SuspendForever, ... *)
| Adapter (name : string) (p : option loc) (a : awaitable)  (* noncancellable(), annotate(), ... *)
| InSequence (p : loc) (stage : option awaitable)       (* the stage that is there *)
| InWith (initializing : bool) (first : option awaitable) (second : option (option awaitable))
    (* the stages that are not done; the second may not have been constructed *)
| InMux (name : string) (p : loc) (kids : list (state * awaitable))
| SharedAwaiter (p : loc) (st : option shared_state)
| OfTask (p : option promise)
| OfTry (task : option promise)
| OfNursery (title : string) (p : loc) (tasks : list promise)
with shared_state := SharedCancelling (a : awaitable) | SharedIncomplete (a : awaitable) | SharedComplete
with promise := Promise (pc : Z) (h : loc) (st : status)
with status := Scheduled | OnCPU | Awaits (a : awaitable).

Section Each.
Context {A : Type} (visit : A -> collector -> res collector).
(** [With::await_introspect()]: [c.child(first_.awaiter)], [c.child(secondStage_.awaiter)] *)
Definition visit_first (o : option A) c : res collector := match o with Some a => child (visit a) c | None => Ok c end.
Definition visit_second (o : option (option A)) c : res collector :=
  match o with
  | Some (Some a) => child (visit a) c
  | Some None => Fault BadAccess
  | None => Ok c
  end.
(** [MuxHelper::introspect()] *)
Definition helper_introspect (k : state * A) c : res collector :=
  match fst k with
  | Cancelling => child (visit (snd k)) (footnote "(cancelling:)" c)
  | Running => child (visit (snd k)) c
  | _ => Ok c
  end.
Fixpoint helpers_introspect (ks : list (state * A)) c : res collector :=
  match ks with [] => Ok c | k :: ks => c ← helper_introspect k c; helpers_introspect ks c end.
Fixpoint children (l : list A) c : res collector :=
  match l with [] => Ok c | a :: l => c ← child (visit a) c; children l c end.
End Each.

(** [await_introspect(c)] *)
Fixpoint introspect (a : awaitable) : collector -> res collector :=
  match a with
  | Other t p => fun c => Ok (node (Type_info t) (Some p) c)
  | Simple name p => fun c => Ok (node (Name name) p c)
  | Adapter name p a => fun c => child (introspect a) (node (Name name) p c)
  | InSequence p stage =>
      match stage with Some a => introspect a | None => fun c => Ok (node (Name "sequence (degenerate)") (Some p) c) end
  | InWith init f s => fun c =>
      c ← visit_first introspect f
        (node (Name (if init then "with-scope (initializing)" else "with-scope (running)")) None c);
      visit_second introspect s c
  | InMux name p kids => fun c => helpers_introspect introspect kids (node (Name name) (Some p) c)
  | SharedAwaiter p st => fun c =>
      let c := node (Name "Shared::Awaiter") (Some p) c in
      match st with Some s => shared_introspect s c | None => Ok (footnote "<detached>" c) end
  | OfTask p => match p with Some p => promise_introspect p | None => fun c => Ok (node (Name "<completed task>") None c) end
  | OfTry t => match t with Some p => promise_introspect p | None => Ok end
  | OfNursery title p tasks => fun c => children promise_introspect tasks (node (Name title) (Some p) c)
  end
(** [Shared::State::introspect()] *)
with shared_introspect (s : shared_state) : collector -> res collector :=
  match s with
  | SharedCancelling a => fun c => child (introspect a) (footnote "(cancelling:)" c)
  | SharedIncomplete a => child (introspect a)
  | SharedComplete => fun c => Ok (footnote "<complete>" c)
  end
(** [BasePromise::await_introspect()] *)
with promise_introspect (p : promise) : collector -> res collector :=
  match p with
  | Promise pc h st => fun c => status_introspect st (taskPC pc (Some h) c)
  end
with status_introspect (st : status) : collector -> res collector :=
  match st with
  | Scheduled => fun c => Ok (footnote "<SCHEDULED>" c)
  | OnCPU => fun c => Ok (footnote "<ON CPU>" c)
  | Awaits a => child (introspect a)
  end.

(** [dumpTaskTree()], and [Executor::collectTaskTree()] of the executor's root *)
Definition dumpTaskTree (a : awaitable) : res (list TreeDumpElement) := sunk <$> introspect a (Collector 0 []).
Definition collectTaskTree (root : option awaitable) c : res collector :=
  match root with Some a => introspect a c | None => Ok c end.

(** * The tree *)

Inductive tree := Node (l : label) (p : option loc) (ts : list tree).
Definition note (s : string) : tree := Node (Name s) None [].

Section Trees.
Context {A : Type} (trees : A -> list tree).
Definition opt_trees (o : option A) : list tree := match o with Some a => trees a | None => [] end.
Definition second_trees (o : option (option A)) : list tree := match o with Some (Some a) => trees a | _ => [] end.
Definition helper_trees (k : state * A) : list tree :=
  match fst k with
  | Cancelling => note "(cancelling:)" :: trees (snd k)
  | Running => trees (snd k)
  | _ => []
  end.
Fixpoint helpers_trees (ks : list (state * A)) : list tree :=
  match ks with [] => [] | k :: ks => helper_trees k ++ helpers_trees ks end.
Fixpoint list_trees (l : list A) : list tree := match l with [] => [] | a :: l => trees a ++ list_trees l end.
End Trees.

(** What an awaitable stands for: a node, but a sequence is its stage, and a try-block
    is its task, if it has one. *)
Fixpoint trees_of (a : awaitable) : list tree :=
  match a with
  | Other t p => [Node (Type_info t) (Some p) []]
  | Simple name p => [Node (Name name) p []]
  | Adapter name p a => [Node (Name name) p (trees_of a)]
  | InSequence p stage =>
      match stage with Some a => trees_of a | None => [Node (Name "sequence (degenerate)") (Some p) []] end
  | InWith init f s =>
      [Node (Name (if init then "with-scope (initializing)" else "with-scope (running)")) None
            (opt_trees trees_of f ++ second_trees trees_of s)]
  | InMux name p kids => [Node (Name name) (Some p) (helpers_trees trees_of kids)]
  | SharedAwaiter p st =>
      [Node (Name "Shared::Awaiter") (Some p)
            (match st with Some s => shared_trees s | None => [note "<detached>"] end)]
  | OfTask p => match p with Some p => [promise_tree p] | None => [Node (Name "<completed task>") None []] end
  | OfTry t => match t with Some p => [promise_tree p] | None => [] end
  | OfNursery title p tasks => [Node (Name title) (Some p) (list_trees (fun p => [promise_tree p]) tasks)]
  end
with shared_trees (s : shared_state) : list tree :=
  match s with
  | SharedCancelling a => note "(cancelling:)" :: trees_of a
  | SharedIncomplete a => trees_of a
  | SharedComplete => [note "<complete>"]
  end
with promise_tree (p : promise) : tree :=
  match p with Promise pc h st => Node (PC pc) (Some h) (status_trees st) end
with status_trees (st : status) : list tree :=
  match st with
  | Scheduled => [note "<SCHEDULED>"]
  | OnCPU => [note "<ON CPU>"]
  | Awaits a => trees_of a
  end.

(** Nothing is visited that is not there: every with-scope on the way is past its first
    stage, or its second is done. *)
Section There.
Context {A : Type} (there : A -> bool).
Definition opt_there (o : option A) : bool := match o with Some a => there a | None => true end.
Definition second_there (o : option (option A)) : bool :=
  match o with Some (Some a) => there a | Some None => false | None => true end.
Definition helper_there (k : state * A) : bool :=
  match fst k with Cancelling | Running => there (snd k) | _ => true end.
Fixpoint helpers_there (ks : list (state * A)) : bool :=
  match ks with [] => true | k :: ks => helper_there k && helpers_there ks end.
Fixpoint all_there (l : list A) : bool := match l with [] => true | a :: l => there a && all_there l end.
End There.
Fixpoint there (a : awaitable) : bool :=
  match a with
  | Other _ _ | Simple _ _ => true
  | Adapter _ _ a => there a
  | InSequence _ stage => match stage with Some a => there a | None => true end
  | InWith _ f s => opt_there there f && second_there there s
  | InMux _ _ kids => helpers_there there kids
  | SharedAwaiter _ st =>
      match st with Some (SharedCancelling a) | Some (SharedIncomplete a) => there a | _ => true end
  | OfTask p | OfTry p => match p with Some p => promise_there p | None => true end
  | OfNursery _ _ tasks => all_there promise_there tasks
  end
with promise_there (p : promise) : bool :=
  match p with Promise _ _ st => match st with Awaits a => there a | _ => true end end.

(** ** Preorder *)

Fixpoint preorder (d : Z) (t : tree) : list TreeDumpElement :=
  match t with
  | Node l p ts =>
      Element l p d :: (fix all ts := match ts with [] => [] | t :: ts => preorder (d + 1) t ++ all ts end) ts
  end.
Definition forest (d : Z) (ts : list tree) : list TreeDumpElement := ts ≫= preorder d.

(** Reading a dump: a node, the nodes below it, and its successors at the same depth. *)
Fixpoint read (fuel : nat) (d : Z) (es : list TreeDumpElement) : list tree * list TreeDumpElement :=
  match fuel, es with
  | S fuel, e :: es =>
      if depth e =? d then
        let '(ts, es) := read fuel (d + 1) es in
        let '(ts', es) := read fuel d es in
        (Node (value e) (ptr e) ts :: ts', es)
      else ([], e :: es)
  | _, _ => ([], es)
  end.
Definition read_dump (es : list TreeDumpElement) : list tree := fst (read (length es) 0 es).

(** * A dump is the tree in preorder *)

Lemma preorder_node d l p ts : preorder d (Node l p ts) = Element l p d :: forest (d + 1) ts.
Proof. reflexivity. Qed.
Lemma forest_app d ts us : forest d (ts ++ us) = forest d ts ++ forest d us.
Proof. apply bind_app. Qed.
Lemma forest_one d t : forest d [t] = preorder d t.
Proof. cbn. apply app_nil_r. Qed.

(** [f] writes the trees [ts], at the depth of the collector or one below, if [b], and
    fails otherwise. *)
Definition writes_at (k : Z) (f : collector -> res collector) (b : bool) (ts : list tree) : Prop :=
  forall c, f c = if b then Ok (Collector (depth_ c) (sunk c ++ forest (depth_ c + k) ts)) else Fault BadAccess.
Abbreviation writes := (writes_at 0).
Abbreviation writes_below := (writes_at 1).

Lemma at_nothing k : writes_at k Ok true [].
Proof. intros [d es]. cbn. by rewrite app_nil_r. Qed.
Lemma below_footnote s : writes_below (fun c => Ok (footnote s c)) true [note s].
Proof. intros c. unfold footnote, sink. by rewrite forest_one. Qed.
Lemma below_child f b ts : writes f b ts -> writes_below (child f) b ts.
Proof.
  intros H c. unfold child. rewrite H. destruct b; [|done]. cbn. rewrite Z.add_0_r. do 2 f_equal. lia.
Qed.
Lemma below_then f g b1 b2 ts us :
  writes_below f b1 ts -> writes_below g b2 us -> writes_below (fun c => c ← f c; g c) (b1 && b2) (ts ++ us).
Proof.
  intros Hf Hg c. rewrite Hf. destruct b1; [|done]. cbn. rewrite Hg. destruct b2; [|done]. cbn.
  by rewrite forest_app, app_assoc.
Qed.
Lemma footnote_then s f b ts : writes_below f b ts -> writes_below (fun c => f (footnote s c)) b (note s :: ts).
Proof. intros H. exact (below_then _ f true b [_] ts (below_footnote s) H). Qed.
Lemma writes_node l p f b ts : writes_below f b ts -> writes (fun c => f (node l p c)) b [Node l p ts].
Proof.
  intros H c. rewrite H. destruct b; [|done]. cbn [node sink depth_ sunk].
  by rewrite forest_one, preorder_node, <- app_assoc, Z.add_0_r.
Qed.
Lemma writes_leaf l p : writes (fun c => Ok (node l p c)) true [Node l p []].
Proof. apply (writes_node l p Ok true []), at_nothing. Qed.

Section Each.
Context {A : Type} (visit : A -> collector -> res collector) (ok : A -> bool) (trees : A -> list tree).

Lemma below_first o :
  (forall a, o = Some a -> writes (visit a) (ok a) (trees a)) -> writes_below (visit_first visit o) (opt_there ok o) (opt_trees trees o).
Proof. destruct o as [a|]; intros H; [by apply below_child, H|apply at_nothing]. Qed.
Lemma below_second o :
  (forall a, o = Some (Some a) -> writes (visit a) (ok a) (trees a)) ->
  writes_below (visit_second visit o) (second_there ok o) (second_trees trees o).
Proof. destruct o as [[a|]|]; intros H; [by apply below_child, H|done|apply at_nothing]. Qed.
Lemma below_helper s a :
  writes (visit a) (ok a) (trees a) -> writes_below (helper_introspect visit (s, a)) (helper_there ok (s, a)) (helper_trees trees (s, a)).
Proof.
  intros H. unfold helper_introspect, helper_there, helper_trees. cbn [fst snd]. destruct s; try apply at_nothing.
  - by apply below_child.
  - by apply (footnote_then _ (child (visit a))), below_child.
Qed.
End Each.

Lemma introspect_writes a : writes (introspect a) (there a) (trees_of a).
Proof.
  revert a. fix F 1 with (H (p : promise) {struct p} : writes (promise_introspect p) (promise_there p) [promise_tree p]).
  - intros [t p|name p|name p a|p [a|]|init f g|name p kids|p [[a|a|]|]|[p|]|[p|]|title p tasks]; cbn [introspect there trees_of].
    + apply writes_leaf.
    + apply writes_leaf.
    + apply (writes_node _ _ (child (introspect a))), below_child, F.
    + apply F.
    + apply writes_leaf.
    + apply (writes_node _ _ (fun c => c ← visit_first introspect f c; visit_second introspect g c)), below_then.
      * apply below_first. destruct f as [a|]; intros a' [= <-]. apply F.
      * apply below_second. destruct g as [[a|]|]; intros a' [= <-]. apply F.
    + apply (writes_node _ _ (helpers_introspect introspect kids)).
      induction kids as [|[s a] kids IH]; [apply at_nothing|].
      apply (below_then (helper_introspect introspect (s, a))); [apply below_helper, F|exact IH].
    + apply (writes_node _ _ (fun c => child (introspect a) (footnote "(cancelling:)" c))).
      apply (footnote_then _ (child (introspect a))), below_child, F.
    + apply (writes_node _ _ (child (introspect a))), below_child, F.
    + apply (writes_node _ _ (fun c => Ok (footnote "<complete>" c))), below_footnote.
    + apply (writes_node _ _ (fun c => Ok (footnote "<detached>" c))), below_footnote.
    + apply H.
    + apply writes_leaf.
    + apply H.
    + apply at_nothing.
    + apply (writes_node _ _ (children promise_introspect tasks)).
      induction tasks as [|p' tasks IH]; [apply at_nothing|].
      apply (below_then (child (promise_introspect p')) _ _ _ [_]); [apply below_child, H|exact IH].
  - destruct p as [pc h st]. cbn [promise_introspect promise_there promise_tree]. apply (writes_node _ _ (status_introspect st)).
    destruct st as [| |a]; cbn [status_introspect status_trees]; [apply below_footnote..|apply below_child, F].
Qed.

(** ** The tree can be read back *)

(** What follows a forest is less deep than it. *)
Definition ends_at (d : Z) (es : list TreeDumpElement) : Prop :=
  match es with e :: _ => depth e < d | [] => True end.

Lemma read_stops fuel d es : ends_at d es -> read fuel d es = ([], es).
Proof.
  destruct fuel as [|fuel]; [done|]. destruct es as [|e es]; [done|]. cbn. intros H.
  destruct (Z.eqb_spec (depth e) d); [lia|done].
Qed.
Fixpoint nodes (t : tree) : nat :=
  match t with Node _ _ ts => S ((fix all ts := match ts with [] => 0 | t :: ts => nodes t + all ts end) ts)%nat end.
Definition count (ts : list tree) : nat := sum_list_with nodes ts.
Lemma nodes_node l p ts : nodes (Node l p ts) = S (count ts).
Proof. reflexivity. Qed.

Lemma length_forest n d ts : (count ts <= n)%nat -> length (forest d ts) = count ts.
Proof.
  revert d ts. induction n as [|n IH]; intros d [|[l p us] ts] Hn; try done;
    unfold count in Hn; cbn [sum_list_with foldr] in Hn; rewrite nodes_node in Hn; [lia|].
  change (forest d (Node l p us :: ts)) with (preorder d (Node l p us) ++ forest d ts).
  unfold count. cbn [sum_list_with foldr]. rewrite nodes_node, length_app, preorder_node. cbn [length].
  fold (count us) (count ts) in *. rewrite !IH by lia. lia.
Qed.
Lemma forest_starts d ts rest : ends_at (d + 1) rest -> ends_at (d + 1) (forest d ts ++ rest).
Proof. destruct ts as [|[l p us] ts]; [done|]. intros _. cbn. lia. Qed.

Lemma read_forest fuel d ts rest :
  (count ts <= fuel)%nat -> ends_at d rest -> read fuel d (forest d ts ++ rest) = (ts, rest).
Proof.
  revert d ts rest. induction fuel as [|fuel IH]; intros d [|[l p us] ts] rest Hn Hr;
    [by apply read_stops| |by apply read_stops|];
    unfold count in Hn; cbn [sum_list_with foldr] in Hn; rewrite nodes_node in Hn; [lia|].
  fold (count us) (count ts) in Hn.
  change (forest d (Node l p us :: ts)) with (preorder d (Node l p us) ++ forest d ts).
  rewrite preorder_node, <- !app_comm_cons, <- app_assoc. cbn [read depth value ptr]. rewrite Z.eqb_refl.
  rewrite (IH (d + 1) us) by first [lia|apply forest_starts; destruct rest; [done|cbn in *; lia]].
  rewrite (IH d ts) by (try done; lia). done.
Qed.

(** C38.  Whatever is introspected, in whatever state, as long as no
    with-scope that is reached is still in its first stage ([there]): the sink
    receives the tree that is meant in preorder, each node with its depth, and the
    collector is back at the depth where it was, so that what is written after it is in
    its place; and the depths suffice to tell children, siblings and parents apart:
    the tree can be read back from the dump.  Otherwise, and only then, the dump
    touches an awaiter that has not been constructed (With.h:273). *)
Theorem task_tree_roundtrip a :
  (there a = true ->
   (forall c, introspect a c = Ok (Collector (depth_ c) (sunk c ++ forest (depth_ c) (trees_of a)))) /\
   exists es, dumpTaskTree a = Ok es /\ length es = count (trees_of a) /\ read_dump es = trees_of a) /\
  (there a = false -> forall c, introspect a c = Fault BadAccess).
Proof.
  split; intros Ht; [|intros c; by rewrite introspect_writes, Ht].
  assert (E : forall c, introspect a c = Ok (Collector (depth_ c) (sunk c ++ forest (depth_ c) (trees_of a))))
    by (intros c; by rewrite introspect_writes, Ht, Z.add_0_r).
  split; [exact E|]. exists (forest 0 (trees_of a)).
  assert (L : length (forest 0 (trees_of a)) = count (trees_of a)) by (by apply (length_forest (count (trees_of a)))).
  split_and!; [unfold dumpTaskTree; by rewrite E|exact L|].
  unfold read_dump. rewrite L, <- (app_nil_r (forest _ _)). by rewrite read_forest.
Qed.

(** The tree of the test in stack_trace_test.cc, as (depth, name). *)
Local Open Scope string_scope.
Definition a_task (a : awaitable) : awaitable := OfTask (Some (Promise 1 1%positive (Awaits a))).
Definition annotated (s : string) (a : awaitable) : awaitable := Adapter s None a.
Definition sleep : awaitable := Simple "Sleep" None.
Definition universe : awaitable :=
  a_task (OfNursery "Nursery" 1%positive
    [Promise 1 1%positive (Awaits (InMux "AllOf" 1%positive
       [(Mux.Running, InMux "AllOf" 1%positive
           [(Mux.Succeeded, annotated "this should complete" sleep);
            (Mux.Running, annotated "this should be sleeping" sleep)]);
        (Mux.Running, a_task (Simple "<YOU ARE HERE>" None))]));
     Promise 1 1%positive (Awaits (annotated "a sibling task" (a_task sleep)))]).
Definition shown (e : TreeDumpElement) : Z * string :=
  (depth e, match value e with PC _ => "<TASK>" | Name s => s | Type_info _ => "<TYPE>" end).
Example task_tree_test :
  match dumpTaskTree universe with Ok es => List.map shown es | Fault _ => [] end =
  [(0, "<TASK>"); (1, "Nursery"); (2, "<TASK>"); (3, "AllOf"); (4, "AllOf"); (5, "this should be sleeping");
   (6, "Sleep"); (4, "<TASK>"); (5, "<YOU ARE HERE>"); (2, "<TASK>"); (3, "a sibling task"); (4, "<TASK>");
   (5, "Sleep")]%Z.
Proof. vm_compute. reflexivity. Qed.

(** A with-scope that runs can be dumped, one in its first stage cannot. *)
Lemma task_tree_roundtrip_witness :
  let w second := a_task (InWith true (Some sleep) second) in
  (exists es, dumpTaskTree (w (Some (Some sleep))) = Ok es /\ read_dump es = trees_of (w (Some (Some sleep)))) /\
  introspect (w (Some None)) (Collector 0 []) = Fault BadAccess.
Proof.
  intros w. split.
  - destruct (task_tree_roundtrip (w (Some (Some sleep)))) as [H _]. destruct (H eq_refl) as (_ & es & E & _ & R).
    exists es. split; [exact E|exact R].
  - destruct (task_tree_roundtrip (w (Some None))) as [_ H]. exact (H eq_refl (Collector 0 [])).
Defined.

(** A try-block without a task has no node, although it is a child of the task that
    awaits it. *)
Example try_block_invisible :
  match dumpTaskTree (a_task (OfTry None)) with Ok es => List.length es | Fault _ => 0%nat end = 1%nat.
Proof. reflexivity. Qed.
