(* ===== verification/Lambda.v ===== *)
(** [detail/utility.h], [utility.h]: lambdas that are awaited, and [yieldToRun()].

    [co_await [&]() -> Task<> { ... }] makes an [AwaitableLambda]: the lambda is called,
    and the awaiter of its task constructed in place, when the awaiter is first
    needed; most methods take for granted that it is there.  The classes are
    [methods] as in Adapters.v; of the state's fields, [cancelPending_] stands for
    [task_.valid()], which tells whether the awaiter is there. *)
From S2P Require Import Awaiter Adapters.
Import Checker(checker, call(..)).

Implicit Types (s : adapter) (b : behaviour).

(** * [AwaitableLambda] *)

Definition valid s : bool := cancelPending_ s.

Section Lambda.
(** Whether the call of the lambda throws, and whether its task is ready at once
    ([noop()], [just()]). *)
Context (throws ready : bool).

(** [awaiter()]; its callers are [noexcept]. *)
Definition awaiter s : res adapter :=
  if valid s then Ok s else if throws then Fault Terminated else Ok (set_pending s).
(** The use of [awaiter_], which is a member of a union. *)
Definition awaiter_ s : res adapter := if valid s then Ok s else Fault BadAccess.

Definition AwaitableLambda : methods := {|
  await_set_executor s :=
    s ← awaiter s; s ← on_inner (CReady ready) s;
    if negb ready then on_inner CSetExecutor s else Ok s;
  await_ready _ s := Ok (false, s);
  await_early_cancel b s := s ← awaiter s; await_early_cancel AwaiterAdapterBase b s;
  await_suspend h b s :=
    s ← awaiter_ s; s ← on_inner (CReady ready) s;
    if ready then s ← resume_parent s; Ok (false, s) else await_suspend AwaiterAdapterBase h b s;
  await_cancel h b s := s ← awaiter_ s; await_cancel AwaiterAdapterBase h b s;
  await_must_resume b s := s ← awaiter_ s; await_must_resume AwaiterAdapterBase b s;
  await_resume s := s ← awaiter_ s; await_resume AwaiterAdapterBase s |}.

(** [~AwaitableLambda()] *)
Definition destroy_lambda s : res adapter := if valid s then destroy s else Ok s.
End Lambda.

(** * Invariant *)

(** The task that the lambda returns is as ready as [ready] says. *)
Definition as_ready (ready : bool) (b : behaviour) : bool := Bool.eqb (b_ready b) ready.

Section Invariant.
Context (ready : bool).
Let at_first : Checker.state := if ready then Checker.ReadyImmediately else Checker.NotReady.
Let when_asked : Checker.state := if ready then Checker.ReadyAfterCancel else Checker.CancelPending.

(** Before the lambda is called; called, and cancelled in time; suspended; and when
    the task was ready, so that there was no need to. *)
Inductive lambda : adapter -> Prop :=
| la_new st : st = Checker.Initial \/ st = Checker.NotReady ->
    lambda (Adapter (Checker.Checker Noop false Checker.Initial) (Checker.Checker Noop false st) false)
| la_called st : st = Checker.Initial \/ st = Checker.NotReady ->
    lambda (Adapter (Checker.Checker Noop (negb ready) at_first) (Checker.Checker Noop true st) true)
| la_asked st : st = Checker.InitialCxlPend \/ st = Checker.CancelPending ->
    lambda (Adapter (Checker.Checker Noop false Checker.InitialCxlPend) (Checker.Checker Noop false st) true)
| la_asked_called st : st = Checker.InitialCxlPend \/ st = Checker.CancelPending ->
    lambda (Adapter (Checker.Checker Noop (negb ready) when_asked) (Checker.Checker Noop true st) true)
| la_skipped x y : lambda (Adapter (Checker.Checker Noop x Checker.Cancelled) (Checker.Checker Noop y Checker.Cancelled) true)
| la_suspended h st : ready = false -> st ∈ [Checker.Running; Checker.Cancelling; Checker.Ready; Checker.ReadyAfterCancel; Checker.Cancelled; Checker.Done] ->
    lambda (Adapter (Checker.Checker h true st) (Checker.Checker h true st) true)
| la_ready h st st' : ready = true ->
    (st, st') ∈ [(Checker.ReadyImmediately, Checker.Ready); (Checker.ReadyAfterCancel, Checker.ReadyAfterCancel);
                 (Checker.Ready, Checker.Ready); (Checker.Cancelled, Checker.Cancelled); (Checker.Done, Checker.Done)] ->
    lambda (Adapter (Checker.Checker Noop false st) (Checker.Checker h true st') true).
End Invariant.

Lemma cancel_running_lambda h x :
  Checker.aboutToCancel h (Checker.Checker h x Checker.Running) = Ok (Checker.Checker h x Checker.Cancelling).
Proof. unfold Checker.aboutToCancel. cbn. by rewrite bool_decide_true. Qed.

Local Ltac finish := match goal with |- lambda _ ?s => let y := eval lazy in s in change s with y end;
  first [ by apply la_new; auto | by apply (la_called true); auto | by apply (la_called false); auto
        | by apply la_asked; auto | by apply (la_asked_called true); auto | by apply (la_asked_called false); auto
        | by apply la_skipped | by apply la_suspended; [|repeat constructor]
        | by apply la_ready; [|repeat constructor] ].
Local Ltac run_lambda :=
  cbn; rewrite ?cancel_running_lambda; cbn; rewrite ?cancel_running_lambda; cbn; eexists; (split; [reflexivity|finish]).

Lemma lambda_step ready e b s :
  lambda ready s -> enabled (as_ready ready) e b s = true ->
  exists s', step (AwaitableLambda false ready) e b s = Ok s' /\ lambda ready s'.
Proof.
  intros Hl. destruct b as [rd sk ea su ca mu er].
  destruct Hl as [st Hst|st Hst|st Hst|st Hst|x y|h st Hr Hst|h st st' Hr Hst].
  - destruct Hst as [-> | ->], e, ready, rd, ea; try done; intros _; run_lambda.
  - destruct Hst as [-> | ->], e, ready, rd, ea, su; try done; intros _; run_lambda.
  - destruct Hst as [-> | ->], e, ready, rd, ea; try done; intros _; run_lambda.
  - destruct Hst as [-> | ->], e, ready, rd, ea, su; try done; intros _; run_lambda.
  - by destruct e, rd, ready, y.
  - subst ready. repeat (apply elem_of_cons in Hst as [-> |Hst]); [..|by apply not_elem_of_nil in Hst];
      destruct e, rd, ca, mu; try done; intros _; run_lambda.
  - subst ready. repeat (apply elem_of_cons in Hst as [[= -> ->]|Hst]); [..|by apply not_elem_of_nil in Hst];
      destruct e, rd, ca, mu; try done; intros _; run_lambda.
Qed.

(** A lambda that does not throw is an awaiter: as long as its task keeps to the
    protocol, so does the lambda, on both sides; the task's awaiter is never used
    before it is there, and is there once the executor was set or a cancellation was
    asked for.  A task that is ready at once is not suspended, although the
    lambda, which cannot know, is; and when the co_await is over both have
    ended in the same way, so that both may be destroyed. *)
Theorem lambda_is_awaiter ready s :
  reach (AwaitableLambda false ready) (as_ready ready) s ->
  (forall e b, enabled (as_ready ready) e b s = true -> exists s', step (AwaitableLambda false ready) e b s = Ok s') /\
  (valid s = false -> inner s = Checker.initial) /\
  (Checker.hasExecutor_ (outer s) = true -> valid s = true) /\
  (ready = true -> Checker.running (inner s) = false) /\
  (Checker.state_ (outer s) = Checker.Done \/ Checker.state_ (outer s) = Checker.Cancelled ->
   Checker.state_ (inner s) = Checker.state_ (outer s) /\ exists s', destroy_lambda s = Ok s').
Proof.
  intros Hl%(reach_invariant _ _ (lambda ready)); [|by apply la_new; left|intros; by apply lambda_step].
  split. { intros e b He. destruct (lambda_step ready e b s Hl He) as (s' & E & _). by exists s'. }
  destruct Hl as [st Hst|st Hst|st Hst|st Hst|x y|h st Hr Hst|h st st' Hr Hst].
  1-4: destruct Hst as [-> | ->]; split_and!; try done; first [by intros ->|by intros [?|?]].
  - split_and!; try done. intros _. split; [done|by eexists].
  - subst ready. split_and!; try done. cbn. intros [-> | ->]; (split; [done|by eexists]).
  - subst ready. repeat (apply elem_of_cons in Hst as [[= -> ->]|Hst]); [..|by apply not_elem_of_nil in Hst];
      split_and!; try done; try (intros [?|?]; discriminate); intros _; (split; [done|by eexists]).
Qed.

(** The lambda is a coroutine that is ready at once, and the parent cancels first. *)
Definition ready_task : behaviour := Beh true false false Later Refused true false.
Example ready_lambda_cancelled :
  (fun s => (Checker.state_ (inner s), Checker.state_ (outer s))) <$>
    play (AwaitableLambda false true) (as_ready true)
      ((., ready_task) <$> [EEarlyCancel; EReady; ESetExecutor; ESuspend (Coro 1); EMustResume; EResume]) new_adapter =
  Some (Checker.Done, Checker.Done).
Proof. vm_compute. reflexivity. Qed.

(** An exception from the call of the lambda, which need not be a coroutine itself,
    ends the program, while one from [co_await lambda()] could be caught. *)
Example lambda_throws :
  step (AwaitableLambda true false) ESetExecutor ready_task new_adapter = Fault Terminated.
Proof. reflexivity. Qed.
