(* ===== verification/Asio.v ===== *)
(** [detail/asio.h]: operations of asio as awaiters, and its [io_context] as an event loop.

    asio is not part of the repository.  Of an operation it is only known, from asio's
    documentation, that the completion handler is called once, with an error code and
    values, not before the initiating function has returned, and maybe from within
    [cancellation_signal::emit()]; the [io_context] is a parameter ([IoContext]) with
    the documented effect of its operations as laws.  Whoever awaits the operation is
    seen through the state checker of Awaiter.v. *)
From S2P Require Import Awaiter.
Import Checker(checker, call(..)).

(** * [AsioAwaiter] *)

Section Asio.
(** [error_code] with its conversion to [bool] and two of its values; the values that
    the operation yields; the template parameter [ThrowOnError]. *)
Context {Err Ret : Type} `{!EqDecision Err} (failed : Err -> bool) (success operation_aborted : Err)
        (ThrowOnError : bool).

(** [doneCB_] says whether its pointer is set, [initFn_] whether the initiation object
    has not been moved out of.  [handlers] is asio's: the handlers it still has to call,
    [completed] what it called the last one with. *)
Record asio := Asio {
  ec_ : Err; ret_ : option Ret; parent_ : handle; doneCB_ : bool; initFn_ : bool;
  outer : checker; handlers : nat; completed : option (Err * Ret) }.
Implicit Types (s : asio).

Definition new_asio : asio := Asio success None Noop false true Checker.initial 0 None.
Definition on_outer (k : call) s : res asio :=
  c ← Checker.step k (outer s);
  Ok (Asio (ec_ s) (ret_ s) (parent_ s) (doneCB_ s) (initFn_ s) c (handlers s) (completed s)).

(** [done(ec, ret...)], and [resume()] of the parent *)
Definition done_ (ec : Err) (r : Ret) s : res asio :=
  let h := parent_ s in
  let s := Asio ec (Some r) Noop (doneCB_ s) (initFn_ s) (outer s) (handlers s) (completed s) in
  match h with Coro _ => on_outer CResumed s | Noop => Ok s end.
(** asio calls [DoneCB]. *)
Definition DoneCB (ec : Err) (r : Ret) s : res asio :=
  if doneCB_ s then
    done_ ec r (Asio (ec_ s) (ret_ s) (parent_ s) (doneCB_ s) (initFn_ s) (outer s) (pred (handlers s)) (Some (ec, r)))
  else Fault BadAccess.

(** [InitFn::operator()]: asio has one more handler, unless the initiation throws. *)
Definition InitFn (throws : bool) s : res asio :=
  if initFn_ s then
    Ok (Asio (ec_ s) (ret_ s) (parent_ s) (doneCB_ s) false (outer s)
             (if throws then handlers s else S (handlers s)) (completed s))
  else Fault BadAccess.

Definition await_ready : bool := false.
Definition await_suspend (h : handle) (throws : bool) s : res asio :=
  InitFn throws (Asio (ec_ s) (ret_ s) h true (initFn_ s) (outer s) (handlers s) (completed s)).
(** [emit()] may call the handler. *)
Definition await_cancel (emits : option (Err * Ret)) s : res (bool * asio) :=
  s ← match emits with Some (ec, r) => DoneCB ec r s | None => Ok s end;
  Ok (false, s).
Definition await_must_resume s : bool := negb (bool_decide (ec_ s = operation_aborted)).

(** What [await_resume()] does: throws a [system_error], or returns the values, with
    the error code in front of them or without. *)
Inductive resumption := Throw (ec : Err) | Values (r : Ret) | CodeAndValues (ec : Err) (r : Ret).
Definition await_resume s : res resumption :=
  if ThrowOnError then
    if failed (ec_ s) then Ok (Throw (ec_ s)) else r ← deref (ret_ s); Ok (Values r)
  else r ← deref (ret_ s); Ok (CodeAndValues (ec_ s) r).

(** * An operation is awaited *)

Inductive event :=
| EReady | EEarlyCancel | ESetExecutor | ESuspend (h : loc) (throws : bool) | ECancel (emits : option (Err * Ret))
| EDone (ec : Err) (r : Ret) | EMustResume | EResume.

Definition step (e : event) s : res asio :=
  match e with
  | EReady => on_outer (CReady await_ready) s
  | EEarlyCancel => on_outer (CEarlyCancel (awaitEarlyCancel None)) s
  | ESetExecutor => on_outer CSetExecutor s
  | ESuspend h throws =>
      s ← on_outer (CSuspend (Coro h)) s;
      s ← await_suspend (Coro h) throws s;
      if throws then on_outer CThrew s else Ok s
  | ECancel emits =>
      s ← on_outer (CCancel (Checker.realHandle_ (outer s))) s;
      '(v, s) ← await_cancel emits s;
      on_outer (CCancelled v) s
  | EDone ec r => DoneCB ec r s
  | EMustResume => on_outer (CMustResume (await_must_resume s)) s
  | EResume => s ← on_outer CResume s; _ ← await_resume s; Ok s
  end.
Definition enabled (e : event) s : bool :=
  match e with
  | EReady => Checker.may Checker.QReady (outer s)
  | EEarlyCancel => Checker.may Checker.QEarlyCancel (outer s)
  | ESetExecutor => Checker.may Checker.QSetExecutor (outer s)
  | ESuspend _ _ => Checker.may Checker.QSuspend (outer s)
  | ECancel emits => Checker.may Checker.QCancel (outer s) && (bool_decide (emits = None) || (0 <? handlers s)%nat)
  | EDone _ _ => (0 <? handlers s)%nat
  | EMustResume => Checker.may Checker.QMustResume (outer s)
  | EResume => Checker.may Checker.QResume (outer s)
  end.
Inductive reach : asio -> Prop :=
| reach_new : reach new_asio
| reach_step e s s' : reach s -> enabled e s = true -> step e s = Ok s' -> reach s'.

(** * Properties *)

(** Not started; given up before that; the initiation has thrown; asio has the
    handler; asio has called it. *)
Inductive alive : asio -> Prop :=
| al_new x st : st ∈ [Checker.Initial; Checker.NotReady; Checker.Cancelled] ->
    alive (Asio success None Noop false true (Checker.Checker Noop x st) 0 None)
| al_threw h : alive (Asio success None (Coro h) true false (Checker.Checker (Coro h) true Checker.Done) 0 None)
| al_running h st : st ∈ [Checker.Running; Checker.Cancelling] ->
    alive (Asio success None (Coro h) true false (Checker.Checker (Coro h) true st) 1 None)
| al_done h st ec r : st ∈ [Checker.Ready; Checker.ReadyAfterCancel; Checker.Cancelled; Checker.Done] ->
    (st = Checker.Cancelled -> ec = operation_aborted) ->
    alive (Asio ec (Some r) Noop true false (Checker.Checker (Coro h) true st) 0 (Some (ec, r))).

Ltac cases_in H := repeat (apply elem_of_cons in H as [->|H]); try (by apply elem_of_nil in H).

Lemma step_alive e s : alive s -> enabled e s = true -> exists s', step e s = Ok s' /\ alive s'.
Proof.
  destruct 1 as [x st Hst|h|h st Hst|h st ec r Hst Hc].
  - cases_in Hst; destruct e as [| | |h []| | | |]; cbn; try done; try (destruct x; cbn); try done; intros _;
      (eexists; split; [reflexivity|]); first [apply al_new; set_solver|apply al_threw|apply al_running; set_solver].
  - by destruct e as [| | | |emits| | |]; cbn; try done; rewrite andb_false_r.
  - cases_in Hst; destruct e as [| | | |[[ec r]|]|ec r| |]; cbn; try done; intros _;
      unfold Checker.aboutToCancel; cbn; rewrite ?bool_decide_true by done; cbn;
      (eexists; split; [reflexivity|]); first [apply al_running; set_solver|apply al_done; [set_solver|done]].
  - cases_in Hst; destruct e as [| | | |emits| | |]; cbn; try done; try (by rewrite andb_false_r); intros _.
    + lazy. destruct ThrowOnError, (failed ec);
        (eexists; split; [reflexivity|]); (apply al_done; [set_solver|done]).
    + unfold await_must_resume. cbn. destruct (bool_decide_reflect (ec = operation_aborted)); cbn;
        (eexists; split; [reflexivity|]); (apply al_done; [set_solver|done]).
Qed.
Lemma reach_alive s : reach s -> alive s.
Proof.
  induction 1 as [|e s s' _ IH He E]; [apply al_new; set_solver|].
  destruct (step_alive e s IH He) as (s2 & E2 & ?). by rewrite E in E2; injection E2 as <-.
Qed.

Definition outcome_of (ec : Err) (r : Ret) : resumption :=
  if ThrowOnError then if failed ec then Throw ec else Values r else CodeAndValues ec r.

(** An awaited operation keeps to the protocol whatever it completes with, also from
    within [emit()], and asio has one handler of it exactly as long as the awaiter must
    not be destroyed.  What the parent gets is what the operation completed with; it is
    dropped as cancelled only if it was never initiated, or if it was cancelled and has
    completed with [operation_aborted]. *)
Theorem asio_is_awaiter s :
  reach s ->
  (forall e, enabled e s = true -> exists s', step e s = Ok s') /\
  handlers s = (if Checker.running (outer s) then 1 else 0)%nat /\
  (Checker.running (outer s) = true -> Checker.reset (outer s) = Fault AssertFailed) /\
  (Checker.may Checker.QResume (outer s) = true ->
     exists ec r, completed s = Some (ec, r) /\ await_resume s = Ok (outcome_of ec r)) /\
  (Checker.state_ (outer s) = Checker.Cancelled ->
     initFn_ s = true \/ exists r, completed s = Some (operation_aborted, r)).
Proof.
  intros Hl%reach_alive. split. { intros e He. destruct (step_alive e s Hl He) as (s' & ? & _). by exists s'. }
  destruct Hl as [x st Hst|h|h st Hst|h st ec r Hst Hc]; [..|pose proof Hst as Hst']; try cases_in Hst; split_and!; try done;
    cbn; try (by left).
  - intros _. exists ec, r. split; [done|]. unfold await_resume, outcome_of. cbn. by destruct ThrowOnError, (failed ec).
  - intros _. right. exists r. by rewrite Hc.
Qed.
End Asio.

(** ** Examples *)

(** Error codes as numbers, 1 being [operation_aborted]; the operation yields a number. *)
Fixpoint play (throwing : bool) (es : list (@event nat nat)) (s : @asio nat nat) : option (@asio nat nat) :=
  match es with
  | [] => Some s
  | e :: es => if enabled e s then
      match step (fun ec => negb (ec =? 0))%nat 1%nat throwing e s with Ok s => play throwing es s | Fault _ => None end else None
  end.
Definition result (throwing : bool) (es : list event) : option (checker * res resumption) :=
  (fun s => (outer s, await_resume (fun ec => negb (ec =? 0))%nat throwing s)) <$> play throwing es (new_asio 0%nat).
Definition begun : list (@event nat nat) := [EReady; ESetExecutor; ESuspend 5 false].

(** The operation completes before it is cancelled; from within [emit()]; and in spite of it. *)
Example completes : result true (begun ++ [EDone 0 42; EResume])%nat = Some (Checker.Checker (Coro 5) true Checker.Done, Ok (Values 42%nat)).
Proof. vm_compute. reflexivity. Qed.
Example fails : result true (begun ++ [EDone 7 0; EResume])%nat = Some (Checker.Checker (Coro 5) true Checker.Done, Ok (Throw 7%nat)).
Proof. vm_compute. reflexivity. Qed.
Example aborted_in_emit :
  fst <$> result false (begun ++ [ECancel (Some (1, 0)); EMustResume])%nat = Some (Checker.Checker (Coro 5) true Checker.Cancelled).
Proof. vm_compute. reflexivity. Qed.
Example too_late_to_cancel :
  result false (begun ++ [ECancel None; EDone 0 42; EMustResume; EResume])%nat =
    Some (Checker.Checker (Coro 5) true Checker.Done, Ok (CodeAndValues 0%nat 42%nat)).
Proof. vm_compute. reflexivity. Qed.

(** * [AsioEventLoopTraitsImpl] *)

(** [io_run] yields how many handlers were executed. *)
Class IoContext (C : Type) := {
  on_work_started : C -> C; on_work_finished : C -> C;
  io_run : C -> nat * C; restart : C -> C; io_stop : C -> C; stopped : C -> bool }.
Class IoContextLaws (C : Type) `{IoContext C} := {
  stopped_stop c : stopped (io_stop c) = true;
  stopped_restart c : stopped (restart c) = false;
  stopped_started c : stopped (on_work_started c) = stopped c;
  run_stopped c : stopped c = true -> io_run c = (0%nat, c) }.

Section Traits.
Context {C : Type} `{IoContextLaws C}.
Implicit Types (c : C).

Definition traits_run c : nat * C :=
  let '(k, c) := io_run (on_work_started c) in (k, restart c).
Definition traits_stop c : C := io_stop (on_work_finished c).

(** [run()] leaves the context ready for another one, however it came to return; but
    [stop()] by itself, which [corral::run()] may call ([Run.stops_a_loop_not_run]),
    makes the next [run()] return without having executed a handler. *)
Theorem traits_stop_without_run c :
  stopped (snd (traits_run c)) = false /\
  fst (traits_run (traits_stop c)) = 0%nat /\
  (forall k, fst (traits_run (Nat.iter (S k) traits_stop c)) = 0%nat).
Proof.
  assert (Hs : forall d, fst (traits_run (traits_stop d)) = 0%nat).
  { intros d. unfold traits_run, traits_stop. rewrite run_stopped; [done|]. by rewrite stopped_started, stopped_stop. }
  split_and!; [|apply Hs|intros k; apply Hs].
  unfold traits_run. destruct (io_run (on_work_started c)) as [k d]. apply stopped_restart.
Qed.
End Traits.

(** The least context that does as documented: work, the flag, the handlers that are ready. *)
Record io_context := Io { io_work : Z; io_stopped : bool; io_ready : nat }.
#[export] Instance io_context_ops : IoContext io_context := {
  on_work_started c := Io (io_work c + 1) (io_stopped c) (io_ready c);
  on_work_finished c := Io (io_work c - 1) (io_stopped c || (io_work c =? 1)%Z) (io_ready c);
  io_run c := if io_stopped c then (0%nat, c) else (io_ready c, Io (io_work c) (io_stopped c) 0);
  restart c := Io (io_work c) false (io_ready c);
  io_stop c := Io (io_work c) true (io_ready c);
  stopped := io_stopped }.
#[export] Instance io_context_laws : IoContextLaws io_context.
Proof. split; cbn; [done..|]. by intros c ->. Qed.
Example second_run_does_nothing :
  fst (traits_run (Io 0 false 3)) = 3%nat /\ fst (traits_run (traits_stop (Io 0 false 3))) = 0%nat.
Proof. by split. Qed.
